(* ===== verification/_CoqProject ===== *)
-Q . S2P
Prelude.v
Float64.v
Errors.v
Runtime.v
Window.v
Breaker.v
BreakerSpec.v
BreakerRace.v
Retry.v
Budget.v
Adaptive.v
Bulkhead.v
BulkheadLive.v
RateStore.v
StoreLife.v
StoreConc.v
RateLimiter.v
RateConc.v
Timeout.v
StreamTimeout.v
Fallback.v
Hedge.v
Chain.v
Presets.v
CostBudget.v
Compose.v
Utf8.v
HttpKeys.v
ErrorText.v
Logs.v
Panic.v
Predicates.v
Guard.v
Http.v
HttpStream.v
HttpHandler.v
Grpc.v
Chaos.v
ChaosConc.v
Performance.v
RedisBreaker.v
RedisStore.v
Signals.v
Metrics.v
OtelMetrics.v
Tracing.v
Examples.v
HttpExample.v
Applications.v
RedisDemos.v
Servers.v
BulkheadExample.v
