(* ===== verification/Prelude.v ===== *)
(** * fortify: resilience patterns for Go, verified

    A shallow embedding of the repository's patterns (circuit breaker, retry,
    budget, adaptive limiter, bulkhead, rate limiter, timeout, stream timeout,
    fallback, hedge), of the chain that composes them and of the presets, of the
    HTTP and gRPC middleware around them, of the chaos and performance helpers,
    of the two Redis implementations among the examples and of the example
    programs, with the theorems that make each correct.

    ** The program

    Every pattern is a Go object with an [Execute(ctx, fn)] method that wraps a
    protected function.  The patterns do not know each other: they meet in
    [middleware.Chain], which nests their [Execute] methods, and in the errors
    of [ferrors], by which one pattern recognises the refusals of another
    (a retry must not retry an open circuit).  The rate limiter is built on a
    [Store] interface with an in-memory implementation, and one on Redis among
    the examples.  The HTTP and gRPC adapters call a pattern's [Execute] with the
    handler as the function, and turn errors into statuses.

    ** How the code is translated

    - A Go integer is a [Z]; where an operation can leave the range of its type
      the wrap-around is written out ([u32], [i32], [i64] of this file).
      Durations and times are nanoseconds.  [float64] is [Float64]: the
      exact rational operation followed by IEEE rounding.
    - Sequential code is a computation [M W A], a function from the world to
      a result and a world.  [Runtime] says what a world is: a class
      [World] (a clock that the calls read, and that can pass between any two
      statements; the interruptible sleep) and a class [Has] for a component's
      state inside a world.  The theorems are proved for every world; the
      witnesses run on the concrete [sim].  A context is a [ctx]: the time at
      which it ends, if it does, and with what error.
    - Concurrent code is a step relation: one step per atomic operation,
      channel operation or critical section, any interleaving.  An invariant
      is proved by induction on reachability ([reachable], [invariant_reachable]).
    - A Go [error] that may be nil is an [option error] ([Errors]).
    - Functions of third parties and of the runtime are arguments: the random
      source, [math.Pow], the conversion of an out-of-range float ([oob]), the
      choice of a [select] with several ready cases, the protected
      functions, the callbacks.  In a pattern's own file these are
      computations that return.  [Panic] gives every [Execute] again for
      functions and callbacks that can panic, and proves that it is the one of
      the pattern's file when they return.

    ** The files

    - [Prelude]: this header; machine integers, durations, [cases] and the
      other tactics, list lemmas, reachability.
    - [Float64]: binary64 arithmetic with its error bounds.
    - [Errors] ([ferrors/errors.go], the sentinels of the other packages):
      [errors.Is] over the [Unwrap] methods, retryable errors.
    - [Runtime]: worlds, contexts, the monad, the concrete [sim].
    - [Window], [Breaker], [BreakerSpec] ([circuitbreaker/]): the sliding
      windows, as a ring refined to the list of recorded calls through the class
      [WindowSpec]; the breaker's methods; an abstract automaton of three states
      over logs of outcomes, that the breaker refines; [Execute]; and
      [Module Interleaving] for goroutines sharing a breaker.
    - [BreakerRace] ([circuitbreaker/breaker.go]): callers of [State], which write
      under a read lock, statement by statement.
    - [Predicates] ([circuitbreaker/breaker.go]): [ReadyToTrip] and [IsSuccessful]
      that panic.
    - [Retry] ([retry/]): the attempt loop and the backoff.
    - [Budget] ([budget/]): [Execute] on the lock-free and the windowed path,
      with [Module LockFree] and [Module Windowed] for the interleavings (the
      former also with [Reset]'s four stores between the calls' operations).
    - [Adaptive] ([adaptive/]): AIMD, Vegas and gradient updates of the limit, and
      [Module Interleaving] with the compare-and-swap loops.
    - [Bulkhead] ([bulkhead/]): callers, worker and goroutines over the
      semaphore and the queue.
    - [BulkheadLive]: a rank for the code's own steps; every call returns.
    - [RateStore] ([ratelimit/store.go], [memory.go]): the contract
      [LawfulStore], [MemoryStore] which keeps it, and [Module KeyCount] for
      the concurrent key limit.
    - [StoreLife] ([ratelimit/memory.go]): the clean-up goroutine, its ticker
      and the callers of [Close], as a step relation; [Clear].
    - [RateLimiter] ([ratelimit/limiter.go], [config.go], [errors.go]): every
      method of the token bucket, against any lawful store.
    - [StoreConc] ([ratelimit/memory.go]): the calls of goroutines that share a
      [MemoryStore], with its entries as objects of a heap; [RateConc]: the
      requests of a limiter on it.
    - [Timeout], [Fallback] ([timeout/], [fallback/]): their [Execute].
    - [StreamTimeout] ([streamtimeout/]): a call as a step relation of the
      function, its marks, the three watchdogs and time.
    - [Hedge] ([hedge/], and [LLMHedge] of [middleware/presets.go]): a call as a
      step relation of attempts, timer, coordinator and cancellation.
    - [Chain] ([middleware/chain.go]): the builders and the loop of [Execute], over the
      [Execute] of any pattern ([Executor]); the breaker around the retry.
    - [Presets] ([middleware/presets.go]): the four preset chains and the
      predicates they retry by.
    - [CostBudget] ([costbudget.go], [compose.go]): the conversion of dollars and
      the builder.
    - [Compose] ([compose.go], [costbudget.go], [middleware/chain.go]): composers
      and chains as objects of a heap, which their builders extend in place.
    - [ErrorText] ([ferrors/errors.go], [ratelimit/errors.go] and the texts of the
      other errors): [Error] and [LogValue]; [WrapStorageError].
    - [Logs]: the records the patterns log, event by event.
    - [Panic]: panics of the callbacks, which every package's [safeCallback]
      recovers, and of the protected functions, which nothing does; [defer], and
      mutexes that a panic leaves locked.
    - [Guard]: the interface between the adapters and the patterns: the classes
      [Guard] (kept by [Breaker]) and [Deadline] (kept by [Timeout]).
    - [Utf8], [HttpKeys] ([http/middleware.go]): decoding and encoding of UTF-8;
      the keys that requests are limited by.
    - [Http] ([http/middleware.go]): the response recorder and the middleware,
      around any handler that uses its writer through its methods; the wire
      protocol [wire_step] that every recorder follows.
    - [HttpStream] ([http/streaming.go]): the streaming writer and middleware;
      the class [Stream] is what they rely on of a stream timeout.
    - [HttpHandler] ([middleware/http_handler.go], [http.go]): the server stack
      and the round tripper.
    - [Grpc] ([grpc/]): interceptors and key extractors of server and client.
    - [Chaos], [Performance] ([testing/]): the injectors; the tracker of
      benchmark results and its files.  [ChaosConc]: an error injector shared by
      goroutines.
    - [RedisBreaker], [RedisStore] ([examples/]): the Lua scripts, as functions on
      the hash they update atomically, and the Go code around them; the store
      is an instance of [RateStore.Store] and meets the limiter.
    - [Signals], [Metrics], [OtelMetrics] ([metrics/]): the readings a program
      records and the class [Backend] of what keeps them; the Prometheus collector
      and the OpenTelemetry meter, each over its library's class.
    - [Tracing] ([otel/tracing.go], [slog/logger.go]): the span and log helpers.
    - [Examples] ([examples/basic/]), [HttpExample] ([examples/http/]),
      [Applications] ([examples/mcp-server/], [eino/], [composition/],
      [observability-demo/]): programs that use the patterns, with what they
      print, log or record; [RedisDemos] ([examples/*-redis/cmd/demo]);
      [Servers]: how the example servers start and end; [BulkheadExample]
      ([examples/basic/bulkhead/]): ten goroutines on a bulkhead, with a clock
      and a console.

    ** What the theorems show

    - Refinement.  The breaker answers every sequence of operations as its
      abstract specification does ([breaker_simulates_spec]), from which the
      trip policies, recovery and rejection follow; the ring buffers count
      exactly the last calls or seconds ([count_window_stats],
      [time_window_stats]); a budget, lock-free or windowed, is a running
      total ([budget_ledger]);
      retry returns the first settled outcome ([retry_first_settled]); the Redis
      breaker is an automaton of two states for calls in sequence
      ([redis_breaker_refines]); the recorders follow one wire protocol
      ([recorder_refines_wire], [stream_refines_wire]).
    - Safety under every interleaving.  [interleaving_safe] (breaker),
      [lock_free_safe] and [windowed_safe] (budget), [limiter_safe] (adaptive),
      [bulkhead_isolates], [key_limit_concurrent] (store), [hedge_contract],
      [stream_timeout_contract], [redis_trials_bounded]; the updates of a store
      are those of serial runs, one for each time the key was created
      ([store_updates_serialise]); readers of the state leave a settled breaker
      ([concurrent_state_settles]); [injector_counts].
    - Bounds.  A token bucket grants at most burst plus rate times time
      ([token_bucket_rate], with the floating-point terms explicit), and under
      concurrency that much for each time its key was removed, and once more
      ([concurrent_rate]); the
      backoff, the Vegas estimate, the wait estimate and the conversion of
      dollars stay in their ranges ([backoff_bounds], [vegas_signal],
      [wait_estimate_bounds], [usdToMicros_spec]).
    - Errors and cancellation, branch by branch: [execute_open_rejects],
      [retry_cancellation], [execute_spec], [timeout_spec], [fallback_spec],
      [preset_retry_policy].
    - The adapters, against the interfaces of [Guard]: who answers a request,
      with which status, and what the breaker is told ([http_breaker_spec],
      [http_timeout_spec], [stream_spec], [http_handler_spec],
      [breaker_interceptors], [timeout_interceptors]); the keys
      ([SanitizeKey_spec], [KeyFromIP_spec], [sanitizeMetadataKey_spec]).
    - Round trips and helpers: UTF-8 ([decode_encode]), saved baselines
      ([baselines_roundtrip]), generated ones ([generated_baseline_accepts]), the
      injectors ([flaky_call_spec]).
    - Metrics: recording does not panic and a scrape is the history of each
      series ([prometheus_exports]); both backends report the same readings
      ([backends_agree]); [NewMeter_spec] for failing instruments.
    - Composition: [chain_order], and [one_outcome_per_call]: a breaker around
      a retry sees one outcome per call; [no_fork] and [shared_chain_grows]:
      what a chain held by two owners does.
    - Panics: [panics_never_trip] (breaker), [retry_panic], [timeout_panic],
      [adaptive_panic] (the slot is given back), [limiter_panic],
      [bulkhead_panic], [hedge_panic], [charge_panic_locks_budget],
      [panicking_predicate_never_trips].
    - Progress: [bulkhead_returns], and for the end of a store
      [store_close_safe] and [store_close_terminates]; by ranks that every step
      of the code itself decreases, and invariants by which a state where it
      has no step left is final.
    - Programs: what the examples print ([retry_demo_output],
      [timeout_demo_output], [rate_limit_demo_output], [breaker_demo_output],
      [bulkhead_demo_output] and, for every schedule, [bulkhead_demo_reports]) or
      never do ([cb_demo_never_recovers], [ratelimit_demo_limits_nothing],
      [rate_limited_branch_dead],
      [eino_budget_does_not_fire]); the routes of the server
      ([routes_answer], [protected_route_trips]).
    - Deviations.  Where the code does not do what its comments say, the
      behaviour is proved as it is: [half_open_admits_any_number],
      [timed_out_request_still_runs], [idle_time_is_lost],
      [recovered_blips_do_not_trip], [llm_hedge_gives_up_early],
      [early_hints_hide_failure], [flushed_stream_gets_error_text],
      [lost_trials_block_forever], [redis_store_never_refuses],
      [orphan_update_is_lost], [cleanup_removes_fresh_bucket],
      [transition_announced_twice], [reset_races_breach] and others next
      to the component they are about.

    ** Bounds and fuel

    The loops of the source are bounded, and the fuel is the source's bound:
    [Retry.attempts] runs with [MaxAttempts], [RateLimiter.wait_loop] with
    [defaultMaxWaitIterations] (10000), [Chain.wrap] with the length of the
    chain; every theorem is about that bound, so no result depends on
    running out of fuel.  The compare-and-swap loops, the worker of the bulkhead
    and the coordinator of a hedge are unbounded and are step relations.

    ** What is not modelled

    Goroutines that a handler starts and that outlive it, connections after
    [Hijack], and the contents of gRPC metadata are outside the models, as are
    panics of loggers, of metrics and of the predicates of the retry and the
    fallback ([IsRetryable], [ShouldFallback]).  In [StoreConc] and [ChaosConc]
    the counters do not overflow, and the checks with which a call of the store
    starts are one step.  What the breaker's dispatcher goroutine prints in the
    example programs is not on their consoles.
    [doc.go] is documentation. *)

From stdpp Require Export base list gmap strings.
From Stdlib Require Export ZArith Lia.

#[export] Set Default Goal Selector "!".
#[global] Open Scope Z_scope.

(** ** Machine integers

    A Go integer is a [Z]; an operation that can leave the range of its type
    wraps explicitly. *)

Definition u32 (n : Z) : Z := n mod 2 ^ 32.
Definition u64 (n : Z) : Z := n mod 2 ^ 64.
Definition i32 (n : Z) : Z := (n + 2 ^ 31) mod 2 ^ 32 - 2 ^ 31.
Definition i64 (n : Z) : Z := (n + 2 ^ 63) mod 2 ^ 64 - 2 ^ 63.

Definition MaxUint32 : Z := 2 ^ 32 - 1.
Definition MaxInt32 : Z := 2 ^ 31 - 1.
Definition MaxInt64 : Z := 2 ^ 63 - 1.

Lemma u32_small n : 0 <= n < 2 ^ 32 -> u32 n = n.
Proof. apply Z.mod_small. Qed.

Lemma u32_range n : 0 <= u32 n < 2 ^ 32.
Proof. apply Z.mod_pos_bound. lia. Qed.

Lemma u64_small n : 0 <= n < 2 ^ 64 -> u64 n = n.
Proof. apply Z.mod_small. Qed.

Lemma i32_small n : - 2 ^ 31 <= n < 2 ^ 31 -> i32 n = n.
Proof. intros. unfold i32. rewrite Z.mod_small; lia. Qed.

Lemma i64_small n : - 2 ^ 63 <= n < 2 ^ 63 -> i64 n = n.
Proof. intros. unfold i64. rewrite Z.mod_small; lia. Qed.

Lemma i64_range n : - 2 ^ 63 <= i64 n < 2 ^ 63.
Proof. unfold i64. pose proof (Z.mod_pos_bound (n + 2 ^ 63) (2 ^ 64)). lia. Qed.

(** A wrapped value never exceeds the value it wraps, above the range's
    floor. *)
Lemma i64_le n : - 2 ^ 63 <= n -> i64 n <= n.
Proof. intros. unfold i64. pose proof (Z.mod_le (n + 2 ^ 63) (2 ^ 64)). lia. Qed.

(** ** Durations ([time.Duration], int64 nanoseconds) *)

Definition Nanosecond : Z := 1.
Definition Microsecond : Z := 1000.
Definition Millisecond : Z := 1000000.
Definition Second : Z := 1000000000.
Definition Minute : Z := 60 * Second.
Definition Hour : Z := 60 * Minute.

(** [time.Time.Sub] saturates. *)
Definition time_Sub (t u : Z) : Z := Z.max (- 2 ^ 63) (Z.min MaxInt64 (t - u)).

Lemma time_Sub_small t u : - 2 ^ 63 <= t - u <= MaxInt64 -> time_Sub t u = t - u.
Proof. unfold time_Sub. lia. Qed.

(** The zero [time.Time], in nanoseconds since the Unix epoch. *)
Definition zero_time : Z := - 62135596800 * Second.

(** [time.Time.UnixNano]. *)
Definition UnixNano (t : Z) : Z := i64 t.

(** ** Automation *)

(** [t] is not itself a case analysis. *)
Ltac no_match t := lazymatch t with context [match _ with _ => _ end] => fail | _ => idtac end.

(** Case analysis on every boolean integer comparison of the goal, innermost
    first. *)
Ltac zcases :=
  repeat match goal with
  | |- context [Z.geb ?a ?b] => rewrite (Z.geb_leb a b)
  | |- context [Z.gtb ?a ?b] => rewrite (Z.gtb_ltb a b)
  | |- context [Z.eqb ?a ?b] => no_match a; no_match b; destruct (Z.eqb_spec a b)
  | |- context [Z.leb ?a ?b] => no_match a; no_match b; destruct (Z.leb_spec a b)
  | |- context [Z.ltb ?a ?b] => no_match a; no_match b; destruct (Z.ltb_spec a b)
  end; cbn [negb andb orb].

(** The same in the hypotheses. *)
Ltac zcases_in H :=
  repeat match type of H with
  | context [Z.geb ?a ?b] => rewrite (Z.geb_leb a b) in H
  | context [Z.gtb ?a ?b] => rewrite (Z.gtb_ltb a b) in H
  | context [Z.eqb ?a ?b] => no_match a; no_match b; destruct (Z.eqb_spec a b)
  | context [Z.leb ?a ?b] => no_match a; no_match b; destruct (Z.leb_spec a b)
  | context [Z.ltb ?a ?b] => no_match a; no_match b; destruct (Z.ltb_spec a b)
  end; cbn [negb andb orb] in H.

(** Unwrap a machine integer that is in range. *)
Ltac wrap_small :=
  repeat first
    [ rewrite u32_small by lia | rewrite u64_small by lia
    | rewrite i32_small by lia | rewrite i64_small by lia ].

(** Case analysis on the [if]s and [match]es of the goal, keeping the
    equations. *)
Ltac cases :=
  repeat match goal with
  | |- context [match ?x with _ => _ end] =>
      lazymatch x with context [match _ with _ => _ end] => fail | _ => idtac end;
      destruct x eqn:?
  end.

(** ** Counting *)

(** The number of [true]s. *)
Fixpoint count_true (l : list bool) : Z :=
  match l with
  | [] => 0
  | b :: l => (if b then 1 else 0) + count_true l
  end.

Lemma count_true_app l k : count_true (l ++ k) = count_true l + count_true k.
Proof. induction l as [|[] l IH]; cbn; lia. Qed.

Lemma count_true_bounds l : 0 <= count_true l <= Z.of_nat (length l).
Proof. induction l as [|[] l IH]; cbn; lia. Qed.

(** Nothing passes. *)
Lemma filter_none {A} (P : A -> Prop) `{forall x, Decision (P x)} l :
  (forall x, x ∈ l -> ~ P x) -> filter P l = [].
Proof.
  intros H0. destruct (filter P l) as [|x k] eqn:E; [done|].
  assert (Hx : x ∈ filter P l) by (rewrite E; left).
  apply list_elem_of_filter in Hx as [? ?]. by destruct (H0 x).
Qed.

(** ** Finite sums *)

Fixpoint Zsum (f : nat -> Z) (n : nat) : Z :=
  match n with
  | O => 0
  | S n => Zsum f n + f n
  end.

Lemma Zsum_ext f g n : (forall i, (i < n)%nat -> f i = g i) -> Zsum f n = Zsum g n.
Proof. induction n as [|n IH]; intros H; cbn; [done|]. rewrite IH, H by auto with lia. done. Qed.

Lemma Zsum_add f g n : Zsum (fun i => f i + g i) n = Zsum f n + Zsum g n.
Proof. induction n as [|n IH]; cbn; lia. Qed.

Lemma Zsum_0 n : Zsum (fun _ => 0) n = 0.
Proof. induction n as [|n IH]; cbn; lia. Qed.

(** A sum with one non-zero term. *)
Lemma Zsum_single c j n :
  (j < n)%nat -> Zsum (fun i => if Nat.eqb i j then c else 0) n = c.
Proof.
  induction n as [|n IH]; cbn; [lia|]. intros H.
  destruct (Nat.eqb_spec n j) as [->|].
  - rewrite (Zsum_ext _ (fun _ => 0)), Zsum_0; [lia|].
    intros i Hi. destruct (Nat.eqb_spec i j); lia.
  - rewrite IH; lia.
Qed.

(** An accumulating loop over a slice is the sum over its indices. *)
Lemma foldl_Zsum {A} (f : A -> Z) (d : A) l z :
  foldl (fun acc b => acc + f b) z l = z + Zsum (fun i => f (default d (l !! i))) (length l).
Proof.
  induction l as [|b l IH] using rev_ind; cbn; [lia|].
  rewrite foldl_app, IH, length_app. cbn. rewrite Nat.add_1_r. cbn.
  rewrite list_lookup_middle by done. cbn.
  rewrite (Zsum_ext (fun i => f (default d ((l ++ [b]) !! i))) (fun i => f (default d (l !! i))));
    [lia|].
  intros i Hi. by rewrite lookup_app_l by done.
Qed.

(** ** Sums over the threads of a system *)

Fixpoint total {A} (f : A -> Z) (l : list A) : Z :=
  match l with
  | [] => 0
  | x :: l => f x + total f l
  end.

Lemma total_app {A} (f : A -> Z) l k : total f (l ++ k) = total f l + total f k.
Proof. induction l as [|x l IH]; cbn; lia. Qed.

(** One thread moves. *)
Lemma total_insert {A} (f : A -> Z) l i x y :
  l !! i = Some x -> total f (<[i := y]> l) = total f l - f x + f y.
Proof.
  revert i. induction l as [|z l IH]; intros [|i] H; try done.
  - injection H as ->. cbn. lia.
  - change (f z + total f (<[i := y]> l) = f z + total f l - f x + f y). rewrite (IH _ H). lia.
Qed.

Lemma total_nonneg {A} (f : A -> Z) l : (forall x, 0 <= f x) -> 0 <= total f l.
Proof. intros H. induction l as [|x l IH]; cbn; [lia|]. specialize (H x). lia. Qed.

(** A sum in any order. *)
Lemma total_permutation {A} (f : A -> Z) l k : Permutation l k -> total f l = total f k.
Proof. induction 1; cbn; lia. Qed.

(** One thread is a part of the whole. *)
Lemma total_lookup {A} (f : A -> Z) l i x : (forall x, 0 <= f x) -> l !! i = Some x -> f x <= total f l.
Proof.
  intros H. revert i. induction l as [|z l IH]; intros [|i] L; try done; cbn in *.
  - injection L as ->. pose proof (total_nonneg f l H). lia.
  - specialize (IH _ L). specialize (H z). lia.
Qed.

(** One thread ends. *)
Lemma total_delete {A} (f : A -> Z) l i x : l !! i = Some x -> total f (delete i l) = total f l - f x.
Proof.
  revert i. induction l as [|y l IH]; intros [|i] H; try done.
  - injection H as ->. cbn. lia.
  - change (f y + total f (delete i l) = f y + total f l - f x). rewrite (IH _ H). lia.
Qed.

(** ** Transition systems

    The concurrent components are step relations; a property of all
    interleavings is an invariant of the reflexive-transitive closure. *)

Section Reachability.
Context {S : Type} (init : S -> Prop) (step : S -> S -> Prop).

Inductive reachable : S -> Prop :=
| reach_init s : init s -> reachable s
| reach_step s t : reachable s -> step s t -> reachable t.

(** Rule induction packaged: an inductive invariant holds of every
    reachable state. *)
Lemma invariant_reachable (I : S -> Prop) :
  (forall s, init s -> I s) ->
  (forall s t, I s -> step s t -> I t) ->
  forall s, reachable s -> I s.
Proof. intros H0 H1 s. induction 1; eauto. Qed.

(** The same with an already established invariant to use in the step. *)
Lemma invariant_reachable_with (J I : S -> Prop) :
  (forall s, reachable s -> J s) ->
  (forall s, init s -> I s) ->
  (forall s t, J s -> I s -> step s t -> I t) ->
  forall s, reachable s -> I s.
Proof. intros HJ H0 H1 s R. induction R; eauto. Qed.

Lemma reachable_rtc s t : reachable s -> rtc step s t -> reachable t.
Proof. intros R H. induction H; eauto using reach_step. Qed.
End Reachability.

(** A simulation of single steps is one of runs. *)
Lemma rtc_simulates {A B} (stepA : A -> A -> Prop) (stepB : B -> B -> Prop) (on : A -> B -> Prop) :
  (forall a a' b, stepA a a' -> on a b -> exists b', on a' b' /\ rtc stepB b b') ->
  forall a a' b, rtc stepA a a' -> on a b -> exists b', on a' b' /\ rtc stepB b b'.
Proof.
  intros H a a' b S. revert b. induction S as [a|a1 a2 a3 S1 S2 IH]; intros b O; [by exists b|].
  destruct (H _ _ _ S1 O) as (b2 & O2 & R2). destruct (IH _ O2) as (b3 & O3 & R3).
  exists b3. split; [done|]. by etrans.
Qed.
