(* ===== verification/Float64.v ===== *)
(** Go's [float64] (IEEE-754 binary64), the part of the language the token
    bucket, the failure-rate window, the backoff computation, the adaptive
    limiter and the cost budget compute with.

    A value is NaN, an infinity, or a finite rational.  Every arithmetic
    operation is the exact rational operation followed by [rnd], the
    round-to-nearest-ties-to-even of binary64 (53-bit significand, minimum
    exponent -1074, overflow to an infinity at 2^1024).  The sign of a zero
    is not represented: no code under src/ observes it.  The conversion of
    an out-of-range float to an integer is implementation-specific in Go and
    is an argument ([oob]) of the conversion. *)

From Stdlib Require Import ZArith QArith Qround Qabs Qpower Lia Lqa Bool.

#[local] Open Scope Q_scope.

(** ** Values and rounding *)

Inductive f64 :=
| FNaN
| FInf (negative : bool)
| FFin (q : Q).

Definition pow2 (e : Z) : Q := Qpower (2 # 1) e.

(** [Qlog2 q] is the exponent of the binade of a positive [q]. *)
Definition Qlog2 (q : Q) : Z :=
  let e := (Z.log2 (Qnum q) - Z.log2 (Zpos (Qden q)))%Z in
  if Qle_bool (pow2 e) q then e else (e - 1)%Z.

(** Round a rational to the nearest integer, ties to even. *)
Definition rne (x : Q) : Z :=
  let f := Qfloor x in
  match Qcompare (x - inject_Z f) (1 # 2) with
  | Lt => f
  | Gt => (f + 1)%Z
  | Eq => if Z.even f then f else (f + 1)%Z
  end.

Definition binade (q : Q) : Z := Z.max (Qlog2 q - 52) (-1074).

(** The rounded magnitude of a positive rational (before the overflow
    check). *)
Definition rnd_mag (q : Q) : Q :=
  let e := binade q in inject_Z (rne (q / pow2 e)) * pow2 e.

Definition rnd_pos (neg : bool) (q : Q) : f64 :=
  let v := rnd_mag q in
  if Qle_bool (pow2 1024) v then FInf neg
  else FFin (Qred (if neg then - v else v)).

Definition rnd (q : Q) : f64 :=
  match Qcompare q 0 with
  | Eq => FFin 0
  | Gt => rnd_pos false q
  | Lt => rnd_pos true (- q)
  end.

(** ** The operations of the language *)

Definition f_of_Z (n : Z) : f64 := rnd (inject_Z n).

(** A decimal constant of the source. *)
Definition f_ratio (n : Z) (d : positive) : f64 := rnd (n # d).

Definition fneg (x : f64) : f64 :=
  match x with
  | FNaN => FNaN
  | FInf s => FInf (negb s)
  | FFin q => FFin (Qred (- q))
  end.

Definition fadd (x y : f64) : f64 :=
  match x, y with
  | FNaN, _ | _, FNaN => FNaN
  | FInf s, FInf t => if Bool.eqb s t then FInf s else FNaN
  | FInf s, FFin _ => FInf s
  | FFin _, FInf t => FInf t
  | FFin a, FFin b => rnd (a + b)
  end.

Definition fsub (x y : f64) : f64 := fadd x (fneg y).

Definition qsign (q : Q) : bool := match Qcompare q 0 with Lt => true | _ => false end.
Definition qzero (q : Q) : bool := match Qcompare q 0 with Eq => true | _ => false end.

Definition fmul (x y : f64) : f64 :=
  match x, y with
  | FNaN, _ | _, FNaN => FNaN
  | FInf s, FInf t => FInf (xorb s t)
  | FInf s, FFin b => if qzero b then FNaN else FInf (xorb s (qsign b))
  | FFin a, FInf t => if qzero a then FNaN else FInf (xorb t (qsign a))
  | FFin a, FFin b => rnd (a * b)
  end.

Definition fdiv (x y : f64) : f64 :=
  match x, y with
  | FNaN, _ | _, FNaN => FNaN
  | FInf _, FInf _ => FNaN
  | FInf s, FFin b => FInf (xorb s (qsign b))
  | FFin _, FInf _ => FFin 0
  | FFin a, FFin b =>
      if qzero b then (if qzero a then FNaN else FInf (qsign a)) else rnd (a / b)
  end.

(** Comparisons; every comparison with NaN is false. *)
Definition fleb (x y : f64) : bool :=
  match x, y with
  | FNaN, _ | _, FNaN => false
  | FInf true, _ => true
  | _, FInf false => true
  | FInf false, _ => false
  | _, FInf true => false
  | FFin a, FFin b => Qle_bool a b
  end.

Definition fltb (x y : f64) : bool :=
  match x, y with
  | FNaN, _ | _, FNaN => false
  | _, _ => negb (fleb y x)
  end.

Definition isNaN (x : f64) : bool := match x with FNaN => true | _ => false end.
Definition isInf (x : f64) : bool := match x with FInf _ => true | _ => false end.

(** [math.Round]: half away from zero; [math.Floor]. *)
Definition fround (x : f64) : f64 :=
  match x with
  | FFin q => f_of_Z (if qsign q then - Qfloor (- q + (1 # 2)) else Qfloor (q + (1 # 2)))%Z
  | _ => x
  end.

Definition ffloor (x : f64) : f64 :=
  match x with
  | FFin q => f_of_Z (Qfloor q)
  | _ => x
  end.

(** [math.Sqrt] is correctly rounded: the integer square root at a scale
    that leaves more than 53 bits, with a sticky half when it is inexact, is
    on the same side of every rounding boundary as the root. *)
Definition sqrt_approx (q : Q) : Q :=
  let k := (60 + Z.abs (Qlog2 q))%Z in
  let n := Qfloor (q * inject_Z (4 ^ k)) in
  let s := Z.sqrt n in
  let exact := Qeq_bool (inject_Z (s * s)) (q * inject_Z (4 ^ k)) in
  (inject_Z s + (if exact then 0 else 1 # 2)) / inject_Z (2 ^ k).

Definition fsqrt (x : f64) : f64 :=
  match x with
  | FNaN | FInf true => FNaN
  | FInf false => FInf false
  | FFin q => if qzero q then FFin 0 else if qsign q then FNaN else rnd (sqrt_approx q)
  end.

(** Truncation toward zero, the conversion [int64(x)] of an in-range float. *)
Definition ftrunc (q : Q) : Z := if qsign q then (- Qfloor (- q))%Z else Qfloor q.

Definition f_to_int (lo hi : Z) (oob : Z) (x : f64) : Z :=
  match x with
  | FFin q => let n := ftrunc q in if ((lo <=? n) && (n <=? hi))%Z%bool then n else oob
  | _ => oob
  end.

Definition f_to_int64 := f_to_int (- 2 ^ 63) (2 ^ 63 - 1).
Definition f_to_int32 := f_to_int (- 2 ^ 31) (2 ^ 31 - 1).
Definition f_to_uint64 := f_to_int 0 (2 ^ 64 - 1).

(** ** Powers of two *)

Lemma pow2_pos e : 0 < pow2 e.
Proof. apply Qpower_0_lt. reflexivity. Qed.

Lemma pow2_add a b : pow2 (a + b) == pow2 a * pow2 b.
Proof. apply Qpower_plus. discriminate. Qed.

Lemma pow2_Z n : (0 <= n)%Z -> pow2 n == inject_Z (2 ^ n).
Proof. intros. unfold pow2. rewrite Zpower_Qpower by lia. reflexivity. Qed.

Lemma pow2_ge_1 n : (0 <= n)%Z -> 1 <= pow2 n.
Proof.
  intros. rewrite pow2_Z by lia. change 1 with (inject_Z 1).
  rewrite <- Zle_Qle. pose proof (Z.pow_pos_nonneg 2 n). lia.
Qed.

Lemma pow2_le a b : (a <= b)%Z -> pow2 a <= pow2 b.
Proof.
  intros. replace b with (a + (b - a))%Z by lia. rewrite pow2_add.
  pose proof (pow2_ge_1 (b - a) ltac:(lia)). pose proof (pow2_pos a). nra.
Qed.

Lemma pow2_le_inv a b : pow2 a < pow2 b -> (a < b)%Z.
Proof.
  intros H. destruct (Z.lt_ge_cases a b); [assumption|].
  pose proof (pow2_le b a ltac:(lia)). lra.
Qed.

Lemma pow2_sub a b : pow2 (a - b) * pow2 b == pow2 a.
Proof. rewrite <- pow2_add. now replace (a - b + b)%Z with a by lia. Qed.

(** ** The binade of a positive rational *)

Lemma Z_log2_Q n : (0 < n)%Z ->
  pow2 (Z.log2 n) <= inject_Z n /\ inject_Z n < pow2 (Z.log2 n + 1).
Proof.
  intros Hn. pose proof (Z.log2_spec n Hn). pose proof (Z.log2_nonneg n).
  rewrite !pow2_Z by lia. rewrite <- Zle_Qle, <- Zlt_Qlt.
  replace (Z.log2 n + 1)%Z with (Z.succ (Z.log2 n)) by lia. lia.
Qed.

Lemma Qlog2_spec q : 0 < q -> pow2 (Qlog2 q) <= q /\ q < pow2 (Qlog2 q + 1).
Proof.
  intros Hq. destruct q as [n d]. unfold Qlog2. cbn [Qnum Qden].
  assert (Hn : (0 < n)%Z) by (unfold Qlt in Hq; cbn in Hq; lia).
  pose proof (Z_log2_Q n Hn) as [N1 N2].
  pose proof (Z_log2_Q (Zpos d) ltac:(lia)) as [D1 D2].
  set (a := Z.log2 n) in *. set (b := Z.log2 (Zpos d)) in *.
  assert (E : (n # d) * inject_Z (Zpos d) == inject_Z n)
    by (unfold Qeq; cbn; lia).
  assert (Hd : 0 < inject_Z (Zpos d)) by reflexivity.
  pose proof (pow2_sub a b) as S1. pose proof (pow2_pos (a - b)).
  pose proof (pow2_pos b).
  assert (S2 : pow2 (a - b + 1) == pow2 (a - b) * 2)
    by (rewrite pow2_add; reflexivity).
  assert (S3 : pow2 (a + 1) == pow2 a * 2) by (rewrite pow2_add; reflexivity).
  assert (S4 : pow2 (b + 1) == pow2 b * 2) by (rewrite pow2_add; reflexivity).
  assert (S5 : pow2 (a - b - 1) * 2 == pow2 (a - b)).
  { change 2 with (pow2 1). rewrite <- pow2_add. now replace (a - b - 1 + 1)%Z with (a - b)%Z by lia. }
  destruct (Qle_bool (pow2 (a - b)) (n # d)) eqn:L.
  - apply Qle_bool_iff in L. split; [assumption|]. rewrite S2.
    destruct (Qlt_le_dec (n # d) (pow2 (a - b) * 2)); [assumption|nra].
  - assert (n # d < pow2 (a - b)).
    { apply Qnot_le_lt. intros C. apply Qle_bool_iff in C. congruence. }
    replace (a - b - 1 + 1)%Z with (a - b)%Z by lia. split; [|assumption].
    destruct (Qlt_le_dec (n # d) (pow2 (a - b - 1))); [nra|assumption].
Qed.

Lemma Qlog2_unique q e : 0 < q -> pow2 e <= q -> q < pow2 (e + 1) -> Qlog2 q = e.
Proof.
  intros Hq L U. destruct (Qlog2_spec q Hq) as [L' U'].
  assert (Qlog2 q < e + 1)%Z by (apply pow2_le_inv; lra).
  assert (e < Qlog2 q + 1)%Z by (apply pow2_le_inv; lra). lia.
Qed.

Lemma Qlog2_mono x y : 0 < x -> x <= y -> (Qlog2 x <= Qlog2 y)%Z.
Proof.
  intros Hx H. destruct (Qlog2_spec x Hx), (Qlog2_spec y ltac:(lra)).
  assert (Qlog2 x < Qlog2 y + 1)%Z by (apply pow2_le_inv; lra). lia.
Qed.

Lemma binade_mono x y : 0 < x -> x <= y -> (binade x <= binade y)%Z.
Proof. intros Hx H. unfold binade. pose proof (Qlog2_mono x y Hx H). lia. Qed.

(** ** Rounding to an integer *)

Lemma rne_spec x : (inject_Z (rne x) - x <= 1 # 2) /\ (x - inject_Z (rne x) <= 1 # 2).
Proof.
  unfold rne. pose proof (Qfloor_le x). pose proof (Qlt_floor x) as U.
  rewrite inject_Z_plus in U. change (inject_Z 1) with 1 in U.
  destruct (Qcompare_spec (x - inject_Z (Qfloor x)) (1 # 2));
    [destruct (Z.even _)| |]; rewrite ?inject_Z_plus; change (inject_Z 1) with 1; lra.
Qed.

Lemma rne_floor x : rne x = Qfloor x \/ rne x = (Qfloor x + 1)%Z.
Proof. unfold rne. destruct Qcompare; [destruct Z.even|..]; auto. Qed.

Lemma rne_mono x y : x <= y -> (rne x <= rne y)%Z.
Proof.
  intros H. pose proof (Qfloor_resp_le x y H) as F.
  destruct (Z.eq_dec (Qfloor x) (Qfloor y)) as [E|E].
  - unfold rne. rewrite <- E.
    destruct (Qcompare_spec (x - inject_Z (Qfloor x)) (1 # 2));
      destruct (Qcompare_spec (y - inject_Z (Qfloor x)) (1 # 2));
      try destruct (Z.even _); try lia; exfalso; lra.
  - destruct (rne_floor x), (rne_floor y); lia.
Qed.

#[export] Instance rne_proper : Proper (Qeq ==> eq) rne.
Proof.
  intros x y E. apply Z.le_antisymm; apply rne_mono; rewrite E; apply Qle_refl.
Qed.

Lemma rne_Z n : rne (inject_Z n) = n.
Proof.
  unfold rne. rewrite Qfloor_Z.
  destruct (Qcompare_spec (inject_Z n - inject_Z n) (1 # 2)) as [C|C|C]; [| |]; try lra; auto.
Qed.

Lemma rne_nonneg x : 0 <= x -> (0 <= rne x)%Z.
Proof. intros H. rewrite <- (rne_Z 0). now apply rne_mono. Qed.

(** ** Rounding a rational *)

Lemma rnd_mag_nonneg q : 0 < q -> 0 <= rnd_mag q.
Proof.
  intros H. unfold rnd_mag. pose proof (pow2_pos (binade q)).
  assert (0 <= rne (q / pow2 (binade q)))%Z.
  { apply rne_nonneg. apply Qle_shift_div_l; lra. }
  apply Qmult_le_0_compat; [|lra]. change 0 with (inject_Z 0). now rewrite <- Zle_Qle.
Qed.

(** Rounding fixes the integers of the grid of the binade, hence every
    number that is a multiple of a coarser power of two. *)
Lemma rnd_mag_grid q m e :
  0 < q -> (binade q <= e)%Z -> q == inject_Z m * pow2 e -> rnd_mag q == q.
Proof.
  intros Hq He E. unfold rnd_mag. set (b := binade q) in *.
  pose proof (pow2_pos b). pose proof (pow2_sub e b) as S.
  assert (G : q / pow2 b == inject_Z (m * 2 ^ (e - b))).
  { rewrite E, <- S, inject_Z_mult, <- pow2_Z by lia. field. lra. }
  rewrite G, rne_Z, inject_Z_mult, <- pow2_Z, <- Qmult_assoc, S, <- E by lia. reflexivity.
Qed.

Lemma rnd_mag_le_grid q k :
  0 < q -> (binade q <= k)%Z -> q <= pow2 k -> rnd_mag q <= pow2 k.
Proof.
  intros Hq Hk L. unfold rnd_mag. set (b := binade q) in *.
  pose proof (pow2_pos b). pose proof (pow2_sub k b) as S.
  assert (q / pow2 b <= pow2 (k - b)) by (apply Qle_shift_div_r; lra).
  assert (rne (q / pow2 b) <= 2 ^ (k - b))%Z.
  { rewrite <- (rne_Z (2 ^ (k - b))). apply rne_mono. rewrite <- pow2_Z by lia. assumption. }
  assert (inject_Z (rne (q / pow2 b)) <= pow2 (k - b)).
  { rewrite (pow2_Z (k - b)) by lia. now rewrite <- Zle_Qle. }
  nra.
Qed.

Lemma rnd_mag_ge_grid q k :
  0 < q -> (binade q <= k)%Z -> pow2 k <= q -> pow2 k <= rnd_mag q.
Proof.
  intros Hq Hk L. unfold rnd_mag. set (b := binade q) in *.
  pose proof (pow2_pos b). pose proof (pow2_sub k b) as S.
  assert (pow2 (k - b) <= q / pow2 b) by (apply Qle_shift_div_l; lra).
  assert (2 ^ (k - b) <= rne (q / pow2 b))%Z.
  { rewrite <- (rne_Z (2 ^ (k - b))). apply rne_mono. rewrite <- pow2_Z by lia. assumption. }
  assert (pow2 (k - b) <= inject_Z (rne (q / pow2 b))).
  { rewrite (pow2_Z (k - b)) by lia. now rewrite <- Zle_Qle. }
  nra.
Qed.

(** Rounding is monotone. *)
Lemma rnd_mag_mono x y : 0 < x -> x <= y -> rnd_mag x <= rnd_mag y.
Proof.
  intros Hx H. pose proof (binade_mono x y Hx H) as B.
  destruct (Z.eq_dec (binade x) (binade y)) as [E|E].
  - unfold rnd_mag. rewrite <- E. pose proof (pow2_pos (binade x)).
    assert (M : inject_Z (rne (x / pow2 (binade x))) <= inject_Z (rne (y / pow2 (binade x)))).
    { rewrite <- Zle_Qle. apply rne_mono. apply Qle_shift_div_l; [lra|].
      setoid_replace (x / pow2 (binade x) * pow2 (binade x)) with x by (field; lra). assumption. }
    nra.
  - destruct (Qlog2_spec x Hx) as [_ U]. destruct (Qlog2_spec y ltac:(lra)) as [L _].
    assert (Qlog2 x + 1 <= Qlog2 y)%Z by (unfold binade in *; lia).
    assert (binade y <= Qlog2 y)%Z by (unfold binade in *; lia).
    pose proof (pow2_le _ _ H0).
    apply Qle_trans with (pow2 (Qlog2 y)).
    + apply rnd_mag_le_grid; [assumption|lia|lra].
    + apply rnd_mag_ge_grid; lra || lia.
Qed.

Lemma rnd_mag_eq x y : 0 < x -> x == y -> rnd_mag x == rnd_mag y.
Proof. intros. apply Qle_antisym; apply rnd_mag_mono; lra. Qed.

Lemma rnd_proper x y : x == y -> rnd x = rnd y.
Proof.
  intros E. unfold rnd. rewrite <- (Qcompare_comp _ _ E 0 0 (Qeq_refl 0)).
  destruct (Qcompare_spec x 0) as [Hx|Hx|Hx]; [reflexivity| |]; unfold rnd_pos.
  - assert (M : rnd_mag (- x) == rnd_mag (- y)) by (apply rnd_mag_eq; lra).
    rewrite <- (Qleb_comp _ _ (Qeq_refl (pow2 1024)) _ _ M).
    destruct (Qle_bool _ _); [reflexivity|]. f_equal. apply Qred_complete. lra.
  - assert (M : rnd_mag x == rnd_mag y) by (apply rnd_mag_eq; lra).
    rewrite <- (Qleb_comp _ _ (Qeq_refl (pow2 1024)) _ _ M).
    destruct (Qle_bool _ _); [reflexivity|]. f_equal. apply Qred_complete. lra.
Qed.

Lemma rnd_not_NaN q : isNaN (rnd q) = false.
Proof.
  unfold rnd, rnd_pos. now destruct (Qcompare q 0); [|destruct (Qle_bool _ _)..].
Qed.

(** The three shapes of a rounded rational. *)
Inductive rnd_view (q : Q) : f64 -> Prop :=
| rnd_view_zero : q == 0 -> rnd_view q (FFin 0)
| rnd_view_pos_fin r : 0 < q -> r == rnd_mag q -> rnd_mag q < pow2 1024 -> rnd_view q (FFin r)
| rnd_view_neg_fin r : q < 0 -> r == - rnd_mag (- q) -> rnd_mag (- q) < pow2 1024 -> rnd_view q (FFin r)
| rnd_view_pos_inf : 0 < q -> pow2 1024 <= rnd_mag q -> rnd_view q (FInf false)
| rnd_view_neg_inf : q < 0 -> pow2 1024 <= rnd_mag (- q) -> rnd_view q (FInf true).

Lemma Qle_bool_false x y : Qle_bool x y = false <-> y < x.
Proof.
  split; intros H.
  - apply Qnot_le_lt. intros C. apply Qle_bool_iff in C. congruence.
  - destruct (Qle_bool x y) eqn:E; [|reflexivity]. apply Qle_bool_iff in E. lra.
Qed.

Lemma rndP q : rnd_view q (rnd q).
Proof.
  unfold rnd, rnd_pos. destruct (Qcompare_spec q 0) as [H|H|H].
  - now constructor.
  - destruct (Qle_bool _ _) eqn:E.
    + apply Qle_bool_iff in E. now apply rnd_view_neg_inf.
    + apply Qle_bool_false in E. apply rnd_view_neg_fin; [assumption| |assumption].
      apply Qred_correct.
  - destruct (Qle_bool _ _) eqn:E.
    + apply Qle_bool_iff in E. now apply rnd_view_pos_inf.
    + apply Qle_bool_false in E. apply rnd_view_pos_fin; [assumption| |assumption].
      apply Qred_correct.
Qed.

(** Rounding is monotone as a function to [f64]. *)
Lemma rnd_mono x y : x <= y -> fleb (rnd x) (rnd y) = true.
Proof.
  intros H.
  assert (P : forall a b, 0 < a -> a <= b -> rnd_mag a <= rnd_mag b) by apply rnd_mag_mono.
  pose proof (pow2_pos 1024).
  destruct (rndP x) as [Hx|rx Hx Ex Bx|rx Hx Ex Bx|Hx Bx|Hx Bx];
    destruct (rndP y) as [Hy|ry Hy Ey By|ry Hy Ey By|Hy By|Hy By];
    cbn; try reflexivity; try (exfalso; lra); try apply Qle_bool_iff;
    repeat match goal with
    | A : 0 < x, B : 0 < y |- _ => pose proof (P x y A H); clear A
    | A : x < 0, B : y < 0 |- _ => pose proof (P (- y) (- x) ltac:(lra) ltac:(lra)); clear A
    | A : 0 < y |- _ => pose proof (rnd_mag_nonneg y A); clear A
    | A : x < 0 |- _ => pose proof (rnd_mag_nonneg (- x) ltac:(lra)); clear A
    end; try lra; exfalso; lra.
Qed.

Lemma fleb_trans x y z : fleb x y = true -> fleb y z = true -> fleb x z = true.
Proof.
  destruct x as [|[]|a], y as [|[]|b], z as [|[]|c]; cbn; try congruence.
  rewrite !Qle_bool_iff. apply Qle_trans.
Qed.

Lemma fleb_refl x : isNaN x = false -> fleb x x = true.
Proof. destruct x as [|[]|a]; cbn; try congruence. intros _. apply Qle_bool_iff, Qle_refl. Qed.

(** [x > y] is false and neither is NaN: then [x <= y]. *)
Lemma fltb_false_le x y :
  isNaN x = false -> isNaN y = false -> fltb y x = false -> fleb x y = true.
Proof.
  destruct x as [|[]|a], y as [|[]|b]; cbn; try congruence; rewrite ?negb_false_iff; auto.
Qed.

Lemma fltb_le x y : fltb x y = true -> fleb x y = true.
Proof.
  destruct x as [|[]|a], y as [|[]|b]; cbn; try congruence.
  rewrite negb_true_iff, Qle_bool_false, Qle_bool_iff. lra.
Qed.

Lemma fleb_fltb_false x y : fleb x y = true -> fltb y x = false.
Proof. destruct x as [|[]|a], y as [|[]|b]; cbn; try congruence. intros ->. reflexivity. Qed.

Lemma fleb_not_NaN x y : fleb x y = true -> isNaN x = false /\ isNaN y = false.
Proof. destruct x as [|[]|a], y as [|[]|b]; cbn; auto; congruence. Qed.

(** ** Exact values *)

Lemma Qred_Z n : Qred (inject_Z n) = inject_Z n.
Proof.
  unfold Qred, inject_Z. pose proof (Z.ggcd_gcd n 1) as G.
  pose proof (Z.ggcd_correct_divisors n 1) as D.
  rewrite Z.gcd_1_r in G. destruct (Z.ggcd n 1) as [g [aa bb]]. cbn in *. subst g.
  destruct D as [D1 D2]. rewrite Z.mul_1_l in D1, D2. subst. reflexivity.
Qed.

Lemma rnd_mag_Z n : (0 < n < 2 ^ 53)%Z -> rnd_mag (inject_Z n) == inject_Z n.
Proof.
  intros H. assert (0 < inject_Z n) by (change 0 with (inject_Z 0); rewrite <- Zlt_Qlt; lia).
  apply rnd_mag_grid with n 0%Z; [assumption| |unfold pow2; cbn; ring].
  destruct (Qlog2_spec (inject_Z n)) as [L _]; [assumption|].
  assert (inject_Z n < pow2 53) by (rewrite (pow2_Z 53), <- Zlt_Qlt by lia; lia).
  assert (Qlog2 (inject_Z n) < 53)%Z by (apply pow2_le_inv; lra). unfold binade. lia.
Qed.

(** Integers of magnitude below 2^53 convert exactly. *)
Lemma f_of_Z_exact n : (- 2 ^ 53 < n < 2 ^ 53)%Z -> f_of_Z n = FFin (inject_Z n).
Proof.
  intros H. unfold f_of_Z, rnd.
  assert (B : inject_Z (2 ^ 53) < pow2 1024)
    by (rewrite (pow2_Z 1024), <- Zlt_Qlt by lia; vm_compute; reflexivity).
  destruct (Qcompare_spec (inject_Z n) 0) as [C|C|C]; unfold rnd_pos.
  - assert (n = 0)%Z as -> by (unfold Qeq in C; cbn in C; lia). reflexivity.
  - assert (E : rnd_mag (- inject_Z n) == inject_Z (- n)).
    { apply Qeq_trans with (rnd_mag (inject_Z (- n))).
      - apply rnd_mag_eq; [lra|]. rewrite inject_Z_opp. reflexivity.
      - apply rnd_mag_Z. unfold Qlt in C; cbn in C; lia. }
    assert (inject_Z (- n) < inject_Z (2 ^ 53)) by (rewrite <- Zlt_Qlt; lia).
    replace (Qle_bool _ _) with false by (symmetry; apply Qle_bool_false; lra).
    rewrite (Qred_complete _ (inject_Z n)), Qred_Z; [reflexivity|].
    rewrite E, inject_Z_opp. ring.
  - assert (E : rnd_mag (inject_Z n) == inject_Z n)
      by (apply rnd_mag_Z; unfold Qlt in C; cbn in C; lia).
    assert (inject_Z n < inject_Z (2 ^ 53)) by (rewrite <- Zlt_Qlt; lia).
    replace (Qle_bool _ _) with false by (symmetry; apply Qle_bool_false; lra).
    now rewrite (Qred_complete _ _ E), Qred_Z.
Qed.

(** ** Quotients of counts *)

Lemma fdiv_Z a b :
  (- 2 ^ 53 < a < 2 ^ 53)%Z -> (- 2 ^ 53 < b < 2 ^ 53)%Z -> b <> 0%Z ->
  fdiv (f_of_Z a) (f_of_Z b) = rnd (inject_Z a / inject_Z b).
Proof.
  intros Ha Hb Hn. rewrite 2 f_of_Z_exact by assumption. cbn.
  unfold qzero. destruct (Qcompare_spec (inject_Z b) 0) as [E|E|E]; [|reflexivity..].
  exfalso. apply Hn. apply inject_Z_injective. exact E.
Qed.

(** Rounding never loses a rate that reaches one half, and never invents
    one. *)
Lemma half_rate a b :
  (0 <= a < 2 ^ 53)%Z -> (0 < b < 2 ^ 53)%Z ->
  fleb (f_ratio 1 2) (fdiv (f_of_Z a) (f_of_Z b)) = (b <=? 2 * a)%Z.
Proof.
  intros Ha Hb. rewrite fdiv_Z by lia.
  assert (Pb : 0 < inject_Z b) by (change 0 with (inject_Z 0); rewrite <- Zlt_Qlt; lia).
  destruct (Z.leb_spec b (2 * a)) as [L|L].
  - apply rnd_mono, Qle_shift_div_l; [exact Pb|]. unfold Qle, Qmult, inject_Z. cbn [Qnum Qden]. lia.
  - destruct (fleb _ _) eqn:E; [exfalso|reflexivity].
    assert (U : fleb (rnd (inject_Z a / inject_Z b)) (rnd (9007199254740991 # 18014398509481984)) = true).
    { apply rnd_mono, Qle_shift_div_r; [exact Pb|]. unfold Qle, Qmult, inject_Z. cbn [Qnum Qden].
    lia. }
    pose proof (fleb_trans _ _ _ E U) as V. vm_compute in V. discriminate.
Qed.

(** ** Staying between integers *)

Definition between (lo hi : Z) (x : f64) : Prop :=
  exists q, x = FFin q /\ inject_Z lo <= q /\ q <= inject_Z hi.

Lemma between_iff lo hi x :
  (- 2 ^ 53 < lo < 2 ^ 53)%Z -> (- 2 ^ 53 < hi < 2 ^ 53)%Z ->
  between lo hi x <-> fleb (f_of_Z lo) x = true /\ fleb x (f_of_Z hi) = true.
Proof.
  intros Hl Hh. rewrite 2 f_of_Z_exact by assumption. split.
  - intros (q & -> & L & U). cbn. now rewrite 2 Qle_bool_iff.
  - destruct x as [|[]|q]; cbn; intros [L U]; try discriminate.
    rewrite Qle_bool_iff in L, U. now exists q.
Qed.

Lemma rnd_between lo hi q :
  (- 2 ^ 53 < lo < 2 ^ 53)%Z -> (- 2 ^ 53 < hi < 2 ^ 53)%Z ->
  inject_Z lo <= q -> q <= inject_Z hi -> between lo hi (rnd q).
Proof. intros Hl Hh L U. apply between_iff; [assumption..|]. split; now apply rnd_mono. Qed.

Lemma ftrunc_between lo hi q :
  (0 <= lo)%Z -> inject_Z lo <= q -> q <= inject_Z hi -> (lo <= ftrunc q <= hi)%Z.
Proof.
  intros H0 L U. assert (Q0 : 0 <= q) by (apply Qle_trans with (inject_Z lo); [|exact L];
    change 0 with (inject_Z 0); rewrite <- Zle_Qle; lia).
  unfold ftrunc, qsign. destruct (Qcompare_spec q 0) as [E|E|E]; [|lra|].
  - split.
    + rewrite <- (Qfloor_Z lo). now apply Qfloor_resp_le.
    + rewrite <- (Qfloor_Z hi). now apply Qfloor_resp_le.
  - split.
    + rewrite <- (Qfloor_Z lo). now apply Qfloor_resp_le.
    + rewrite <- (Qfloor_Z hi). now apply Qfloor_resp_le.
Qed.

Lemma f_to_int64_between oob lo hi x :
  (0 <= lo)%Z -> (hi < 2 ^ 53)%Z -> between lo hi x -> (lo <= f_to_int64 oob x <= hi)%Z.
Proof.
  intros H0 H1 (q & -> & L & U). pose proof (ftrunc_between lo hi q H0 L U) as B.
  unfold f_to_int64, f_to_int.
  destruct (Z.leb_spec (- 2 ^ 63) (ftrunc q)), (Z.leb_spec (ftrunc q) (2 ^ 63 - 1)); cbn; lia.
Qed.

(** ** Rounding errors *)

Lemma rnd_mag_err q :
  0 < q -> 2 * (rnd_mag q - q) <= pow2 (binade q) /\ 2 * (q - rnd_mag q) <= pow2 (binade q).
Proof.
  intros H. unfold rnd_mag. set (p := pow2 (binade q)). assert (P : 0 < p) by apply pow2_pos.
  destruct (rne_spec (q / p)) as [A B]. set (n := inject_Z (rne (q / p))) in *.
  assert (E : q / p * p == q) by (field; lra). nra.
Qed.

Lemma binade_lt q k : 0 < q -> q < pow2 k -> (-1021 <= k)%Z -> (binade q <= k - 53)%Z.
Proof.
  intros H L K. destruct (Qlog2_spec q H) as [A _].
  assert (Qlog2 q < k)%Z by (apply pow2_le_inv; lra). unfold binade. lia.
Qed.

(** A non-negative rational below [2^k] is rounded with an absolute error of
    at most [2^(k-54)]. *)
Lemma rnd_abs q k :
  0 <= q -> q < pow2 k -> (-1000 <= k <= 1000)%Z ->
  exists v, rnd q = FFin v /\ 0 <= v /\ 2 * (v - q) <= pow2 (k - 53) /\ 2 * (q - v) <= pow2 (k - 53).
Proof.
  intros H L K. pose proof (pow2_pos (k - 53)).
  destruct (rndP q) as [E|r P E B|r P _ _|P B|P _]; try lra.
  - exists 0. repeat split; lra.
  - destruct (rnd_mag_err q P) as [A1 A2].
    pose proof (pow2_le _ _ (binade_lt q k P L ltac:(lia))). pose proof (rnd_mag_nonneg q P).
    exists r. repeat split; lra.
  - exfalso. destruct (rnd_mag_err q P) as [A1 A2].
    pose proof (pow2_le _ _ (binade_lt q k P L ltac:(lia))).
    pose proof (pow2_le (k - 53) 1000 ltac:(lia)). pose proof (pow2_le k 1000 ltac:(lia)).
    assert (pow2 1002 == 4 * pow2 1000) by (change 1002%Z with (2 + 1000)%Z; rewrite pow2_add; reflexivity).
    pose proof (pow2_le 1002 1024 ltac:(lia)). pose proof (pow2_pos 1000). lra.
Qed.

(** In the normal range the relative error is at most [2^-53]. *)
Lemma rnd_rel q :
  pow2 (-1000) <= q -> q < pow2 1000 ->
  exists v, rnd q = FFin v /\ q * (1 - pow2 (-53)) <= v /\ v <= q * (1 + pow2 (-53)).
Proof.
  intros L U. assert (P : 0 < q) by (pose proof (pow2_pos (-1000)); lra).
  destruct (rnd_abs q 1000 ltac:(lra) U ltac:(lia)) as (v & E & V & _).
  exists v. split; [exact E|].
  destruct (Qlog2_spec q P) as [A1 A2].
  assert (-1001 < Qlog2 q)%Z by (apply (pow2_le_inv (-1000)%Z) in A2 || (enough (-1000 < Qlog2 q + 1)%Z by lia; apply pow2_le_inv; lra); lia).
  assert (B : pow2 (binade q) == pow2 (Qlog2 q) * (2 * pow2 (-53))).
  { unfold binade. rewrite Z.max_l by lia. replace (Qlog2 q - 52)%Z with (Qlog2 q + (1 + -53))%Z by lia.
    rewrite 2 pow2_add. change (pow2 1) with 2. reflexivity. }
  destruct (rnd_mag_err q P) as [E1 E2].
  assert (V' : v == rnd_mag q).
  { destruct (rndP q) as [Z|r _ Er _|r N _ _|_ _|_ _]; try lra; try discriminate; injection E as <-; lra. }
  pose proof (pow2_pos (-53)). rewrite B in E1, E2. nra.
Qed.
