(* ===== verification/Errors.v ===== *)
(** Errors: [ferrors/errors.go], the sentinels and structured errors of the
    other packages, and the part of the standard [errors] package they rely
    on ([errors.Is], [errors.As] at the interface [RetryableError]).

    A Go [error] that may be nil is an [option error].  A sentinel (an
    [errors.New] value, or one of the two comparable errors of package
    context) is its identity; a structured error is its payload, and its
    [Unwrap] method is [Unwrap].  The targets of [errors.Is] are sentinels. *)

From S2P Require Import Prelude.

#[local] Set Warnings "-register-all".

(** ** Sentinels *)

Inductive sentinel :=
(* ferrors/errors.go *)
| ErrCircuitOpen | ErrRateLimitExceeded | ErrBulkheadFull | ErrTimeout | ErrMaxAttemptsReached
(* package context *)
| Canceled | DeadlineExceeded
(* budget/budget.go *)
| ErrBudgetExceeded
(* adaptive/config.go *)
| ErrAdaptiveLimitExceeded
(* ratelimit/errors.go *)
| ErrLimitExceeded | ErrStorageUnavailable | ErrInvalidTokenCount | ErrExcessiveTokens
| ErrStoreClosed | ErrKeyLimitExceeded | ErrKeyTooLong | ErrWaitTimeout | ErrRateLimiterClosed
(* an error of the caller, and an [errors.New] local to a constructor *)
| ErrUser (id : Z)
| ErrNew (msg : string).

#[export] Instance sentinel_eq_dec : EqDecision sentinel.
Proof. solve_decision. Defined.

(** ** Structured errors *)

(** [ferrors.CircuitOpenError]. *)
Record CircuitOpenError := {
  coe_Name : string;
  coe_State : string;
  coe_RetryAfter : Z;
  coe_TotalRequests : Z;
  coe_TotalFailures : Z;
  coe_ConsecutiveFailures : Z;
  coe_ConsecutiveSuccesses : Z
}.

(** [ferrors.RateLimitError]. *)
Record RateLimitError := { rle_Key : string; rle_RetryAfter : Z }.

(** [budget.Cost]. *)
Record Cost := { Tokens : Z; USDMicros : Z; Calls : Z }.

#[export] Instance Cost_eq_dec : EqDecision Cost.
Proof. solve_decision. Defined.

(** [streamtimeout.Stage]. *)
Inductive Stage := StageFirstByte | StageIdle | StageTotal.

#[export] Instance Stage_eq_dec : EqDecision Stage.
Proof. solve_decision. Defined.

(** [streamtimeout.StreamTimeoutError]. *)
Record StreamTimeoutError := {
  ste_Stage : Stage;
  ste_FirstByteTimeout : Z;
  ste_IdleTimeout : Z;
  ste_TotalTimeout : Z;
  ste_Elapsed : Z
}.

(** The dynamic types behind a non-nil [error]. *)
Inductive error :=
| ESentinel (s : sentinel)
| ECircuitOpen (e : CircuitOpenError)
| ERateLimit (e : RateLimitError)
| ETimeout (Timeout : Z)
| ERetryable (err : option error)
| EBudgetExceeded (Consumed Max : Cost)
| ELimit (key : string) (retryAfter : Z)
| EStreamTimeout (e : StreamTimeoutError)
| EStatus (code : Z) (msg : string)
(* [fmt.Errorf] with [%w] verbs *)
| EWrap (msg : string) (errs : list error)
(* a caller's type with a [Retryable] method *)
| EUserRetryable (retryable : bool) (errs : list error).

Coercion ESentinel : sentinel >-> error.

(** The [Unwrap] method: no method, [Unwrap() error] and [Unwrap() []error]
    are the lists of length 0, 1 and n ([errors.Is] skips a nil). *)
Definition Unwrap (e : error) : list error :=
  match e with
  | ESentinel _ | EStatus _ _ => []
  | ECircuitOpen _ => [ESentinel ErrCircuitOpen]
  | ERateLimit _ => [ESentinel ErrRateLimitExceeded]
  | ETimeout _ => [ESentinel ErrTimeout; ESentinel DeadlineExceeded]
  | ERetryable None => []
  | ERetryable (Some e) => [e]
  | EBudgetExceeded _ _ => [ESentinel ErrBudgetExceeded]
  | ELimit _ _ => [ESentinel ErrLimitExceeded]
  | EStreamTimeout _ => [ESentinel ErrTimeout; ESentinel DeadlineExceeded]
  | EWrap _ es | EUserRetryable _ es => es
  end.

(** Identity with a sentinel ([err == target]). *)
Definition same (e : error) (t : sentinel) : bool :=
  match e with ESentinel s => bool_decide (s = t) | _ => false end.

(** [errors.Is]: depth-first over the tree of [Unwrap].  The recursion is
    written on the constructors so that it is structural; [errors_is_unfold]
    is the loop of the standard library. *)
Fixpoint errors_is (e : error) (t : sentinel) : bool :=
  match e with
  | ERetryable (Some e) => errors_is e t
  | EWrap _ es | EUserRetryable _ es => existsb (fun e => errors_is e t) es
  | _ => same e t || existsb (fun e => same e t) (Unwrap e)
  end.

(** The nested induction principle of [error]. *)
Section error_ind.
Context (P : error -> Prop).
Context (HS : forall s, P (ESentinel s)) (HC : forall c, P (ECircuitOpen c))
  (HR : forall r, P (ERateLimit r)) (HT : forall d, P (ETimeout d))
  (HRn : P (ERetryable None)) (HRs : forall e, P e -> P (ERetryable (Some e)))
  (HB : forall c m, P (EBudgetExceeded c m)) (HL : forall k r, P (ELimit k r))
  (HST : forall s, P (EStreamTimeout s)) (HG : forall c m, P (EStatus c m))
  (HW : forall m es, Forall P es -> P (EWrap m es))
  (HU : forall b es, Forall P es -> P (EUserRetryable b es)).

Fixpoint error_nested_ind (e : error) : P e :=
  let list_ind := fix go (es : list error) : Forall P es :=
    match es with
    | [] => @List.Forall_nil _ P
    | e :: es => @List.Forall_cons _ P e es (error_nested_ind e) (go es)
    end in
  match e with
  | ESentinel s => HS s
  | ECircuitOpen c => HC c
  | ERateLimit r => HR r
  | ETimeout d => HT d
  | ERetryable None => HRn
  | ERetryable (Some e) => HRs e (error_nested_ind e)
  | EBudgetExceeded c m => HB c m
  | ELimit k r => HL k r
  | EStreamTimeout s => HST s
  | EStatus c m => HG c m
  | EWrap m es => HW m es (list_ind es)
  | EUserRetryable b es => HU b es (list_ind es)
  end.
End error_ind.

(** The defining equation of [errors.Is]. *)
Lemma errors_is_unfold e t :
  errors_is e t = same e t || existsb (fun e => errors_is e t) (Unwrap e).
Proof.
  destruct e as [| | | |[e|]| | | | | |]; cbn; rewrite ?orb_false_r; reflexivity.
Qed.

Lemma errors_is_sentinel (s t : sentinel) : errors_is s t = bool_decide (s = t).
Proof. cbn. apply orb_false_r. Qed.

(** ** [ferrors.AsRetryable], [ferrors.IsRetryable] *)

Definition AsRetryable (err : option error) : error := ERetryable err.

(** [errors.As] at the interface [RetryableError], then [Retryable()]: the
    first error of the depth-first order that has the method answers. *)
Fixpoint as_retryable (e : error) : option bool :=
  match e with
  | ERetryable _ => Some true
  | EUserRetryable b _ => Some b
  | EWrap _ es =>
      (fix first (es : list error) : option bool :=
         match es with
         | [] => None
         | e :: es => match as_retryable e with Some b => Some b | None => first es end
         end) es
  | _ => None
  end.

Definition IsRetryable (err : option error) : bool :=
  match err with
  | None => false
  | Some e => match as_retryable e with Some b => b | None => false end
  end.

(** [errors.Is] lifted to a possibly nil error. *)
Definition Is (err : option error) (t : sentinel) : bool :=
  match err with None => false | Some e => errors_is e t end.

#[global] Arguments Is !err _ /.

(** ** Facts shared by the components *)

Lemma Is_AsRetryable e t : Is (Some (AsRetryable (Some e))) t = errors_is e t.
Proof. reflexivity. Qed.

Lemma IsRetryable_AsRetryable err : IsRetryable (Some (AsRetryable err)) = true.
Proof. reflexivity. Qed.

(** A chain of errors none of which has the method is not retryable. *)
Lemma as_retryable_sentinel s : as_retryable (ESentinel s) = None.
Proof. reflexivity. Qed.

Lemma Is_CircuitOpen c : errors_is (ECircuitOpen c) ErrCircuitOpen = true.
Proof. reflexivity. Qed.

Lemma Is_Timeout d :
  errors_is (ETimeout d) ErrTimeout = true /\ errors_is (ETimeout d) DeadlineExceeded = true.
Proof. split; reflexivity. Qed.

(** Only the first error of the tree that has the method is asked: an error
    marked retryable behind one that says no does not count. *)
Lemma IsRetryable_asks_the_first :
  IsRetryable (Some (EUserRetryable false [AsRetryable None])) = false /\
  IsRetryable (Some (EUserRetryable true [])) = true.
Proof. split; reflexivity. Qed.

(** An error created by [errors_is e t] never matches a caller's private
    sentinel unless it wraps one. *)
Lemma errors_is_wrap m es t :
  errors_is (EWrap m es) t = existsb (fun e => errors_is e t) es.
Proof. reflexivity. Qed.
