(* ===== verification/Runtime.v ===== *)
(** The run-time environment the components share: contexts, the clock, a
    state monad, and the interface through which a component's state lives
    in a larger world.

    - [ctx] is a [context.Context]: the instant at which it becomes done and
      the error it then reports, and its values.  A cancellation by the
      caller is a [done_at] chosen by whoever built the context; a theorem
      that quantifies over the context covers every cancellation.
    - [World W] is what the run time offers a goroutine whose world is [W]:
      the clock, the passing of time between two instructions ([tick]), and
      a [select] between a timer and a done channel ([await]), whose choice
      when both are ready is left to the instance.
    - [M W A] is a computation that reads and changes the world.
    - [Has W S] says that the world contains a component of type [S]: a lens
      with its laws, and independence of the clock. *)

From S2P Require Import Prelude Errors.

Declare Scope go_scope.
Delimit Scope go_scope with go.

(** ** Contexts *)

Record ctx := {
  done_at : option (Z * error);
  ctx_values : list (string * string)
}.

Definition Background : ctx := {| done_at := None; ctx_values := [] |}.

(** [ctx.Err()] at an instant. *)
Definition ctx_Err (c : ctx) (now : Z) : option error :=
  match done_at c with
  | Some (t, e) => if t <=? now then Some e else None
  | None => None
  end.

(** [context.WithTimeout(parent, d)] called at [now]: the parent's end if it
    comes first, else our own deadline. *)
Definition WithTimeout (parent : ctx) (d now : Z) : ctx :=
  {| done_at :=
       match done_at parent with
       | Some (t, e) => if t <=? now + d then Some (t, e) else Some (now + d, ESentinel DeadlineExceeded)
       | None => Some (now + d, ESentinel DeadlineExceeded)
       end;
     ctx_values := ctx_values parent |}.

Lemma ctx_Err_mono c t u e : t <= u -> ctx_Err c t = Some e -> ctx_Err c u = Some e.
Proof. unfold ctx_Err. destruct (done_at c) as [[a b]|]; [|done]. intros L H. zcases_in H; zcases; done || lia. Qed.

Lemma ctx_Err_Background now : ctx_Err Background now = None.
Proof. reflexivity. Qed.

(** A derived context that is done while its parent is not was ended by its
    own deadline. *)
Lemma WithTimeout_own parent d t0 now :
  ctx_Err parent now = None ->
  ctx_Err (WithTimeout parent d t0) now =
    if t0 + d <=? now then Some (ESentinel DeadlineExceeded) else None.
Proof.
  unfold ctx_Err, WithTimeout. cbn. destruct (done_at parent) as [[t e]|]; [|done].
  intros H. zcases_in H; [done|]. zcases; cbn; zcases; done || lia.
Qed.

(** A done parent makes the derived context done. *)
Lemma WithTimeout_parent parent d t0 now e :
  ctx_Err parent now = Some e -> ctx_Err (WithTimeout parent d t0) now <> None.
Proof.
  unfold ctx_Err, WithTimeout. cbn. destruct (done_at parent) as [[t e']|]; [|done].
  intros H. zcases_in H; [|done]. zcases; cbn; zcases; done || lia.
Qed.

(** ** Worlds *)

Class World (W : Type) := {
  clock : W -> Z;
  tick : W -> W;
  await : Z -> option Z -> W -> bool * W;
  clock_tick : forall w, clock w <= clock (tick w);
  await_mono : forall d s w, clock w <= clock (await d s w).2;
  (* the timer's branch is taken only once the timer has fired *)
  await_timer : forall d s w, (await d s w).1 = true -> clock w + d <= clock (await d s w).2;
  (* the done branch is taken only once the channel is closed *)
  await_done : forall d s w, (await d s w).1 = false ->
    exists t, s = Some t /\ t <= clock (await d s w).2
}.

Class Has (W S : Type) `{World W} := {
  get : W -> S;
  put : S -> W -> W;
  get_put : forall s w, get (put s w) = s;
  put_put : forall s t w, put s (put t w) = put s w;
  put_get : forall w, put (get w) w = w;
  get_tick : forall w, get (tick w) = get w;
  get_await : forall d o w, get (await d o w).2 = get w;
  clock_put : forall s w, clock (put s w) = clock w
}.

#[global] Arguments get {W S _ _} w.
#[global] Arguments put {W S _ _} s w.

Create Rewrite HintDb world.
#[export] Hint Rewrite @get_put @put_put @put_get @get_tick @get_await @clock_put : world.

(** ** The monad *)

Definition M (W A : Type) : Type := W -> A * W.

Definition ret {W A} (a : A) : M W A := fun w => (a, w).
Definition bind {W A B} (m : M W A) (k : A -> M W B) : M W B :=
  fun w => let r := m w in k r.1 r.2.

Notation "'let!' x ':=' m 'in' k" := (bind m (fun x => k))
  (at level 10, x pattern, m at level 100, k at level 200) : go_scope.
Notation "m ;;; k" := (bind m (fun _ => k)) (at level 199, right associativity) : go_scope.
Bind Scope go_scope with M.

(** [m] runs in [w], returns [a] and leaves [w']. *)
Definition runs {W A} (m : M W A) (w : W) (a : A) (w' : W) : Prop := m w = (a, w').

Section ops.
Context {W : Type} `{World W}.

(** [time.Now()]: some time may have passed since the last instruction. *)
Definition time_Now : M W Z := fun w => let w' := tick w in (clock w', w').

(** [ctx.Err()]. *)
Definition err_of (c : ctx) : M W (option error) := fun w => let w' := tick w in (ctx_Err c (clock w'), w').

(** [select] between a timer of duration [d] and [ctx.Done()]: [None] when
    the timer's branch is taken, else the context's error. *)
Definition select_timer (d : Z) (c : ctx) : M W (option error) := fun w =>
  let r := await d (fst <$> done_at c) w in
  (if r.1 then None else ctx_Err c (clock r.2), r.2).

Lemma select_timer_done d c w e w' :
  select_timer d c w = (Some e, w') -> ctx_Err c (clock w') = Some e.
Proof.
  unfold select_timer. intros [= E <-]. by destruct (await d _ w).1.
Qed.

(** The done branch always yields the context's error. *)
Lemma select_timer_not_stuck d c w :
  (await d (fst <$> done_at c) w).1 = false -> (select_timer d c w).1 <> None.
Proof.
  intros E. unfold select_timer. rewrite E. cbn.
  destruct (await_done _ _ _ E) as (t & Hs & Ht).
  unfold ctx_Err. destruct (done_at c) as [[u e]|]; [|done].
  injection Hs as ->. zcases; done || lia.
Qed.
End ops.

(** A protected call: result and error, both returned by Go. *)
Definition result (T : Type) : Type := T * option error.
Definition Fn (W T : Type) : Type := ctx -> M W (result T).

(** ** A concrete world

    A clock that stands still between instructions, a [select] that takes
    the earlier event (the done channel on a tie), and a component [S]. *)
Record sim (S : Type) := Sim { sim_clock : Z; sim_state : S }.
#[global] Arguments Sim {S}.
#[global] Arguments sim_clock {S}.
#[global] Arguments sim_state {S}.

#[export, refine] Instance sim_World S : World (sim S) := {|
  clock := sim_clock;
  tick w := w;
  await d s w :=
    let fire := sim_clock w + Z.max 0 d in
    match s with
    | Some t => if t <=? fire then (false, Sim (Z.max (sim_clock w) t) (sim_state w))
                else (true, Sim fire (sim_state w))
    | None => (true, Sim fire (sim_state w))
    end
|}.
Proof.
  - done.
  - intros d [t|] w; cbn; zcases; cbn; lia.
  - intros d [t|] w; cbn; zcases; cbn; done || lia.
  - intros d [t|] w; cbn; zcases; cbn; try done. intros _. exists t. split; [done|lia].
Defined.

#[export, refine] Instance sim_Has S : Has (sim S) S := {|
  get := sim_state;
  put s w := Sim (sim_clock w) s
|}.
Proof.
  - done.
  - done.
  - by intros [].
  - done.
  - intros d [t|] w; cbn; zcases; done.
  - done.
Defined.

(** A component that is a pair has two components. *)
#[refine] Definition Has_fst {W A B} `{HW : World W} {Hp : Has W (A * B)} : Has W A := {|
  get w := (get w).1;
  put a w := put (a, (get w).2) w
|}.
Proof.
  - intros. by rewrite get_put.
  - intros. by rewrite put_put, get_put.
  - intros. rewrite <- surjective_pairing. apply put_get.
  - intros. by rewrite get_tick.
  - intros. by rewrite get_await.
  - intros. apply clock_put.
Defined.

#[refine] Definition Has_snd {W A B} `{HW : World W} {Hp : Has W (A * B)} : Has W B := {|
  get w := (get w).2;
  put b w := put ((get w).1, b) w
|}.
Proof.
  - intros. by rewrite get_put.
  - intros. by rewrite put_put, get_put.
  - intros. rewrite <- surjective_pairing. apply put_get.
  - intros. by rewrite get_tick.
  - intros. by rewrite get_await.
  - intros. apply clock_put.
Defined.

(** ** Scripts

    A protected function whose successive results are those of a list the
    world carries: any function is one, the list being what it is going to
    return.  Theorems on wrappers are stated against it, so that they speak
    of how often the function ran and of what it returned. *)
Record scripted {W T} `{World W} (script : W -> list (result T)) (fn : Fn W T) : Prop := {
  script_fn : forall c w r rs, script w = r :: rs -> exists w', fn c w = (r, w') /\ script w' = rs;
  script_tick : forall w, script (tick w) = script w;
  script_await : forall d o w, script (await d o w).2 = script w
}.

(** A computation that leaves a view of the world alone. *)
Definition leaves {W V A} (view : W -> V) (m : M W A) : Prop := forall w, view (m w).2 = view w.

(** The simplest script: the world's state is what is left of it. *)
Definition play {T} (default : result T) : Fn (sim (list (result T))) T := fun _ w =>
  match sim_state w with
  | [] => (default, w)
  | r :: rs => (r, Sim (sim_clock w) rs)
  end.

Lemma play_scripted {T} (d : result T) : scripted sim_state (play d).
Proof.
  split.
  - intros c w r rs E. unfold play. rewrite E. eauto.
  - done.
  - intros d0 o w. exact (@get_await _ _ _ (sim_Has (list (result T))) d0 o w).
Qed.
