(* ===== verification/Window.v ===== *)
(** The sliding windows of the circuit breaker
    ([circuitbreaker/window.go]): a circular buffer of the last [size]
    outcomes, and a ring of one-second buckets.

    Both are refined to the same abstract object, the log of all recorded
    calls: [stats] of the concrete window is the number of calls, and of
    failures, among the log's entries that are still inside the window.

    A time is its number of nanoseconds since the Unix epoch.  An index out
    of range panics in Go; the representation invariants show that the
    indices used here are always in range. *)

From S2P Require Import Prelude.

(** [time.Time.Unix()]. *)
Definition Unix (t : Z) : Z := t / Second.

(** ** The count window *)

Record countWindow := {
  outcomes : list bool; (* true == failure *)
  size : Z;
  next : Z;
  filled : Z;
  failures : Z
}.

Definition newCountWindow (size : Z) : countWindow := {|
  outcomes := replicate (Z.to_nat size) false;
  size := size; next := 0; filled := 0; failures := 0
|}.

Definition outcome_at (l : list bool) (i : Z) : bool := default false (l !! Z.to_nat i).

Definition count_record (success : bool) (w : countWindow) : countWindow :=
  let evicted := (filled w =? size w) && outcome_at (outcomes w) (next w) in
  let failures1 := if evicted then failures w - 1 else failures w in
  let failure := negb success in
  {| outcomes := <[Z.to_nat (next w) := failure]> (outcomes w);
     size := size w;
     next := Z.rem (next w + 1) (size w);
     filled := if filled w <? size w then filled w + 1 else filled w;
     failures := if failure then failures1 + 1 else failures1 |}.

Definition count_stats (w : countWindow) : Z * Z := (filled w, failures w).

Definition count_reset (w : countWindow) : countWindow := {|
  outcomes := replicate (length (outcomes w)) false;
  size := size w; next := 0; filled := 0; failures := 0
|}.

(** ** The time window *)

Record timeBucket := { epoch : Z; calls : Z; bfailures : Z }.

Definition zero_bucket : timeBucket := {| epoch := 0; calls := 0; bfailures := 0 |}.

Record timeWindow := { buckets : list timeBucket; tsize : Z }.

Definition newTimeWindow (sizeSeconds : Z) : timeWindow := {|
  buckets := replicate (Z.to_nat sizeSeconds) zero_bucket;
  tsize := sizeSeconds
|}.

(** The index of the bucket owning an epoch; Go's [%] truncates. *)
Definition bucket_idx (e size : Z) : Z := Z.rem (Z.rem e size + size) size.

(** [bucketFor] yields the index of the bucket and its content after the
    stale lap is cleared. *)
Definition bucketFor (w : timeWindow) (now : Z) : Z * timeBucket :=
  let e := Unix now in
  let idx := bucket_idx e (tsize w) in
  let b := default zero_bucket (buckets w !! Z.to_nat idx) in
  (idx, if epoch b =? e then b else {| epoch := e; calls := 0; bfailures := 0 |}).

Definition time_record (success : bool) (now : Z) (w : timeWindow) : timeWindow :=
  let '(idx, b) := bucketFor w now in
  {| buckets := <[Z.to_nat idx := {| epoch := epoch b;
                                     calls := calls b + 1;
                                     bfailures := if success then bfailures b else bfailures b + 1 |}]>
                (buckets w);
     tsize := tsize w |}.

(** Is the bucket skipped by [stats]? *)
Definition bucket_skipped (oldest now_s : Z) (b : timeBucket) : bool :=
  (calls b =? 0) || (epoch b <? oldest) || (now_s <? epoch b).

Definition time_stats (now : Z) (w : timeWindow) : Z * Z :=
  let oldest := Unix now - tsize w + 1 in
  foldl (fun acc b => if bucket_skipped oldest (Unix now) b then acc
                      else (acc.1 + calls b, acc.2 + bfailures b))
        (0, 0) (buckets w).

Definition time_reset (w : timeWindow) : timeWindow := {|
  buckets := replicate (length (buckets w)) zero_bucket;
  tsize := tsize w
|}.

(** ** The interface [slidingWindow] and its two implementations *)

Inductive slidingWindow :=
| CountWindow (w : countWindow)
| TimeWindow (w : timeWindow).

Definition record (success : bool) (now : Z) (w : slidingWindow) : slidingWindow :=
  match w with
  | CountWindow w => CountWindow (count_record success w)
  | TimeWindow w => TimeWindow (time_record success now w)
  end.

Definition stats (now : Z) (w : slidingWindow) : Z * Z :=
  match w with
  | CountWindow w => count_stats w
  | TimeWindow w => time_stats now w
  end.

Definition reset (w : slidingWindow) : slidingWindow :=
  match w with
  | CountWindow w => CountWindow (count_reset w)
  | TimeWindow w => TimeWindow (time_reset w)
  end.

(** ** The abstract log

    The newest entry first. *)

Record entry := { at_epoch : Z; failed : bool }.

Definition log_failures (l : list entry) : Z := count_true (failed <$> l).

(** The specification of the two kinds of window. *)
Definition last_calls (n : Z) (l : list entry) : list entry := take (Z.to_nat n) l.

Definition inside (size now_s : Z) (x : entry) : Prop :=
  now_s - size < at_epoch x <= now_s.

#[export] Instance inside_dec size now_s x : Decision (inside size now_s x).
Proof. unfold inside. apply _. Defined.

Definition recent_calls (size now_s : Z) (l : list entry) : list entry :=
  filter (inside size now_s) l.

(** ** The count window refines the log *)

(** [outcomes] is the circular image of the log: the entry of age [i] is at
    [next - 1 - i] modulo [size]. *)
Record count_rep (w : countWindow) (l : list entry) : Prop := {
  cr_size : 0 < size w;
  cr_length : length (outcomes w) = Z.to_nat (size w);
  cr_filled : filled w = Z.min (size w) (Z.of_nat (length l));
  cr_next : next w = Z.of_nat (length l) mod size w;
  cr_cells : forall i x, l !! i = Some x -> Z.of_nat i < size w ->
    outcomes w !! Z.to_nat ((Z.of_nat (length l) - 1 - Z.of_nat i) mod size w) = Some (failed x);
  cr_failures : failures w = log_failures (last_calls (size w) l)
}.

Lemma count_rep_new n : 0 < n -> count_rep (newCountWindow n) [].
Proof.
  intros. split; cbn; try done.
  - apply length_replicate.
  - lia.
  - unfold last_calls. by destruct (Z.to_nat n).
Qed.

Lemma count_rep_reset w l : count_rep w l -> count_rep (count_reset w) [].
Proof.
  intros [S L _ _ _ _]. split; cbn; try done.
  - by rewrite length_replicate.
  - lia.
  - unfold last_calls. by destruct (Z.to_nat (size w)).
Qed.

Lemma log_failures_cons x l : log_failures (x :: l) = (if failed x then 1 else 0) + log_failures l.
Proof. done. Qed.

Lemma log_failures_take_S n (l : list entry) x : 
  log_failures (take (S n) (x :: l)) = (if failed x then 1 else 0) + log_failures (take n l).
Proof. done. Qed.

(** Dropping the oldest of the last [n] entries. *)
Lemma log_failures_take_drop n (l : list entry) y :
  l !! n = Some y ->
  log_failures (take (S n) l) = log_failures (take n l) + (if failed y then 1 else 0).
Proof.
  intros H. rewrite (take_S_r _ _ _ H). unfold log_failures.
  rewrite fmap_app, count_true_app. cbn. lia.
Qed.

(** The slot about to be overwritten holds the oldest entry in the window. *)
Lemma count_rep_evicted w l y :
  count_rep w l -> l !! (Z.to_nat (size w) - 1)%nat = Some y ->
  outcome_at (outcomes w) (next w) = failed y.
Proof.
  intros [S _ _ N C _] H. unfold outcome_at.
  pose proof (C _ _ H ltac:(lia)) as Hc.
  replace ((Z.of_nat (length l) - 1 - Z.of_nat (Z.to_nat (size w) - 1)) mod size w)
    with (next w) in Hc; [by rewrite Hc|].
  rewrite N. replace (Z.of_nat (length l) - 1 - Z.of_nat (Z.to_nat (size w) - 1))
    with (Z.of_nat (length l) + (-1) * size w) by lia.
  by rewrite Z.mod_add by lia.
Qed.

Lemma count_failures_step w l success e :
  count_rep w l ->
  failures (count_record success w) =
    log_failures (last_calls (size w) ({| at_epoch := e; failed := negb success |} :: l)).
Proof.
  intros R. pose proof R as [S L F N C Fl]. cbn. unfold last_calls in *.
  destruct (Z.to_nat (size w)) as [|n] eqn:En; [lia|].
  rewrite log_failures_take_S. cbn [failed].
  destruct (l !! n) as [y|] eqn:Hy.
  - assert (n < length l)%nat by (by apply lookup_lt_Some in Hy).
    rewrite (log_failures_take_drop _ _ _ Hy) in Fl.
    rewrite (count_rep_evicted w l y R) by (by rewrite En, Nat.sub_1_r).
    destruct (filled w =? size w) eqn:E; [|lia]. cbn [andb].
    destruct (failed y), success; cbn; lia.
  - apply lookup_ge_None in Hy.
    rewrite (take_ge l (Datatypes.S n)) in Fl by lia. rewrite (take_ge l n) by lia.
    destruct (filled w =? size w) eqn:E; [lia|]. cbn [andb].
    destruct success; cbn; lia.
Qed.

Lemma count_rep_record w l success e :
  count_rep w l ->
  count_rep (count_record success w) ({| at_epoch := e; failed := negb success |} :: l).
Proof.
  intros R. pose proof R as [S L F N C Fl].
  assert (Hn : 0 <= next w < size w) by (rewrite N; apply Z.mod_pos_bound; lia).
  split.
  - done.
  - cbn. by rewrite length_insert.
  - cbn [filled count_record size length]. zcases; lia.
  - cbn [next count_record size length]. rewrite Z.rem_mod_nonneg, N, Zplus_mod_idemp_l by lia. f_equal. lia.
  - intros i x Hx Hi. cbn [outcomes count_record size] in *. cbn [length].
    destruct i as [|i]; cbn in Hx.
    + injection Hx as <-. cbn [failed].
      replace (Z.of_nat (Datatypes.S (length l)) - 1 - Z.of_nat 0) with (Z.of_nat (length l)) by lia.
      rewrite <- N. apply list_lookup_insert_eq. lia.
    + replace (Z.of_nat (Datatypes.S (length l)) - 1 - Z.of_nat (Datatypes.S i))
        with (Z.of_nat (length l) - 1 - Z.of_nat i) by lia.
      rewrite list_lookup_insert_ne; [apply C; [done|lia]|].
      rewrite N. intros E. apply Z2Nat.inj in E; try (apply Z.mod_pos_bound; lia).
      assert (D : (Z.of_nat (length l) - (Z.of_nat (length l) - 1 - Z.of_nat i)) mod size w = 0)
        by (rewrite Zminus_mod, E, Z.sub_diag; apply Z.mod_0_l; lia).
      rewrite Z.mod_small in D; lia.
  - exact (count_failures_step w l success e R).
Qed.

(** ** The time window refines the log *)

Definition in_bucket (size : Z) (i : nat) (x : entry) : Prop := at_epoch x mod size = Z.of_nat i.

#[export] Instance in_bucket_dec size i x : Decision (in_bucket size i x).
Proof. unfold in_bucket. apply _. Defined.

(** The entries a bucket aggregates. *)
Definition aggregated (size : Z) (i : nat) (e : Z) (l : list entry) : list entry :=
  filter (fun x => in_bucket size i x /\ at_epoch x = e) l.

Record time_rep (w : timeWindow) (l : list entry) : Prop := {
  tr_size : 0 < tsize w;
  tr_length : length (buckets w) = Z.to_nat (tsize w);
  tr_calls : forall i b, buckets w !! i = Some b ->
    calls b = Z.of_nat (length (aggregated (tsize w) i (epoch b) l));
  tr_failures : forall i b, buckets w !! i = Some b ->
    bfailures b = log_failures (aggregated (tsize w) i (epoch b) l);
  tr_newest : forall i b x, buckets w !! i = Some b -> x ∈ l -> in_bucket (tsize w) i x ->
    at_epoch x <= epoch b /\ calls b <> 0
}.

Lemma bucket_idx_mod e n : 0 < n -> bucket_idx e n = e mod n.
Proof.
  intros. unfold bucket_idx. pose proof (Z.rem_bound_abs e n ltac:(lia)) as B.
  rewrite Z.rem_mod_nonneg by lia.
  rewrite <- (Z.mul_1_l n) at 2. rewrite Z.mod_add by lia.
  rewrite (Z.quot_rem' e n) at 2. rewrite Z.add_comm, Z.mul_comm. by rewrite Z.mod_add by lia.
Qed.

Lemma time_rep_new n : 0 < n -> time_rep (newTimeWindow n) [].
Proof.
  intros. split; cbn; try done.
  - apply length_replicate.
  - intros i b Hb. apply lookup_replicate in Hb as [-> _]. done.
  - intros i b Hb. apply lookup_replicate in Hb as [-> _]. done.
  - intros i b x _ Hx. set_solver.
Qed.

Lemma time_rep_reset w l : time_rep w l -> time_rep (time_reset w) [].
Proof.
  intros [S L _ _ _]. split; cbn; try done.
  - by rewrite length_replicate.
  - intros i b Hb. apply lookup_replicate in Hb as [-> _]. done.
  - intros i b Hb. apply lookup_replicate in Hb as [-> _]. done.
  - intros i b x _ Hx. set_solver.
Qed.

(** A non-empty bucket holds an entry of its epoch. *)
Lemma time_rep_witness w l i b :
  time_rep w l -> buckets w !! i = Some b -> calls b <> 0 ->
  exists y, y ∈ l /\ in_bucket (tsize w) i y /\ at_epoch y = epoch b.
Proof.
  intros R Hb Hc. rewrite (tr_calls _ _ R _ _ Hb) in Hc.
  destruct (aggregated (tsize w) i (epoch b) l) as [|y k] eqn:E; [done|].
  exists y. assert (Hy : y ∈ aggregated (tsize w) i (epoch b) l) by (rewrite E; left).
  apply list_elem_of_filter in Hy as [[? ?] ?]. done.
Qed.

Lemma aggregated_cons size i e x l :
  aggregated size i e (x :: l) =
    if decide (in_bucket size i x /\ at_epoch x = e) then x :: aggregated size i e l
    else aggregated size i e l.
Proof. unfold aggregated. by rewrite filter_cons. Qed.

(** An epoch no older than the log that the bucket does not own yet has no
    entries there. *)
Lemma time_rep_fresh w l i b e :
  time_rep w l -> (forall x, x ∈ l -> at_epoch x <= e) ->
  buckets w !! i = Some b -> epoch b <> e -> aggregated (tsize w) i e l = [].
Proof.
  intros R Mono Hb Hne. destruct (aggregated (tsize w) i e l) as [|x k] eqn:E; [done|].
  assert (Hx : x ∈ aggregated (tsize w) i e l) by (rewrite E; left).
  apply list_elem_of_filter in Hx as [[Hi He] Hl].
  destruct (tr_newest _ _ R _ _ _ Hb Hl Hi) as [Hle Hc].
  destruct (time_rep_witness _ _ _ _ R Hb Hc) as (y & Hy & _ & Hye).
  pose proof (Mono _ Hy). lia.
Qed.

(** What [bucketFor] returns, in terms of the log. *)
Lemma bucketFor_spec w l now :
  time_rep w l -> (forall x, x ∈ l -> at_epoch x <= Unix now) ->
  exists i b, bucketFor w now = (Z.of_nat i, b) /\ (i < length (buckets w))%nat /\
    Z.of_nat i = Unix now mod tsize w /\ epoch b = Unix now /\
    calls b = Z.of_nat (length (aggregated (tsize w) i (Unix now) l)) /\
    bfailures b = log_failures (aggregated (tsize w) i (Unix now) l).
Proof.
  intros R Mono. pose proof R as [S L _ _ _]. unfold bucketFor.
  rewrite bucket_idx_mod by done.
  pose proof (Z.mod_pos_bound (Unix now) (tsize w) S) as B.
  exists (Z.to_nat (Unix now mod tsize w)).
  destruct (lookup_lt_is_Some_2 (buckets w) (Z.to_nat (Unix now mod tsize w))) as [b Hb]; [lia|].
  rewrite Hb. cbn [default from_option id]. rewrite Z2Nat.id by lia.
  eexists. split; [done|]. split; [lia|]. split; [done|].
  destruct (Z.eqb_spec (epoch b) (Unix now)) as [E|E]; cbn [epoch calls bfailures].
  - by rewrite (tr_calls _ _ R _ _ Hb), (tr_failures _ _ R _ _ Hb), E.
  - by rewrite (time_rep_fresh _ _ _ _ _ R Mono Hb E).
Qed.

Lemma time_rep_record w l success now :
  time_rep w l -> (forall x, x ∈ l -> at_epoch x <= Unix now) ->
  time_rep (time_record success now w) ({| at_epoch := Unix now; failed := negb success |} :: l).
Proof.
  intros R Mono. pose proof R as [S L C F N].
  destruct (bucketFor_spec _ _ _ R Mono) as (i & b & E & Hi & Ei & Eb & Cb & Fb).
  unfold time_record. rewrite E, Nat2Z.id.
  set (x0 := {| at_epoch := Unix now; failed := negb success |}).
  assert (Hx0 : forall j, in_bucket (tsize w) j x0 <-> j = i).
  { intros j. unfold in_bucket. cbn. lia. }
  assert (Look : forall j c, <[i:={| epoch := epoch b; calls := calls b + 1;
       bfailures := if success then bfailures b else bfailures b + 1 |}]> (buckets w) !! j = Some c ->
     (j = i /\ c = {| epoch := epoch b; calls := calls b + 1;
       bfailures := if success then bfailures b else bfailures b + 1 |}) \/
     (j <> i /\ buckets w !! j = Some c)).
  { intros j c. rewrite list_lookup_insert. case_decide; [intros [= <-]|]; intuition congruence || lia. }
  split; cbn [tsize buckets].
  - done.
  - by rewrite length_insert.
  - intros j c Hc. rewrite aggregated_cons.
    apply Look in Hc as [[-> ->]|[Hne Hc]]; cbn [calls epoch].
    + rewrite decide_True by (split; [by apply Hx0|by rewrite Eb]). cbn [length]. rewrite Eb. lia.
    + rewrite decide_False by (intros [?%Hx0 _]; done). by apply C.
  - intros j c Hc. rewrite aggregated_cons.
    apply Look in Hc as [[-> ->]|[Hne Hc]]; cbn [bfailures epoch].
    + rewrite decide_True by (split; [by apply Hx0|by rewrite Eb]).
      rewrite log_failures_cons, Eb, Fb. cbn [failed]. destruct success; cbn; lia.
    + rewrite decide_False by (intros [?%Hx0 _]; done). by apply F.
  - intros j c x Hc Hx Hin. apply Look in Hc as [[-> ->]|[Hne Hc]]; cbn [calls epoch].
    + rewrite Eb. split; [|lia]. apply elem_of_cons in Hx as [->|Hx]; [done|auto].
    + apply elem_of_cons in Hx as [->|Hx]; [by apply Hx0 in Hin|]. by eapply N.
Qed.

(** *** [stats] of the time window *)

(** The weight of a list of entries: their number, or their failures. *)
Fixpoint weight (g : entry -> Z) (l : list entry) : Z :=
  match l with
  | [] => 0
  | x :: l => g x + weight g l
  end.

Lemma weight_length l : weight (fun _ => 1) l = Z.of_nat (length l).
Proof. induction l; cbn [weight length]; lia. Qed.

Lemma weight_failures l : weight (fun x => if failed x then 1 else 0) l = log_failures l.
Proof. induction l as [|x l IH]; [done|]. rewrite log_failures_cons. cbn [weight]. lia. Qed.

(** The buckets partition the log. *)
Lemma weight_partition g size l :
  0 < size ->
  Zsum (fun i => weight g (filter (in_bucket size i) l)) (Z.to_nat size) = weight g l.
Proof.
  intros S. induction l as [|x l IH]; [apply Zsum_0|]. cbn [weight].
  pose proof (Z.mod_pos_bound (at_epoch x) size S) as B.
  rewrite (Zsum_ext _ (fun i => (if Nat.eqb i (Z.to_nat (at_epoch x mod size)) then g x else 0) +
             weight g (filter (in_bucket size i) l))).
  - rewrite Zsum_add, IH, Zsum_single by lia. done.
  - intros i Hi. rewrite filter_cons. unfold in_bucket at 1.
    destruct (Nat.eqb_spec i (Z.to_nat (at_epoch x mod size))); case_decide; cbn [weight]; lia.
Qed.

(** One lap of the ring has one epoch per bucket. *)
Lemma same_lap size now_s x e :
  0 < size -> now_s - size < x <= now_s -> now_s - size < e <= now_s ->
  x mod size = e mod size -> x = e.
Proof.
  intros S Hx He E. pose proof (Z.div_mod x size ltac:(lia)). pose proof (Z.div_mod e size ltac:(lia)).
  destruct (Z.lt_trichotomy (x / size) (e / size)) as [L|[L|L]]; [nia| |nia].
  rewrite <- L in *. lia.
Qed.

(** What [stats] takes from a bucket is what the log has there. *)
Lemma bucket_recent w l i b now_s :
  time_rep w l -> (forall x, x ∈ l -> at_epoch x <= now_s) ->
  buckets w !! i = Some b ->
  filter (in_bucket (tsize w) i) (recent_calls (tsize w) now_s l) =
    if bucket_skipped (now_s - tsize w + 1) now_s b then []
    else aggregated (tsize w) i (epoch b) l.
Proof.
  intros R Mono Hb. pose proof R as [S L C F N].
  unfold recent_calls, aggregated. rewrite list_filter_filter.
  assert (None_of : (forall x, x ∈ l -> in_bucket (tsize w) i x -> ~ inside (tsize w) now_s x) ->
    filter (fun x => in_bucket (tsize w) i x /\ inside (tsize w) now_s x) l = []).
  { intros H. apply filter_none. intros x Hx [Hi Hin]. by apply (H x). }
  unfold bucket_skipped. destruct (Z.eqb_spec (calls b) 0) as [E0|E0]; cbn [orb].
  - apply None_of. intros x Hx Hi. by destruct (N _ _ _ Hb Hx Hi).
  - destruct (time_rep_witness _ _ _ _ R Hb E0) as (y & Hy & Hyi & Hye).
    pose proof (Mono _ Hy) as My. destruct (Z.ltb_spec (epoch b) (now_s - tsize w + 1)); cbn [orb].
    + apply None_of. intros x Hx Hi [? _]. destruct (N _ _ _ Hb Hx Hi). lia.
    + destruct (Z.ltb_spec now_s (epoch b)); [lia|].
      apply list_filter_iff. intros x. unfold in_bucket, inside in *. split.
      * intros [? ?]. split; [done|]. apply (same_lap (tsize w) now_s); [lia|lia|lia|congruence].
      * intros [Hm He]. split; [done|lia].
Qed.

(** [time_stats] is a pair of sums over the buckets. *)
Lemma time_stats_sums w now :
  let term (g : timeBucket -> Z) i :=
    let b := default zero_bucket (buckets w !! i) in
    if bucket_skipped (Unix now - tsize w + 1) (Unix now) b then 0 else g b in
  time_stats now w =
    (Zsum (term calls) (length (buckets w)), Zsum (term bfailures) (length (buckets w))).
Proof.
  cbn zeta. unfold time_stats. set (sk := bucket_skipped _ _).
  assert (G : forall l a b,
    foldl (fun acc b => if sk b then acc else (acc.1 + calls b, acc.2 + bfailures b)) (a, b) l =
    (foldl (fun acc b => acc + (if sk b then 0 else calls b)) a l,
     foldl (fun acc b => acc + (if sk b then 0 else bfailures b)) b l)).
  { induction l as [|x l IH]; intros a b; [done|]. cbn. rewrite <- IH.
    destruct (sk x); rewrite ?Z.add_0_r; done. }
  rewrite G. f_equal.
  - by rewrite (foldl_Zsum (fun b => if sk b then 0 else calls b) zero_bucket), Z.add_0_l.
  - by rewrite (foldl_Zsum (fun b => if sk b then 0 else bfailures b) zero_bucket), Z.add_0_l.
Qed.

(** The functional specification of [stats] on the ring of buckets. *)
Lemma time_rep_stats w l now :
  time_rep w l -> (forall x, x ∈ l -> at_epoch x <= Unix now) ->
  time_stats now w =
    (Z.of_nat (length (recent_calls (tsize w) (Unix now) l)),
     log_failures (recent_calls (tsize w) (Unix now) l)).
Proof.
  intros R Mono. pose proof R as [S L C F N].
  rewrite time_stats_sums. cbn zeta. rewrite L, <- weight_length, <- weight_failures.
  rewrite <- (weight_partition (fun _ => 1) _ _ S), <- (weight_partition (fun x => if failed x then 1 else 0) _ _ S).
  f_equal; apply Zsum_ext; intros i Hi;
    (destruct (lookup_lt_is_Some_2 (buckets w) i) as [b Hb]; [lia|]);
    rewrite (bucket_recent _ _ _ _ _ R Mono Hb), Hb; cbn [default from_option id];
    destruct (bucket_skipped _ _ b); cbn [weight]; rewrite ?weight_length, ?weight_failures; auto.
Qed.

(** ** What a window promises the breaker

    The interface [slidingWindow] with its contract: a representation of the
    log under which [record] conses, [reset] empties, and [stats] counts the
    entries [inside_window]. *)
Class WindowSpec (W : Type)
    (w_record : bool -> Z -> W -> W) (w_stats : Z -> W -> Z * Z) (w_reset : W -> W) := {
  rep : W -> list entry -> Prop;
  inside_window : W -> Z -> list entry -> list entry;
  rep_record : forall w l success now,
    rep w l -> (forall x, x ∈ l -> at_epoch x <= Unix now) ->
    rep (w_record success now w) ({| at_epoch := Unix now; failed := negb success |} :: l);
  rep_reset : forall w l, rep w l -> rep (w_reset w) [];
  rep_stats : forall w l now, rep w l -> (forall x, x ∈ l -> at_epoch x <= Unix now) ->
    w_stats now w = (Z.of_nat (length (inside_window w now l)), log_failures (inside_window w now l));
  inside_record : forall w success now, inside_window (w_record success now w) = inside_window w;
  inside_reset : forall w, inside_window (w_reset w) = inside_window w
}.

#[export, refine] Instance countWindow_spec :
  WindowSpec countWindow (fun success _ => count_record success) (fun _ => count_stats) count_reset := {|
  rep := count_rep;
  inside_window w _ l := last_calls (size w) l
|}.
Proof.
  - intros. by apply count_rep_record.
  - apply count_rep_reset.
  - intros w l now R _. unfold count_stats. destruct R as [S _ F _ _ ->]. rewrite F.
    unfold last_calls. rewrite length_take. f_equal. lia.
  - done.
  - done.
Defined.

#[export, refine] Instance timeWindow_spec :
  WindowSpec timeWindow time_record time_stats time_reset := {|
  rep := time_rep;
  inside_window w now l := recent_calls (tsize w) (Unix now) l
|}.
Proof.
  - apply time_rep_record.
  - apply time_rep_reset.
  - apply time_rep_stats.
  - intros. unfold time_record. by destruct (bucketFor w now).
  - done.
Defined.

#[export, refine] Instance slidingWindow_spec : WindowSpec slidingWindow record stats reset := {|
  rep w l := match w with CountWindow w => rep w l | TimeWindow w => rep w l end;
  inside_window w :=
    match w with
    | CountWindow w => inside_window w
    | TimeWindow w => inside_window w
    end
|}.
Proof.
  - intros [w|w]; [exact (rep_record (WindowSpec := countWindow_spec) w)|exact (rep_record w)].
  - intros [w|w]; [exact (rep_reset (WindowSpec := countWindow_spec) w)|exact (rep_reset w)].
  - intros [w|w]; [exact (rep_stats (WindowSpec := countWindow_spec) w)|exact (rep_stats w)].
  - intros [w|w]; [exact (inside_record (WindowSpec := countWindow_spec) w)|exact (inside_record w)].
  - intros [w|w]; [exact (inside_reset (WindowSpec := countWindow_spec) w)|exact (inside_reset w)].
Defined.

(** ** Runs of calls *)

(** Calls, in order: outcome and time. *)
Fixpoint in_order (t : Z) (calls : list (bool * Z)) : Prop :=
  match calls with
  | [] => True
  | c :: calls => t <= c.2 /\ in_order c.2 calls
  end.

(** Their log, newest first. *)
Fixpoint log_of (acc : list entry) (calls : list (bool * Z)) : list entry :=
  match calls with
  | [] => acc
  | c :: calls => log_of ({| at_epoch := Unix c.2; failed := negb c.1 |} :: acc) calls
  end.

Lemma Unix_mono t u : t <= u -> Unix t <= Unix u.
Proof. intros. unfold Unix, Second. apply Z.div_le_mono; lia. Qed.

(** Any window represents the log of the calls recorded in it. *)
Lemma rep_run {W w_record w_stats w_reset} `{Spec : WindowSpec W w_record w_stats w_reset} calls : forall t w l,
  rep w l -> (forall x, x ∈ l -> at_epoch x <= Unix t) -> in_order t calls ->
  let w' := foldl (fun w c => w_record c.1 c.2 w) w calls in
  rep w' (log_of l calls) /\ inside_window w' = inside_window w /\
  (forall now, (forall c, c ∈ calls -> c.2 <= now) -> t <= now ->
     forall x, x ∈ log_of l calls -> at_epoch x <= Unix now).
Proof.
  induction calls as [|c calls IH]; intros t w l R P O.
  - cbn. split; [done|]. split; [done|]. intros now _ L x Hx.
    apply P in Hx. pose proof (Unix_mono _ _ L). lia.
  - destruct O as [L O]. cbn [foldl log_of].
    assert (Pc : forall x, x ∈ l -> at_epoch x <= Unix c.2).
    { intros x Hx. apply P in Hx. pose proof (Unix_mono _ _ L). lia. }
    assert (R' := rep_record w l c.1 c.2 R Pc).
    destruct (IH c.2 _ _ R') as (R2 & I2 & P2); [|done|].
    + intros x. rewrite elem_of_cons. intros [->|Hx]; [done|auto].
    + split; [done|]. split; [by rewrite I2, inside_record|].
      intros now B Ln x Hx. apply (P2 now); [|apply B; left|done]. intros d Hd. apply B. by right.
Qed.

(** The count window ignores time. *)
Lemma count_rep_run calls : forall w l,
  count_rep w l -> let w' := foldl (fun w c => count_record c.1 w) w calls in
  count_rep w' (log_of l calls) /\ size w' = size w.
Proof.
  induction calls as [|c calls IH]; intros w l R; [done|]. cbn [foldl log_of].
  exact (IH (count_record c.1 w) _ (count_rep_record _ _ _ (Unix c.2) R)).
Qed.

(** The count window.  After any sequence of outcomes, [stats] of a window
    of [size] reports how many of the last [size] calls there were, and how
    many of those failed: the circular buffer and its running total lose
    nothing on eviction. *)
Theorem count_window_stats size calls :
  0 < size ->
  count_stats (foldl (fun w c => count_record c.1 w) (newCountWindow size) calls) =
    (Z.of_nat (length (last_calls size (log_of [] calls))),
     log_failures (last_calls size (log_of [] calls))).
Proof.
  intros S. destruct (count_rep_run calls _ _ (count_rep_new size S)) as [[_ _ F _ _ Fl] E].
  cbn in E. unfold count_stats. rewrite F, Fl, E. f_equal. unfold last_calls. rewrite length_take. lia.
Qed.

Lemma count_window_stats_witness :
  count_stats (foldl (fun w c => count_record c.1 w) (newCountWindow 2) [(false, 0); (true, 0); (false, 1)]) = (2, 1).
Proof. rewrite (count_window_stats 2); [reflexivity|lia]. Defined.

(** C34: The time window.  After any sequence of calls in order of time,
    [stats] at a later instant reports how many of them fall in the last
    [size] seconds (counting the current one), and how many of those failed:
    stale laps of the ring are never counted and fresh ones never lost. *)
Theorem time_window_stats size t0 calls now :
  0 < size -> in_order t0 calls -> t0 <= now -> (forall c, c ∈ calls -> c.2 <= now) ->
  time_stats now (foldl (fun w c => time_record c.1 c.2 w) (newTimeWindow size) calls) =
    (Z.of_nat (length (recent_calls size (Unix now) (log_of [] calls))),
     log_failures (recent_calls size (Unix now) (log_of [] calls))).
Proof.
  intros S O L B.
  destruct (rep_run (Spec := timeWindow_spec) calls t0 _ _ (time_rep_new size S)) as (R & I & P);
    [set_solver|done|].
  pose proof (rep_stats (WindowSpec := timeWindow_spec) _ _ now R) as Hs.
  rewrite I in Hs. apply Hs. by apply P.
Qed.

Lemma time_window_stats_witness :
  time_stats (12 * Second)
    (foldl (fun w c => time_record c.1 c.2 w) (newTimeWindow 10) [(false, 0); (false, 5 * Second); (true, 12 * Second)])
    = (2, 1).
Proof.
  rewrite (time_window_stats 10 0); [reflexivity|lia|cbn; unfold Second; lia|unfold Second; lia|].
  intros c. rewrite !elem_of_cons, elem_of_nil. intros [->|[->|[->|[]]]]; cbn; unfold Second; lia.
Defined.
