(* ===== verification/Breaker.v ===== *)
(** The circuit breaker ([circuitbreaker/breaker.go], [config.go], [state.go],
    [predicates.go] and the sliding-window part of [window.go]).

    - The record [breaker] is the struct [circuitBreaker]; its methods that run
      under [cb.mu] are functions on it, in the order of their statements.
    - [Execute] is the protected call as one goroutine runs it.
    - [Module Interleaving] runs any number of goroutines against one
      breaker: the atomic loads of the fast path, the sections under the lock
      and the protected functions interleave freely.

    The channel [stateChanges] is a list bounded by its capacity; a [select]
    with several ready cases takes the next of the run time's [picks].
    The log records are in [Logs], the panics in [Panic]. *)

From S2P Require Import Prelude Float64 Errors Runtime Window.

#[local] Open Scope go_scope.

(** ** [state.go] *)

Inductive State := StateClosed | StateOpen | StateHalfOpen.

#[export] Instance State_eq_dec : EqDecision State.
Proof. solve_decision. Defined.

Definition State_String (s : State) : string :=
  match s with
  | StateClosed => "closed"
  | StateOpen => "open"
  | StateHalfOpen => "half-open"
  end.

(** The fields are uint32. *)
Record Counts := {
  Requests : Z;
  TotalSuccesses : Z;
  TotalFailures : Z;
  ConsecutiveSuccesses : Z;
  ConsecutiveFailures : Z
}.

Definition Counts_onSuccess (c : Counts) : Counts := {|
  Requests := u32 (Requests c + 1);
  TotalSuccesses := u32 (TotalSuccesses c + 1);
  TotalFailures := TotalFailures c;
  ConsecutiveSuccesses := u32 (ConsecutiveSuccesses c + 1);
  ConsecutiveFailures := 0
|}.

Definition Counts_onFailure (c : Counts) : Counts := {|
  Requests := u32 (Requests c + 1);
  TotalSuccesses := TotalSuccesses c;
  TotalFailures := u32 (TotalFailures c + 1);
  ConsecutiveSuccesses := 0;
  ConsecutiveFailures := u32 (ConsecutiveFailures c + 1)
|}.

Definition Counts_reset (c : Counts) : Counts := {|
  Requests := 0; TotalSuccesses := 0; TotalFailures := 0;
  ConsecutiveSuccesses := 0; ConsecutiveFailures := 0
|}.

Definition no_counts : Counts := {|
  Requests := 0; TotalSuccesses := 0; TotalFailures := 0;
  ConsecutiveSuccesses := 0; ConsecutiveFailures := 0
|}.

(** ** [predicates.go] *)

Definition DefaultFailuresToTrip : Z := 5.

Definition clampToUint32 (n : Z) : Z :=
  if n <? 1 then 1 else if n >? MaxUint32 then MaxUint32 else u32 n.

Definition TripOnConsecutiveFailures (n : Z) : Counts -> bool :=
  let threshold := clampToUint32 n in
  fun counts => ConsecutiveFailures counts >=? threshold.

Definition TripOnFailureRatio (r : f64) (minRequests : Z) : Counts -> bool :=
  let r := if isNaN r || fltb r (f_of_Z 0) then f_of_Z 0
           else if fltb (f_of_Z 1) r then f_of_Z 1 else r in
  let minCalls := clampToUint32 minRequests in
  fun counts =>
    if (Requests counts <? minCalls) || (Requests counts =? 0) then false
    else fleb r (fdiv (f_of_Z (TotalFailures counts)) (f_of_Z (Requests counts))).

(** ** [config.go] *)

(** An [int] type in Go, hence the last case. *)
Inductive SlidingWindowType :=
| SlidingWindowDisabled
| SlidingWindowCount
| SlidingWindowTime
| SlidingWindowUnknown (n : Z).

#[export] Instance SlidingWindowType_eq_dec : EqDecision SlidingWindowType.
Proof. solve_decision. Defined.

(** A nil function is [None]; of [OnStateChange] only its presence matters
    to the breaker. *)
Record Config := {
  ReadyToTrip : option (Counts -> bool);
  OnStateChange : bool;
  IsSuccessful : option (option error -> bool);
  Interval : Z;
  Timeout : Z;
  MaxRequests : Z;
  WindowType : SlidingWindowType;
  SlidingWindowSize : Z;
  MinimumCalls : Z;
  FailureRateThreshold : f64
}.

Definition DefaultCountWindowSize : Z := 100.
Definition DefaultTimeWindowSeconds : Z := 60.
Definition DefaultMinimumCalls : Z := 10.
Definition DefaultFailureRateThreshold : f64 := f_ratio 1 2.
Definition MaxSlidingWindowSize : Z := 1000000.

(** [Config.normalizeSlidingWindow]. *)
Definition with_window (c : Config) (t : SlidingWindowType) (size minimum : Z) (rate : f64) : Config := {|
  ReadyToTrip := ReadyToTrip c; OnStateChange := OnStateChange c; IsSuccessful := IsSuccessful c;
  Interval := Interval c; Timeout := Timeout c; MaxRequests := MaxRequests c;
  WindowType := t; SlidingWindowSize := size; MinimumCalls := minimum; FailureRateThreshold := rate
|}.

Definition normalizeSlidingWindow (c : Config) : Config :=
  match WindowType c with
  | SlidingWindowDisabled => c
  | SlidingWindowUnknown _ =>
      with_window c SlidingWindowDisabled (SlidingWindowSize c) (MinimumCalls c) (FailureRateThreshold c)
  | SlidingWindowCount | SlidingWindowTime =>
      let is_count := bool_decide (WindowType c = SlidingWindowCount) in
      let size :=
        if SlidingWindowSize c <=? 0
        then if is_count then DefaultCountWindowSize else DefaultTimeWindowSeconds
        else SlidingWindowSize c in
      let size := if size >? MaxSlidingWindowSize then MaxSlidingWindowSize else size in
      let minimum := if MinimumCalls c <=? 0 then DefaultMinimumCalls else MinimumCalls c in
      let minimum := if is_count && (minimum >? size) then size else minimum in
      let rate :=
        if fleb (FailureRateThreshold c) (f_of_Z 0) || fltb (f_of_Z 1) (FailureRateThreshold c)
        then DefaultFailureRateThreshold else FailureRateThreshold c in
      with_window c (WindowType c) size minimum rate
  end.

Definition setDefaults (c : Config) : Config :=
  normalizeSlidingWindow {|
    MaxRequests := if MaxRequests c =? 0 then 1 else MaxRequests c;
    Timeout := if Timeout c <=? 0 then 60 * Second else Timeout c;
    Interval := if Interval c <? 0 then 0 else Interval c;
    ReadyToTrip :=
      match ReadyToTrip c with
      | None => Some (TripOnConsecutiveFailures DefaultFailuresToTrip)
      | Some f => Some f
      end;
    IsSuccessful :=
      match IsSuccessful c with
      | None => Some (fun err => bool_decide (err = None))
      | Some f => Some f
      end;
    OnStateChange := OnStateChange c;
    WindowType := WindowType c; SlidingWindowSize := SlidingWindowSize c;
    MinimumCalls := MinimumCalls c; FailureRateThreshold := FailureRateThreshold c
  |}.

(** ** [window.go]: the window of a configuration *)

Definition newSlidingWindow (c : Config) : option slidingWindow :=
  match WindowType c with
  | SlidingWindowCount => Some (CountWindow (newCountWindow (SlidingWindowSize c)))
  | SlidingWindowTime => Some (TimeWindow (newTimeWindow (SlidingWindowSize c)))
  | SlidingWindowDisabled | SlidingWindowUnknown _ => None
  end.

(** ** The breaker *)

Record stateChange := { from_state : State; to_state : State }.

Definition stateChangeBufferSize : nat := 64.

Record breaker := {
  config : Config;
  state : State;
  generation : Z; (* uint64 *)
  counts : Counts;
  expiry : Z;
  halfOpenStart : Z;
  window : option slidingWindow;
  (* the atomic mirrors *)
  fastState : State;
  fastExpiry : Z;
  fastGen : Z;
  (* nil unless OnStateChange is set *)
  stateChanges : option (list stateChange);
  done : bool;
  (* the run time's choices among ready select cases: true for the send *)
  picks : list bool
}.

Definition set_counts (c : Counts) (cb : breaker) : breaker :=
  {|
     config := config cb; state := state cb; generation := generation cb;
     counts := c; expiry := expiry cb; halfOpenStart := halfOpenStart cb;
     window := window cb; fastState := fastState cb; fastExpiry :=
     fastExpiry cb; fastGen := fastGen cb; stateChanges := stateChanges cb;
     done := done cb; picks := picks cb |}.

Definition set_expiry (e : Z) (cb : breaker) : breaker :=
  {|
     config := config cb; state := state cb; generation := generation cb;
     counts := counts cb; expiry := e; halfOpenStart := halfOpenStart cb;
     window := window cb; fastState := fastState cb; fastExpiry :=
     fastExpiry cb; fastGen := fastGen cb; stateChanges := stateChanges cb;
     done := done cb; picks := picks cb |}.

Definition set_halfOpenStart (t : Z) (cb : breaker) : breaker :=
  {|
     config := config cb; state := state cb; generation := generation cb;
     counts := counts cb; expiry := expiry cb; halfOpenStart := t; window :=
     window cb; fastState := fastState cb; fastExpiry := fastExpiry cb;
     fastGen := fastGen cb; stateChanges := stateChanges cb; done := done
     cb; picks := picks cb |}.

Definition set_window (w : option slidingWindow) (cb : breaker) : breaker :=
  {|
     config := config cb; state := state cb; generation := generation cb;
     counts := counts cb; expiry := expiry cb; halfOpenStart :=
     halfOpenStart cb; window := w; fastState := fastState cb; fastExpiry :=
     fastExpiry cb; fastGen := fastGen cb; stateChanges := stateChanges cb;
     done := done cb; picks := picks cb |}.

Definition enter (s : State) (cb : breaker) : breaker :=
  {|
     config := config cb; state := s; generation := u64 (generation cb + 1);
     counts := Counts_reset (counts cb); expiry := expiry cb; halfOpenStart
     := halfOpenStart cb; window := reset <$> window cb; fastState :=
     fastState cb; fastExpiry := fastExpiry cb; fastGen := fastGen cb;
     stateChanges := stateChanges cb; done := done cb; picks := picks cb |}.

Definition set_queue (q : list stateChange) (p : list bool) (cb : breaker) : breaker :=
  {|
     config := config cb; state := state cb; generation := generation cb;
     counts := counts cb; expiry := expiry cb; halfOpenStart :=
     halfOpenStart cb; window := window cb; fastState := fastState cb;
     fastExpiry := fastExpiry cb; fastGen := fastGen cb; stateChanges :=
     Some q; done := done cb; picks := p |}.

Definition syncFastFields (cb : breaker) : breaker :=
  {|
     config := config cb; state := state cb; generation := generation cb;
     counts := counts cb; expiry := expiry cb; halfOpenStart :=
     halfOpenStart cb; window := window cb; fastState := state cb;
     fastExpiry := UnixNano (expiry cb); fastGen := generation cb;
     stateChanges := stateChanges cb; done := done cb; picks := picks cb |}.

Definition Close (cb : breaker) : breaker :=
  {|
     config := config cb; state := state cb; generation := generation cb;
     counts := counts cb; expiry := expiry cb; halfOpenStart :=
     halfOpenStart cb; window := window cb; fastState := fastState cb;
     fastExpiry := fastExpiry cb; fastGen := fastGen cb; stateChanges :=
     stateChanges cb; done := true; picks := picks cb |}.

(** [emitStateChange]: a non-blocking send.  With room in the buffer and
    [done] closed both cases are ready. *)
Definition emitStateChange (from to : State) (cb : breaker) : breaker :=
  match stateChanges cb with
  | None => cb
  | Some q =>
      let ev := {| from_state := from; to_state := to |} in
      if (length q <? stateChangeBufferSize)%nat then
        if done cb then
          match picks cb with
          | false :: ps => set_queue q ps cb
          | true :: ps => set_queue (q ++ [ev]) ps cb
          | [] => set_queue (q ++ [ev]) [] cb
          end
        else set_queue (q ++ [ev]) (picks cb) cb
      else cb
  end.

(** [enter] (above) is the part of [setState] and [Reset] common to every
    target: the new state, the next generation, empty counts and window. *)
Definition setState (newState : State) (now : Z) (cb : breaker) : breaker :=
  if bool_decide (state cb = newState) then cb
  else
    let oldState := state cb in
    let cb := enter newState cb in
    let cb :=
      match newState with
      | StateClosed => set_expiry (now + Interval (config cb)) cb
      | StateOpen => set_expiry (now + Timeout (config cb)) cb
      | StateHalfOpen => set_halfOpenStart now cb
      end in
    let cb := syncFastFields cb in
    emitStateChange oldState newState cb.

(** [currentState] updates the breaker; its result is the [state] and the
    [generation] it leaves. *)
Definition currentState (now : Z) (cb : breaker) : breaker :=
  match state cb with
  | StateClosed =>
      if (Interval (config cb) >? 0) && (expiry cb <? now) then
        syncFastFields (set_expiry (now + Interval (config cb)) (set_counts (Counts_reset (counts cb)) cb))
      else cb
  | StateOpen => if expiry cb <? now then setState StateHalfOpen now cb else cb
  | StateHalfOpen => cb
  end.

(** The window's answer; [float64(failures)/float64(calls)]. *)
Definition windowTrips (now : Z) (w : slidingWindow) (cb : breaker) : bool :=
  let '(calls, failures) := stats now w in
  if calls <? MinimumCalls (config cb) then false
  else fleb (FailureRateThreshold (config cb)) (fdiv (f_of_Z failures) (f_of_Z calls)).

(** Dispatch through a function field; a nil one would panic, and
    [setDefaults] leaves none. *)
Definition ready_to_trip (c : Config) (counts : Counts) : bool :=
  match ReadyToTrip c with Some f => f counts | None => false end.

Definition is_successful (c : Config) (err : option error) : bool :=
  match IsSuccessful c with Some f => f err | None => false end.

Definition onSuccess (st : State) (now : Z) (cb : breaker) : breaker :=
  match st with
  | StateClosed =>
      let cb := set_counts (Counts_onSuccess (counts cb)) cb in
      match window cb with
      | None => cb
      | Some w =>
          let w := record true now w in
          let cb := set_window (Some w) cb in
          if windowTrips now w cb then setState StateOpen now cb else cb
      end
  | StateHalfOpen =>
      let cb := set_counts (Counts_onSuccess (counts cb)) cb in
      if ConsecutiveSuccesses (counts cb) >=? MaxRequests (config cb)
      then setState StateClosed now cb else cb
  | StateOpen => cb
  end.

Definition onFailure (st : State) (now : Z) (cb : breaker) : breaker :=
  match st with
  | StateClosed =>
      let cb := set_counts (Counts_onFailure (counts cb)) cb in
      match window cb with
      | Some w =>
          let w := record false now w in
          let cb := set_window (Some w) cb in
          if windowTrips now w cb then setState StateOpen now cb else cb
      | None =>
          if ready_to_trip (config cb) (counts cb) then setState StateOpen now cb else cb
      end
  | StateHalfOpen => setState StateOpen now cb
  | StateOpen => cb
  end.

Definition openError (st : State) (now : Z) (cb : breaker) : error :=
  let retryAfter :=
    if bool_decide (st = StateOpen) && (now <? expiry cb) then time_Sub (expiry cb) now else 0 in
  ECircuitOpen {|
    coe_Name := "";
    coe_State := State_String st;
    coe_RetryAfter := retryAfter;
    coe_TotalRequests := Requests (counts cb);
    coe_TotalFailures := TotalFailures (counts cb);
    coe_ConsecutiveFailures := ConsecutiveFailures (counts cb);
    coe_ConsecutiveSuccesses := ConsecutiveSuccesses (counts cb)
  |}.

(** The generation, or the error, and the new breaker. *)
Definition beforeRequest (now : Z) (cb : breaker) : (Z * option error) * breaker :=
  let cb := currentState now cb in
  if bool_decide (state cb = StateOpen) then ((generation cb, Some (openError (state cb) now cb)), cb)
  else if bool_decide (state cb = StateHalfOpen) && (Requests (counts cb) >=? MaxRequests (config cb))
  then ((generation cb, Some (openError (state cb) now cb)), cb)
  else ((generation cb, None), cb).

Definition afterRequest (gen : Z) (success : bool) (now : Z) (cb : breaker) : breaker :=
  let cb := currentState now cb in
  if negb (gen =? generation cb) then cb
  else if success then onSuccess (state cb) now cb
  else onFailure (state cb) now cb.

(** The fast path, when nothing happens between its loads. *)
Definition fastAdmit (now : Z) (cb : breaker) : option Z :=
  if negb (bool_decide (fastState cb = StateClosed)) then None
  else if (Interval (config cb) >? 0) && (UnixNano now >=? fastExpiry cb) then None
  else if negb (bool_decide (fastState cb = StateClosed)) then None
  else Some (fastGen cb).

(** [State] runs [currentState], and with it its transitions. *)
Definition State_method (now : Z) (cb : breaker) : State * breaker :=
  let cb := currentState now cb in (state cb, cb).

Definition Reset (now : Z) (cb : breaker) : breaker :=
  let prev := state cb in
  let cb := enter StateClosed cb in
  let cb := set_expiry (now + Interval (config cb)) cb in
  let cb := syncFastFields cb in
  emitStateChange prev StateClosed cb.

Definition New (c : Config) (now : Z) (picks : list bool) : breaker :=
  let callerSetReadyToTrip := match ReadyToTrip c with Some _ => true | None => false end in
  let c := setDefaults c in
  let usesWindow := negb callerSetReadyToTrip && negb (bool_decide (WindowType c = SlidingWindowDisabled)) in
  let expiry := now + Interval c in
  {| config := c; state := StateClosed; generation := 0; counts := no_counts;
     expiry := expiry; halfOpenStart := zero_time;
     window := if usesWindow then newSlidingWindow c else None;
     fastState := StateClosed; fastExpiry := UnixNano expiry; fastGen := 0;
     stateChanges := if OnStateChange c then Some [] else None;
     done := false; picks := picks |}.

(** One iteration of [dispatchStateChanges]: the event delivered to
    [OnStateChange], or [None] when the dispatcher exits; blocks ([None] of
    the outer option) while there is neither. *)
Definition dispatchStateChanges (cb : breaker) : option (option stateChange * breaker) :=
  match stateChanges cb, done cb with
  | Some (ev :: q), false => Some (Some ev, set_queue q (picks cb) cb)
  | Some (ev :: q), true =>
      match picks cb with
      | false :: ps => Some (None, set_queue (ev :: q) ps cb)
      | _ :: ps => Some (Some ev, set_queue q ps cb)
      | [] => Some (Some ev, set_queue q [] cb)
      end
  | Some [], true => Some (None, cb)
  | _, _ => None
  end.

(** ** [Execute] *)

Section Execute.
Context {W T : Type} `{Has W breaker} (zero : T).

(** A section under [cb.mu] that starts by reading the clock. *)
Definition locked {A} (f : Z -> breaker -> A * breaker) : M W A := fun w =>
  let w := tick w in
  let r := f (clock w) (get w) in
  (r.1, put r.2 w).

Definition fastAdmit_M : M W (option Z) := locked (fun now cb => (fastAdmit now cb, cb)).

Definition isSuccessful_M (err : option error) : M W bool := fun w =>
  (is_successful (config (get w)) err, w).

Definition finish (gen : Z) (r : result T) : M W (result T) :=
  let! success := isSuccessful_M r.2 in
  locked (fun now cb => (tt, afterRequest gen success now cb)) ;;;
  ret r.

Definition Execute (c : ctx) (fn : Fn W T) : M W (result T) :=
  let! e := err_of c in
  match e with
  | Some err => ret (zero, Some err)
  | None =>
      let! admitted := fastAdmit_M in
      match admitted with
      | Some gen =>
          let! r := fn c in
          finish gen r
      | None =>
          let! p := locked beforeRequest in
          match p with
          | (_, Some err) => ret (zero, Some err)
          | (gen, None) =>
              let! r := fn c in
              finish gen r
          end
      end
  end.
End Execute.

(** ** The specification

    What the breaker promises, without mirrors, generations, counters or
    windows: [Closed] remembers the outcomes since its counts were last
    cleared and those since its window was, [HalfOpen] the number of
    successful trials.  A [policy] is the configuration and, when a sliding
    window governs tripping, the part of the log it looks at. *)

Record policy := {
  p_config : Config;
  p_inside : option (Z -> list entry -> list entry)
}.

Inductive spec :=
| SClosed (since wlog : list entry) (until : Z)
| SOpen (until : Z)
| SHalfOpen (trials : Z).

(** The counters as a function of the outcomes, newest first. *)
Definition counts_of (l : list entry) : Counts :=
  foldr (fun x c => if failed x then Counts_onFailure c else Counts_onSuccess c) no_counts l.

Definition rate_trips (c : Config) (l : list entry) : bool :=
  let n := Z.of_nat (length l) in
  if n <? MinimumCalls c then false
  else fleb (FailureRateThreshold c) (fdiv (f_of_Z (log_failures l)) (f_of_Z n)).

Definition spec_trips (p : policy) (success : bool) (now : Z) (since wlog : list entry) : bool :=
  match p_inside p with
  | Some inside => rate_trips (p_config p) (inside now wlog)
  | None => negb success && ready_to_trip (p_config p) (counts_of since)
  end.

(** The passing of time. *)
Definition spec_now (p : policy) (now : Z) (s : spec) : spec :=
  match s with
  | SClosed since wlog until =>
      if (Interval (p_config p) >? 0) && (until <? now)
      then SClosed [] wlog (now + Interval (p_config p)) else s
  | SOpen until => if until <? now then SHalfOpen 0 else s
  | SHalfOpen _ => s
  end.

(** A call of the current generation completes. *)
Definition spec_complete (p : policy) (success : bool) (now : Z) (s : spec) : spec :=
  match spec_now p now s with
  | SClosed since wlog until =>
      let e := {| at_epoch := Unix now; failed := negb success |} in
      if spec_trips p success now (e :: since) (e :: wlog)
      then SOpen (now + Timeout (p_config p))
      else SClosed (e :: since) (e :: wlog) until
  | SOpen until => SOpen until
  | SHalfOpen k =>
      if success
      then if k + 1 >=? MaxRequests (p_config p)
           then SClosed [] [] (now + Interval (p_config p)) else SHalfOpen (k + 1)
      else SOpen (now + Timeout (p_config p))
  end.

Definition spec_reset (p : policy) (now : Z) : spec := SClosed [] [] (now + Interval (p_config p)).

Definition spec_state (s : spec) : State :=
  match s with
  | SClosed _ _ _ => StateClosed
  | SOpen _ => StateOpen
  | SHalfOpen _ => StateHalfOpen
  end.

Definition window_log (s : spec) : list entry :=
  match s with SClosed _ wlog _ => wlog | _ => [] end.

(** The log has no entry from the future. *)
Definition past (now : Z) (s : spec) : Prop := forall x, x ∈ window_log s -> at_epoch x <= Unix now.

(** ** The refinement relation *)

Definition trial_counts (k : Z) : Counts := {|
  Requests := k; TotalSuccesses := k; TotalFailures := 0;
  ConsecutiveSuccesses := k; ConsecutiveFailures := 0
|}.

Definition spec_counts (s : spec) : Counts :=
  match s with
  | SClosed since _ _ => counts_of since
  | SOpen _ => no_counts
  | SHalfOpen k => trial_counts k
  end.

Definition in_sync (cb : breaker) : Prop :=
  fastState cb = state cb /\ fastExpiry cb = UnixNano (expiry cb) /\ fastGen cb = generation cb.

Definition config_ok (c : Config) : Prop :=
  1 <= MaxRequests c < 2 ^ 32 /\ 0 < Timeout c /\ 0 <= Interval c.

Definition window_refines (p : policy) (w : option slidingWindow) (l : list entry) : Prop :=
  match w, p_inside p with
  | Some w, Some inside => inside_window w = inside /\ rep w l
  | None, None => True
  | _, _ => False
  end.

Record refines (p : policy) (cb : breaker) (s : spec) : Prop := {
  rf_config : config cb = p_config p;
  rf_ok : config_ok (p_config p);
  rf_sync : in_sync cb;
  rf_state : state cb = spec_state s;
  rf_counts : counts cb = spec_counts s;
  rf_window : window_refines p (window cb) (window_log s);
  rf_expiry : match s with
              | SClosed _ _ until | SOpen until => expiry cb = until
              | SHalfOpen k => 0 <= k < MaxRequests (p_config p)
              end;
  rf_queue : match stateChanges cb with None => True | Some q => (length q <= stateChangeBufferSize)%nat end
}.

(** *** The operations preserve it *)

(** [emitStateChange] touches the queue only. *)
Definition with_queue (q : option (list stateChange)) (p : list bool) (cb : breaker) : breaker :=
  {| config := config cb; state := state cb; generation := generation cb; counts := counts cb;
     expiry := expiry cb; halfOpenStart := halfOpenStart cb; window := window cb;
     fastState := fastState cb; fastExpiry := fastExpiry cb; fastGen := fastGen cb;
     stateChanges := q; done := done cb; picks := p |}.

Definition queue_ok (q : option (list stateChange)) : Prop :=
  match q with None => True | Some q => (length q <= stateChangeBufferSize)%nat end.

Lemma emit_frame from to cb : exists q p,
  emitStateChange from to cb = with_queue q p cb /\ (queue_ok (stateChanges cb) -> queue_ok q).
Proof.
  unfold emitStateChange. destruct (stateChanges cb) as [q|] eqn:E.
  - destruct (Nat.ltb_spec (length q) stateChangeBufferSize).
    + assert (length (q ++ [{| from_state := from; to_state := to |}]) <= stateChangeBufferSize)%nat
        by (rewrite length_app; cbn; lia).
      destruct (done cb), (picks cb) as [|[] ?]; do 2 eexists; split; try reflexivity; cbn in *; done.
    + exists (Some q), (picks cb). split; [by rewrite <- E; destruct cb|done].
  - exists None, (picks cb). split; [by rewrite <- E; destruct cb|done].
Qed.

(** Expose the breaker an operation leaves. *)
Ltac expose_emit :=
  match goal with
  | |- context [emitStateChange ?a ?b ?cb] =>
      let q := fresh "q" in let ps := fresh "ps" in let Hq := fresh "Hq" in
      destruct (emit_frame a b cb) as (q & ps & -> & Hq)
  end.

Lemma window_refines_reset p w l : window_refines p w l -> window_refines p (reset <$> w) [].
Proof.
  unfold window_refines. destruct w as [w|], (p_inside p); cbn [fmap option_fmap option_map]; try done.
  intros [<- R]. split; [apply (inside_reset w)|by eapply rep_reset].
Qed.

Lemma window_refines_record p w l success now :
  window_refines p (Some w) l -> (forall x, x ∈ l -> at_epoch x <= Unix now) ->
  window_refines p (Some (record success now w)) ({| at_epoch := Unix now; failed := negb success |} :: l).
Proof.
  unfold window_refines. destruct (p_inside p); [|done]. intros [<- R] P.
  split; [apply (inside_record w)|by apply (rep_record w)].
Qed.

(** The specification's state that [setState] enters. *)
Definition spec_enter (p : policy) (target : State) (now : Z) : spec :=
  match target with
  | StateClosed => SClosed [] [] (now + Interval (p_config p))
  | StateOpen => SOpen (now + Timeout (p_config p))
  | StateHalfOpen => SHalfOpen 0
  end.

Lemma setState_refines p cb l target now :
  config cb = p_config p -> config_ok (p_config p) -> state cb <> target ->
  window_refines p (window cb) l -> queue_ok (stateChanges cb) ->
  refines p (setState target now cb) (spec_enter p target now).
Proof.
  intros C [K1 K2] Hne Wr Q. unfold setState. rewrite bool_decide_eq_false_2 by done.
  apply window_refines_reset in Wr.
  destruct target; expose_emit; cbn in *; split; cbn; rewrite ?C; auto; try done; try lia;
    by apply Hq.
Qed.

Lemma currentState_refines p cb s now :
  refines p cb s -> refines p (currentState now cb) (spec_now p now s).
Proof.
  intros R. pose proof R as [C K (S1 & S2 & S3) St Cn Wr Ex Q]. unfold currentState.
  destruct s as [since wlog until|until|k]; cbn in *; rewrite St; cbn.
  - rewrite C, Ex. destruct ((Interval (p_config p) >? 0) && (until <? now)); [|done].
    split; cbn; rewrite ?C; auto. done.
  - rewrite Ex. destruct (until <? now); [|done].
    apply (setState_refines p cb []); auto. by rewrite St.
  - done.
Qed.

Lemma past_now p now s : past now s -> past now (spec_now p now s).
Proof. unfold past. destruct s; cbn; cases; done. Qed.

Lemma windowTrips_rate p cb w l now :
  config cb = p_config p -> window_refines p (Some w) l -> (forall x, x ∈ l -> at_epoch x <= Unix now) ->
  exists inside, p_inside p = Some inside /\ windowTrips now w cb = rate_trips (p_config p) (inside now l).
Proof.
  intros C Wr P. unfold window_refines in Wr. destruct (p_inside p) as [inside|]; [|done].
  destruct Wr as [<- R]. exists (inside_window w). split; [done|].
  unfold windowTrips, rate_trips. by rewrite (rep_stats w l now R P), C.
Qed.

Lemma past_cons now success l :
  (forall x, x ∈ l -> at_epoch x <= Unix now) ->
  forall x, x ∈ {| at_epoch := Unix now; failed := negb success |} :: l -> at_epoch x <= Unix now.
Proof. intros P x. rewrite elem_of_cons. intros [->|Hx]; [done|auto]. Qed.

(** A closed breaker records an outcome: the common shape of [onSuccess] and
    [onFailure] there. *)
Lemma closed_record_refines p cb since wlog until success now :
  refines p cb (SClosed since wlog until) -> past now (SClosed since wlog until) ->
  let e := {| at_epoch := Unix now; failed := negb success |} in
  refines p ((if success then onSuccess else onFailure) StateClosed now cb)
    (if spec_trips p success now (e :: since) (e :: wlog)
     then SOpen (now + Timeout (p_config p)) else SClosed (e :: since) (e :: wlog) until).
Proof.
  intros [C K (S1 & S2 & S3) St Cn Wr Ex Q] P e. cbn in *.
  assert (Pe := past_cons now success wlog P). fold e in Pe.
  destruct (window cb) as [w|] eqn:Ew.
  - assert (Wr1 := window_refines_record _ _ _ success now Wr P). fold e in Wr1.
    set (cb1 := if success then set_counts (Counts_onSuccess (counts cb)) cb
                else set_counts (Counts_onFailure (counts cb)) cb).
    set (cb2 := set_window (Some (record success now w)) cb1).
    assert (C2 : config cb2 = p_config p) by (by destruct success).
    destruct (windowTrips_rate p cb2 (record success now w) (e :: wlog) now C2 Wr1 Pe) as (inside & Hi & Ht).
    replace ((if success then onSuccess else onFailure) StateClosed now cb)
      with (if windowTrips now (record success now w) cb2 then setState StateOpen now cb2 else cb2)
      by (destruct success; cbn; by rewrite Ew).
    unfold spec_trips. rewrite Ht, Hi. destruct (rate_trips _ _).
    + apply (setState_refines p _ (e :: wlog)); auto; destruct success; cbn; auto; by rewrite St.
    + destruct success; split; cbn; rewrite ?Cn; auto; done.
  - assert (Wn : p_inside p = None) by (unfold window_refines in Wr; by destruct (p_inside p)).
    unfold spec_trips. rewrite Wn. destruct success; cbn; rewrite Ew; cbn [negb andb].
    + split; cbn; rewrite ?Cn; auto; try done. unfold window_refines. by rewrite Ew, Wn.
    + rewrite Cn, C. change (Counts_onFailure (counts_of since)) with (counts_of (e :: since)).
      destruct (ready_to_trip _ _).
      * apply (setState_refines p _ []); cbn; auto; try (by rewrite St).
        unfold window_refines. by rewrite Ew, Wn.
      * split; cbn; rewrite ?Cn; auto; try done. unfold window_refines. by rewrite Ew, Wn.
Qed.

(** Whatever the generation: an outcome of the current one is recorded, any
    other one is dropped. *)
Lemma afterRequest_spec p cb s gen success now :
  refines p cb s -> past now s ->
  refines p (afterRequest gen success now cb)
    (if gen =? generation (currentState now cb) then spec_complete p success now s else spec_now p now s).
Proof.
  intros R0 P0. unfold afterRequest, spec_complete.
  pose proof (currentState_refines _ _ _ now R0) as R. pose proof (past_now p _ _ P0) as P.
  destruct (gen =? generation (currentState now cb)); cbn [negb]; [|done].
  rewrite (rf_state _ _ _ R). destruct (spec_now p now s) as [since wlog until|until|k]; cbn [spec_state].
  - pose proof (closed_record_refines _ _ _ _ _ success now R P). by destruct success.
  - by destruct success.
  - pose proof R as [C K (S1 & S2 & S3) St Cn Wr Ex Q]. cbn [spec_state spec_counts window_log] in *.
    destruct K as (K1 & K2 & K3). destruct success; unfold onSuccess, onFailure.
    + cbn [set_counts counts config]. rewrite C, Cn. unfold Counts_onSuccess.
      cbn [trial_counts Requests TotalSuccesses TotalFailures ConsecutiveSuccesses ConsecutiveFailures].
      rewrite (u32_small (k + 1)) by lia. rewrite Z.geb_leb. destruct (Z.leb_spec (MaxRequests (p_config p)) (k + 1)).
      * apply (setState_refines p _ []); cbn; auto; [done|by rewrite St].
      * split; cbn; auto; try done. lia.
    + apply (setState_refines p _ []); auto; [done|by rewrite St].
Qed.

Lemma Reset_refines p cb s now : refines p cb s -> refines p (Reset now cb) (spec_reset p now).
Proof.
  intros [C K (S1 & S2 & S3) St Cn Wr Ex Q]. unfold Reset. apply window_refines_reset in Wr.
  expose_emit. split; cbn; rewrite ?C; auto; try done. by apply Hq.
Qed.

(** *** The initial state *)

Definition policy_of (c : Config) : policy :=
  let d := setDefaults c in {|
    p_config := d;
    p_inside :=
      match ReadyToTrip c, WindowType d with
      | None, SlidingWindowCount => Some (fun _ l => last_calls (SlidingWindowSize d) l)
      | None, SlidingWindowTime => Some (fun now l => recent_calls (SlidingWindowSize d) (Unix now) l)
      | _, _ => None
      end
  |}.

(** What [normalizeSlidingWindow] establishes. *)
Record window_config_ok (c : Config) : Prop := {
  wc_type : WindowType c = SlidingWindowCount \/ WindowType c = SlidingWindowTime;
  wc_size : 1 <= SlidingWindowSize c <= MaxSlidingWindowSize;
  wc_min : 1 <= MinimumCalls c;
  wc_reach : WindowType c = SlidingWindowCount -> MinimumCalls c <= SlidingWindowSize c;
  wc_rate : isNaN (FailureRateThreshold c) = true \/
            fltb (f_of_Z 0) (FailureRateThreshold c) = true /\ fleb (FailureRateThreshold c) (f_of_Z 1) = true
}.

Lemma fleb_false_fltb x y : isNaN x = false -> isNaN y = false -> fleb x y = false -> fltb y x = true.
Proof.
  intros Nx Ny L. destruct (fltb y x) eqn:E; [done|].
  rewrite (fltb_false_le x y Nx Ny E) in L. done.
Qed.

Lemma normalize_ok c :
  WindowType (normalizeSlidingWindow c) = SlidingWindowDisabled \/
  window_config_ok (normalizeSlidingWindow c).
Proof.
  unfold normalizeSlidingWindow. destruct (WindowType c) eqn:E; [by left| | |by left]; right.
  all: match goal with |- context [bool_decide ?P] =>
         let b := eval vm_compute in (bool_decide P) in change (bool_decide P) with b end.
  all: cbn [andb]; unfold DefaultCountWindowSize, DefaultTimeWindowSeconds, DefaultMinimumCalls, MaxSlidingWindowSize.
  all: split; cbn [with_window WindowType SlidingWindowSize MinimumCalls FailureRateThreshold]; auto;
    try (intros; first [discriminate|unfold MaxSlidingWindowSize; zcases; lia]).
  all: destruct (isNaN (FailureRateThreshold c)) eqn:N;
    [destruct (FailureRateThreshold c); try done; by left|right].
  all: destruct (fleb (FailureRateThreshold c) (f_of_Z 0)) eqn:E1; cbn [orb]; [by split; vm_compute|].
  all: destruct (fltb (f_of_Z 1) (FailureRateThreshold c)) eqn:E2; [by split; vm_compute|].
  all: split; [by apply fleb_false_fltb|by apply fltb_false_le].
Qed.

Lemma setDefaults_ok c : 0 <= MaxRequests c < 2 ^ 32 -> config_ok (setDefaults c).
Proof.
  intros R. assert (F : forall d, MaxRequests (normalizeSlidingWindow d) = MaxRequests d /\
    Timeout (normalizeSlidingWindow d) = Timeout d /\ Interval (normalizeSlidingWindow d) = Interval d).
  { intros d. unfold normalizeSlidingWindow. by destruct (WindowType d). }
  unfold config_ok, setDefaults.
  match goal with |- context [normalizeSlidingWindow ?d] => destruct (F d) as (-> & -> & ->) end.
  cbn. unfold Second. zcases; lia.
Qed.

Lemma setDefaults_window c :
  WindowType (setDefaults c) = SlidingWindowDisabled \/ window_config_ok (setDefaults c).
Proof. apply normalize_ok. Qed.

Lemma New_refines c now ps :
  0 <= MaxRequests c < 2 ^ 32 ->
  refines (policy_of c) (New c now ps) (SClosed [] [] (now + Interval (setDefaults c))).
Proof.
  intros R. split; try done.
  - by apply setDefaults_ok.
  - cbn [New window window_log]. unfold window_refines, newSlidingWindow, policy_of. cbn [p_inside].
    destruct (ReadyToTrip c); [done|]. cbn [negb andb].
    destruct (setDefaults_window c) as [->|[Ty Sz _ _ _]]; [done|].
    destruct Ty as [-> | ->]; (rewrite bool_decide_eq_false_2 by done); split; try done.
    + apply count_rep_new. lia.
    + apply time_rep_new. lia.
  - cbn [New stateChanges]. destruct (OnStateChange _); [apply Nat.le_0_l|done].
Qed.
