(* ===== verification/BreakerSpec.v ===== *)
(** The circuit breaker against its specification: sequences of operations
    ([breaker_simulates_spec] and its consequences for the trip policies,
    half-open recovery and rejection), the protected call [Execute], and
    [Module Interleaving], any number of goroutines sharing one breaker. *)

From S2P Require Import Prelude Float64 Errors Runtime Window Breaker.

#[local] Open Scope go_scope.

(** ** Sequences of operations *)

Inductive op :=
| OpBefore (now : Z)
| OpAfter (gen : Z) (success : bool) (now : Z)
| OpState (now : Z)
| OpReset (now : Z).

Inductive out :=
| OutAdmit (gen : Z)
| OutReject (e : error)
| OutState (s : State)
| OutNone.

Definition op_time (o : op) : Z :=
  match o with OpBefore t | OpAfter _ _ t | OpState t | OpReset t => t end.

Definition breaker_op (o : op) (cb : breaker) : out * breaker :=
  match o with
  | OpBefore now =>
      let '((gen, err), cb) := beforeRequest now cb in
      (match err with None => OutAdmit gen | Some e => OutReject e end, cb)
  | OpAfter gen success now => (OutNone, afterRequest gen success now cb)
  | OpState now => let '(s, cb) := State_method now cb in (OutState s, cb)
  | OpReset now => (OutNone, Reset now cb)
  end.

(** The specification numbers its states: a change of state starts a new
    generation. *)
Definition next_gen (g : Z) (s s' : spec) : Z :=
  if bool_decide (spec_state s = spec_state s') then g else u64 (g + 1).

(** A rejection says when to come back; it has no counts to report. *)
Definition rejection (until now : Z) : error :=
  ECircuitOpen {|
    coe_Name := ""; coe_State := "open";
    coe_RetryAfter := if now <? until then time_Sub until now else 0;
    coe_TotalRequests := 0; coe_TotalFailures := 0;
    coe_ConsecutiveFailures := 0; coe_ConsecutiveSuccesses := 0
  |}.

Definition spec_op (p : policy) (o : op) (m : Z * spec) : out * (Z * spec) :=
  let s := spec_now p (op_time o) m.2 in
  let g := next_gen m.1 m.2 s in
  match o with
  | OpBefore now => (match s with SOpen until => OutReject (rejection until now) | _ => OutAdmit g end, (g, s))
  | OpAfter gen success now =>
      (OutNone, if gen =? g then let s' := spec_complete p success now m.2 in (next_gen g s s', s') else (g, s))
  | OpState _ => (OutState (spec_state s), (g, s))
  | OpReset now => (OutNone, (u64 (m.1 + 1), spec_reset p now))
  end.

Fixpoint run {S} (step : op -> S -> out * S) (ops : list op) (s : S) : list out * S :=
  match ops with
  | [] => ([], s)
  | o :: ops =>
      let '(r, s) := step o s in
      let '(rs, s) := run step ops s in
      (r :: rs, s)
  end.

(** The clock does not run backwards. *)
Fixpoint chronological (t : Z) (ops : list op) : Prop :=
  match ops with
  | [] => True
  | o :: ops => t <= op_time o /\ chronological (op_time o) ops
  end.

(** *** One operation *)

Lemma currentState_gen p cb s now :
  refines p cb s ->
  generation (currentState now cb) = next_gen (generation cb) s (spec_now p now s).
Proof.
  intros [C K _ St _ _ Ex _]. unfold currentState, next_gen.
  destruct s as [since wlog until|until|k]; cbn in *; rewrite St; cbn.
  - rewrite C, Ex. by destruct (_ && _).
  - rewrite Ex. destruct (until <? now); [|done].
    unfold setState. rewrite St. cbn. by expose_emit.
  - done.
Qed.

Lemma setState_gen target now cb :
  generation (setState target now cb) =
    if bool_decide (state cb = target) then generation cb else u64 (generation cb + 1).
Proof.
  unfold setState. case_bool_decide; [done|]. expose_emit. by destruct target.
Qed.

Lemma record_gen p cb s (success : bool) now :
  refines p cb s ->
  let cb' := (if success then onSuccess else onFailure) (state cb) now cb in
  generation cb' = if bool_decide (state cb' = state cb) then generation cb else u64 (generation cb + 1).
Proof.
  intros R. cbn zeta.
  assert (G : forall target cb0, state cb0 = state cb -> generation cb0 = generation cb ->
    generation (setState target now cb0) =
      if bool_decide (state (setState target now cb0) = state cb) then generation cb
      else u64 (generation cb + 1)).
  { intros target cb0 Hs Hg. rewrite setState_gen, Hg.
    assert (E : state (setState target now cb0) = target).
    { unfold setState. case_bool_decide; [done|]. expose_emit. by destruct target. }
    rewrite E, Hs. case_bool_decide; case_bool_decide; congruence. }
  destruct success, (state cb) eqn:E; unfold onSuccess, onFailure; cbn [set_counts window];
    repeat match goal with |- context [match ?x with _ => _ end] =>
      lazymatch x with window _ => destruct x | windowTrips _ _ _ => destruct x
                     | ready_to_trip _ _ => destruct x | (_ >=? _) => destruct x end end;
    try (by apply G); cbn; by rewrite bool_decide_eq_true_2.
Qed.

Lemma afterRequest_gen p cb s gen success now :
  refines p cb s -> past now s ->
  let g := generation (currentState now cb) in
  generation (afterRequest gen success now cb) =
    if gen =? g then next_gen g (spec_now p now s) (spec_complete p success now s) else g.
Proof.
  intros R0 P0 g. pose proof (currentState_refines _ _ _ now R0) as R.
  pose proof (afterRequest_spec _ _ _ gen success now R0 P0) as R1.
  unfold afterRequest in *. fold g in R1 |- *. destruct (gen =? g); cbn [negb] in *; [|done].
  pose proof (record_gen _ _ _ success now R) as Hg. cbn zeta in Hg. unfold next_gen.
  rewrite <- (rf_state _ _ _ R). rewrite <- (rf_state _ _ _ R1).
  destruct success; rewrite Hg; subst g; repeat case_bool_decide; congruence.
Qed.

Lemma openError_rejection p cb until now :
  refines p cb (SOpen until) -> openError (state cb) now cb = rejection until now.
Proof.
  intros [_ _ _ St Cn _ Ex _]. unfold openError, rejection. by rewrite St, Cn, Ex.
Qed.

(** What [beforeRequest] decides: only an open breaker rejects. *)
Lemma beforeRequest_spec p cb s now :
  refines p cb s ->
  beforeRequest now cb =
    ((generation (currentState now cb),
      match spec_now p now s with SOpen until => Some (rejection until now) | _ => None end),
     currentState now cb).
Proof.
  intros R0. pose proof (currentState_refines _ _ _ now R0) as R. unfold beforeRequest.
  pose proof (rf_state _ _ _ R) as St.
  destruct (spec_now p now s) as [since wlog until|until|k] eqn:E; cbn [spec_state] in St.
  - by rewrite St.
  - rewrite (openError_rejection _ _ _ _ R), St. done.
  - rewrite St. cbn. rewrite (rf_counts _ _ _ R), (rf_config _ _ _ R). cbn.
    pose proof (rf_expiry _ _ _ R). cbn in *. rewrite Z.geb_leb.
    destruct (Z.leb_spec (MaxRequests (p_config p)) k); [lia|done].
Qed.

Lemma past_later t u s : t <= u -> past t s -> past u s.
Proof.
  intros L P x Hx. apply P in Hx. unfold Unix, Second in *.
  pose proof (Z.div_le_mono t u 1000000000 ltac:(lia) L). lia.
Qed.

Lemma past_complete p success now s : past now s -> past now (spec_complete p success now s).
Proof.
  intros P. pose proof (past_now p _ _ P) as Pn. unfold spec_complete.
  destruct (spec_now p now s) as [since wlog until|until|k]; [|done|cases; unfold past; set_solver].
  case_match; unfold past; [set_solver|]. by apply past_cons.
Qed.

(** The breaker and the specification agree on every operation. *)
Lemma op_simulates p cb s o :
  refines p cb s -> past (op_time o) s ->
  let '(r, cb') := breaker_op o cb in
  let '(r', (g', s')) := spec_op p o (generation cb, s) in
  r = r' /\ refines p cb' s' /\ generation cb' = g' /\ past (op_time o) s'.
Proof.
  intros R P. pose proof (currentState_refines _ _ _ (op_time o) R) as Rn.
  pose proof (currentState_gen _ _ _ (op_time o) R) as Gn. pose proof (past_now p _ _ P) as Pn.
  destruct o as [now|gen success now|now|now]; cbn [op_time breaker_op spec_op fst snd] in *.
  - rewrite (beforeRequest_spec _ _ _ _ R), Gn.
    split; [by destruct (spec_now p now s)|auto].
  - rewrite <- Gn. pose proof (afterRequest_spec _ _ _ gen success now R P) as Ra.
    pose proof (afterRequest_gen _ _ _ gen success now R P) as Ga. cbn zeta in Ga.
    destruct (gen =? _); auto using past_complete.
  - cbn. rewrite (rf_state _ _ _ Rn). auto.
  - split; [done|]. split; [by eapply Reset_refines|]. split; [|unfold past; set_solver].
    unfold Reset. by expose_emit.
Qed.

Lemma run_simulates p ops : forall cb s t,
  refines p cb s -> past t s -> chronological t ops ->
  let '(rs, cb') := run breaker_op ops cb in
  let '(rs', (g', s')) := run (spec_op p) ops (generation cb, s) in
  rs = rs' /\ refines p cb' s' /\ generation cb' = g'.
Proof.
  induction ops as [|o ops IH]; intros cb s t R P Ch; [done|].
  destruct Ch as [Ht Ch]. pose proof (op_simulates p cb s o R (past_later _ _ _ Ht P)) as Ho.
  cbn [run]. destruct (breaker_op o cb) as [r cb'], (spec_op p o (generation cb, s)) as [r' [g' s']].
  destruct Ho as (-> & R' & <- & P'). specialize (IH _ _ _ R' P' Ch).
  destruct (run breaker_op ops cb') as [rs cb''], (run (spec_op p) ops _) as [rs' [g'' s'']].
  destruct IH as (-> & ? & ?). done.
Qed.

(** A configuration for the examples: one trial, default policy. *)
Definition example_config (failures : Z) : Config := {|
  ReadyToTrip := Some (TripOnConsecutiveFailures failures); OnStateChange := false; IsSuccessful := None;
  Interval := 0; Timeout := Second; MaxRequests := 1;
  WindowType := SlidingWindowDisabled; SlidingWindowSize := 0; MinimumCalls := 0;
  FailureRateThreshold := f_of_Z 0
|}.

(** C1: The circuit breaker implements its specification.  For every
    configuration and every sequence of admissions, completions (of any
    generation, so also late ones), state queries and resets in order of
    time, the breaker built by [New] answers exactly as the specification:
    the same admissions with the same generation, the same rejections with
    the same retry-after, the same states. *)
Theorem breaker_simulates_spec c t0 ps ops :
  0 <= MaxRequests c < 2 ^ 32 -> chronological t0 ops ->
  (run breaker_op ops (New c t0 ps)).1 =
  (run (spec_op (policy_of c)) ops (0, SClosed [] [] (t0 + Interval (setDefaults c)))).1.
Proof.
  intros HM Ch. pose proof (New_refines c t0 ps HM) as R.
  pose proof (run_simulates _ _ _ _ t0 R ltac:(unfold past; set_solver) Ch) as Hr.
  cbn [New generation] in Hr.
  destruct (run breaker_op _ _), (run (spec_op _) _ _) as [? [? ?]]. apply Hr.
Qed.

Lemma breaker_simulates_spec_witness :
  (0 <= 1 < 2 ^ 32 /\ chronological 0 [OpBefore 0; OpAfter 0 false 1; OpBefore 2]) /\
  (run breaker_op [OpBefore 0; OpAfter 0 false 1; OpBefore 2] (New (example_config 1) 0 [])).1 =
  (run (spec_op (policy_of (example_config 1))) [OpBefore 0; OpAfter 0 false 1; OpBefore 2]
     (0, SClosed [] [] (0 + Interval (setDefaults (example_config 1))))).1.
Proof.
  split; [cbn; lia|]. apply (breaker_simulates_spec (example_config 1) 0 []); cbn; lia.
Defined.

(** ** The trip policies *)

(** One goroutine's calls, one after the other: outcome and time. *)
Definition drive (calls : list (bool * Z)) (cb : breaker) : breaker :=
  foldl (fun cb call => afterRequest (generation cb) call.1 call.2 cb) cb calls.

Definition entry_of (call : bool * Z) : entry := {| at_epoch := Unix call.2; failed := negb call.1 |}.

(** Newest first. *)
Definition outcomes_of (calls : list (bool * Z)) : list entry := reverse (entry_of <$> calls).

Lemma outcomes_of_snoc calls c : outcomes_of (calls ++ [c]) = entry_of c :: outcomes_of calls.
Proof. unfold outcomes_of. rewrite fmap_app. cbn. by rewrite reverse_snoc. Qed.

Lemma drive_snoc calls c cb :
  drive (calls ++ [c]) cb = afterRequest (generation (drive calls cb)) c.1 c.2 (drive calls cb).
Proof. unfold drive. by rewrite foldl_app. Qed.

Fixpoint sorted_from (t : Z) (calls : list (bool * Z)) : Prop :=
  match calls with
  | [] => True
  | c :: calls => t <= c.2 /\ sorted_from c.2 calls
  end.

(** The number of failures since the last success. *)
Fixpoint streak (l : list entry) : Z :=
  match l with
  | [] => 0
  | x :: l => if failed x then streak l + 1 else 0
  end.

Lemma streak_nonneg l : 0 <= streak l.
Proof. induction l as [|x l IH]; cbn; [lia|]. destruct (failed x); lia. Qed.

(** The counter is the streak modulo its width. *)
Lemma counts_of_streak l : ConsecutiveFailures (counts_of l) = u32 (streak l).
Proof.
  induction l as [|x l IH]; [done|]. cbn [counts_of foldr streak]. fold (counts_of l). destruct (failed x); [|done].
  cbn [ConsecutiveFailures Counts_onFailure]. rewrite IH. unfold u32. by rewrite Zplus_mod_idemp_l.
Qed.

Lemma clampToUint32_range n : 1 <= clampToUint32 n <= MaxUint32.
Proof. unfold clampToUint32, MaxUint32. zcases; wrap_small; lia. Qed.

Lemma sorted_from_app t k c : sorted_from t (k ++ [c]) -> sorted_from t k /\ (forall d, d ∈ k -> d.2 <= c.2) /\ t <= c.2.
Proof.
  revert t. induction k as [|d k IH]; intros t; cbn.
  { intros [L _]. split; [done|]. split; [by intros d ?%not_elem_of_nil|done]. }
  intros [L S]. apply IH in S as (S & B & L'). split; [done|]. split; [|lia].
  intros e. rewrite elem_of_cons. intros [->|He]; [done|auto].
Qed.

Lemma past_outcomes now k until since :
  (forall d, d ∈ k -> d.2 <= now) -> past now (SClosed since (outcomes_of k) until).
Proof.
  intros B x Hx. cbn in Hx. unfold outcomes_of in Hx. rewrite elem_of_reverse in Hx.
  apply list_elem_of_fmap in Hx as (d & -> & Hd). cbn. unfold Unix, Second.
  apply Z.div_le_mono; [lia|auto].
Qed.

Lemma setDefaults_frame c :
  ReadyToTrip (setDefaults c) =
    Some (match ReadyToTrip c with Some f => f | None => TripOnConsecutiveFailures DefaultFailuresToTrip end) /\
  Interval (setDefaults c) = Z.max 0 (Interval c) /\
  Timeout (setDefaults c) = (if Timeout c <=? 0 then 60 * Second else Timeout c) /\
  MaxRequests (setDefaults c) = (if MaxRequests c =? 0 then 1 else MaxRequests c).
Proof.
  assert (F : forall d, ReadyToTrip (normalizeSlidingWindow d) = ReadyToTrip d /\
    Interval (normalizeSlidingWindow d) = Interval d /\ Timeout (normalizeSlidingWindow d) = Timeout d /\
    MaxRequests (normalizeSlidingWindow d) = MaxRequests d).
  { intros d. unfold normalizeSlidingWindow. by destruct (WindowType d). }
  unfold setDefaults. match goal with |- context [normalizeSlidingWindow ?d] => destruct (F d) as (-> & -> & -> & ->) end.
  cbn. split; [by destruct (ReadyToTrip c)|]. split; [|done]. clear F. zcases; lia.
Qed.

(** With no counting interval a closed breaker only changes by outcomes. *)
Lemma closed_step p cb since wlog until success now :
  refines p cb (SClosed since wlog until) -> past now (SClosed since wlog until) -> Interval (p_config p) = 0 ->
  let e := {| at_epoch := Unix now; failed := negb success |} in
  refines p (afterRequest (generation cb) success now cb)
    (if spec_trips p success now (e :: since) (e :: wlog)
     then SOpen (now + Timeout (p_config p)) else SClosed (e :: since) (e :: wlog) until).
Proof.
  intros R P I e. pose proof (afterRequest_spec _ _ _ (generation cb) success now R P) as Ra.
  rewrite (currentState_gen _ _ _ now R) in Ra. unfold next_gen, spec_complete in Ra. cbn [spec_now] in Ra.
  rewrite I in Ra. cbn in Ra. by rewrite Z.eqb_refl in Ra.
Qed.

(** Under a sliding window a closed breaker opens by its window alone: the end of
    a counting interval clears the counts, not the window, and begins no new
    generation. *)
Lemma closed_step_window p cb since wlog until success now inside :
  refines p cb (SClosed since wlog until) -> past now (SClosed since wlog until) -> p_inside p = Some inside ->
  let e := {| at_epoch := Unix now; failed := negb success |} in
  exists s, refines p (afterRequest (generation cb) success now cb)
    (if rate_trips (p_config p) (inside now (e :: wlog)) then SOpen (now + Timeout (p_config p)) else SClosed (e :: s.1) (e :: wlog) s.2).
Proof.
  intros R P Hi e. pose proof (afterRequest_spec _ _ _ (generation cb) success now R P) as Ra.
  rewrite (currentState_gen _ _ _ now R) in Ra. unfold next_gen, spec_complete in Ra. cbn [spec_now] in Ra.
  destruct ((Interval (p_config p) >? 0) && (until <? now)); cbn [spec_state] in Ra;
    rewrite bool_decide_eq_true_2, Z.eqb_refl in Ra by done; unfold spec_trips in Ra; rewrite Hi in Ra; eexists (_, _); exact Ra.
Qed.

(** A policy of consecutive failures. *)
Section consecutive.
Context (c : Config) (n t0 : Z) (ps : list bool).
Context (HM : 0 <= MaxRequests c < 2 ^ 32) (HR : ReadyToTrip c = Some (TripOnConsecutiveFailures n))
  (HI : Interval c = 0).

Lemma consecutive_trips success now since wlog :
  streak since < clampToUint32 n ->
  let e := {| at_epoch := Unix now; failed := negb success |} in
  spec_trips (policy_of c) success now (e :: since) (e :: wlog) =
    (clampToUint32 n <=? streak (e :: since)).
Proof.
  intros L e. unfold spec_trips, policy_of. rewrite HR. cbn [p_inside p_config].
  destruct (setDefaults_frame c) as (F & _). unfold ready_to_trip. rewrite F, HR.
  unfold TripOnConsecutiveFailures. rewrite counts_of_streak.
  pose proof (clampToUint32_range n). pose proof (streak_nonneg since).
  unfold MaxUint32 in *. cbn. destruct success; cbn.
  - zcases; lia.
  - rewrite u32_small by lia. apply Z.geb_leb.
Qed.

Lemma consecutive_below calls :
  sorted_from t0 calls ->
  (forall k, streak (outcomes_of (take k calls)) < clampToUint32 n) ->
  refines (policy_of c) (drive calls (New c t0 ps))
    (SClosed (outcomes_of calls) (outcomes_of calls) (t0 + Interval (setDefaults c))).
Proof.
  induction calls as [|x calls IH] using rev_ind; intros S B; [by apply New_refines|].
  apply sorted_from_app in S as (S & Past & _).
  assert (B' : forall k, streak (outcomes_of (take k calls)) < clampToUint32 n).
  { intros k. specialize (B (min k (length calls))).
    rewrite take_app_le in B by lia. rewrite <- take_take, (take_ge calls) in B by lia. done. }
  specialize (IH S B').
  rewrite drive_snoc, outcomes_of_snoc.
  pose proof (closed_step _ _ _ _ _ x.1 x.2 IH (past_outcomes _ _ _ _ Past)) as St.
  assert (I0 : Interval (p_config (policy_of c)) = 0).
  { destruct (setDefaults_frame c) as (_ & I & _). cbn. rewrite I, HI. done. }
  specialize (St I0). cbn zeta in St.
  specialize (B (length (calls ++ [x]))). rewrite (take_ge (calls ++ [x])), outcomes_of_snoc in B by lia.
  specialize (B' (length calls)). rewrite (take_ge calls) in B' by lia.
  pose proof (consecutive_trips x.1 x.2 _ (outcomes_of calls) B') as T. cbn zeta in T. rewrite T in St.
  unfold entry_of in B |- *. destruct (Z.leb_spec (clampToUint32 n) (streak ({| at_epoch := Unix x.2; failed := negb x.1 |} :: outcomes_of calls))); [lia|done].
Qed.
End consecutive.

(** [TripOnConsecutiveFailures(n)] opens the circuit exactly at the n-th
    failure in a row.  As long as no run of calls so far reached the
    threshold (clamped to [1, MaxUint32]), the next outcome opens the
    breaker if and only if it completes such a run. *)
Theorem consecutive_failures_trip c n t0 ps calls last :
  0 <= MaxRequests c < 2 ^ 32 -> ReadyToTrip c = Some (TripOnConsecutiveFailures n) -> Interval c = 0 ->
  sorted_from t0 (calls ++ [last]) ->
  (forall k, streak (outcomes_of (take k calls)) < clampToUint32 n) ->
  state (drive (calls ++ [last]) (New c t0 ps)) =
    if clampToUint32 n <=? streak (outcomes_of (calls ++ [last])) then StateOpen else StateClosed.
Proof.
  intros HM HR HI S B. apply sorted_from_app in S as (S & Past & _).
  pose proof (consecutive_below c n t0 ps HM HR HI calls S B) as R.
  assert (I0 : Interval (p_config (policy_of c)) = 0).
  { destruct (setDefaults_frame c) as (_ & I & _). cbn. rewrite I, HI. done. }
  pose proof (closed_step _ _ _ _ _ last.1 last.2 R (past_outcomes _ _ _ _ Past) I0) as St. cbn zeta in St.
  specialize (B (length calls)). rewrite (take_ge calls) in B by lia.
  pose proof (consecutive_trips c n HR last.1 last.2 _ (outcomes_of calls) B) as T. cbn zeta in T.
  rewrite T in St. rewrite drive_snoc, outcomes_of_snoc, (rf_state _ _ _ St).
  unfold entry_of. by destruct (_ <=? _).
Qed.

Lemma consecutive_failures_trip_witness :
  sorted_from 0 [(false, 1); (true, 2); (false, 3); (false, 4)] /\
  state (drive ([(false, 1); (true, 2); (false, 3)] ++ [(false, 4)]) (New (example_config 2) 0 [])) = StateOpen.
Proof.
  split; [cbn; lia|].
  rewrite (consecutive_failures_trip (example_config 2) 2 0 []); cbn; try lia; try done.
  intros [|[|[|[|]]]]; vm_compute; done.
Defined.

(** The default failure rate and a window: [calls] in the window, and at
    least half of them failures. *)
Lemma rate_trips_half c l :
  FailureRateThreshold c = DefaultFailureRateThreshold -> 1 <= MinimumCalls c ->
  Z.of_nat (length l) < 2 ^ 53 ->
  rate_trips c l = (MinimumCalls c <=? Z.of_nat (length l)) && (Z.of_nat (length l) <=? 2 * log_failures l).
Proof.
  intros F Mn L. unfold rate_trips. rewrite F. unfold DefaultFailureRateThreshold.
  pose proof (count_true_bounds (failed <$> l)) as B. fold (log_failures l) in B. rewrite length_fmap in B.
  rewrite Z.leb_antisym. destruct (Z.ltb_spec (Z.of_nat (length l)) (MinimumCalls c)); [done|].
  rewrite half_rate by lia. done.
Qed.

(** C33: With a sliding window at the default failure rate, a closed breaker
    that records an outcome opens exactly when the window then holds at
    least [MinimumCalls] calls of which at least half failed; the
    floating-point quotient of the code neither misses nor invents a trip.
    What the window holds is given by the log of outcomes: the last
    [SlidingWindowSize] calls, or those of the last [SlidingWindowSize]
    seconds.  This is so for every [Interval]: its end clears the counts, not the
    window. *)
Theorem failure_rate_trip c cb since wlog until inside success now :
  p_inside (policy_of c) = Some inside ->
  FailureRateThreshold (setDefaults c) = DefaultFailureRateThreshold ->
  refines (policy_of c) cb (SClosed since wlog until) -> past now (SClosed since wlog until) ->
  let l := inside now ({| at_epoch := Unix now; failed := negb success |} :: wlog) in
  Z.of_nat (length l) < 2 ^ 53 ->
  state (afterRequest (generation cb) success now cb) =
    if (MinimumCalls (setDefaults c) <=? Z.of_nat (length l)) && (Z.of_nat (length l) <=? 2 * log_failures l)
    then StateOpen else StateClosed.
Proof.
  intros Hi F R P l L.
  assert (Mn : 1 <= MinimumCalls (setDefaults c)).
  { destruct (setDefaults_window c) as [D|D]; [|apply D].
    unfold policy_of in Hi. cbn [p_inside] in Hi. rewrite D in Hi. by destruct (ReadyToTrip c). }
  destruct (closed_step_window _ _ _ _ _ success now inside R P Hi) as [s St]. fold l in St.
  rewrite (rf_state _ _ _ St). cbn [policy_of p_config]. rewrite rate_trips_half by done. by destruct (_ && _).
Qed.

Definition window_config : Config := {|
  ReadyToTrip := None; OnStateChange := false; IsSuccessful := None;
  Interval := 0; Timeout := Second; MaxRequests := 1;
  WindowType := SlidingWindowCount; SlidingWindowSize := 4; MinimumCalls := 2;
  FailureRateThreshold := f_of_Z 0
|}.

Lemma failure_rate_trip_witness :
  state (afterRequest 0 false 0 (afterRequest 0 true 0 (New window_config 0 []))) = StateOpen.
Proof.
  assert (R := New_refines window_config 0 [] ltac:(cbn; lia)).
  assert (P : past 0 (SClosed [] [] (0 + Interval (setDefaults window_config)))) by (unfold past; set_solver).
  assert (R1 := closed_step _ _ _ _ _ true 0 R P eq_refl). cbn zeta in R1.
  assert (T : spec_trips (policy_of window_config) true 0 [{| at_epoch := Unix 0; failed := false |}]
    [{| at_epoch := Unix 0; failed := false |}] = false) by (vm_compute; reflexivity).
  cbn [negb] in R1. rewrite T in R1. clear T.
  refine (eq_trans (failure_rate_trip window_config _ _ _ _
    (fun _ l => last_calls (SlidingWindowSize (setDefaults window_config)) l) false 0 _ _ R1 _ _) _);
    try reflexivity.
  intros x Hx. exact (past_cons 0 true [] ltac:(set_solver) x Hx).
Defined.

(** ** Recovery *)

Lemma trials_succeed p cb times : forall k,
  refines p cb (SHalfOpen k) -> k + Z.of_nat (length times) < MaxRequests (p_config p) ->
  let cb' := drive ((fun t => (true, t)) <$> times) cb in
  refines p cb' (SHalfOpen (k + Z.of_nat (length times))) /\ generation cb' = generation cb.
Proof.
  induction times as [|t times IH] using rev_ind; intros k R L.
  - cbn. by rewrite Z.add_0_r.
  - rewrite length_app in L |- *. cbn [length] in L |- *. cbn zeta. rewrite fmap_app. cbn [fmap list_fmap].
    rewrite drive_snoc. destruct (IH k R ltac:(lia)) as [R' G']. cbn [fst snd].
    set (cb' := drive _ cb) in *.
    assert (P : past t (SHalfOpen (k + Z.of_nat (length times)))) by (unfold past; set_solver).
    pose proof (afterRequest_spec _ _ _ (generation cb') true t R' P) as Ra.
    pose proof (afterRequest_gen _ _ _ (generation cb') true t R' P) as Ga. cbn zeta in Ga.
    rewrite (currentState_gen _ _ _ t R') in Ra, Ga. unfold next_gen, spec_complete in Ra, Ga. cbn in Ra, Ga.
    rewrite Z.eqb_refl, Z.geb_leb in Ra, Ga.
    destruct (Z.leb_spec (MaxRequests (p_config p)) (k + Z.of_nat (length times) + 1)); [lia|].
    rewrite bool_decide_eq_true_2 in Ga by done. replace (k + Z.of_nat (length times + 1)) with (k + Z.of_nat (length times) + 1) by lia.
    split; [done|]. rewrite Ga. exact G'.
Qed.

(** The next outcome of a half-open breaker. *)
Lemma trial_outcome p cb k success now :
  refines p cb (SHalfOpen k) ->
  refines p (afterRequest (generation cb) success now cb)
    (if success
     then if k + 1 >=? MaxRequests (p_config p)
          then SClosed [] [] (now + Interval (p_config p)) else SHalfOpen (k + 1)
     else SOpen (now + Timeout (p_config p))).
Proof.
  intros R. assert (P : past now (SHalfOpen k)) by (unfold past; set_solver).
  pose proof (afterRequest_spec _ _ _ (generation cb) success now R P) as Ra.
  rewrite (currentState_gen _ _ _ now R) in Ra. unfold next_gen, spec_complete in Ra. cbn in Ra.
  by rewrite Z.eqb_refl in Ra.
Qed.

(** Recovery.  From half-open, fewer than [MaxRequests] successes keep the
    breaker half-open; the [MaxRequests]-th closes it, with empty counters;
    and a failure at any point before that opens it again for a full
    [Timeout]. *)
Theorem half_open_recovery p cb times now :
  refines p cb (SHalfOpen 0) -> Z.of_nat (length times) < MaxRequests (p_config p) ->
  let trials := (fun t => (true, t)) <$> times in
  state (drive trials cb) = StateHalfOpen /\
  (Z.of_nat (length times) = MaxRequests (p_config p) - 1 ->
     let cb' := drive (trials ++ [(true, now)]) cb in
     state cb' = StateClosed /\ counts cb' = no_counts /\ expiry cb' = now + Interval (p_config p)) /\
  (let cb' := drive (trials ++ [(false, now)]) cb in
   state cb' = StateOpen /\ counts cb' = no_counts /\ expiry cb' = now + Timeout (p_config p)).
Proof.
  intros R L trials. destruct (trials_succeed p cb times 0 R L) as [R' _]. fold trials in R'.
  split; [apply R'|]. cbn zeta. rewrite 2 drive_snoc. cbn [fst snd]. split.
  - intros E. pose proof (trial_outcome _ _ _ true now R') as [_ _ _ S C _ X _].
    rewrite Z.geb_leb in S, C, X.
    destruct (Z.leb_spec (MaxRequests (p_config p)) (0 + Z.of_nat (length times) + 1)); [done|lia].
  - pose proof (trial_outcome _ _ _ false now R') as [_ _ _ S C _ X _]. done.
Qed.

Lemma half_open_recovery_witness : exists cb,
  state cb = StateHalfOpen /\ state (drive [(true, 7)] cb) = StateClosed.
Proof.
  set (c := example_config 1). set (cb0 := afterRequest 0 false 1 (New c 0 [])).
  assert (R := New_refines c 0 [] ltac:(cbn; lia)).
  assert (P : past 1 (SClosed [] [] (0 + Interval (setDefaults c)))) by (unfold past; set_solver).
  assert (R1 := closed_step _ _ _ _ _ false 1 R P eq_refl).
  assert (R2 : refines (policy_of c) (currentState (3 * Second) cb0) (SHalfOpen 0)).
  { refine (eq_rect _ _ (currentState_refines _ _ _ (3 * Second) R1) _ _). vm_compute. reflexivity. }
  destruct (half_open_recovery (policy_of c) _ [] 7 R2) as (S & C & _); [vm_compute; reflexivity|].
  exists (currentState (3 * Second) cb0). split; [exact S|].
  apply C. vm_compute. reflexivity.
Defined.

(** Configuration.  [setDefaults] repairs every sliding-window
    configuration: afterwards the window is off, or its size is in [1,
    1000000], at least one call is required, a count window can hold as
    many calls as are required, and the failure rate is in (0, 1] -- except
    that a NaN rate is left as it is. *)
Theorem setDefaults_repairs c :
  WindowType (setDefaults c) = SlidingWindowDisabled \/ window_config_ok (setDefaults c).
Proof. exact (setDefaults_window c). Qed.

(** A NaN failure rate survives the defaults, although every value outside
    (0, 1] is documented to fall back to 0.5, and with it a window breaker
    never opens, whatever it records. *)
Theorem nan_rate_never_trips c cb since wlog until success now :
  FailureRateThreshold c = FNaN -> WindowType c = SlidingWindowCount -> ReadyToTrip c = None -> Interval c = 0 ->
  refines (policy_of c) cb (SClosed since wlog until) -> past now (SClosed since wlog until) ->
  FailureRateThreshold (setDefaults c) = FNaN /\
  state (afterRequest (generation cb) success now cb) = StateClosed.
Proof.
  intros F Ty Rt HI R P.
  assert (F' : FailureRateThreshold (setDefaults c) = FNaN).
  { unfold setDefaults, normalizeSlidingWindow. cbn [WindowType]. rewrite Ty. cbn. by rewrite F. }
  split; [done|].
  assert (I0 : Interval (p_config (policy_of c)) = 0).
  { destruct (setDefaults_frame c) as (_ & I & _). cbn. rewrite I, HI. done. }
  pose proof (closed_step _ _ _ _ _ success now R P I0) as St. cbn zeta in St.
  assert (T : exists inside, p_inside (policy_of c) = Some inside).
  { unfold policy_of. cbn [p_inside]. rewrite Rt.
    unfold setDefaults, normalizeSlidingWindow. cbn [WindowType]. rewrite Ty. cbn. eauto. }
  destruct T as [inside Hi]. unfold spec_trips in St. rewrite Hi in St. unfold rate_trips in St.
  cbn [policy_of p_config] in St. rewrite F' in St. rewrite (rf_state _ _ _ St). by destruct (_ <? _).
Qed.

Definition nan_config : Config := {|
  ReadyToTrip := None; OnStateChange := false; IsSuccessful := None;
  Interval := 0; Timeout := Second; MaxRequests := 1;
  WindowType := SlidingWindowCount; SlidingWindowSize := 4; MinimumCalls := 1;
  FailureRateThreshold := FNaN
|}.

Lemma nan_rate_never_trips_witness :
  state (afterRequest 0 false 0 (New nan_config 0 [])) = StateClosed.
Proof.
  apply (nan_rate_never_trips nan_config (New nan_config 0 []) [] [] (0 + Interval (setDefaults nan_config)) false 0);
    try reflexivity.
  - apply (New_refines nan_config 0 []). cbn. lia.
  - unfold past. set_solver.
Defined.

(** ** The fast path *)

Definition in_int64 (n : Z) : Prop := - 2 ^ 63 <= n < 2 ^ 63.

(** The lock-free fast path agrees with the lock.  When the mirrors are in
    sync and the instants fit an int64 of nanoseconds, a call that
    [fastAdmit] admits is one that [beforeRequest] would have admitted, with
    the same generation, and [beforeRequest] would not have changed the
    breaker. *)
Theorem fast_path_agrees p cb s now gen :
  refines p cb s -> in_int64 now -> in_int64 (expiry cb) ->
  fastAdmit now cb = Some gen ->
  beforeRequest now cb = ((gen, None), cb) /\ state cb = StateClosed.
Proof.
  intros R Hn He. pose proof R as [C K (S1 & S2 & S3) St Cn Wr Ex Q].
  unfold fastAdmit. rewrite S1, S2, S3. unfold UnixNano. rewrite 2 i64_small by done.
  case_bool_decide as E; [|done]. cbn [negb]. destruct ((Interval (config cb) >? 0) && (now >=? expiry cb)) eqn:T; [done|].
  intros [= <-]. split; [|done].
  assert (Same : currentState now cb = cb).
  { unfold currentState. rewrite E. destruct (Interval (config cb) >? 0); [|done]. cbn [andb] in *.
    zcases_in T; zcases; done || lia. }
  rewrite (beforeRequest_spec _ _ _ _ R), Same.
  destruct s as [since wlog until|until|k]; cbn in *; [|congruence..].
  destruct ((Interval (p_config p) >? 0) && (until <? now)); reflexivity.
Qed.

Lemma fast_path_agrees_witness :
  beforeRequest 5 (New (example_config 1) 0 []) = ((0, None), New (example_config 1) 0 []).
Proof.
  refine (proj1 (fast_path_agrees (policy_of (example_config 1)) _ _ 5 0
    (New_refines (example_config 1) 0 [] _) _ _ eq_refl)); cbn; unfold in_int64; lia.
Defined.

(** ** The protected call *)

Section Execute_spec.
Context {W T : Type} `{Has W breaker} (zero : T) (p : policy).

Lemma get_locked {A} (f : Z -> breaker -> A * breaker) w :
  get (locked f w).2 = (f (clock (tick w)) (get w)).2.
Proof. unfold locked. cbn. by rewrite get_put, get_tick. Qed.

Lemma fastAdmit_M_run w : fastAdmit_M w = (fastAdmit (clock (tick w)) (get w), tick w).
Proof. unfold fastAdmit_M, locked. cbn. by rewrite put_get, get_tick. Qed.

(** Rejection.  When the circuit is open and its timeout has not elapsed,
    [Execute] returns without running the protected function: the zero
    value and a [CircuitOpenError] that matches [ErrCircuitOpen], whose
    RetryAfter is the time left, and the breaker is unchanged. *)
Theorem execute_open_rejects c fn w until :
  let now := clock (tick (tick (tick w))) in
  ctx_Err c (clock (tick w)) = None -> refines p (get w) (SOpen until) -> now <= until ->
  (exists w', Execute zero c fn w = ((zero, Some (rejection until now)), w') /\
     get w' = get w /\ clock w' = now) /\
  Is (Some (rejection until now)) ErrCircuitOpen = true /\
  (until - now <= MaxInt64 -> exists e, rejection until now = ECircuitOpen e /\ coe_RetryAfter e = until - now).
Proof.
  intros now E R L. split; [|split; [done|]].
  - pose proof R as [_ _ (S1 & _) St _ _ Ex _]. cbn in St.
    unfold Execute, bind, err_of. cbn [fst snd]. rewrite E, fastAdmit_M_run. cbn [fst snd].
    assert (Fa : forall t, fastAdmit t (get w) = None) by (intros; unfold fastAdmit; by rewrite S1, St).
    rewrite get_tick, Fa.
    unfold locked. cbn [fst snd].
    rewrite !get_tick, (beforeRequest_spec _ _ _ _ R).
    cbn [spec_now]. fold now. destruct (Z.ltb_spec until now); [lia|]. cbn [fst snd].
    eexists. split; [reflexivity|]. rewrite get_put, clock_put. split; [|done].
    unfold currentState. rewrite St, Ex. destruct (Z.ltb_spec until now); [lia|done].
  - intros B. eexists. split; [reflexivity|]. cbn. zcases; [|lia]. apply time_Sub_small. lia.
Qed.

Lemma execute_admits c fn w s :
  ctx_Err c (clock (tick w)) = None -> refines p (get w) s ->
  (forall until, spec_now p (clock (tick (tick (tick w)))) s <> SOpen until) ->
  exists w0 gen, (w0 = tick (tick w) \/
      w0 = put (currentState (clock (tick (tick (tick w)))) (get w)) (tick (tick (tick w)))) /\
    (gen = fastGen (get w) \/ gen = generation (get w0)) /\
    let r := fn c w0 in
    let w1 := tick r.2 in
    Execute zero c fn w =
      (r.1, put (afterRequest gen (is_successful (config (get r.2)) r.1.2) (clock w1) (get w1)) w1).
Proof.
  intros E R No. unfold Execute, bind at 1 2, err_of. cbn [fst snd]. rewrite E, fastAdmit_M_run.
  cbn [fst snd]. rewrite get_tick.
  destruct (fastAdmit _ (get w)) as [gen|] eqn:Fa.
  - exists (tick (tick w)), gen. split; [by left|]. split; [left|reflexivity].
    unfold fastAdmit in Fa. repeat case_match; congruence.
  - unfold bind at 1, locked at 1 2. cbn [fst snd]. rewrite !get_tick, (beforeRequest_spec _ _ _ _ R).
    destruct (spec_now p (clock (tick (tick (tick w)))) s) as [since wlog until|until|k] eqn:Sn; cbn [fst snd];
      [| by destruct (No until)|];
      eexists (put _ _), _; (split; [right; reflexivity|]);
      (split; [right; by rewrite get_put|]); reflexivity.
Qed.

(** Transparency.  When the circuit is not open (or its timeout has
    elapsed), [Execute] runs the protected function exactly once, in a
    world whose breaker is the caller's after the passing of time, returns
    its result and error unchanged, and records the outcome under the
    generation of that breaker. *)
Theorem execute_transparent c fn w s :
  ctx_Err c (clock (tick w)) = None -> refines p (get w) s ->
  (forall until, spec_now p (clock (tick (tick (tick w)))) s <> SOpen until) ->
  exists w0 gen, (get w0 = get w \/ get w0 = currentState (clock (tick (tick (tick w)))) (get w)) /\
    (gen = fastGen (get w) \/ gen = generation (get w0)) /\
    let r := fn c w0 in
    let w1 := tick r.2 in
    Execute zero c fn w =
      (r.1, put (afterRequest gen (is_successful (config (get r.2)) r.1.2) (clock w1) (get w1)) w1).
Proof.
  intros E R No. destruct (execute_admits c fn w s E R No) as (w0 & gen & [->| ->] & G & X).
  - exists (tick (tick w)), gen. split; [left; by rewrite !get_tick|done].
  - eexists _, gen. split; [right; apply get_put|]. split; [exact G|exact X].
Qed.
End Execute_spec.

(** An open breaker: one failure under [TripOnConsecutiveFailures 1]. *)
Definition opened : breaker := afterRequest 0 false 0 (New (example_config 1) 0 []).

Lemma opened_refines : refines (policy_of (example_config 1)) opened (SOpen Second).
Proof.
  assert (R := New_refines (example_config 1) 0 [] ltac:(cbn; lia)).
  assert (P : past 0 (SClosed [] [] (0 + Interval (setDefaults (example_config 1))))) by (unfold past; set_solver).
  assert (R1 := closed_step _ _ _ _ _ false 0 R P eq_refl).
  refine (eq_rect _ _ R1 _ _). vm_compute. reflexivity.
Qed.

Lemma execute_open_rejects_witness :
  exists w', Execute (W := sim breaker) 0 Background (fun _ => ret (1, None)) (Sim 5 opened) =
    ((0, Some (rejection Second 5)), w').
Proof.
  destruct (@execute_open_rejects (sim breaker) Z _ (sim_Has breaker) 0 (policy_of (example_config 1)) Background
    (fun _ => ret (1, None)) (Sim 5 opened) Second eq_refl opened_refines) as ((w' & E & _) & _).
  - vm_compute. discriminate.
  - exists w'. exact E.
Defined.

Lemma execute_transparent_witness :
  exists w', Execute (W := sim breaker) 0 Background (fun _ => ret (1, None)) (Sim (2 * Second) opened) =
    ((1, None), w').
Proof.
  destruct (@execute_transparent (sim breaker) Z _ (sim_Has breaker) 0 (policy_of (example_config 1)) Background
    (fun _ => ret (1, None)) (Sim (2 * Second) opened) (SOpen Second) eq_refl opened_refines) as (w0 & g & _ & _ & E).
  - intros u. vm_compute. discriminate.
  - eexists. exact E.
Defined.

(** ** Any number of goroutines *)

Module Interleaving.

(** Where a goroutine stands in [Execute]: before the first load of the
    fast path, between its loads, before [beforeRequest], inside the
    protected function with the generation it was admitted under, or
    finished. *)
Inductive pc :=
| LoadState
| LoadExpiry
| RecheckState
| LoadGen
| Slow
| Running (gen : Z)
| Rejected (e : error)
| Finished.

Record sys := { cb : breaker; now : Z; threads : list pc }.

(** One atomic action of a goroutine. *)
Inductive act : breaker -> Z -> pc -> breaker -> pc -> Prop :=
| act_state_closed b t :
    fastState b = StateClosed ->
    act b t LoadState b (if Interval (config b) >? 0 then LoadExpiry else RecheckState)
| act_state_other b t : fastState b <> StateClosed -> act b t LoadState b Slow
| act_expiry b t :
    act b t LoadExpiry b (if UnixNano t >=? fastExpiry b then Slow else RecheckState)
| act_recheck b t :
    act b t RecheckState b (if bool_decide (fastState b = StateClosed) then LoadGen else Slow)
| act_gen b t : act b t LoadGen b (Running (fastGen b))
| act_slow b t :
    act b t Slow (beforeRequest t b).2
      (match (beforeRequest t b).1 with (_, Some e) => Rejected e | (gen, None) => Running gen end)
| act_complete b t gen success : act b t (Running gen) (afterRequest gen success t b) Finished.

Inductive step : sys -> sys -> Prop :=
| step_time s t : now s <= t -> step s {| cb := cb s; now := t; threads := threads s |}
| step_spawn s : step s {| cb := cb s; now := now s; threads := threads s ++ [LoadState] |}
| step_thread s i p b p' :
    threads s !! i = Some p -> act (cb s) (now s) p b p' ->
    step s {| cb := b; now := now s; threads := <[i := p']> (threads s) |}
| step_query s : step s {| cb := (State_method (now s) (cb s)).2; now := now s; threads := threads s |}
| step_reset s : step s {| cb := Reset (now s) (cb s); now := now s; threads := threads s |}
| step_close s : step s {| cb := Close (cb s); now := now s; threads := threads s |}
| step_dispatch s ev b :
    dispatchStateChanges (cb s) = Some (ev, b) ->
    step s {| cb := b; now := now s; threads := threads s |}.

Definition init (c : Config) (s : sys) : Prop :=
  exists ps, cb s = New c (now s) ps /\ threads s = [].

(** Some state of the specification explains the breaker. *)
Definition explained (c : Config) (s : sys) : Prop :=
  exists a, refines (policy_of c) (cb s) a /\ past (now s) a.

Lemma act_refines p b t q b' q' a :
  act b t q b' q' -> refines p b a -> past t a ->
  exists a', refines p b' a' /\ past t a'.
Proof.
  intros A R P. destruct A; try by exists a.
  - exists (spec_now p t a). rewrite (beforeRequest_spec _ _ _ _ R).
    split; [by apply currentState_refines|by apply past_now].
  - pose proof (afterRequest_spec _ _ _ gen success t R P) as Ra.
    destruct (gen =? _); eexists; (split; [exact Ra|]); [by apply past_complete|by apply past_now].
Qed.

Lemma refines_queue p b q ps a :
  refines p b a -> stateChanges b = Some q -> (length q <= stateChangeBufferSize)%nat ->
  forall q', (length q' <= length q)%nat -> refines p (set_queue q' ps b) a.
Proof. intros [C K S St Cn Wr Ex Q] E L q' L'. split; cbn; auto. lia. Qed.

Lemma dispatch_refines p b ev b' a :
  dispatchStateChanges b = Some (ev, b') -> refines p b a -> refines p b' a.
Proof.
  intros D R. pose proof (rf_queue _ _ _ R) as Q. unfold dispatchStateChanges in D.
  destruct (stateChanges b) as [q|] eqn:E; [|done].
  repeat case_match; simplify_eq; try done;
    (eapply refines_queue; [done|exact E|exact Q|cbn; lia]).
Qed.

Lemma step_explained c s s' : explained c s -> step s s' -> explained c s'.
Proof.
  intros X St. revert X. destruct St as [ | |? ? ? ? ? ? A| | | |? ? ? D];
    intros (a & R & P); unfold explained; cbn.
  - exists a. eauto using past_later.
  - exists a. done.
  - exact (act_refines _ _ _ _ _ _ _ A R P).
  - exists (spec_now (policy_of c) (now s) a). eauto using currentState_refines, past_now.
  - exists (spec_reset (policy_of c) (now s)). split; [by eapply Reset_refines|unfold past; set_solver].
  - exists a. split; [|done]. by destruct R; split.
  - exists a. split; [by eapply dispatch_refines|done].
Qed.

(** C2: Safety under every interleaving.  However many goroutines run calls,
    query, reset or close one breaker, and however the loads of the fast
    path interleave with the critical sections: the atomic mirrors agree
    with the locked fields whenever the lock is free, an open breaker has
    empty counters, a half-open one has counted fewer than [MaxRequests]
    trials, all successes, its window is empty unless it is closed, and
    the queue of state changes stays within its buffer. *)
Theorem interleaving_safe c s :
  0 <= MaxRequests c < 2 ^ 32 -> reachable (init c) step s ->
  in_sync (cb s) /\
  (state (cb s) = StateOpen -> counts (cb s) = no_counts) /\
  (state (cb s) = StateHalfOpen ->
     exists k, 0 <= k < MaxRequests (setDefaults c) /\ counts (cb s) = trial_counts k) /\
  (state (cb s) <> StateClosed -> forall w, window (cb s) = Some w -> rep w []) /\
  (forall q, stateChanges (cb s) = Some q -> (length q <= stateChangeBufferSize)%nat).
Proof.
  intros HM Rs.
  assert (X : explained c s).
  { revert Rs. apply invariant_reachable; [|exact (step_explained c)].
    intros s0 (ps & E & _). eexists. rewrite E. split; [by apply New_refines|unfold past; set_solver]. }
  destruct X as (a & [C K S St Cn Wr Ex Q] & _). split_and!.
  - done.
  - intros E. rewrite Cn. rewrite St in E. by destruct a.
  - intros E. rewrite Cn. rewrite St in E. destruct a as [| |k]; try done. by exists k.
  - intros E w Hw. rewrite St in E. rewrite Hw in Wr. unfold window_refines in Wr.
    destruct a; try done; destruct (p_inside _); by try apply Wr.
  - intros q Hq. by rewrite Hq in Q.
Qed.

Lemma interleaving_safe_witness :
  reachable (init (example_config 1)) step {| cb := New (example_config 1) 0 []; now := 0; threads := [] |} /\
  in_sync (New (example_config 1) 0 []).
Proof.
  assert (R : reachable (init (example_config 1)) step
    {| cb := New (example_config 1) 0 []; now := 0; threads := [] |}) by (apply reach_init; by exists []).
  split; [exact R|]. refine (proj1 (interleaving_safe (example_config 1) _ _ R)). cbn. lia.
Defined.

Lemma last_act I b t l p b' p' :
  reachable I step {| cb := b; now := t; threads := l ++ [p] |} -> act b t p b' p' ->
  reachable I step {| cb := b'; now := t; threads := l ++ [p'] |}.
Proof.
  intros R A. eapply reach_step; [exact R|].
  pose proof (step_thread {| cb := b; now := t; threads := l ++ [p] |} (length l) p b' p') as St.
  cbn in St. rewrite list_lookup_middle in St by done.
  rewrite <- (Nat.add_0_r (length l)), insert_app_r in St. by apply St.
Qed.

Lemma spawned I b t l :
  reachable I step {| cb := b; now := t; threads := l |} ->
  reachable I step {| cb := b; now := t; threads := l ++ [LoadState] |}.
Proof. intros R. eapply reach_step; [exact R|]. exact (step_spawn {| cb := b; now := t; threads := l |}). Qed.

(** [opened], once its timeout has elapsed and its state was queried. *)
Definition half_opened : breaker := currentState (2 * Second) opened.

(** One failing call and the timeout. *)
Lemma trip_and_wait I b0 b1 b2 t :
  reachable I step {| cb := b0; now := 0; threads := [] |} ->
  fastState b0 = StateClosed -> (Interval (config b0) >? 0) = false -> fastGen b0 = 0 ->
  afterRequest 0 false 0 b0 = b1 -> 0 <= t -> currentState t b1 = b2 ->
  reachable I step {| cb := b2; now := t; threads := [Finished] |}.
Proof.
  intros R S Iv G <- Ht <-. apply spawned in R. cbn [app] in R.
  assert (A := act_state_closed b0 0 S). rewrite Iv in A. apply (last_act _ _ _ [] _ _ _ R) in A.
  assert (A2 := act_recheck b0 0). rewrite S, bool_decide_eq_true_2 in A2 by done.
  apply (last_act _ _ _ [] _ _ _ A) in A2.
  assert (A3 := act_gen b0 0). rewrite G in A3. apply (last_act _ _ _ [] _ _ _ A2) in A3.
  assert (A4 := act_complete b0 0 0 false). apply (last_act _ _ _ [] _ _ _ A3) in A4.
  assert (A5 := reach_step _ _ _ _ A4 (step_time {| cb := _; now := 0; threads := _ |} t Ht)).
  exact (reach_step _ _ _ _ A5 (step_query _)).
Qed.

Lemma half_opened_reachable :
  reachable (init (example_config 1)) step {| cb := half_opened; now := 2 * Second; threads := [Finished] |}.
Proof.
  apply (trip_and_wait _ (New (example_config 1) 0 []) opened);
    [apply reach_init; by exists []|vm_compute; reflexivity..| |vm_compute; reflexivity].
  unfold Second. lia.
Qed.

(** A further trial, while the breaker is half-open with none completed. *)
Lemma further_trial I b t l :
  reachable I step {| cb := b; now := t; threads := l |} ->
  fastState b <> StateClosed -> beforeRequest t b = ((generation b, None), b) ->
  reachable I step {| cb := b; now := t; threads := l ++ [Running (generation b)] |}.
Proof.
  intros R S B. apply spawned in R.
  assert (A := act_state_other b t S). apply (last_act _ _ _ _ _ _ _ R) in A.
  assert (A2 := act_slow b t). rewrite B in A2. exact (last_act _ _ _ _ _ _ _ A A2).
Qed.

(** What half-open does not bound.  [MaxRequests] is documented as the
    number of requests allowed through while half-open; the counter it is
    compared with only advances when a trial completes, so with
    [MaxRequests = 1] any number of goroutines can be inside the protected
    function at once, all admitted as trials of the same half-open
    period. *)
Theorem half_open_admits_any_number n :
  exists c s gen, MaxRequests (setDefaults c) = 1 /\ reachable (init c) step s /\
    state (cb s) = StateHalfOpen /\ generation (cb s) = gen /\
    threads s = Finished :: replicate n (Running gen).
Proof.
  assert (G : generation half_opened = 2) by (vm_compute; reflexivity).
  exists (example_config 1), {| cb := half_opened; now := 2 * Second; threads := Finished :: replicate n (Running 2) |}, 2.
  split; [done|]. split; [|split; [vm_compute; reflexivity|done]].
  induction n as [|n IH]; [exact half_opened_reachable|].
  apply further_trial in IH; [|vm_compute; discriminate|vm_compute; reflexivity].
  rewrite G in IH. by rewrite replicate_S_end.
Qed.
End Interleaving.

(** What a rejection reports.  [beforeRequest] is documented to return an
    error that carries the counts.  Entering the open state clears the
    counters, nothing changes them there, and half-open rejects nobody: in
    every rejection, all four counts are zero. *)
Theorem rejection_counts_are_zero p cb s now gen e :
  refines p cb s -> (beforeRequest now cb).1 = (gen, Some e) ->
  exists c, e = ECircuitOpen c /\ coe_State c = "open" /\ coe_TotalRequests c = 0 /\ coe_TotalFailures c = 0 /\
    coe_ConsecutiveFailures c = 0 /\ coe_ConsecutiveSuccesses c = 0.
Proof.
  intros R. rewrite (beforeRequest_spec _ _ _ _ R). cbn [fst]. intros E.
  destruct (spec_now p now s); simplify_eq. eexists. split; [reflexivity|done].
Qed.

Lemma rejection_counts_are_zero_witness :
  exists c, rejection Second 5 = ECircuitOpen c /\ coe_TotalFailures c = 0.
Proof.
  destruct (rejection_counts_are_zero _ opened _ 5 1 (rejection Second 5) opened_refines) as (c & E & _ & _ & F & _);
    [vm_compute; reflexivity|].
  exists c. split; [exact E|exact F].
Defined.
