(* ===== verification/BreakerRace.v ===== *)
(** Concurrent calls of [State()] ([circuitbreaker/breaker.go]).

    [State] holds the read lock only, which any number of goroutines hold at
    once, and calls [currentState], which writes when the timeout of an open
    breaker is over.  [BreakerSpec.Interleaving] takes a query for one step;
    here the statements of [currentState] and [setState] of several readers
    interleave, in an order that is consistent with each reader's own (the
    fields are not synchronised, so Go promises less than that).  The write lock
    is excluded meanwhile: nothing else touches the breaker. *)

From S2P Require Import Prelude Float64 Errors Runtime Window Breaker BreakerSpec.

(** A reader: before [currentState]; it found the timeout over; past the guard
    of [setState]; with [oldState]; the new state entered; returned. *)
Inductive reader := Asking | Due | Guarded | Entering (oldState : State) | Entered (oldState : State) | Answered (st : State).

Record system := { cb : breaker; readers : list reader }.

(** The next statements of a reader, at [now]. *)
Definition act (now : Z) (b : breaker) (r : reader) : option (breaker * reader) :=
  match r with
  | Asking =>
      match state b with
      | StateOpen => Some (b, if expiry b <? now then Due else Answered StateOpen)
      | _ => let b := currentState now b in Some (b, Answered (state b))
      end
  | Due => Some (b, if bool_decide (state b = StateHalfOpen) then Answered (state b) else Guarded)
  | Guarded => Some (b, Entering (state b))
  | Entering old => Some (enter StateHalfOpen b, Entered old)
  | Entered old =>
      let b := emitStateChange old StateHalfOpen (syncFastFields (set_halfOpenStart now b)) in Some (b, Answered (state b))
  | Answered _ => None
  end.

Inductive step (now : Z) : system -> system -> Prop :=
| step_reader i r b rs b' r' : rs !! i = Some r -> act now b r = Some (b', r') ->
    step now {| cb := b; readers := rs |} {| cb := b'; readers := <[i := r']> rs |}.

(** [n] goroutines ask for the state of [b]. *)
Definition asking (b : breaker) (n : nat) (s : system) : Prop := s = {| cb := b; readers := replicate n Asking |}.

(** ** What the readers leave *)

Definition settled (b : breaker) : Prop := fastState b = state b /\ fastGen b = generation b.

Record inv (now : Z) (s : system) : Prop := {
  i_expiry : expiry (cb s) < now;
  i_state : state (cb s) = StateOpen /\ (forall r, r ∈ readers s -> r = Asking \/ r = Due \/ r = Guarded \/ r = Entering StateOpen) \/
            state (cb s) = StateHalfOpen;
  i_answers : forall st, Answered st ∈ readers s -> st = StateHalfOpen;
  i_settled : state (cb s) = StateHalfOpen -> (forall old, Entered old ∉ readers s) -> settled (cb s);
  i_counts : state (cb s) = StateHalfOpen -> Requests (counts (cb s)) = 0 /\ TotalFailures (counts (cb s)) = 0
}.

Lemma in_insert {A} (l : list A) i x y z : l !! i = Some x -> z ∈ <[i := y]> l -> z = y \/ z ∈ l.
Proof.
  intros L I. apply list_elem_of_lookup in I as [j I]. rewrite list_lookup_insert in I. case_decide as D; [left; by injection I|].
  right. by apply list_elem_of_lookup_2 in I.
Qed.

Lemma not_in_insert {A} (l : list A) i x y z : l !! i = Some x -> x <> z -> z ∉ <[i := y]> l -> z ∉ l.
Proof.
  intros L N NI I. apply NI. apply list_elem_of_lookup in I as [j I]. apply list_elem_of_lookup. exists j.
  rewrite list_lookup_insert_ne; [done|]. intros ->. congruence.
Qed.

Lemma emit_keeps from to b :
  let b' := emitStateChange from to b in
  state b' = state b /\ expiry b' = expiry b /\ fastState b' = fastState b /\ fastGen b' = fastGen b /\
  generation b' = generation b /\ counts b' = counts b.
Proof. cbv zeta. unfold emitStateChange. repeat case_match; done. Qed.

Lemma race_inv_step now s t : inv now s -> step now s t -> inv now t.
Proof.
  intros [E S A F C] St. destruct St as [i r b rs b' r' L Ac]. cbn [cb readers] in *.
  assert (In : r ∈ rs) by by eapply list_elem_of_lookup_2.
  assert (Move : b' = b -> (forall st, r' = Answered st -> st = StateHalfOpen) -> (forall old, r <> Entered old) ->
    (state b = StateOpen -> r' = Asking \/ r' = Due \/ r' = Guarded \/ r' = Entering StateOpen) -> inv now {| cb := b'; readers := <[i := r']> rs |}).
  { intros -> Ans NE Op. split; cbn [cb readers]; try done.
    - destruct S as [[S R]|S]; [left|by right]. split; [done|]. intros q Hq.
      destruct (in_insert _ _ _ _ _ L Hq) as [->|]; [by apply Op|by apply R].
    - intros st Hq. destruct (in_insert _ _ _ _ _ L Hq) as [Eq|]; [by apply Ans|by apply A].
    - intros Hh N. apply F; [done|]. intros old. eapply (not_in_insert _ _ _ _ _ L); [apply NE|apply N]. }
  destruct r as [| | |old|old|st]; cbn in Ac.
  - destruct S as [[S R]|S]; rewrite S in Ac.
    + apply Z.ltb_lt in E. rewrite E in Ac. injection Ac as <- <-. apply Move; try done; auto.
    + unfold currentState in Ac. rewrite S in Ac. injection Ac as <- <-. apply Move; try done; [|congruence]. intros st [= <-]. done.
  - injection Ac as <- <-. case_bool_decide as D.
    + apply Move; try done; [|congruence]. intros st [= <-]. done.
    + apply Move; try done. auto.
  - injection Ac as <- <-. apply Move; try done. intros ->. auto.
  - injection Ac as <- <-. split; cbn [cb readers]; try done.
    + by right.
    + intros st Hq. destruct (in_insert _ _ _ _ _ L Hq) as [|]; [done|by apply A].
    + intros _ N. exfalso. apply (N old). eapply list_elem_of_lookup_2. apply list_lookup_insert_eq. by eapply lookup_lt_Some.
  - injection Ac as <- <-. destruct S as [[S R]|S].
    { destruct (R _ In) as [|[|[|]]]; done. }
    set (b1 := syncFastFields (set_halfOpenStart now b)). destruct (emit_keeps old StateHalfOpen b1) as (K1 & K2 & K3 & K4 & K5 & K6).
    split; cbn [cb readers].
    + by rewrite K2.
    + right. by rewrite K1.
    + intros st Hq. destruct (in_insert _ _ _ _ _ L Hq) as [Eq|]; [injection Eq as ->; by rewrite K1|by apply A].
    + intros _ _. unfold settled. by rewrite K1, K3, K4, K5.
    + rewrite K6. intros _. by apply C.
  - done.
Qed.

(** C35: Asking for the state at once is harmless but for what it announces.
    However many goroutines call [State()] on an open breaker whose timeout is
    over, and however their statements interleave: each that returns says
    half-open; and when all have returned, the breaker is half-open with empty
    counts and its atomic mirrors agree with it. *)
Theorem concurrent_state_settles b n now s :
  state b = StateOpen -> expiry b < now -> reachable (asking b n) (step now) s ->
  (forall st, Answered st ∈ readers s -> st = StateHalfOpen) /\
  ((forall r, r ∈ readers s -> exists st, r = Answered st) -> (0 < n)%nat ->
   state (cb s) = StateHalfOpen /\ settled (cb s) /\
   Requests (counts (cb s)) = 0 /\ TotalFailures (counts (cb s)) = 0).
Proof.
  intros S E R. assert (I : inv now s /\ length (readers s) = n).
  { revert s R. apply invariant_reachable.
    - intros s ->. split; [|apply length_replicate]. split; cbn [cb readers]; try congruence.
      + left. split; [done|]. intros r [-> _]%elem_of_replicate. by left.
      + intros st [? _]%elem_of_replicate. done.
    - intros s t [I N] St. split; [by eapply race_inv_step|]. destruct St. cbn in *. by rewrite length_insert. }
  destruct I as [[_ St A F C] N]. split; [done|]. intros All Pos.
  assert (H : state (cb s) = StateHalfOpen).
  { destruct St as [[_ Rs]|]; [exfalso|done]. destruct (readers s) as [|r rs]; [cbn in N; lia|].
    destruct (All r) as [st ->]; [left|]. destruct (Rs (Answered st)) as [|[|[|]]]; [left|done..]. }
  split; [done|]. split; [|by apply C]. apply F; [done|]. intros old I. by destruct (All _ I).
Qed.

(** ** What is announced *)

Fixpoint run (now : Z) (s : system) (sched : list nat) : option system :=
  match sched with
  | [] => Some s
  | i :: sched =>
      match readers s !! i with
      | None => None
      | Some r =>
          match act now (cb s) r with
          | None => None
          | Some (b, r') => run now {| cb := b; readers := <[i := r']> (readers s) |} sched
          end
      end
  end.

Lemma race_run_reaches I now s sched t : reachable I (step now) s -> run now s sched = Some t -> reachable I (step now) t.
Proof.
  revert s. induction sched as [|i sched IH]; cbn; intros s R E; [by injection E as <-|].
  destruct (readers s !! i) as [r|] eqn:L; [|done]. destruct (act now (cb s) r) as [[b r']|] eqn:A; [|done].
  refine (IH _ _ E). apply (reach_step _ _ _ _ R). destruct s. by eapply step_reader.
Qed.

(** A breaker that is watched, opened by one failure. *)
Definition opened : breaker :=
  afterRequest 0 false 1 (Breaker.New {|
    ReadyToTrip := Some (TripOnConsecutiveFailures 1); OnStateChange := true; IsSuccessful := None;
    Interval := 0; Timeout := Second; MaxRequests := 1; WindowType := SlidingWindowDisabled; SlidingWindowSize := 0;
    MinimumCalls := 0; FailureRateThreshold := f_of_Z 0 |} 0 []).

Definition two : system := {| cb := opened; readers := [Asking; Asking] |}.
Definition sched : list nat := [0; 1; 0; 1; 0; 0; 0; 1; 1; 1]%nat.
Definition raced : system := default two (run (2 * Second) two sched).

(** Two readers that find the timeout over both make the transition: the
    generation moves twice, and a change from half-open to half-open is
    announced, which no guarded change of state is. *)
Lemma transition_announced_twice :
  run (2 * Second) two sched = Some raced /\ readers raced = [Answered StateHalfOpen; Answered StateHalfOpen] /\
  generation (cb raced) = generation opened + 2 /\
  stateChanges (cb raced) = Some [ {| from_state := StateClosed; to_state := StateOpen |};
    {| from_state := StateOpen; to_state := StateHalfOpen |}; {| from_state := StateHalfOpen; to_state := StateHalfOpen |} ].
Proof. vm_compute. repeat split. Qed.

Lemma concurrent_state_settles_witness :
  readers raced = [Answered StateHalfOpen; Answered StateHalfOpen] /\ state (cb raced) = StateHalfOpen /\ settled (cb raced).
Proof.
  split; [vm_compute; reflexivity|].
  destruct (concurrent_state_settles opened 2 (2 * Second) raced) as [_ Q].
  - vm_compute. reflexivity.
  - vm_compute. reflexivity.
  - eapply (race_run_reaches _ _ two sched); [by apply reach_init|vm_compute; reflexivity].
  - destruct Q as (S & F & _); [|lia|split; [exact S|exact F]].
    assert (E : readers raced = [Answered StateHalfOpen; Answered StateHalfOpen]) by (vm_compute; reflexivity).
    rewrite E. intros r I. apply elem_of_cons in I as [->|I]; [eauto|]. apply list_elem_of_singleton in I as ->. eauto.
Defined.
