(* ===== verification/Retry.v ===== *)
(** The retry wrapper ([retry/retry.go], [backoff.go], [config.go]).

    [Execute] is the loop of the source with its attempts counted down; its
    wait is the [select] of [Runtime].  [math.Pow] (whose last bit depends on
    the platform) and the random draw are parameters: the theorems hold
    whatever they return, the bound on the jitter for draws in [0, 1). *)

From Stdlib Require Import QArith Lqa.
From S2P Require Import Prelude Float64 Errors Runtime.

#[local] Open Scope Z_scope.
#[local] Open Scope go_scope.

(** ** [config.go] *)

(** An [int] type in Go. *)
Inductive BackoffPolicy :=
| BackoffExponential
| BackoffLinear
| BackoffConstant
| BackoffUnknown (n : Z).

(** Logger remaining out; the targets of [errors.Is] are sentinels. *)
Record Config (W : Type) := {
  RetryableErrors : list sentinel;
  NonRetryableErrors : list sentinel;
  IsRetryable_fn : option (error -> bool);
  OnRetry : option (Z -> error -> M W unit);
  InitialDelay : Z;
  MaxDelay : Z;
  Multiplier : f64;
  MaxAttempts : Z;
  Policy : BackoffPolicy;
  Jitter : bool
}.

Arguments RetryableErrors {W}.
Arguments NonRetryableErrors {W}.
Arguments IsRetryable_fn {W}.
Arguments OnRetry {W}.
Arguments InitialDelay {W}.
Arguments MaxDelay {W}.
Arguments Multiplier {W}.
Arguments MaxAttempts {W}.
Arguments Policy {W}.
Arguments Jitter {W}.

Definition setDefaults {W} (c : Config W) : Config W :=
  let mult := if fleb (Multiplier c) (f_of_Z 0) then f_of_Z 2 else Multiplier c in {|
    RetryableErrors := RetryableErrors c;
    NonRetryableErrors := NonRetryableErrors c;
    IsRetryable_fn := IsRetryable_fn c;
    OnRetry := OnRetry c;
    InitialDelay := if InitialDelay c <=? 0 then 100 * Millisecond else InitialDelay c;
    MaxDelay := if MaxDelay c <? 0 then 0 else MaxDelay c;
    Multiplier := if fltb (f_of_Z 100) mult then f_of_Z 100 else mult;
    MaxAttempts := if MaxAttempts c <=? 0 then 3 else MaxAttempts c;
    Policy := Policy c;
    Jitter := Jitter c
  |}.

(** ** [backoff.go] *)

Definition maxBackoffDuration : Z := 24 * Hour.

(** [u] is the draw of [rand.Float64()]. *)
Definition addJitter (u : f64) (delay : Z) : Z :=
  if delay =? 0 then 0
  else
    let jitterAmount := f_to_int64 0 (fmul (fmul u (f_of_Z delay)) (f_ratio 1 10)) in
    i64 (delay + jitterAmount).

(** The part before the jitter. *)
Definition baseBackoff (Pow : f64 -> f64 -> f64) (policy : BackoffPolicy) (attempt initialDelay maxDelay : Z)
    (multiplier : f64) : Z :=
  let delayF :=
    match policy with
    | BackoffExponential => fmul (f_of_Z initialDelay) (Pow multiplier (f_of_Z (attempt - 1)))
    | BackoffLinear => fmul (f_of_Z initialDelay) (f_of_Z attempt)
    | BackoffConstant | BackoffUnknown _ => f_of_Z initialDelay
    end in
  let cap := f_of_Z maxBackoffDuration in
  let delayF :=
    if isNaN delayF || isInf delayF || fltb cap delayF || fltb delayF (f_of_Z 0) then cap else delayF in
  let delay := f_to_int64 0 delayF in
  if (maxDelay >? 0) && (delay >? maxDelay) then maxDelay else delay.

Definition calculateBackoff (Pow : f64 -> f64 -> f64) (u : f64) (policy : BackoffPolicy)
    (attempt initialDelay maxDelay : Z) (multiplier : f64) (jitter : bool) : Z :=
  let delay := baseBackoff Pow policy attempt initialDelay maxDelay multiplier in
  if jitter then addJitter u delay else delay.

(** ** [retry.go] *)

Definition isRetryable {W} (c : Config W) (err : error) : bool :=
  match IsRetryable_fn c with
  | Some f => f err
  | None =>
      if existsb (errors_is err) (NonRetryableErrors c) then false
      else
        match RetryableErrors c with
        | _ :: _ => existsb (errors_is err) (RetryableErrors c)
        | [] =>
            if IsRetryable (Some err) then true
            else if errors_is err ErrCircuitOpen then false
            else true
        end
  end.

Section Execute.
Context {W T : Type} `{World W} (zero : T).
Context (Pow : f64 -> f64 -> f64) (rand_Float64 : M W f64).
Context (cfg : Config W) (c : ctx) (fn : Fn W T).

Definition callOnRetry (attempt : Z) (err : error) : M W unit :=
  match OnRetry cfg with
  | Some f => f attempt err
  | None => ret tt
  end.

(** The draw happens only for a jittered, non-zero delay. *)
Definition backoff_M (attempt : Z) : M W Z :=
  let delay := baseBackoff Pow (Policy cfg) attempt (InitialDelay cfg) (MaxDelay cfg) (Multiplier cfg) in
  if Jitter cfg && negb (delay =? 0)
  then let! u := rand_Float64 in
       ret (calculateBackoff Pow u (Policy cfg) attempt (InitialDelay cfg) (MaxDelay cfg) (Multiplier cfg) true)
  else ret delay.

(** The iterations from [attempt] on; [left] of them remain.  [res] and
    [err] are the variables of the enclosing function. *)
Fixpoint attempts (remaining : nat) (attempt : Z) (res : T) (err : option error) : M W (result T) :=
  match remaining with
  | O => ret (res, err)
  | S remaining =>
      let! done := err_of c in
      match done with
      | Some e => ret (res, Some e)
      | None =>
          let! r := fn c in
          let '(res, err) := r in
          match err with
          | None => ret (res, None)
          | Some e =>
              if negb (isRetryable cfg e) then ret (res, Some e)
              else if attempt =? MaxAttempts cfg then ret (res, Some e)
              else
                callOnRetry (attempt + 1) e ;;;
                let! delay := backoff_M attempt in
                let! stopped := select_timer delay c in
                match stopped with
                | Some e => ret (res, Some e)
                | None => attempts remaining (attempt + 1) res (Some e)
                end
          end
      end
  end.

Definition Execute : M W (result T) := attempts (Z.to_nat (MaxAttempts cfg)) 1 zero None.
End Execute.

(** ** What the loop computes *)

Section Spec.
Context {W T : Type} `{World W} (zero : T).
Context (Pow : f64 -> f64 -> f64) (rand_Float64 : M W f64).
Context (cfg : Config W) (c : ctx) (fn : Fn W T).
Context (script : W -> list (result T)) (Sc : scripted script fn) (Rand : leaves script rand_Float64).
Context (OnR : forall a e, leaves script (callOnRetry cfg a e)).

(** Is the loop over after this outcome? *)
Definition settled (r : result T) : bool :=
  match r.2 with None => true | Some e => negb (isRetryable cfg e) end.

(** The reference: the first settled outcome among the first [n], else the
    last of them; and how many were looked at. *)
Fixpoint first_settled (n : nat) (rs : list (result T)) : result T * nat :=
  match n, rs with
  | S n, r :: rs =>
      if settled r || (n =? 0)%nat then (r, 1%nat)
      else let '(r', k) := first_settled n rs in (r', S k)
  | _, _ => ((zero, None), 0%nat)
  end.

(** The loop stopped because the context was done. *)
Definition cancelled (r : result T) (w : W) : Prop :=
  exists e, r.2 = Some e /\ ctx_Err c (clock w) = Some e.

Lemma err_of_run w : err_of c w = (ctx_Err c (clock (tick w)), tick w).
Proof. done. Qed.

Lemma backoff_M_leaves attempt : leaves script (backoff_M Pow rand_Float64 cfg attempt).
Proof. intros w. unfold backoff_M. case_match; [|done]. unfold bind, ret. cbn. apply Rand. Qed.

Lemma select_timer_leaves d : leaves script (select_timer d c).
Proof. intros w. unfold select_timer. cbn. apply (script_await _ _ Sc). Qed.

Lemma attempts_run n : forall attempt res err w,
  (n > 0)%nat -> attempt + Z.of_nat n = MaxAttempts cfg + 1 -> (n <= length (script w))%nat ->
  let '(r, w') := attempts Pow rand_Float64 cfg c fn n attempt res err w in
  exists k, (k <= n)%nat /\ script w' = drop k (script w) /\
    ((r, k) = first_settled n (script w) \/
     cancelled r w' /\ (k <= (first_settled n (script w)).2)%nat).
Proof.
  induction n as [|n IH]; intros attempt res err w Hn Ha Hl; [lia|].
  cbn [attempts]. unfold bind at 1. rewrite err_of_run. cbn [fst snd].
  destruct (ctx_Err c (clock (tick w))) as [e|] eqn:E.
  { exists 0%nat. split; [lia|]. split; [apply (script_tick _ _ Sc)|].
    right. split; [by exists e|lia]. }
  destruct (script w) as [|r0 rs] eqn:Es; [cbn in Hl; lia|].
  destruct (script_fn _ _ Sc c (tick w) r0 rs) as (w1 & Ef & E1); [by rewrite (script_tick _ _ Sc)|].
  unfold bind at 1. rewrite Ef. cbn [fst snd]. destruct r0 as [v [e|]].
  2:{ exists 1%nat. split; [lia|]. split; [done|]. left. done. }
  cbn [first_settled]. unfold settled at 1 2. cbn [snd].
  destruct (isRetryable cfg e) eqn:Er; cbn [negb orb].
  2:{ exists 1%nat. split; [lia|]. split; [done|]. by left. }
  destruct (Z.eqb_spec attempt (MaxAttempts cfg)) as [Ea|Ea].
  { replace n with 0%nat by lia. exists 1%nat. split; [lia|]. split; [done|]. by left. }
  destruct (Nat.eqb_spec n 0) as [->|Hn0]; [lia|].
  unfold bind at 1. set (w2 := (callOnRetry cfg (attempt + 1) e w1).2).
  unfold bind at 1. set (p := backoff_M _ _ _ _ w2).
  unfold bind at 1. set (q := select_timer p.1 c p.2).
  assert (S2 : script q.2 = rs).
  { unfold q, p, w2. by rewrite select_timer_leaves, backoff_M_leaves, OnR. }
  destruct (q.1) as [e'|] eqn:Eq.
  - exists 1%nat. split; [lia|]. split; [done|]. right. split.
    + exists e'. split; [done|]. apply (select_timer_done p.1 c p.2).
      fold q. rewrite <- Eq. by destruct q.
    + destruct (first_settled n rs). cbn. lia.
  - specialize (IH (attempt + 1) v (Some e) q.2). rewrite S2 in IH.
    destruct (attempts _ _ _ _ _ n _ _ _ q.2) as [r w'].
    destruct IH as (k & Hk & Sk & D); [lia|lia|cbn in Hl; lia|].
    exists (S k). split; [lia|]. split; [done|].
    destruct (first_settled n rs) as [r' k']. destruct D as [[= -> ->]|[Cn Lk]]; [by left|right].
    split; [done|]. cbn in *. lia.
Qed.

(** C6: Attempts are bounded and the answer is the reference one.  With a
    context that is never done, [Execute] returns the first outcome that is a
    success or not retryable among the first [MaxAttempts], else the last of
    these, and has run the function exactly that many times. *)
Theorem retry_first_settled w :
  done_at c = None -> 1 <= MaxAttempts cfg <= Z.of_nat (length (script w)) ->
  let '(r, w') := Execute zero Pow rand_Float64 cfg c fn w in
  exists k, (r, k) = first_settled (Z.to_nat (MaxAttempts cfg)) (script w) /\
    script w' = drop k (script w) /\ Z.of_nat k <= MaxAttempts cfg.
Proof.
  intros Hc Hm. unfold Execute.
  pose proof (attempts_run (Z.to_nat (MaxAttempts cfg)) 1 zero None w) as R.
  destruct (attempts _ _ _ _ _ _ _ _ _ w) as [r w'].
  destruct R as (k & Hk & Sk & [E|[(e & _ & Ce) _]]); [lia..| |].
  - exists k. split; [done|]. split; [done|]. lia.
  - unfold ctx_Err in Ce. by rewrite Hc in Ce.
Qed.

(** C36: Cancellation.  Under any context [Execute] returns, having run the
    function at most [MaxAttempts] times and never after an outcome that
    settles the call; and when it stops early it returns the error of a
    context that is done. *)
Theorem retry_cancellation w :
  1 <= MaxAttempts cfg <= Z.of_nat (length (script w)) ->
  let '(r, w') := Execute zero Pow rand_Float64 cfg c fn w in
  exists k, script w' = drop k (script w) /\
    (k <= (first_settled (Z.to_nat (MaxAttempts cfg)) (script w)).2)%nat /\
    (r = (first_settled (Z.to_nat (MaxAttempts cfg)) (script w)).1 \/ cancelled r w').
Proof.
  intros Hm. unfold Execute.
  pose proof (attempts_run (Z.to_nat (MaxAttempts cfg)) 1 zero None w) as R.
  destruct (attempts _ _ _ _ _ _ _ _ _ w) as [r w'].
  destruct R as (k & Hk & Sk & [E|[Cn L]]); [lia..| |]; exists k; (split; [done|]).
  - rewrite <- E. cbn. split; [lia|by left].
  - split; [done|by right].
Qed.
End Spec.

(** ** Backoff *)

Lemma fmul_FFin a b : fmul (FFin a) (FFin b) = rnd (a * b).
Proof. reflexivity. Qed.

(** The guard against NaN, infinity and overflow leaves a value between 0
    and a day. *)
Lemma guarded x :
  let cap := f_of_Z maxBackoffDuration in
  between 0 maxBackoffDuration
    (if isNaN x || isInf x || fltb cap x || fltb x (f_of_Z 0) then cap else x).
Proof.
  intros cap.
  assert (B : between 0 maxBackoffDuration cap).
  { apply between_iff; [unfold maxBackoffDuration, Hour, Minute, Second; lia..|]. split; vm_compute; reflexivity. }
  destruct (isNaN x) eqn:N; [done|]. destruct (isInf x); [done|].
  destruct (fltb cap x) eqn:U; [done|]. destruct (fltb x (f_of_Z 0)) eqn:L; [done|]. cbn [orb].
  apply between_iff; [unfold maxBackoffDuration, Hour, Minute, Second; lia..|].
  split; [by apply fltb_false_le|by apply fltb_false_le].
Qed.

Lemma baseBackoff_bounds Pow policy attempt initialDelay maxDelay multiplier :
  let d := baseBackoff Pow policy attempt initialDelay maxDelay multiplier in
  0 <= d <= maxBackoffDuration /\ (0 < maxDelay -> d <= maxDelay).
Proof.
  unfold baseBackoff. cbv zeta. match goal with |- context [f_to_int64 0 (if _ then _ else ?x)] => pose proof (guarded x) as G end.
  cbv zeta in G. apply (f_to_int64_between 0) in G; [|lia|unfold maxBackoffDuration, Hour, Minute, Second; lia].
  match type of G with _ <= ?d <= _ => set (delay := d) in *; clearbody delay end. zcases; lia.
Qed.

(** A draw of [rand.Float64()]. *)
Definition unit_draw (u : f64) : Prop := exists q, u = FFin q /\ (0 <= q)%Q /\ (q < 1)%Q.

Lemma tenth : exists t, f_ratio 1 10 = FFin t /\ (0 <= t)%Q /\ (t <= (1 # 10) + (1 # 72057594037927936))%Q.
Proof. eexists. split; [vm_compute; reflexivity|]. split; vm_compute; discriminate. Qed.

Lemma tenth_le n : 0 <= n -> 0 <= n / 10 <= n.
Proof. intros. split; [apply Z.div_pos; lia|apply Z.div_le_upper_bound; lia]. Qed.

(** A tenth of the delay, rounded up. *)
Lemma jitter_bounds u delay :
  unit_draw u -> 0 <= delay <= maxBackoffDuration ->
  0 <= f_to_int64 0 (fmul (fmul u (f_of_Z delay)) (f_ratio 1 10)) <= delay / 10 + 1.
Proof.
  intros (q & -> & Q0 & Q1) D. unfold maxBackoffDuration, Hour, Minute, Second in D.
  pose proof (tenth_le delay ltac:(lia)) as Tn. apply f_to_int64_between; [lia|lia|].
  rewrite f_of_Z_exact, fmul_FFin by lia.
  assert (Dq : (0 <= inject_Z delay)%Q) by (change 0%Q with (inject_Z 0); rewrite <- Zle_Qle; lia).
  assert (P0 : (inject_Z 0 <= q * inject_Z delay)%Q) by (apply Qmult_le_0_compat; assumption).
  assert (P1 : (q * inject_Z delay <= inject_Z delay)%Q) by (set (x := inject_Z delay) in *; nra).
  destruct (rnd_between 0 delay (q * inject_Z delay)) as (a & -> & A0 & A1); [lia|lia|exact P0|exact P1|].
  destruct tenth as (t & -> & T0 & T1). rewrite fmul_FFin. change (inject_Z 0) with 0%Q in A0.
  apply rnd_between; [lia|lia|by apply Qmult_le_0_compat|].
  apply Qle_trans with (inject_Z delay * ((1 # 10) + (1 # 72057594037927936)))%Q.
  { set (x := inject_Z delay) in *. nra. }
  pose proof (Z.div_mod delay 10). pose proof (Z.mod_pos_bound delay 10).
  unfold Qle, Qmult, Qplus, inject_Z. cbn [Qnum Qden]. lia.
Qed.

(** C37: Delays are bounded.  For every policy, attempt number, multiplier
    and result of [math.Pow] -- infinities and NaN included -- the wait before
    a retry is not negative, is at most a day and at most [MaxDelay] when one
    is set, plus, with jitter, at most a tenth of that (rounded up). *)
Theorem backoff_bounds Pow u policy attempt initialDelay maxDelay multiplier jitter :
  unit_draw u ->
  let base := baseBackoff Pow policy attempt initialDelay maxDelay multiplier in
  let d := calculateBackoff Pow u policy attempt initialDelay maxDelay multiplier jitter in
  0 <= base <= maxBackoffDuration /\ (0 < maxDelay -> base <= maxDelay) /\
  base <= d <= base + (if jitter then base / 10 + 1 else 0).
Proof.
  intros U. cbv zeta. unfold calculateBackoff.
  destruct (baseBackoff_bounds Pow policy attempt initialDelay maxDelay multiplier) as [B M].
  set (base := baseBackoff _ _ _ _ _ _) in *. clearbody base. split; [done|]. split; [done|].
  pose proof (tenth_le base ltac:(lia)) as Tn.
  destruct jitter; [|lia]. unfold addJitter. destruct (Z.eqb_spec base 0); [lia|].
  pose proof (jitter_bounds u base U B) as J. unfold maxBackoffDuration, Hour, Minute, Second in B.
  rewrite i64_small; lia.
Qed.

Lemma backoff_bounds_witness :
  unit_draw (f_ratio 1 2) /\
  calculateBackoff (fun _ _ => FInf false) (f_ratio 1 2) BackoffExponential 9 Second (30 * Second) (f_of_Z 2) true
    <= 30 * Second + 3 * Second + 1.
Proof.
  assert (U : unit_draw (f_ratio 1 2)) by (exists (1 # 2)%Q; split; [vm_compute; reflexivity|split; reflexivity || discriminate]).
  split; [exact U|].
  destruct (backoff_bounds (fun _ _ => FInf false) (f_ratio 1 2) BackoffExponential 9 Second (30 * Second) (f_of_Z 2) true U)
    as (_ & _ & _ & B). vm_compute in B |- *. exact B.
Defined.

(** [MaxDelay] is documented as the maximum delay between retries; the
    jitter is added after the cap, so a jittered delay can exceed it. *)
Theorem jitter_exceeds_MaxDelay :
  exists Pow u, unit_draw u /\
    Second < calculateBackoff Pow u BackoffConstant 1 (2 * Second) Second (f_of_Z 2) true.
Proof.
  exists (fun _ _ => FNaN), (f_ratio 1 2). split; [|vm_compute; reflexivity].
  exists (1 # 2)%Q. split; [vm_compute; reflexivity|split; reflexivity || discriminate].
Qed.

(** ** Witnesses *)

Definition example_config : Config (sim (list (result Z))) := setDefaults {|
  RetryableErrors := []; NonRetryableErrors := []; IsRetryable_fn := None; OnRetry := None;
  InitialDelay := Second; MaxDelay := 0; Multiplier := f_of_Z 2; MaxAttempts := 3;
  Policy := BackoffConstant; Jitter := false
|}.

Definition example_script : list (result Z) :=
  [(0, Some (ESentinel (ErrUser 1))); (0, Some (ESentinel ErrBulkheadFull)); (7, None); (8, None)].

Lemma retry_first_settled_witness :
  (Execute 0 (fun _ _ => FNaN) (ret (f_of_Z 0)) example_config Background (play (9, None)) (Sim 0 example_script)).1
    = (7, None).
Proof.
  pose proof (retry_first_settled 0 (fun _ _ => FNaN) (ret (f_of_Z 0)) example_config Background (play (9, None))
    sim_state (play_scripted _) (fun w => eq_refl) (fun a e w => eq_refl) (Sim 0 example_script) eq_refl) as R.
  destruct (Execute _ _ _ _ _ _ _) as [r w'].
  destruct R as (k & E & _); [vm_compute; split; discriminate|]. by injection E.
Defined.

Definition cancelled_ctx : ctx := {| done_at := Some (Millisecond, ESentinel Canceled); ctx_values := [] |}.

Lemma retry_cancellation_witness :
  let '(r, w') := Execute 0 (fun _ _ => FNaN) (ret (f_of_Z 0)) example_config cancelled_ctx (play (9, None))
    (Sim 0 example_script) in
  exists k, sim_state w' = drop k example_script /\ (k <= 3)%nat /\ (r = (7, None) \/ cancelled cancelled_ctx r w').
Proof.
  pose proof (retry_cancellation 0 (fun _ _ => FNaN) (ret (f_of_Z 0)) example_config cancelled_ctx (play (9, None))
    sim_state (play_scripted _) (fun w => eq_refl) (fun a e w => eq_refl) (Sim 0 example_script)) as R.
  destruct (Execute _ _ _ _ _ _ _) as [r w']. apply R. vm_compute. split; discriminate.
Defined.
