(* ===== verification/Budget.v ===== *)
(** The cost budget ([budget/budget.go]).

    The atomic counters, the breach flag and the rolling window are the record
    [budget]; [Execute] is one goroutine's call on the lock-free or the
    windowed path.  [Module LockFree] and [Module Windowed] interleave any
    number of calls, atomic operation by atomic operation on the lock-free
    path and critical section by critical section, with the callbacks between
    them, on the windowed one; [LockFree.step_with_reset] adds [Reset], four
    stores without a lock, to the lock-free calls.  Counters are int64 and
    wrap. *)

From S2P Require Import Prelude Errors Runtime.

#[local] Open Scope go_scope.

(** [Cost.Add]. *)
Definition Cost_Add (c o : Cost) : Cost := {|
  Tokens := i64 (Tokens c + Tokens o);
  USDMicros := i64 (USDMicros c + USDMicros o);
  Calls := i64 (Calls c + Calls o)
|}.

Definition zero_cost : Cost := {| Tokens := 0; USDMicros := 0; Calls := 0 |}.

(** A nil function is [None].  [Clock] is the world's. *)
Record Config (W T : Type) := {
  Max : Cost;
  Charge : option (ctx -> T -> option error -> Cost);
  OnExceeded : option (Cost -> M W unit);
  ResetAfter : Z
}.

Arguments Max {W T}.
Arguments Charge {W T}.
Arguments OnExceeded {W T}.
Arguments ResetAfter {W T}.

Record budget := {
  tokens : Z;
  usdMicros : Z;
  calls : Z;
  breached : bool;
  windowStart : Z;
  windowOpen : bool
}.

Definition fresh : budget := {|
  tokens := 0; usdMicros := 0; calls := 0; breached := false; windowStart := zero_time; windowOpen := false
|}.

(** [New]: the budget, or the error of an empty [Max]. *)
Definition New (max : Cost) : budget + error :=
  if (Tokens max <=? 0) && (USDMicros max <=? 0) && (Calls max <=? 0)
  then inr (ESentinel (ErrNew "budget.New: at least one Max field must be positive"))
  else inl fresh.

(** ** Atomic operations and the pure part of the methods *)

Definition add_call (b : budget) : budget := {|
  tokens := tokens b; usdMicros := usdMicros b; calls := i64 (calls b + 1);
  breached := breached b; windowStart := windowStart b; windowOpen := windowOpen b
|}.

Definition add_tokens (n : Z) (b : budget) : budget := {|
  tokens := i64 (tokens b + n); usdMicros := usdMicros b; calls := calls b;
  breached := breached b; windowStart := windowStart b; windowOpen := windowOpen b
|}.

Definition add_usd (n : Z) (b : budget) : budget := {|
  tokens := tokens b; usdMicros := i64 (usdMicros b + n); calls := calls b;
  breached := breached b; windowStart := windowStart b; windowOpen := windowOpen b
|}.

Definition set_breached (x : bool) (b : budget) : budget := {|
  tokens := tokens b; usdMicros := usdMicros b; calls := calls b;
  breached := x; windowStart := windowStart b; windowOpen := windowOpen b
|}.

Definition clear (b : budget) : budget := {|
  tokens := 0; usdMicros := 0; calls := 0;
  breached := false; windowStart := windowStart b; windowOpen := windowOpen b
|}.

Definition set_window (start : Z) (open : bool) (b : budget) : budget := {|
  tokens := tokens b; usdMicros := usdMicros b; calls := calls b;
  breached := breached b; windowStart := start; windowOpen := open
|}.

(** The guarded additions of a charge. *)
Definition charge_cost (c : Cost) (b : budget) : budget :=
  let b := if Tokens c >? 0 then add_tokens (Tokens c) b else b in
  if USDMicros c >? 0 then add_usd (USDMicros c) b else b.

Definition snapshot (b : budget) : Cost := {|
  Tokens := tokens b; USDMicros := usdMicros b; Calls := calls b
|}.

Definition over (max c : Cost) : bool :=
  if (Tokens max >? 0) && (Tokens c >? Tokens max) then true
  else if (USDMicros max >? 0) && (USDMicros c >? USDMicros max) then true
  else if (Calls max >? 0) && (Calls c >? Calls max) then true
  else false.

Definition exceededError (max c : Cost) : error := EBudgetExceeded c max.

Definition Reset (resetAfter : Z) (b : budget) : budget :=
  let b := clear b in
  if resetAfter >? 0 then set_window (windowStart b) false b else b.

Definition autoResetLocked (resetAfter now : Z) (b : budget) : budget :=
  if negb (windowOpen b) then set_window now true b
  else if time_Sub now (windowStart b) <? resetAfter then b
  else clear (set_window now (windowOpen b) b).

(** The call cap: [Max.Calls > 0 && calls > Max.Calls]. *)
Definition over_calls (max : Cost) (calls : Z) : bool := (Calls max >? 0) && (calls >? Calls max).

(** ** The methods *)

Section Execute.
Context {W T : Type} `{Has W budget} (zero : T) (cfg : Config W T).

Definition update (f : budget -> budget) : M W unit := fun w => (tt, put (f (get w)) w).
Definition read {A} (f : budget -> A) : M W A := fun w => (f (get w), w).

(** [breached.CompareAndSwap(false, true)]. *)
Definition cas_breached : M W bool := fun w =>
  (negb (breached (get w)), put (set_breached true (get w)) w).

Definition charge (c : ctx) (r : result T) : M W unit :=
  match Charge cfg with
  | Some f => update (charge_cost (f c r.1 r.2))
  | None => ret tt
  end.

Definition fireOnExceeded (c : Cost) : M W unit :=
  match OnExceeded cfg with
  | Some f => f c
  | None => ret tt
  end.

Definition markBreach : M W unit :=
  let! won := cas_breached in
  if (won : bool) then
    match OnExceeded cfg with
    | Some f => let! s := read snapshot in f s
    | None => ret tt
    end
  else ret tt.

Definition markBreachLocked : M W (Cost * bool) :=
  let! won := cas_breached in
  if won && (match OnExceeded cfg with Some _ => true | None => false end)
  then let! s := read snapshot in ret (s, true)
  else ret (zero_cost, false).

Definition executeLockFree (c : ctx) (fn : Fn W T) : M W (result T) :=
  let! b := read breached in
  if (b : bool) then let! s := read snapshot in ret (zero, Some (exceededError (Max cfg) s))
  else
    update add_call ;;;
    let! n := read calls in
    if over_calls (Max cfg) n then
      markBreach ;;;
      let! s := read snapshot in ret (zero, Some (exceededError (Max cfg) s))
    else
      let! r := fn c in
      charge c r ;;;
      let! consumed := read snapshot in
      if over (Max cfg) consumed then
        markBreach ;;;
        ret (r.1, Some (exceededError (Max cfg) consumed))
      else ret r.

Definition executeWindowed (c : ctx) (fn : Fn W T) : M W (result T) :=
  let! now := time_Now in
  update (autoResetLocked (ResetAfter cfg) now) ;;;
  let! b := read breached in
  if (b : bool) then let! s := read snapshot in ret (zero, Some (exceededError (Max cfg) s))
  else
    update add_call ;;;
    let! n := read calls in
    if over_calls (Max cfg) n then
      let! m := markBreachLocked in
      let! s := read snapshot in
      (if (m.2 : bool) then fireOnExceeded m.1 else ret tt) ;;;
      ret (zero, Some (exceededError (Max cfg) s))
    else
      let! r := fn c in
      charge c r ;;;
      let! consumed := read snapshot in
      if over (Max cfg) consumed then
        let! m := markBreachLocked in
        (if (m.2 : bool) then fireOnExceeded m.1 else ret tt) ;;;
        ret (r.1, Some (exceededError (Max cfg) consumed))
      else ret r.

Definition Execute (c : ctx) (fn : Fn W T) : M W (result T) :=
  if ResetAfter cfg >? 0 then executeWindowed c fn else executeLockFree c fn.

Definition Consumed : M W Cost := read snapshot.
End Execute.

(** ** One call after the other *)

Section Sequence.
Context {W T : Type} `{Has W budget} (zero : T) (cfg : Config W T) (c : ctx) (fn : Fn W T).
Context (cost : T -> option error -> Cost) (HCharge : Charge cfg = Some (fun _ => cost)).
Context (script : W -> list (result T)) (Sc : scripted script fn).
Context (fn_budget : leaves get (fn c)) (put_script : forall b w, script (put b w) = script w).
Context (OnE_script : forall k, leaves script (fireOnExceeded cfg k))
  (OnE_budget : forall k, leaves get (fireOnExceeded cfg k)).

(** What a call adds to what was spent. *)
Definition spend (r : result T) (s : Cost) : Cost :=
  let k := cost r.1 r.2 in {|
    Tokens := if Tokens k >? 0 then i64 (Tokens s + Tokens k) else Tokens s;
    USDMicros := if USDMicros k >? 0 then i64 (USDMicros s + USDMicros k) else USDMicros s;
    Calls := i64 (Calls s + 1)
  |}.

Definition one_call (s : Cost) : Cost := {| Tokens := Tokens s; USDMicros := USDMicros s; Calls := i64 (Calls s + 1) |}.

(** The reference: a running total, whether it was exceeded, and, with a
    rolling window, since when it runs. *)
Record account := { spent : Cost; exceeded : bool; since : option Z }.

Definition account_of (b : budget) : account :=
  {| spent := snapshot b; exceeded := breached b; since := if windowOpen b then Some (windowStart b) else None |}.

(** The account at a time: a window that is over starts again from nothing; the
    first call opens it. *)
Definition account_at (t : Z) (a : account) : account :=
  if ResetAfter cfg >? 0 then
    match since a with
    | None => {| spent := spent a; exceeded := exceeded a; since := Some t |}
    | Some t0 =>
        if time_Sub t t0 <? ResetAfter cfg then a
        else {| spent := zero_cost; exceeded := false; since := Some t |}
    end
  else a.

(** A call that would return [r]: its answer, whether it ran, and the account
    after it. *)
Definition settle (r : result T) (a : account) : result T * bool * account :=
  let err k := Some (exceededError (Max cfg) k) in
  let with_total k x := {| spent := k; exceeded := x; since := since a |} in
  if exceeded a then ((zero, err (spent a)), false, a)
  else if over_calls (Max cfg) (Calls (one_call (spent a)))
  then ((zero, err (one_call (spent a))), false, with_total (one_call (spent a)) true)
  else if over (Max cfg) (spend r (spent a))
  then ((r.1, err (spend r (spent a))), true, with_total (spend r (spent a)) true)
  else (r, true, with_total (spend r (spent a)) false).

(** The answers to calls at the times [ts], and how many ran. *)
Fixpoint ledger (ts : list Z) (rs : list (result T)) (a : account) : list (result T) * nat :=
  match ts, rs with
  | t :: ts, r :: rest =>
      let '(answer, ran, a) := settle r (account_at t a) in
      let '(answers, k) := ledger ts (if (ran : bool) then rest else rs) a in
      (answer :: answers, if (ran : bool) then S k else k)
  | _, _ => ([], 0%nat)
  end.

Fixpoint repeat_calls (n : nat) : M W (list (result T)) :=
  match n with
  | O => ret []
  | S n => let! r := Execute zero cfg c fn in let! rs := repeat_calls n in ret (r :: rs)
  end.

(** What the clock says when each of [n] calls begins. *)
Fixpoint call_times (n : nat) (w : W) : list Z :=
  match n with
  | O => []
  | S n => clock (tick w) :: call_times n (Execute zero cfg c fn w).2
  end.

(** A breach is marked, and [OnExceeded] told. *)
Lemma markBreach_run w :
  breached (get w) = false ->
  let w' := (markBreach cfg w).2 in
  account_of (get w') = {| spent := snapshot (get w); exceeded := true; since := since (account_of (get w)) |} /\
  script w' = script w.
Proof.
  intros B. unfold markBreach, bind, cas_breached. cbn [fst snd]. rewrite B. cbn [negb].
  destruct (OnExceeded cfg) as [f|] eqn:E; cbn [read fst snd ret].
  - assert (F : f = fireOnExceeded cfg) by (unfold fireOnExceeded; by rewrite E).
    rewrite F, OnE_budget, OnE_script, put_script, get_put. done.
  - by rewrite put_script, get_put.
Qed.

(** The same, with the callback after the lock is released. *)
Lemma markBreachLocked_run w {A} (k : Cost -> A) :
  breached (get w) = false ->
  let m := markBreachLocked cfg w in
  snapshot (get m.2) = snapshot (get w) /\
  let w' := ((if (m.1.2 : bool) then fireOnExceeded cfg m.1.1 else ret tt) m.2).2 in
  account_of (get w') = {| spent := snapshot (get w); exceeded := true; since := since (account_of (get w)) |} /\
  script w' = script w.
Proof.
  intros B. unfold markBreachLocked, bind, cas_breached. cbn [fst snd]. rewrite B. cbn [negb andb].
  destruct (OnExceeded cfg) as [f|] eqn:E; cbn [read fst snd ret].
  - rewrite OnE_budget, OnE_script, put_script, get_put. done.
  - by rewrite put_script, get_put.
Qed.

(** The function runs and its cost is charged. *)
Lemma charged_run w r rs :
  breached (get w) = false -> script w = r :: rs ->
  let w1 := put (add_call (get w)) w in
  exists w2, fn c w1 = (r, w2) /\
    let w3 := (charge cfg c r w2).2 in
    account_of (get w3) = {| spent := spend r (snapshot (get w)); exceeded := false; since := since (account_of (get w)) |} /\
    script w3 = rs.
Proof.
  intros B Es w1.
  assert (G1 : get w1 = add_call (get w)) by apply get_put.
  destruct (script_fn _ _ Sc c w1 r rs) as (w2 & Ef & S2); [unfold w1; by rewrite put_script|].
  assert (G2 : get w2 = add_call (get w)) by (rewrite <- G1; pose proof (fn_budget w1) as Hf; by rewrite Ef in Hf).
  exists w2. split; [done|]. unfold charge. rewrite HCharge. unfold update. cbn [snd]. rewrite get_put, put_script, G2.
  split; [|done]. unfold account_of, charge_cost, spend. by destruct (_ >? 0), (_ >? 0); cbn; rewrite B.
Qed.

Definition settled (r : result T) (rs : list (result T)) (a : account) (out : result T * W) : Prop :=
  let '(answer, ran, a') := settle r a in
  out.1 = answer /\ account_of (get out.2) = a' /\ script out.2 = if (ran : bool) then rs else r :: rs.

Lemma lock_free_settles w r rs :
  script w = r :: rs -> settled r rs (account_of (get w)) (executeLockFree zero cfg c fn w).
Proof.
  intros Es. unfold settled, settle, executeLockFree, bind, read, update. cbn [fst snd account_of exceeded spent since].
  destruct (breached (get w)) eqn:B; [done|].
  set (w1 := put (add_call (get w)) w).
  assert (G1 : get w1 = add_call (get w)) by apply get_put.
  rewrite G1. cbn [calls add_call]. change (i64 (calls (get w) + 1)) with (Calls (one_call (snapshot (get w)))).
  destruct (over_calls (Max cfg) _).
  - destruct (markBreach_run w1) as (A & Sr); [by rewrite G1|]. cbn [ret fst snd].
    assert (Sn : snapshot (get (markBreach cfg w1).2) = one_call (snapshot (get w))) by (rewrite G1 in A; exact (f_equal spent A)).
    rewrite Sn, A, G1, Sr. unfold w1. by rewrite put_script.
  - destruct (charged_run w r rs B Es) as (w2 & Ef & A & S3). fold w1 in Ef. rewrite Ef. cbn [fst snd].
    set (w3 := (charge cfg c r w2).2) in *.
    assert (Sn : snapshot (get w3) = spend r (snapshot (get w)) /\ breached (get w3) = false)
      by exact (conj (f_equal spent A) (f_equal exceeded A)).
    destruct Sn as [Sn Br]. rewrite Sn. destruct (over (Max cfg) _).
    + destruct (markBreach_run w3 Br) as (A' & Sr). cbn [ret fst snd]. rewrite A', Sr, Sn. split; [done|]. split; [|done].
      f_equal. exact (f_equal since A).
    + cbn [ret fst snd]. by rewrite A.
Qed.

Lemma windowed_settles w r rs :
  ResetAfter cfg >? 0 = true -> script w = r :: rs ->
  settled r rs (account_at (clock (tick w)) (account_of (get w))) (executeWindowed zero cfg c fn w).
Proof.
  intros RA Es. unfold executeWindowed, bind at 1, time_Now. cbn [fst snd]. set (t := clock (tick w)).
  unfold bind at 1.
  change (update _ (tick w)).2 with (put (autoResetLocked (ResetAfter cfg) t (get (tick w))) (tick w)). rewrite get_tick.
  set (w0 := put (autoResetLocked (ResetAfter cfg) t (get w)) (tick w)).
  assert (G0 : account_of (get w0) = account_at t (account_of (get w))).
  { unfold w0, account_at. rewrite get_put, RA. unfold autoResetLocked, account_of. cbn [since].
    destruct (windowOpen (get w)) eqn:O; cbn [negb]; [|done].
    destruct (time_Sub _ _ <? _); cbn; by rewrite ?O. }
  assert (S0 : script w0 = r :: rs) by (unfold w0; by rewrite put_script, (script_tick _ _ Sc)).
  rewrite <- G0. clearbody w0. clear G0 Es. unfold settled, settle, bind, read, update. cbn [fst snd account_of exceeded spent since].
  destruct (breached (get w0)) eqn:B; [done|].
  set (w1 := put (add_call (get w0)) w0).
  assert (G1 : get w1 = add_call (get w0)) by apply get_put.
  rewrite G1. cbn [calls add_call]. change (i64 (calls (get w0) + 1)) with (Calls (one_call (snapshot (get w0)))).
  destruct (over_calls (Max cfg) _).
  - destruct (markBreachLocked_run w1 (fun k => k)) as (Sn & A & Sr); [by rewrite G1|].
    destruct (markBreachLocked cfg w1) as [[k fire] w2]. cbn [ret fst snd] in *.
    assert (E : snapshot (get w2) = one_call (snapshot (get w0))) by (by rewrite Sn, G1).
    rewrite E, A, G1, Sr. unfold w1. by rewrite put_script.
  - destruct (charged_run w0 r rs B S0) as (w2 & Ef & A & S3). fold w1 in Ef. rewrite Ef. cbn [fst snd].
    set (w3 := (charge cfg c r w2).2) in *.
    assert (E : snapshot (get w3) = spend r (snapshot (get w0)) /\ breached (get w3) = false)
      by exact (conj (f_equal spent A) (f_equal exceeded A)).
    destruct E as [E Br]. rewrite E. destruct (over (Max cfg) _).
    + destruct (markBreachLocked_run w3 (fun k => k) Br) as (_ & A' & Sr).
      destruct (markBreachLocked cfg w3) as [[k fire] w4]. cbn [ret fst snd] in *. rewrite A', Sr, E. split; [done|]. split; [|done].
      f_equal. exact (f_equal since A).
    + cbn [ret fst snd]. by rewrite A.
Qed.

End Sequence.

(** A world with a script and a budget; a call takes 600ms. *)
Definition play_budget : Fn (sim (budget * list (result Z))) Z := fun _ w =>
  match (sim_state w).2 with
  | [] => ((0, None), w)
  | r :: rs => (r, Sim (sim_clock w + 600 * Millisecond) ((sim_state w).1, rs))
  end.

#[export, refine] Instance budget_world : Has (sim (budget * list (result Z))) budget := {|
  get w := (sim_state w).1;
  put b w := Sim (sim_clock w) (b, (sim_state w).2)
|}.
Proof.
  - done.
  - done.
  - by intros [? []].
  - done.
  - intros d [t|] w; cbn; zcases; done.
  - done.
Defined.

Definition example_config (resetAfter : Z) : Config (sim (budget * list (result Z))) Z := {|
  Max := {| Tokens := 10; USDMicros := 0; Calls := 0 |};
  Charge := Some (fun _ v _ => {| Tokens := v; USDMicros := 0; Calls := 0 |});
  OnExceeded := None; ResetAfter := resetAfter
|}.


(** ** Any number of goroutines: the lock-free path *)

Module LockFree.

(** What follows a breach: the refusal of a call that did not run, or the
    report of one that did. *)
Inductive after := ThenRefuse | ThenReport (consumed : Cost).

(** What a snapshot is taken for. *)
Inductive purpose := ToRefuse | ToJudge | ToFire (next : after).

(** One goroutine in [executeLockFree], between two atomic operations. *)
Inductive pc :=
| Check
| AddCall
| InFn
| ChargeTokens (c : Cost)
| ChargeUSD (c : Cost)
| Snap0 (p : purpose)
| Snap1 (p : purpose) (t : Z)
| Snap2 (p : purpose) (t u : Z)
| Mark (next : after)
| Refused (consumed : Cost)
| Returned
| Reported (consumed : Cost).

(** [attempts] and [admitted] count the calls added and the functions
    started; [fired] are the deliveries to [OnExceeded]. *)
Record sys := {
  b : budget;
  threads : list pc;
  attempts : Z;
  admitted : Z;
  fired : list Cost
}.

Section Steps.
Context (max : Cost) (has_charge has_callback : bool).

Definition continue (next : after) : pc :=
  match next with ThenRefuse => Snap0 ToRefuse | ThenReport c => Reported c end.

(** A completed snapshot. *)
Definition resume (p : purpose) (c : Cost) : pc :=
  match p with
  | ToRefuse => Refused c
  | ToJudge => if over max c then Mark (ThenReport c) else Returned
  | ToFire next => continue next
  end.

Inductive act : sys -> pc -> sys -> pc -> Prop :=
| act_check s : act s Check s (if breached (b s) then Snap0 ToRefuse else AddCall)
| act_add s :
    let n := calls (add_call (b s)) in
    act s AddCall
      {| b := add_call (b s); threads := threads s; attempts := attempts s + 1;
         admitted := if over_calls max n then admitted s else admitted s + 1; fired := fired s |}
      (if over_calls max n then Mark ThenRefuse else InFn)
| act_fn s c : act s InFn s (if has_charge then ChargeTokens c else Snap0 ToJudge)
| act_tokens s c :
    act s (ChargeTokens c)
      {| b := if Tokens c >? 0 then add_tokens (Tokens c) (b s) else b s; threads := threads s;
         attempts := attempts s; admitted := admitted s; fired := fired s |} (ChargeUSD c)
| act_usd s c :
    act s (ChargeUSD c)
      {| b := if USDMicros c >? 0 then add_usd (USDMicros c) (b s) else b s; threads := threads s;
         attempts := attempts s; admitted := admitted s; fired := fired s |} (Snap0 ToJudge)
| act_snap0 s p : act s (Snap0 p) s (Snap1 p (tokens (b s)))
| act_snap1 s p t : act s (Snap1 p t) s (Snap2 p t (usdMicros (b s)))
| act_snap2 s p t u :
    let c := {| Tokens := t; USDMicros := u; Calls := calls (b s) |} in
    act s (Snap2 p t u)
      {| b := b s; threads := threads s; attempts := attempts s; admitted := admitted s;
         fired := match p with ToFire _ => c :: fired s | _ => fired s end |} (resume p c)
| act_mark s next :
    act s (Mark next)
      {| b := set_breached true (b s); threads := threads s; attempts := attempts s;
         admitted := admitted s; fired := fired s |}
      (if negb (breached (b s)) && has_callback then Snap0 (ToFire next) else continue next).

Definition with_thread (s : sys) (l : list pc) : sys :=
  {| b := b s; threads := l; attempts := attempts s; admitted := admitted s; fired := fired s |}.

Inductive step : sys -> sys -> Prop :=
| step_spawn s : step s (with_thread s (threads s ++ [Check]))
| step_thread s i p s' p' :
    threads s !! i = Some p -> act s p s' p' -> step s (with_thread s' (<[i := p']> (threads s))).

Definition init (s : sys) : Prop :=
  s = {| b := fresh; threads := []; attempts := 0; admitted := 0; fired := [] |}.

(** The threads on their way to the callback. *)
Definition firing (p : pc) : Z :=
  match p with Snap0 (ToFire _) | Snap1 (ToFire _) _ | Snap2 (ToFire _) _ _ => 1 | _ => 0 end.

Record inv (s : sys) : Prop := {
  iv_attempts : 0 <= attempts s;
  iv_calls : attempts s < 2 ^ 63 -> calls (b s) = attempts s;
  iv_admitted : attempts s < 2 ^ 63 -> 0 <= admitted s <= attempts s;
  iv_cap : attempts s < 2 ^ 63 -> 0 < Calls max -> admitted s <= Calls max;
  iv_fired : total firing (threads s) + Z.of_nat (length (fired s)) = (if breached (b s) && has_callback then 1 else 0)
}.

Lemma firing_nonneg p : 0 <= firing p.
Proof. by destruct p as [| | | | |[]|[] ?|[] ? ?| | | |]. Qed.

Lemma act_fired s p s' p' :
  act s p s' p' -> (breached (b s) = false -> firing p = 0) ->
  firing p' - firing p + Z.of_nat (length (fired s')) +
    (if breached (b s) && has_callback then 1 else 0) =
  Z.of_nat (length (fired s)) + (if breached (b s') && has_callback then 1 else 0).
Proof.
  intros A. destruct A; cbn [b breached add_call set_breached fired firing]; intros F.
  - destruct (breached (b s)); cbn; lia.
  - destruct (over_calls _ _); cbn; lia.
  - destruct has_charge; cbn; lia.
  - destruct (Tokens c >? 0); cbn; lia.
  - destruct (USDMicros c >? 0); cbn; lia.
  - destruct p; cbn; lia.
  - destruct p; cbn; lia.
  - destruct p as [| |[]]; cbn; [lia|case_match; cbn; lia|lia|lia].
  - destruct (breached (b s)), has_callback; cbn; destruct next; cbn; lia.
Qed.

Lemma act_frame s p s' p' : act s p s' p' -> threads s' = threads s.
Proof. by destruct 1. Qed.

Lemma act_counts s p s' p' :
  act s p s' p' -> inv s ->
  0 <= attempts s' /\
  (attempts s' < 2 ^ 63 -> calls (b s') = attempts s' /\ 0 <= admitted s' <= attempts s' /\
     (0 < Calls max -> admitted s' <= Calls max)).
Proof.
  intros A [I0 I1 I2 I3 _]. destruct A; cbn [attempts admitted b calls add_call set_breached] in *;
    try (split; [exact I0|intros L; exact (conj (I1 L) (conj (I2 L) (I3 L)))]).
  - split; [lia|]. intros L. specialize (I1 ltac:(lia)). specialize (I2 ltac:(lia)). specialize (I3 ltac:(lia)).
    unfold n, over_calls. rewrite I1, i64_small by lia. split; [done|]. zcases; lia.
  - split; [done|]. intros L. destruct (Tokens c >? 0); exact (conj (I1 L) (conj (I2 L) (I3 L))).
  - split; [done|]. intros L. destruct (USDMicros c >? 0); exact (conj (I1 L) (conj (I2 L) (I3 L))).
Qed.

Lemma lock_free_step_inv s s' : inv s -> step s s' -> inv s'.
Proof.
  intros I St. destruct St as [s|s i p s' p' Hp A].
  - destruct I as [I0 I1 I2 I3 I4]. split; cbn; auto. rewrite total_app. cbn. lia.
  - pose proof (act_counts _ _ _ _ A I) as (C0 & C1).
    destruct I as [_ _ _ _ I4]. split; cbn; [done|intros L; by apply C1..|].
    rewrite (total_insert _ _ _ _ _ Hp).
    pose proof (total_lookup firing _ _ _ firing_nonneg Hp) as Lp.
    pose proof (firing_nonneg p) as Np.
    assert (F : breached (b s) = false -> firing p = 0) by (intros E; rewrite E in I4; cbn in I4; lia).
    pose proof (act_fired _ _ _ _ A F). lia.
Qed.

(** C9: The call cap holds under every interleaving of calls.  However the
    atomic operations of any number of concurrent calls of [Execute] interleave
    (fewer than 2^63 of them, so that the counter does not wrap; no [Reset]
    among them, see [reset_races_breach]), no more than [Max.Calls]
    protected functions are ever started, and [OnExceeded] is delivered at
    most once. *)
Theorem lock_free_safe s :
  reachable init step s -> attempts s < 2 ^ 63 ->
  (0 < Calls max -> admitted s <= Calls max) /\ (length (fired s) <= 1)%nat.
Proof.
  intros R L. assert (I : inv s).
  { revert s R L. intros s R _. revert s R. apply invariant_reachable; [|exact lock_free_step_inv].
    intros s ->. split; cbn; try done; lia. }
  split; [intros M; by apply I|].
  pose proof (iv_fired s I) as F. pose proof (total_nonneg firing (threads s) firing_nonneg).
  destruct (_ && _); lia.
Qed.
End Steps.

Lemma lock_free_safe_witness :
  reachable init (step {| Tokens := 0; USDMicros := 0; Calls := 1 |} false true)
    {| b := fresh; threads := [Check]; attempts := 0; admitted := 0; fired := [] |} /\
  (length (@nil Cost) <= 1)%nat.
Proof.
  assert (R : reachable init (step {| Tokens := 0; USDMicros := 0; Calls := 1 |} false true)
    {| b := fresh; threads := [Check]; attempts := 0; admitted := 0; fired := [] |}).
  { eapply reach_step; [by apply reach_init|]. exact (step_spawn _ _ _ _). }
  split; [exact R|]. exact (proj2 (lock_free_safe _ _ _ _ R eq_refl)).
Defined.

Lemma move max hc hb s i p s' p' :
  reachable init (step max hc hb) s -> threads s !! i = Some p -> act max hc hb s p s' p' ->
  reachable init (step max hc hb) (with_thread s' (<[i := p']> (threads s))).
Proof. intros R Hp A. eapply reach_step; [exact R|]. by eapply step_thread. Qed.

(** The next action of thread [i]. *)
Ltac go R i a :=
  match type of R with
  | reachable _ _ ?s =>
      let Q := fresh in
      pose proof (move _ _ _ s i _ _ _ R eq_refl (a s)) as Q; cbn in Q; clear R; rename Q into R
  end.

(** Where the pre-charge shows.  With a cap of one call, two calls can
    interleave so that the only function that ran -- the first call of the
    budget, within every limit -- is reported as having exceeded the budget,
    because the call that was refused had already been counted. *)
Theorem admitted_call_reported_as_exceeding :
  let max := {| Tokens := 0; USDMicros := 0; Calls := 1 |} in
  exists s, reachable init (step max false false) s /\ admitted s = 1 /\
    threads s = [Reported {| Tokens := 0; USDMicros := 0; Calls := 2 |}; Mark ThenRefuse].
Proof.
  intros max.
  assert (R : reachable init (step max false false) {| b := fresh; threads := []; attempts := 0; admitted := 0; fired := [] |})
    by (by apply reach_init).
  apply (fun r => reach_step _ _ _ _ r (step_spawn max false false _)) in R. cbn in R.
  apply (fun r => reach_step _ _ _ _ r (step_spawn max false false _)) in R. cbn in R.
  go R 0%nat (fun s => act_check max false false s).
  go R 0%nat (fun s => act_add max false false s).
  go R 1%nat (fun s => act_check max false false s).
  go R 1%nat (fun s => act_add max false false s).
  go R 0%nat (fun s => act_fn max false false s zero_cost).
  go R 0%nat (fun s => act_snap0 max false false s ToJudge).
  go R 0%nat (fun s => act_snap1 max false false s ToJudge 0).
  go R 0%nat (fun s => act_snap2 max false false s ToJudge 0 0).
  go R 0%nat (fun s => act_mark max false false s (ThenReport {| Tokens := 0; USDMicros := 0; Calls := 2 |})).
  eexists. split; [exact R|]. split; reflexivity.
Qed.
(** ** Calls and [Reset]

    [Reset] on this path is four atomic stores with no lock around them. *)
Definition reset_store (k : nat) (x : budget) : budget :=
  match k with
  | 0%nat => {| tokens := 0; usdMicros := usdMicros x; calls := calls x; breached := breached x;
                windowStart := windowStart x; windowOpen := windowOpen x |}
  | 1%nat => {| tokens := tokens x; usdMicros := 0; calls := calls x; breached := breached x;
                windowStart := windowStart x; windowOpen := windowOpen x |}
  | 2%nat => {| tokens := tokens x; usdMicros := usdMicros x; calls := 0; breached := breached x;
                windowStart := windowStart x; windowOpen := windowOpen x |}
  | _ => set_breached false x
  end.

(** One after the other the stores are [Reset]. *)
Lemma reset_stores x : foldl (fun x k => reset_store k x) x (seq 0 4) = Reset 0 x.
Proof. done. Qed.

(** The calls, and the goroutines in [Reset] with the stores each has made. *)
Inductive step_with_reset (max : Cost) (hc hb : bool) : sys * list nat -> sys * list nat -> Prop :=
| step_call s s' resets : step max hc hb s s' -> step_with_reset max hc hb (s, resets) (s', resets)
| step_reset s resets : step_with_reset max hc hb (s, resets) (s, resets ++ [0%nat])
| step_store s resets i k :
    resets !! i = Some k -> (k < 4)%nat ->
    step_with_reset max hc hb (s, resets)
      ({| b := reset_store k (b s); threads := threads s; attempts := attempts s; admitted := admitted s; fired := fired s |},
       <[i := S k]> resets).

Lemma stepped max hc hb s s' s'' :
  reachable (fun x => init x.1 /\ x.2 = []) (step_with_reset max hc hb) s -> step_with_reset max hc hb s s' -> s' = s'' ->
  reachable (fun x => init x.1 /\ x.2 = []) (step_with_reset max hc hb) s''.
Proof. intros R St <-. by eapply reach_step. Qed.

(** The next action of thread [i], the arrival of a call, the next store. *)
Ltac acts R i a :=
  match type of R with
  | reachable _ _ (?s, _) =>
      eapply stepped in R; [|apply step_call, (step_thread _ _ _ s i _ _ _ eq_refl (a s))|cbn; reflexivity]
  end.
Ltac arrives R := eapply stepped in R; [|apply step_call, step_spawn|cbn; reflexivity].
Ltac stores R := eapply stepped in R; [|apply (step_store _ _ _ _ _ 0); [reflexivity|lia]|cbn; reflexivity].

(** Where that shows: a breach marked between the third store and the fourth
    is wiped out, but what led to it is not.  With a cap of one call, a single
    [Reset] that finds an untouched budget, and has returned, leaves it over
    its cap and unmarked; [OnExceeded] has been told once, and the goroutine
    of the next call has won the breach again and is about to tell it a second
    time. *)
Theorem reset_races_breach :
  let max := {| Tokens := 0; USDMicros := 0; Calls := 1 |} in
  exists s, reachable (fun x => init x.1 /\ x.2 = []) (step_with_reset max false true) (s, [4%nat]) /\
    calls (b s) = 3 /\ admitted s = 1 /\ length (fired s) = 1%nat /\ last (threads s) = Some (Snap0 (ToFire ThenRefuse)).
Proof.
  intros max.
  assert (R : reachable (fun x => init x.1 /\ x.2 = []) (step_with_reset max false true)
    ({| b := fresh; threads := []; attempts := 0; admitted := 0; fired := [] |}, [])) by (by apply reach_init).
  eapply stepped in R; [|apply step_reset|cbn; reflexivity]. do 3 stores R.
  arrives R. acts R 0%nat (fun s => act_check max false true s). acts R 0%nat (fun s => act_add max false true s).
  arrives R. acts R 1%nat (fun s => act_check max false true s). acts R 1%nat (fun s => act_add max false true s).
  acts R 1%nat (fun s => act_mark max false true s ThenRefuse).
  acts R 1%nat (fun s => act_snap0 max false true s (ToFire ThenRefuse)).
  acts R 1%nat (fun s => act_snap1 max false true s (ToFire ThenRefuse) 0).
  acts R 1%nat (fun s => act_snap2 max false true s (ToFire ThenRefuse) 0 0).
  stores R.
  arrives R. acts R 2%nat (fun s => act_check max false true s). acts R 2%nat (fun s => act_add max false true s).
  acts R 2%nat (fun s => act_mark max false true s ThenRefuse).
  eexists. split; [exact R|]. by split_and!.
Qed.
End LockFree.

(** ** Any number of goroutines: the windowed path *)

Module Windowed.

(** One goroutine in [executeWindowed], between two critical sections.
    [Firing e k next] has left the section in which it won the breach of the
    [e]-th window and is about to call [OnExceeded] with [k]. *)
Inductive pc :=
| Enter
| InFn
| Leave (c : Cost)
| Firing (e : nat) (k : Cost) (next : pc)
| Refused (consumed : Cost)
| Returned
| Reported (consumed : Cost).

(** [epoch] counts the times the counters were cleared and so numbers the
    windows; [admitted] counts the functions started in the current one;
    [fired] are the calls of [OnExceeded], each with its window. *)
Record sys := {
  b : budget;
  now : Z;
  threads : list pc;
  attempts : Z;
  admitted : Z;
  epoch : nat;
  fired : list (nat * Cost)
}.

Section Steps.
Context (max : Cost) (resetAfter : Z) (has_charge has_callback : bool).

(** Does [autoResetLocked] clear the counters? *)
Definition clears (t : Z) (x : budget) : bool :=
  windowOpen x && negb (time_Sub t (windowStart x) <? resetAfter).

(** [markBreachLocked]: the compare-and-swap, and what its winner is to fire. *)
Definition mark_breach (x : budget) : budget * option Cost :=
  let won := negb (breached x) in
  let x := set_breached true x in
  (x, if won && has_callback then Some (snapshot x) else None).

(** The critical section before the function: the counters after it, what is
    to be fired, and how the call goes on. *)
Definition enter (t : Z) (x : budget) : budget * option Cost * pc :=
  let x := autoResetLocked resetAfter t x in
  if breached x then (x, None, Refused (snapshot x))
  else
    let x := add_call x in
    if over_calls max (calls x) then
      let '(x, fire) := mark_breach x in (x, fire, Refused (snapshot x))
    else (x, None, InFn).

(** The critical section after it. *)
Definition leave (c : Cost) (x : budget) : budget * option Cost * pc :=
  let x := if has_charge then charge_cost c x else x in
  let consumed := snapshot x in
  if over max consumed then let '(x, fire) := mark_breach x in (x, fire, Reported consumed)
  else (x, None, Returned).

(** [if fire { b.fireOnExceeded(fireCost) }], outside the lock. *)
Definition outside (e : nat) (fire : option Cost) (next : pc) : pc :=
  match fire with Some k => Firing e k next | None => next end.

Inductive step : sys -> sys -> Prop :=
| step_time s t : now s <= t ->
    step s {| b := b s; now := t; threads := threads s; attempts := attempts s;
              admitted := admitted s; epoch := epoch s; fired := fired s |}
| step_spawn s :
    step s {| b := b s; now := now s; threads := threads s ++ [Enter]; attempts := attempts s;
              admitted := admitted s; epoch := epoch s; fired := fired s |}
| step_enter s i x fire next :
    threads s !! i = Some Enter -> enter (now s) (b s) = (x, fire, next) ->
    let reset := clears (now s) (b s) in
    let e := if reset then S (epoch s) else epoch s in
    step s {| b := x; now := now s; threads := <[i := outside e fire next]> (threads s);
              attempts := attempts s + 1;
              admitted := (if reset then 0 else admitted s) + (match next with InFn => 1 | _ => 0 end);
              epoch := e; fired := fired s |}
| step_fn s i c :
    threads s !! i = Some InFn ->
    step s {| b := b s; now := now s; threads := <[i := Leave c]> (threads s); attempts := attempts s;
              admitted := admitted s; epoch := epoch s; fired := fired s |}
| step_leave s i c x fire next :
    threads s !! i = Some (Leave c) -> leave c (b s) = (x, fire, next) ->
    step s {| b := x; now := now s; threads := <[i := outside (epoch s) fire next]> (threads s);
              attempts := attempts s; admitted := admitted s; epoch := epoch s; fired := fired s |}
| step_fire s i e k next :
    threads s !! i = Some (Firing e k next) ->
    step s {| b := b s; now := now s; threads := <[i := next]> (threads s); attempts := attempts s;
              admitted := admitted s; epoch := epoch s; fired := (e, k) :: fired s |}
| step_reset s :
    step s {| b := Reset resetAfter (b s); now := now s; threads := threads s; attempts := attempts s;
              admitted := 0; epoch := S (epoch s); fired := fired s |}.

Definition init (s : sys) : Prop :=
  exists t, s = {| b := fresh; now := t; threads := []; attempts := 0; admitted := 0; epoch := 0; fired := [] |}.

(** The calls of [OnExceeded] for the breach of window [e], made and to be
    made. *)
Definition made (e : nat) (l : list (nat * Cost)) : Z := total (fun f => if decide (f.1 = e) then 1 else 0) l.
Definition due (e : nat) (l : list pc) : Z :=
  total (fun p => match p with Firing e' _ _ => if decide (e' = e) then 1 else 0 | _ => 0 end) l.

(** A thread that is to fire has a total over the maximum to report, and goes
    on to its answer. *)
Definition answers (p : pc) : Prop := match p with Refused _ | Reported _ => True | _ => False end.

Definition pc_ok (p : pc) : Prop :=
  match p with Firing _ k next => over max k = true /\ answers next | _ => True end.

(** In window [e] the breach is fired, or about to be, once if it is marked;
    in a later one not at all; in none twice. *)
Record told (e : nat) (x : budget) (l : list (nat * Cost)) (ts : list pc) : Prop := {
  td_later : forall e', (e < e')%nat -> made e' l + due e' ts = 0;
  td_current : made e l + due e ts = if breached x && has_callback then 1 else 0;
  td_once : forall e', made e' l + due e' ts <= 1;
  td_threads : Forall pc_ok ts;
  td_over : Forall (fun f => over max f.2 = true) l
}.

Record inv (s : sys) : Prop := {
  iv_attempts : 0 <= attempts s;
  iv_calls : attempts s < 2 ^ 63 -> 0 <= calls (b s) <= attempts s;
  iv_admitted : attempts s < 2 ^ 63 -> 0 <= admitted s <= calls (b s);
  iv_cap : 0 < Calls max -> attempts s < 2 ^ 63 -> admitted s <= Calls max;
  iv_told : told (epoch s) (b s) (fired s) (threads s)
}.

(** What a critical section decides, from the counters it finds to those it
    leaves. *)
Record decides (x y : budget) (fire : option Cost) (next : pc) : Prop := {
  dc_fire : (match fire with Some _ => 1 | None => 0 end) + (if breached x && has_callback then 1 else 0) =
    (if breached y && has_callback then 1 else 0);
  dc_over : forall k, fire = Some k -> over max k = true /\ answers next;
  dc_next : match next with Firing _ _ _ => False | _ => True end
}.

Lemma due_insert e l i p q :
  l !! i = Some p -> due e (<[i := q]> l) = due e l - due e [p] + due e [q].
Proof. intros Hp. unfold due. rewrite (total_insert _ _ _ _ _ Hp). cbn. lia. Qed.

Lemma due_next e p : (match p with Firing _ _ _ => False | _ => True end) -> due e [p] = 0.
Proof. by destruct p. Qed.

Lemma due_firing e e' k p : due e [Firing e' k p] = if decide (e' = e) then 1 else 0.
Proof. unfold due. cbn. by case_decide. Qed.

(** Breaching: only the winner of the compare-and-swap has something to fire. *)
Lemma mark_breach_decides x y fire next :
  mark_breach x = (y, fire) -> over max (snapshot x) = true -> answers next ->
  decides x y fire next /\ calls y = calls x.
Proof.
  unfold mark_breach. intros [= <- <-] O A. split; [|done].
  split; [by destruct (breached x), has_callback| |by destruct next].
  intros k E. destruct (_ && _); [|done]. injection E as <-. done.
Qed.

Lemma over_calls_over x : over_calls max (calls x) = true -> over max (snapshot x) = true.
Proof.
  unfold over_calls, over. cbn. intros ->. by repeat case_match.
Qed.

Lemma enter_decides t x y fire next :
  enter t x = (y, fire, next) -> decides (autoResetLocked resetAfter t x) y fire next.
Proof.
  unfold enter. set (x0 := autoResetLocked resetAfter t x). destruct (breached x0) eqn:B.
  { intros [= <- <- <-]. by split. }
  destruct (over_calls max (calls (add_call x0))) eqn:O; [|intros [= <- <- <-]; by split].
  destruct (mark_breach (add_call x0)) as [y' f] eqn:M. intros [= <- <- <-].
  destruct (mark_breach_decides _ _ _ (Refused (snapshot y')) M (over_calls_over _ O) I) as [[D1 D2 D3] _].
  by split.
Qed.

Lemma leave_decides c x y fire next : leave c x = (y, fire, next) -> decides x y fire next /\ calls y = calls x.
Proof.
  unfold leave. set (x0 := if has_charge then _ else _).
  assert (E : calls x0 = calls x /\ breached x0 = breached x).
  { unfold x0, charge_cost. by destruct has_charge, (Tokens c >? 0), (USDMicros c >? 0). }
  destruct E as [Ec Eb]. destruct (over max (snapshot x0)) eqn:O.
  - destruct (mark_breach x0) as [y' f] eqn:M. intros [= <- <- <-].
    destruct (mark_breach_decides _ _ _ (Reported (snapshot x0)) M O I) as [[D1 D2 D3] C].
    split; [|congruence]. split; [by rewrite <- Eb|done|done].
  - intros [= <- <- <-]. split; [|done]. by split; rewrite ?Eb.
Qed.

Lemma told_section e x y l ts i p fire next :
  told e x l ts -> ts !! i = Some p -> (forall e', due e' [p] = 0) -> decides x y fire next ->
  told e y l (<[i := outside e fire next]> ts).
Proof.
  intros [T1 T2 T3 T4 T5] Hp Np [D1 D2 D3].
  assert (N : forall e', due e' [outside e fire next] = match fire with Some _ => if decide (e = e') then 1 else 0 | None => 0 end).
  { intros e'. destruct fire; [apply due_firing|by apply due_next]. }
  assert (D : forall e', due e' (<[i := outside e fire next]> ts) = due e' ts + due e' [outside e fire next])
    by (intros e'; rewrite (due_insert _ _ _ _ _ Hp), Np; lia).
  split.
  - intros e' L. rewrite D, N. specialize (T1 e' L). destruct fire; [rewrite decide_False by lia|]; lia.
  - rewrite D, N. destruct fire; [rewrite decide_True by done|]; lia.
  - intros e'. rewrite D, N. specialize (T3 e').
    destruct fire; [|lia]. case_decide; [subst e'|lia].
    destruct (breached x && _), (breached y && _); lia.
  - apply Forall_insert; [done|]. destruct fire as [k|]; [by apply D2|by destruct next].
  - done.
Qed.

Lemma told_same e x y l ts : told e x l ts -> breached y = breached x -> told e y l ts.
Proof. intros [T1 T2 T3 T4 T5] B. by split; rewrite ?B. Qed.

Lemma told_clear e x y l ts : told e x l ts -> breached y = false -> told (S e) y l ts.
Proof.
  intros [T1 T2 T3 T4 T5] B. split; try done.
  - intros e' L. apply T1. lia.
  - rewrite B. apply T1. lia.
Qed.

Lemma told_fire e x l ts i e' k next :
  told e x l ts -> ts !! i = Some (Firing e' k next) -> told e x ((e', k) :: l) (<[i := next]> ts).
Proof.
  intros [T1 T2 T3 T4 T5] Hp. pose proof (Forall_lookup_1 _ _ _ _ T4 Hp) as [O A].
  assert (N : match next with Firing _ _ _ => False | _ => True end) by (by destruct next).
  assert (D : forall e0, made e0 ((e', k) :: l) + due e0 (<[i := next]> ts) = made e0 l + due e0 ts).
  { intros e0. rewrite (due_insert _ _ _ _ _ Hp), due_firing, (due_next e0 next N). unfold made. cbn. lia. }
  split; [intros e0 L; rewrite D; by apply T1|by rewrite D|intros e0; by rewrite D| |by constructor].
  apply Forall_insert; [done|]. by destruct next.
Qed.

Lemma told_thread e x l ts i p q :
  told e x l ts -> ts !! i = Some p -> (forall e', due e' [p] = 0) -> (forall e', due e' [q] = 0) -> pc_ok q ->
  told e x l (<[i := q]> ts).
Proof.
  intros [T1 T2 T3 T4 T5] Hp Np Nq O.
  assert (D : forall e0, due e0 (<[i := q]> ts) = due e0 ts) by (intros e0; rewrite (due_insert _ _ _ _ _ Hp), Np, Nq; lia).
  split; [intros e0 L; rewrite D; by apply T1|by rewrite D|intros e0; by rewrite D|by apply Forall_insert|done].
Qed.

(** After the automatic reset the invariant still holds, in the next window if
    it cleared. *)
Lemma auto_reset_inv s :
  inv s ->
  let x := autoResetLocked resetAfter (now s) (b s) in
  let reset := clears (now s) (b s) in
  inv {| b := x; now := now s; threads := threads s; attempts := attempts s;
         admitted := if reset then 0 else admitted s; epoch := if reset then S (epoch s) else epoch s;
         fired := fired s |}.
Proof.
  intros [I0 I1 I2 I3 I4]. unfold autoResetLocked, clears.
  destruct (windowOpen (b s)); cbn [negb andb]; [|by split; [..|by eapply told_same]].
  destruct (time_Sub _ _ <? resetAfter); cbn [negb]; [by split|]. split; cbn; try done; try lia.
  by eapply told_clear.
Qed.

Lemma enter_counts t x y fire next n :
  let x0 := autoResetLocked resetAfter t x in
  enter t x = (y, fire, next) -> 0 <= calls x0 <= n -> n + 1 < 2 ^ 63 ->
  calls x0 <= calls y <= n + 1 /\ (next = InFn -> calls y = calls x0 + 1 /\ (0 < Calls max -> calls y <= Calls max)).
Proof.
  intros x0. unfold enter. fold x0. intros E L1 L2. destruct (breached x0).
  { injection E as <- <- <-. split; [lia|done]. }
  assert (C : calls (add_call x0) = calls x0 + 1) by (cbn; apply i64_small; lia).
  destruct (over_calls max (calls (add_call x0))) eqn:O.
  - destruct (mark_breach (add_call x0)) as [y' f] eqn:M. injection E as <- <- <-.
    destruct (mark_breach_decides _ _ _ (Refused zero_cost) M (over_calls_over _ O) I) as [_ ->].
    rewrite C. split; [lia|done].
  - injection E as <- <- <-. rewrite C. split; [lia|]. intros _. split; [done|]. intros M.
    unfold over_calls in O. rewrite C in O. zcases_in O; lia.
Qed.

Lemma windowed_step_inv s s' : inv s -> step s s' -> inv s'.
Proof.
  intros I St. destruct St as [s t Ht|s|s i x fire next Hp E|s i c Hp|s i c x fire next Hp E|s i e k next Hp|s].
  - by destruct I; split.
  - destruct I as [I0 I1 I2 I3 [T1 T2 T3 T4 T5]]. split; cbn; try done.
    assert (D : forall e, due e (threads s ++ [Enter]) = due e (threads s)) by (intros e; unfold due; rewrite total_app; cbn; lia).
    split; [intros e L; rewrite D; by apply T1|by rewrite D|intros e; by rewrite D|by apply Forall_app_2; [|constructor]|done].
  - subst reset e. pose proof (auto_reset_inv s I) as [J0 J1 J2 J3 J4]. cbn [b attempts admitted epoch fired threads] in *.
    pose proof (enter_decides _ _ _ _ _ E) as D.
    split; cbn [b attempts admitted epoch fired threads].
    + lia.
    + intros L. pose proof (enter_counts _ _ _ _ _ (attempts s) E (J1 ltac:(lia)) L). lia.
    + intros L. pose proof (enter_counts _ _ _ _ _ (attempts s) E (J1 ltac:(lia)) L) as [C1 C2].
      specialize (J1 ltac:(lia)). specialize (J2 ltac:(lia)). destruct next; try lia. specialize (C2 eq_refl). lia.
    + intros M L. pose proof (enter_counts _ _ _ _ _ (attempts s) E (J1 ltac:(lia)) L) as [C1 C2].
      specialize (J2 ltac:(lia)). specialize (J3 M ltac:(lia)). destruct next; try lia. specialize (C2 eq_refl). lia.
    + eapply told_section; eauto.
  - destruct I as [I0 I1 I2 I3 I4]. split; cbn; try done. by eapply told_thread; eauto.
  - destruct I as [I0 I1 I2 I3 I4]. pose proof (leave_decides _ _ _ _ _ E) as [D C].
    split; cbn [b attempts admitted epoch fired threads]; rewrite ?C; auto. eapply told_section; eauto.
  - destruct I as [I0 I1 I2 I3 I4]. split; cbn [b attempts admitted epoch fired threads]; auto. by eapply told_fire.
  - destruct I as [I0 I1 I2 I3 I4].
    assert (C : calls (Reset resetAfter (b s)) = 0 /\ breached (Reset resetAfter (b s)) = false)
      by (unfold Reset; by destruct (resetAfter >? 0)).
    destruct C as [C B]. split; cbn [b attempts admitted epoch fired threads]; rewrite ?C; auto; try lia.
    by eapply told_clear.
Qed.

(** C39: The rolling window.  Under every interleaving of critical sections,
    callbacks, clock advances and manual resets (fewer than 2^63 calls), no
    more than [Max.Calls] functions are started in one window, and
    [OnExceeded] runs at most once for the breach of a window: while the
    current window is breached exactly one call of it has been made or is
    about to be made by the goroutine that won the compare-and-swap, while it
    is not there is none, and no earlier window has had, or is to have, more
    than one.  Every call of it reports a total over [Max]. *)
Theorem windowed_safe s :
  reachable init step s -> attempts s < 2 ^ 63 ->
  (0 < Calls max -> admitted s <= Calls max) /\
  made (epoch s) (fired s) + due (epoch s) (threads s) = (if breached (b s) && has_callback then 1 else 0) /\
  (forall e, 0 <= due e (threads s) /\ made e (fired s) + due e (threads s) <= 1) /\
  Forall (fun f => over max f.2 = true) (fired s).
Proof.
  intros R L. assert (I : inv s).
  { revert s R L. intros s R _. revert s R. apply invariant_reachable; [|exact windowed_step_inv].
    intros s [t ->]. split; cbn; try done; lia. }
  destruct I as [_ _ _ I3 [T1 T2 T3 _ T5]]. split_and!; try done; [by intros M; apply I3|].
  intros e. split; [|done]. apply total_nonneg. intros []; try done. by case_decide.
Qed.
End Steps.

(** Two calls in the first window, where one is allowed, and one in the next,
    while the callback of the first breach has yet to run. *)
Definition one_call_a_second : Cost := {| Tokens := 0; USDMicros := 0; Calls := 1 |}.

Definition second_window : sys := {|
  b := {| tokens := 0; usdMicros := 0; calls := 1; breached := false; windowStart := 2 * Second; windowOpen := true |};
  now := 2 * Second;
  threads := [InFn; Firing 0 {| Tokens := 0; USDMicros := 0; Calls := 2 |} (Refused {| Tokens := 0; USDMicros := 0; Calls := 2 |}); InFn];
  attempts := 3; admitted := 1; epoch := 1; fired := []
|}.

Lemma entering s i :
  reachable init (step one_call_a_second Second true true) s -> threads s !! i = Some Enter ->
  let '(x, fire, next) := enter one_call_a_second Second true (now s) (b s) in
  let reset := clears Second (now s) (b s) in
  let e := if reset then S (epoch s) else epoch s in
  reachable init (step one_call_a_second Second true true)
    {| b := x; now := now s; threads := <[i := outside e fire next]> (threads s); attempts := attempts s + 1;
       admitted := (if reset then 0 else admitted s) + (match next with InFn => 1 | _ => 0 end);
       epoch := e; fired := fired s |}.
Proof. intros R Hp. destruct (enter _ _ _ _ _) as [[x fire] next] eqn:E. eapply reach_step; [exact R|]. by apply step_enter. Qed.

(** The same on a state in [R]. *)
Ltac enters R i :=
  let Q := fresh in pose proof (entering _ i R eq_refl) as Q; vm_compute in Q; clear R; rename Q into R.

Lemma second_window_reachable : reachable init (step one_call_a_second Second true true) second_window.
Proof.
  assert (R : reachable init (step one_call_a_second Second true true)
    {| b := fresh; now := 0; threads := []; attempts := 0; admitted := 0; epoch := 0; fired := [] |})
    by (apply reach_init; by exists 0).
  do 3 (apply (fun r => reach_step _ _ _ _ r (step_spawn _ _ _ _ _)) in R; cbn in R).
  enters R 0%nat.
  enters R 1%nat.
  match type of R with reachable _ _ ?s =>
    pose proof (reach_step _ _ _ _ R (step_time one_call_a_second Second true true s (2 * Second) ltac:(done))) as Q end.
  clear R. rename Q into R. cbn in R.
  enters R 2%nat.
  exact R.
Qed.

Lemma windowed_safe_witness :
  let s := {| b := b second_window; now := now second_window;
              threads := [InFn; Refused {| Tokens := 0; USDMicros := 0; Calls := 2 |}; InFn];
              attempts := 3; admitted := 1; epoch := 1; fired := [(0%nat, {| Tokens := 0; USDMicros := 0; Calls := 2 |})] |} in
  reachable init (step one_call_a_second Second true true) s /\ made 0 (fired s) = 1 /\
  admitted s <= 1 /\ made 1 (fired s) + due 1 (threads s) = 0.
Proof.
  intros s. assert (R : reachable init (step one_call_a_second Second true true) s)
    by exact (reach_step _ _ _ _ second_window_reachable (step_fire _ _ _ _ second_window 1 _ _ _ eq_refl)).
  destruct (windowed_safe _ _ _ _ _ R eq_refl) as (A & T & _). split; [exact R|]. split; [reflexivity|].
  split; [apply A; reflexivity|exact T].
Defined.
End Windowed.
