(* ===== verification/Adaptive.v ===== *)
(** The adaptive concurrency limiter ([adaptive/adaptive.go], [config.go]).

    Without interference every compare-and-swap loop succeeds at its first
    attempt: the operations below are the methods as one goroutine runs them
    alone.  [Module Interleaving] runs any number of goroutines load by load
    and swap by swap, with the loops retrying.  [oob] is what a conversion of
    an out-of-range float gives (implementation-defined in Go). *)

From S2P Require Import Prelude Float64 Errors Runtime.

#[local] Open Scope go_scope.

(** ** [config.go] *)

(** An [int] type in Go; unknown values run AIMD. *)
Inductive Algorithm := AlgorithmAIMD | AlgorithmVegas | AlgorithmGradient2 | AlgorithmUnknown (n : Z).

Definition defaultInitialLimit : Z := 10.
Definition defaultMinLimit : Z := 1.
Definition defaultMaxLimit : Z := 200.
Definition defaultSuccessThreshold : Z := 10.
Definition defaultVegasAlpha : Z := 3.
Definition defaultVegasBeta : Z := 6.

Record Config := {
  algorithm : Algorithm;
  InitialLimit : Z;
  MinLimit : Z;
  MaxLimit : Z;
  SuccessThreshold : Z;
  VegasAlpha : Z;
  VegasBeta : Z;
  VegasMinSamples : Z;
  GradientMinSamples : Z;
  GradientSmoothing : f64
}.

Definition setDefaults (c : Config) : Config :=
  let min := if MinLimit c <=? 0 then defaultMinLimit else MinLimit c in
  let max := if MaxLimit c <=? 0 then defaultMaxLimit else MaxLimit c in
  let max := if max <? min then min else max in
  let initial := if InitialLimit c <=? 0 then defaultInitialLimit else InitialLimit c in
  let initial := if initial <? min then min else initial in
  let initial := if initial >? max then max else initial in
  let alpha := if VegasAlpha c <=? 0 then defaultVegasAlpha else VegasAlpha c in
  let beta := if VegasBeta c <=? alpha then i64 (alpha * 2) else VegasBeta c in
  let beta := if beta <=? 0 then defaultVegasBeta else beta in {|
    algorithm := algorithm c;
    InitialLimit := initial; MinLimit := min; MaxLimit := max;
    SuccessThreshold := if SuccessThreshold c <=? 0 then defaultSuccessThreshold else SuccessThreshold c;
    VegasAlpha := alpha; VegasBeta := beta;
    VegasMinSamples := if VegasMinSamples c <=? 0 then 10 else VegasMinSamples c;
    GradientMinSamples := if GradientMinSamples c <=? 0 then 10 else GradientMinSamples c;
    GradientSmoothing :=
      if fleb (GradientSmoothing c) (f_of_Z 0) || fltb (f_of_Z 1) (GradientSmoothing c)
      then f_ratio 1 5 else GradientSmoothing c
  |}.

(** ** The limiter *)

Record limiter := {
  limit : Z; (* int32 *)
  inFlight : Z; (* int32 *)
  successes : Z; (* int32 *)
  minRTT : Z; (* int64 *)
  emaRTT : Z; (* int64 *)
  rttSamples : Z (* int64 *)
}.

Definition New (c : Config) : limiter := {|
  limit := i32 (InitialLimit (setDefaults c));
  inFlight := 0; successes := 0; minRTT := 0; emaRTT := 0; rttSamples := 0
|}.

Definition set_limit (n : Z) (l : limiter) : limiter := {|
  limit := n; inFlight := inFlight l; successes := successes l;
  minRTT := minRTT l; emaRTT := emaRTT l; rttSamples := rttSamples l
|}.

Definition set_inFlight (n : Z) (l : limiter) : limiter := {|
  limit := limit l; inFlight := n; successes := successes l;
  minRTT := minRTT l; emaRTT := emaRTT l; rttSamples := rttSamples l
|}.

Definition set_successes (n : Z) (l : limiter) : limiter := {|
  limit := limit l; inFlight := inFlight l; successes := n;
  minRTT := minRTT l; emaRTT := emaRTT l; rttSamples := rttSamples l
|}.

Definition set_minRTT (n : Z) (l : limiter) : limiter := {|
  limit := limit l; inFlight := inFlight l; successes := successes l;
  minRTT := n; emaRTT := emaRTT l; rttSamples := rttSamples l
|}.

Definition set_emaRTT (n : Z) (l : limiter) : limiter := {|
  limit := limit l; inFlight := inFlight l; successes := successes l;
  minRTT := minRTT l; emaRTT := n; rttSamples := rttSamples l
|}.

Definition add_sample (l : limiter) : limiter := {|
  limit := limit l; inFlight := inFlight l; successes := successes l;
  minRTT := minRTT l; emaRTT := emaRTT l; rttSamples := i64 (rttSamples l + 1)
|}.

(** ** The decisions of the loops, on the values they loaded *)

Section Decisions.
Context (oob : Z) (cfg : Config).

(** [aimdOnSuccess]: the next limit, or none at the ceiling. *)
Definition aimd_next (cur : Z) : option Z :=
  if cur >=? i32 (MaxLimit cfg) then None else Some (i32 (cur + 1)).

(** [onFailure]. *)
Definition failure_next (cur : Z) : option Z :=
  let next := Z.quot cur 2 in
  let next := if next <? i32 (MinLimit cfg) then i32 (MinLimit cfg) else next in
  if next =? cur then None else Some next.

(** The EMA of Vegas. *)
Definition vegas_ema (cur rttNs : Z) : Z :=
  if cur =? 0 then rttNs else Z.quot (i64 (i64 (cur * 7) + rttNs)) 8.

Definition vegas_queue (cur minRTT emaRTT : Z) : Z :=
  i32 (Z.quot (i64 (cur * i64 (emaRTT - minRTT))) emaRTT).

Definition vegas_next (cur minRTT emaRTT : Z) : option Z :=
  let queue := vegas_queue cur minRTT emaRTT in
  if queue <? i32 (VegasAlpha cfg) then
    if cur <? i32 (MaxLimit cfg) then Some (i32 (cur + 1)) else None
  else if queue >? i32 (VegasBeta cfg) then
    if cur >? i32 (MinLimit cfg) then Some (i32 (cur - 1)) else None
  else None.

(** The long EMA of Gradient2. *)
Definition gradient_ema (cur rttNs : Z) : Z :=
  let alpha := GradientSmoothing cfg in
  if cur =? 0 then rttNs
  else f_to_int64 oob (fadd (fmul (f_of_Z cur) (fsub (f_of_Z 1) alpha)) (fmul (f_of_Z rttNs) alpha)).

Definition gradient_next (cur minRTT emaRTT : Z) : option Z :=
  let gradient := fdiv (f_of_Z minRTT) (f_of_Z emaRTT) in
  let gradient := if fltb gradient (f_ratio 1 2) then f_ratio 1 2 else gradient in
  let gradient := if fltb (f_of_Z 1) gradient then f_of_Z 1 else gradient in
  let queueSize := fsqrt (f_of_Z cur) in
  let target := i32 (f_to_int32 oob (ffloor (fadd (fmul (f_of_Z cur) gradient) queueSize))) in
  let target := if target <? i32 (MinLimit cfg) then i32 (MinLimit cfg) else target in
  let target := if target >? i32 (MaxLimit cfg) then i32 (MaxLimit cfg) else target in
  if target =? cur then None else Some target.

(** The sample count before which an RTT-aware algorithm does not adjust. *)
Definition min_samples : Z :=
  match algorithm cfg with
  | AlgorithmGradient2 => GradientMinSamples cfg
  | _ => VegasMinSamples cfg
  end.

Definition ema_next (cur rttNs : Z) : Z :=
  match algorithm cfg with
  | AlgorithmGradient2 => gradient_ema cur rttNs
  | _ => vegas_ema cur rttNs
  end.

Definition rtt_next (cur minRTT emaRTT : Z) : option Z :=
  match algorithm cfg with
  | AlgorithmGradient2 => gradient_next cur minRTT emaRTT
  | _ => vegas_next cur minRTT emaRTT
  end.

(** ** The methods, alone

    The limiter and, when the limit changed, the old and the new one. *)

Definition tryAcquire (l : limiter) : bool * limiter :=
  if inFlight l >=? limit l then (false, l) else (true, set_inFlight (i32 (inFlight l + 1)) l).

Definition release (l : limiter) : limiter := set_inFlight (i32 (inFlight l - 1)) l.

Definition adjust (next : option Z) (l : limiter) : limiter * option (Z * Z) :=
  match next with
  | None => (l, None)
  | Some n => (set_limit n l, Some (limit l, n))
  end.

Definition aimdOnSuccess (l : limiter) : limiter * option (Z * Z) :=
  let l := set_successes (i32 (successes l + 1)) l in
  if successes l <? i32 (SuccessThreshold cfg) then (l, None)
  else let l := set_successes 0 l in adjust (aimd_next (limit l)) l.

(** [vegasOnSuccess] and [gradient2OnSuccess] differ in [ema_next],
    [min_samples] and [rtt_next]. *)
Definition rttOnSuccess (rttNs : Z) (l : limiter) : limiter * option (Z * Z) :=
  if rttNs <=? 0 then (l, None)
  else
    let l := if negb (minRTT l =? 0) && (rttNs >=? minRTT l) then l else set_minRTT rttNs l in
    let l := set_emaRTT (ema_next (emaRTT l) rttNs) l in
    let l := add_sample l in
    if rttSamples l <? min_samples then (l, None)
    else if (minRTT l =? 0) || (emaRTT l =? 0) then (l, None)
    else adjust (rtt_next (limit l) (minRTT l) (emaRTT l)) l.

Definition onFailure (l : limiter) : limiter * option (Z * Z) :=
  let l := set_successes 0 l in adjust (failure_next (limit l)) l.
End Decisions.

(** ** [Execute] *)

Section Execute.
Context {W T : Type} `{Has W limiter} (zero : T) (oob : Z) (cfg : Config).
Context (OnLimitChange : option (Z -> Z -> M W unit)).

Definition rttAware : bool :=
  match algorithm cfg with AlgorithmVegas | AlgorithmGradient2 => true | _ => false end.

Definition notify (change : option (Z * Z)) : M W unit :=
  match change, OnLimitChange with
  | Some (old, new), Some f => f old new
  | _, _ => ret tt
  end.

(** A method that may change the limit, and its notification. *)
Definition adjusting (f : limiter -> limiter * option (Z * Z)) : M W unit :=
  let! change := (fun w => let r := f (get w) in (r.2, put r.1 w)) in
  notify change.

(** What happens between the function's return and the deferred release. *)
Definition feedback (start : Z) (r : result T) : M W unit :=
  match r.2 with
  | Some _ => adjusting (onFailure cfg)
  | None =>
      if rttAware then
        let! now := time_Now in
        adjusting (rttOnSuccess oob cfg (time_Sub now start))
      else adjusting (aimdOnSuccess cfg)
  end.

Definition Execute (c : ctx) (fn : Fn W T) : M W (result T) :=
  let! e := err_of c in
  match e with
  | Some err => ret (zero, Some err)
  | None =>
      let! ok := (fun w => let r := tryAcquire (get w) in (r.1, put r.2 w)) in
      if negb ok then ret (zero, Some (ESentinel ErrAdaptiveLimitExceeded))
      else
        let! start := (if rttAware then time_Now else ret 0) in
        let! r := fn c in
        feedback start r ;;;
        (fun w => (tt, put (release (get w)) w)) ;;;
        ret r
  end.

(** [Limit] and [InFlight]. *)
Definition Limit : M W Z := fun w => (limit (get w), w).
Definition InFlight : M W Z := fun w => (inFlight (get w), w).
End Execute.

(** ** Configuration *)

Record config_ok (c : Config) : Prop := {
  ck_min : 1 <= MinLimit c;
  ck_initial : MinLimit c <= InitialLimit c <= MaxLimit c;
  ck_threshold : 1 <= SuccessThreshold c;
  ck_alpha : 1 <= VegasAlpha c
}.

Lemma limits_ok c : config_ok (setDefaults c).
Proof.
  split; cbn; unfold defaultMinLimit, defaultMaxLimit, defaultInitialLimit, defaultSuccessThreshold, defaultVegasAlpha;
    zcases; lia.
Qed.

(** The limits fit the int32 the limiter keeps them in. *)
Definition fits (c : Config) : Prop := MaxLimit c < 2 ^ 31.

Definition bounded (c : Config) (n : Z) : Prop := MinLimit c <= n <= MaxLimit c.

Lemma bounded_i32 c : config_ok c -> fits c -> i32 (MinLimit c) = MinLimit c /\ i32 (MaxLimit c) = MaxLimit c.
Proof. intros [? ? _ _] F. unfold fits in F. split; apply i32_small; lia. Qed.

(** Whatever the algorithm loaded, a limit it stores is in bounds. *)
Lemma next_bounded oob c cur m e n :
  config_ok c -> fits c -> bounded c cur ->
  aimd_next c cur = Some n \/ failure_next c cur = Some n \/ rtt_next oob c cur m e = Some n ->
  bounded c n.
Proof.
  intros K F B. destruct (bounded_i32 c K F) as [Emin Emax]. destruct K as [K1 K2 _ _]. unfold fits, bounded in *.
  intros [E|[E|E]].
  - unfold aimd_next in E. rewrite Emax in E. zcases_in E; [done|]. injection E as <-. rewrite i32_small; lia.
  - unfold failure_next in E. rewrite Emin in E.
    pose proof (Z.quot_pos cur 2). pose proof (Z.quot_le_upper_bound cur 2 cur).
    zcases_in E; try done; injection E as <-; lia.
  - assert (Vg : vegas_next c cur m e = Some n -> MinLimit c <= n <= MaxLimit c).
    { clear E. intros E. unfold vegas_next in E. rewrite Emin, Emax in E.
      zcases_in E; try done; injection E as <-; rewrite i32_small; lia. }
    unfold rtt_next in E. destruct (algorithm c); auto.
    unfold gradient_next in E. rewrite Emin, Emax in E.
    match type of E with context [i32 (f_to_int32 ?a ?b)] => set (t := i32 (f_to_int32 a b)) in * end.
    zcases_in E; try done; injection E as <-; lia.
Qed.

(** ** Any number of goroutines *)

Module Interleaving.

(** One goroutine in [Execute], between two atomic operations; the arguments
    are the values it loaded. *)
Inductive pc :=
| AcquireLoad
| AcquireLimit (cur : Z)
| AcquireSwap (cur : Z)
| Rejected
| InFn
(* aimdOnSuccess *)
| SuccessAdd
| SuccessReset
| SuccessLoad
| SuccessSwap (cur next : Z)
(* onFailure *)
| FailureReset
| FailureLoad
| FailureSwap (cur next : Z)
(* vegasOnSuccess and gradient2OnSuccess *)
| MinLoad (rtt : Z)
| MinSwap (rtt cur : Z)
| EmaLoad (rtt : Z)
| EmaSwap (rtt cur next : Z)
| SampleAdd
| ReadMin
| ReadEma (m : Z)
| ReadLimit (m e : Z)
| LimitSwap (cur next : Z)
| Release
| Done.

Record sys := { lim : limiter; threads : list pc }.

Section Steps.
Context (oob : Z) (cfg : Config).

(** A load followed by a decision: go on with a swap, or give up. *)
Definition decide_swap (swap : Z -> Z -> pc) (cur : Z) (next : option Z) : pc :=
  match next with Some n => swap cur n | None => Release end.

(** [atomic.CompareAndSwap] on the limit. *)
Definition swap_limit (cur next : Z) (l : limiter) : bool * limiter :=
  if limit l =? cur then (true, set_limit next l) else (false, l).

Inductive act : limiter -> pc -> limiter -> pc -> Prop :=
| act_acquire_load l : act l AcquireLoad l (AcquireLimit (inFlight l))
| act_acquire_limit l cur :
    act l (AcquireLimit cur) l (if cur >=? limit l then Rejected else AcquireSwap cur)
| act_acquire_swap l cur :
    act l (AcquireSwap cur)
      (if inFlight l =? cur then set_inFlight (i32 (cur + 1)) l else l)
      (if inFlight l =? cur then InFn else AcquireLoad)
| act_fails l : act l InFn l FailureReset
| act_succeeds l rtt :
    act l InFn l
      (match algorithm cfg with
       | AlgorithmVegas | AlgorithmGradient2 => if rtt <=? 0 then Release else MinLoad rtt
       | _ => SuccessAdd
       end)
| act_success_add l :
    act l SuccessAdd (set_successes (i32 (successes l + 1)) l)
      (if i32 (successes l + 1) <? i32 (SuccessThreshold cfg) then Release else SuccessReset)
| act_success_reset l : act l SuccessReset (set_successes 0 l) SuccessLoad
| act_success_load l : act l SuccessLoad l (decide_swap SuccessSwap (limit l) (aimd_next cfg (limit l)))
| act_success_swap l cur next :
    act l (SuccessSwap cur next) (swap_limit cur next l).2
      (if (swap_limit cur next l).1 then Release else SuccessLoad)
| act_failure_reset l : act l FailureReset (set_successes 0 l) FailureLoad
| act_failure_load l : act l FailureLoad l (decide_swap FailureSwap (limit l) (failure_next cfg (limit l)))
| act_failure_swap l cur next :
    act l (FailureSwap cur next) (swap_limit cur next l).2
      (if (swap_limit cur next l).1 then Release else FailureLoad)
| act_min_load l rtt :
    act l (MinLoad rtt) l
      (if negb (minRTT l =? 0) && (rtt >=? minRTT l) then EmaLoad rtt else MinSwap rtt (minRTT l))
| act_min_swap l rtt cur :
    act l (MinSwap rtt cur)
      (if minRTT l =? cur then set_minRTT rtt l else l)
      (if minRTT l =? cur then EmaLoad rtt else MinLoad rtt)
| act_ema_load l rtt : act l (EmaLoad rtt) l (EmaSwap rtt (emaRTT l) (ema_next oob cfg (emaRTT l) rtt))
| act_ema_swap l rtt cur next :
    act l (EmaSwap rtt cur next)
      (if emaRTT l =? cur then set_emaRTT next l else l)
      (if emaRTT l =? cur then SampleAdd else EmaLoad rtt)
| act_sample l :
    act l SampleAdd (add_sample l)
      (if i64 (rttSamples l + 1) <? min_samples cfg then Release else ReadMin)
| act_read_min l : act l ReadMin l (ReadEma (minRTT l))
| act_read_ema l m :
    act l (ReadEma m) l (if (m =? 0) || (emaRTT l =? 0) then Release else ReadLimit m (emaRTT l))
| act_read_limit l m e :
    act l (ReadLimit m e) l (decide_swap LimitSwap (limit l) (rtt_next oob cfg (limit l) m e))
| act_limit_swap l cur next :
    act l (LimitSwap cur next) (swap_limit cur next l).2 Release
| act_release l : act l Release (release l) Done.

Inductive step : sys -> sys -> Prop :=
| step_spawn s : step s {| lim := lim s; threads := threads s ++ [AcquireLoad] |}
| step_thread s i p l' p' :
    threads s !! i = Some p -> act (lim s) p l' p' ->
    step s {| lim := l'; threads := <[i := p']> (threads s) |}.
End Steps.

Definition init (c : Config) (s : sys) : Prop := lim s = New c /\ threads s = [].

(** Does the goroutine hold a slot? *)
Definition holds (p : pc) : Z :=
  match p with AcquireLoad | AcquireLimit _ | AcquireSwap _ | Rejected | Done => 0 | _ => 1 end.

(** What a goroutine knows about the values it carries. *)
Definition knows (c : Config) (p : pc) : Prop :=
  match p with
  | AcquireSwap cur => cur < MaxLimit c
  | SuccessSwap _ next | FailureSwap _ next | LimitSwap _ next => bounded c next
  | _ => True
  end.

Record inv (c : Config) (s : sys) : Prop := {
  iv_limit : bounded c (limit (lim s));
  iv_slots : inFlight (lim s) = total holds (threads s);
  iv_max : inFlight (lim s) <= MaxLimit c;
  iv_knows : forall i p, threads s !! i = Some p -> knows c p
}.

Lemma holds_nonneg p : 0 <= holds p.
Proof. by destruct p. Qed.

Lemma decide_swap_knows c oob cur swap next m e :
  config_ok c -> fits c -> bounded c cur ->
  (forall n, next = Some n -> aimd_next c cur = Some n \/ failure_next c cur = Some n \/ rtt_next oob c cur m e = Some n) ->
  (forall a n, bounded c n -> knows c (swap a n)) ->
  knows c (decide_swap swap cur next).
Proof.
  intros K F B N S. unfold decide_swap. destruct next as [n|]; [|done].
  apply S. eapply next_bounded; eauto.
Qed.

Lemma swap_limit_bounded c cur next l :
  bounded c (limit l) -> bounded c next ->
  bounded c (limit (swap_limit cur next l).2) /\ inFlight (swap_limit cur next l).2 = inFlight l.
Proof. unfold swap_limit. by destruct (limit l =? cur). Qed.

Ltac finish := split_and!; try done; cbn in *; try done; try lia.

(** One action of a goroutine in a good state. *)
Lemma act_inv oob c l p l' p' :
  config_ok c -> fits c -> act oob c l p l' p' ->
  bounded c (limit l) -> knows c p -> 0 <= inFlight l <= MaxLimit c -> holds p <= inFlight l ->
  bounded c (limit l') /\ knows c p' /\ inFlight l' - inFlight l = holds p' - holds p /\
  inFlight l' <= MaxLimit c.
Proof.
  intros K F A B Kn I Hl. pose proof F as F'. unfold fits in F'.
  assert (Dec : forall cur next m e swap,
    (forall n, next = Some n -> aimd_next c cur = Some n \/ failure_next c cur = Some n \/ rtt_next oob c cur m e = Some n) ->
    bounded c cur -> (forall a n, bounded c n -> knows c (swap a n)) -> (forall a n, holds (swap a n) = 1) ->
    knows c (decide_swap swap cur next) /\ holds (decide_swap swap cur next) = 1).
  { intros cur next m e swap N Bc Sk Sh. split; [by eapply decide_swap_knows|].
    unfold decide_swap. destruct next; [apply Sh|done]. }
  destruct A; cbn [holds knows] in *.
  - finish.
  - unfold bounded in *. zcases; finish.
  - destruct (Z.eqb_spec (inFlight l) cur); [|finish].
    cbn [limit set_inFlight inFlight]. rewrite i32_small by lia. finish.
  - finish.
  - destruct (algorithm c); try case_match; finish.
  - case_match; finish.
  - finish.
  - destruct (Dec (limit l) (aimd_next c (limit l)) 0 0 SuccessSwap) as [? ->]; auto. finish.
  - destruct (swap_limit_bounded c cur next l B Kn) as [B' ->]. split; [done|]. case_match; finish.
  - finish.
  - destruct (Dec (limit l) (failure_next c (limit l)) 0 0 FailureSwap) as [? ->]; auto. finish.
  - destruct (swap_limit_bounded c cur next l B Kn) as [B' ->]. split; [done|]. case_match; finish.
  - case_match; finish.
  - destruct (minRTT l =? cur); finish.
  - finish.
  - destruct (emaRTT l =? cur); finish.
  - case_match; finish.
  - finish.
  - case_match; finish.
  - destruct (Dec (limit l) (rtt_next oob c (limit l) m e) m e LimitSwap) as [? ->]; auto. finish.
  - destruct (swap_limit_bounded c cur next l B Kn) as [B' ->]. split; [done|]. finish.
  - unfold release. cbn [limit set_inFlight inFlight]. rewrite i32_small by lia. finish.
Qed.

Lemma limiter_step_inv oob c s s' : config_ok c -> fits c -> inv c s -> step oob c s s' -> inv c s'.
Proof.
  intros K F [I1 I2 I3 I4] St. destruct St as [s|s i p l' p' Hp A].
  - split; cbn; auto.
    + rewrite total_app. cbn. lia.
    + intros i p [Hi|[_ Hi]]%lookup_app_Some; [eauto|]. by apply list_lookup_singleton_Some in Hi as [_ <-].
  - pose proof (total_lookup holds _ _ _ holds_nonneg Hp) as Lp.
    pose proof (total_nonneg holds (threads s) holds_nonneg) as N.
    destruct (act_inv _ _ _ _ _ _ K F A I1 (I4 _ _ Hp)) as (B & Kn & D & M); [lia|lia|].
    split; cbn [lim threads]; auto.
    + rewrite (total_insert _ _ _ _ _ Hp). lia.
    + intros j q Hq. rewrite list_lookup_insert in Hq. case_decide; [by simplify_eq|eauto].
Qed.

(** C10: The adaptive limiter under every interleaving, whatever the algorithm
    and the latencies: the limit stays within [MinLimit, MaxLimit], and the
    in-flight counter is exactly the number of goroutines that hold a slot,
    never more than [MaxLimit].  (For limits that fit an int32.) *)
Theorem limiter_safe oob c s :
  let d := setDefaults c in
  fits d -> reachable (init c) (step oob d) s ->
  MinLimit d <= limit (lim s) <= MaxLimit d /\
  inFlight (lim s) = total holds (threads s) /\ 0 <= inFlight (lim s) <= MaxLimit d.
Proof.
  intros d F R. pose proof (limits_ok c) as K. fold d in K.
  assert (I : inv d s).
  { revert R. apply invariant_reachable; [|intros ? ?; by apply limiter_step_inv].
    intros s0 [E T]. destruct K as [K1 K2 _ _]. unfold fits in F. split; rewrite ?E, ?T.
    - cbn [New limit]. fold d. rewrite i32_small by lia. exact K2.
    - done.
    - change (0 <= MaxLimit d). lia.
    - by intros i p. }
  destruct I as [I1 I2 I3 _]. split; [exact I1|]. split; [done|]. split; [|done].
  rewrite I2. apply total_nonneg, holds_nonneg.
Qed.

Lemma limiter_safe_witness :
  let c := {| algorithm := AlgorithmVegas; InitialLimit := 0; MinLimit := 0; MaxLimit := 0; SuccessThreshold := 0;
              VegasAlpha := 0; VegasBeta := 0; VegasMinSamples := 0; GradientMinSamples := 0;
              GradientSmoothing := f_of_Z 0 |} in
  let s := {| lim := New c; threads := [AcquireLoad] |} in
  reachable (init c) (step 0 (setDefaults c)) s /\ limit (lim s) <= 200.
Proof.
  intros c s. assert (R : reachable (init c) (step 0 (setDefaults c)) s).
  { eapply reach_step; [by apply (reach_init _ _ {| lim := New c; threads := [] |})|]. exact (step_spawn _ _ _). }
  split; [exact R|]. exact (proj2 (proj1 (limiter_safe 0 c s eq_refl R))).
Defined.
End Interleaving.

(** ** AIMD, alone *)

(** Outcomes, in order. *)
Definition aimd_run (c : Config) (outcomes : list bool) (l : limiter) : limiter :=
  foldl (fun l (ok : bool) => if ok then (aimdOnSuccess c l).1 else (onFailure c l).1) l outcomes.

Section Aimd.
Context (c : Config) (K : config_ok c) (F : fits c) (Th : SuccessThreshold c < 2 ^ 31).

Lemma aimd_failure l :
  bounded c (limit l) ->
  limit (onFailure c l).1 = Z.max (MinLimit c) (limit l / 2) /\ successes (onFailure c l).1 = 0.
Proof.
  intros B. destruct (bounded_i32 c K F) as [Emin Emax]. destruct K as [K1 K2 _ _]. unfold bounded in B.
  unfold onFailure, failure_next, adjust. cbn [limit set_successes]. rewrite Emin, Z.quot_div_nonneg by lia.
  zcases; cbn; lia.
Qed.

Lemma aimd_success l :
  bounded c (limit l) -> 0 <= successes l < SuccessThreshold c ->
  let l' := (aimdOnSuccess c l).1 in
  if successes l + 1 <? SuccessThreshold c
  then limit l' = limit l /\ successes l' = successes l + 1
  else limit l' = Z.min (MaxLimit c) (limit l + 1) /\ successes l' = 0.
Proof.
  intros B S. destruct (bounded_i32 c K F) as [Emin Emax]. destruct K as [K1 K2 K3 _]. unfold bounded, fits in *.
  unfold aimdOnSuccess, aimd_next, adjust. cbn [limit successes set_successes].
  rewrite (i32_small (SuccessThreshold c)), (i32_small (successes l + 1)), Emax by lia.
  destruct (Z.ltb_spec (successes l + 1) (SuccessThreshold c)); [done|].
  rewrite Z.geb_leb. destruct (Z.leb_spec (MaxLimit c) (limit l)); cbn; [lia|]. rewrite i32_small; lia.
Qed.

Lemma bounded_half n : bounded c n -> bounded c (Z.max (MinLimit c) (n / 2)).
Proof.
  destruct K as [K1 K2 _ _]. unfold bounded. intros B.
  pose proof (Z.div_le_upper_bound n 2 n). lia.
Qed.

Lemma failures_in_a_row k : forall l,
  bounded c (limit l) -> limit (aimd_run c (replicate k false) l) = Z.max (MinLimit c) (limit l / 2 ^ Z.of_nat k).
Proof.
  induction k as [|k IH]; intros l B.
  - cbn. destruct B. rewrite Z.div_1_r. lia.
  - change (aimd_run c (replicate (S k) false) l) with (aimd_run c (replicate k false) (onFailure c l).1).
    destruct (aimd_failure l B) as [E _]. rewrite IH by (rewrite E; by apply bounded_half). rewrite E.
    replace (2 ^ Z.of_nat (S k)) with (2 * 2 ^ Z.of_nat k) by (rewrite Nat2Z.inj_succ, Z.pow_succ_r; lia).
    assert (P : 0 < 2 ^ Z.of_nat k) by (apply Z.pow_pos_nonneg; lia).
    rewrite <- Z.div_div by lia. destruct (Z.max_spec (MinLimit c) (limit l / 2)) as [[L ->]|[L ->]]; [done|].
    destruct K as [K1 _ _ _].
    pose proof (Z.div_le_mono _ _ _ P L). pose proof (Z.div_le_upper_bound (MinLimit c) (2 ^ Z.of_nat k) (MinLimit c) P).
    nia.
Qed.

(** [j] more successes below the threshold. *)
Lemma successes_count j : forall l,
  bounded c (limit l) -> 0 <= successes l -> successes l + Z.of_nat j < SuccessThreshold c ->
  let l' := aimd_run c (replicate j true) l in
  limit l' = limit l /\ successes l' = successes l + Z.of_nat j.
Proof.
  induction j as [|j IH]; intros l B S L; [cbn; lia|].
  change (aimd_run c (replicate (Datatypes.S j) true) l) with (aimd_run c (replicate j true) (aimdOnSuccess c l).1).
  pose proof (aimd_success l B ltac:(lia)) as A. cbv zeta in A.
  destruct (Z.ltb_spec (successes l + 1) (SuccessThreshold c)); [|lia]. destruct A as [E1 E2].
  cbv zeta. destruct (IH (aimdOnSuccess c l).1) as [-> ->]; rewrite ?E1, ?E2; try done; try lia.
Qed.

(** A round of [SuccessThreshold] successes raises the limit by one. *)
Lemma success_round l :
  bounded c (limit l) -> successes l = 0 ->
  let l' := aimd_run c (replicate (Z.to_nat (SuccessThreshold c)) true) l in
  limit l' = Z.min (MaxLimit c) (limit l + 1) /\ successes l' = 0.
Proof.
  intros B S. pose proof (ck_threshold c K) as K3.
  replace (Z.to_nat (SuccessThreshold c)) with (Z.to_nat (SuccessThreshold c - 1) + 1)%nat by lia.
  cbv zeta. unfold aimd_run. rewrite replicate_add, foldl_app. fold (aimd_run c (replicate (Z.to_nat (SuccessThreshold c - 1)) true) l).
  destruct (successes_count (Z.to_nat (SuccessThreshold c - 1)) l B) as [E1 E2]; [lia|lia|].
  set (l1 := aimd_run _ _ _) in *. cbn [replicate foldl].
  pose proof (aimd_success l1) as A. cbv zeta in A. rewrite E1, E2 in A. specialize (A B ltac:(lia)).
  destruct (Z.ltb_spec (successes l + Z.of_nat (Z.to_nat (SuccessThreshold c - 1)) + 1) (SuccessThreshold c)); [lia|].
  done.
Qed.
End Aimd.

(** AIMD.  Run alone, [k] failures in a row divide the limit by [2^k],
    down to [MinLimit]; and from a fresh count [n] rounds of
    [SuccessThreshold] successes raise it by [n], up to [MaxLimit]. *)
Theorem aimd_dynamics c l k n :
  config_ok c -> fits c -> SuccessThreshold c < 2 ^ 31 -> bounded c (limit l) ->
  limit (aimd_run c (replicate k false) l) = Z.max (MinLimit c) (limit l / 2 ^ Z.of_nat k) /\
  (successes l = 0 ->
     limit (aimd_run c (concat (replicate n (replicate (Z.to_nat (SuccessThreshold c)) true))) l) =
       Z.min (MaxLimit c) (limit l + Z.of_nat n)).
Proof.
  intros K F Th B. split; [by apply failures_in_a_row|]. intros S.
  revert l B S. induction n as [|n IH]; intros l B S; [destruct B; cbn; lia|].
  cbn [replicate concat]. unfold aimd_run. rewrite foldl_app.
  destruct (success_round c K F Th l B S) as [E1 E2].
  fold (aimd_run c (replicate (Z.to_nat (SuccessThreshold c)) true) l).
  set (l1 := aimd_run c (replicate _ true) l) in *. fold (aimd_run c (concat (replicate n (replicate (Z.to_nat (SuccessThreshold c)) true))) l1).
  unfold bounded in *. rewrite IH by (rewrite ?E1; lia || done). rewrite E1. lia.
Qed.

Definition example_config : Config := setDefaults {|
  algorithm := AlgorithmVegas; InitialLimit := 16; MinLimit := 2; MaxLimit := 20; SuccessThreshold := 3;
  VegasAlpha := 0; VegasBeta := 0; VegasMinSamples := 1; GradientMinSamples := 0; GradientSmoothing := f_of_Z 0
|}.

Lemma aimd_dynamics_witness :
  limit (aimd_run example_config [false; false] (New example_config)) = 4 /\
  limit (aimd_run example_config [true; true; true] (New example_config)) = 17.
Proof.
  destruct (aimd_dynamics example_config (New example_config) 2 1 (limits_ok _)) as [A B];
    [done|done|by split|]. split; [exact A|]. exact (B eq_refl).
Defined.

(** ** Vegas, alone *)

Definition vegas_run (oob : Z) (c : Config) (rtts : list Z) (l : limiter) : limiter :=
  foldl (fun l rtt => (rttOnSuccess oob c rtt l).1) l rtts.

(** The average of values of a range stays in it. *)
Lemma vegas_ema_between cur rtt lo hi :
  lo <= cur <= hi -> lo <= rtt <= hi -> 0 < lo -> hi < 2 ^ 59 -> lo <= vegas_ema cur rtt <= hi.
Proof.
  intros C R L H. unfold vegas_ema. zcases; [lia|].
  rewrite (i64_small (cur * 7)), (i64_small (cur * 7 + rtt)), Z.quot_div_nonneg by lia.
  split; [apply Z.div_le_lower_bound; lia|]. apply Z.div_le_upper_bound; lia.
Qed.

Lemma vegas_queue_between cur m e :
  0 <= cur < 2 ^ 31 -> 0 < m <= e -> e < 2 ^ 59 -> cur * e < 2 ^ 63 ->
  0 <= vegas_queue cur m e <= cur /\ (0 < cur -> vegas_queue cur m e < cur).
Proof.
  intros C M E O. unfold vegas_queue. rewrite (i64_small (e - m)) by lia. rewrite i64_small by nia.
  rewrite Z.quot_div_nonneg by nia.
  assert (L : 0 <= cur * (e - m) / e) by (apply Z.div_pos; nia).
  assert (U : cur * (e - m) / e <= cur) by (apply Z.div_le_upper_bound; nia).
  rewrite i32_small by lia. split; [lia|]. intros P. apply Z.div_lt_upper_bound; nia.
Qed.

(** What the limiter knows after some samples. *)
Definition sampled (l : limiter) (seen : list Z) : Prop :=
  match seen with
  | [] => minRTT l = 0 /\ emaRTT l = 0
  | r :: rs => minRTT l = foldl Z.min r rs /\ minRTT l <= emaRTT l <= foldl Z.max r rs
  end.

Lemma foldl_min_le r rs : foldl Z.min r rs <= r /\ (forall x, x ∈ rs -> foldl Z.min r rs <= x).
Proof.
  revert r. induction rs as [|x rs IH]; intros r; cbn; [split; [lia|by intros x ?%not_elem_of_nil]|].
  destruct (IH (Z.min r x)) as [A B]. split; [lia|]. intros y [->|Hy]%elem_of_cons; [lia|auto].
Qed.

Lemma foldl_min_pos r rs : 0 < r -> (forall x, x ∈ rs -> 0 < x) -> 0 < foldl Z.min r rs.
Proof.
  revert r. induction rs as [|x rs IH]; intros r R P; cbn; [done|]. apply IH; [|set_solver].
  specialize (P x ltac:(left)). lia.
Qed.

Lemma foldl_max_lt r rs b : r < b -> (forall x, x ∈ rs -> x < b) -> foldl Z.max r rs < b.
Proof.
  revert r. induction rs as [|x rs IH]; intros r R P; cbn; [done|]. apply IH; [|set_solver].
  specialize (P x ltac:(left)). lia.
Qed.

Lemma foldl_max_ge r rs : r <= foldl Z.max r rs.
Proof. revert r. induction rs as [|x rs IH]; intros r; cbn; [lia|]. specialize (IH (Z.max r x)). lia. Qed.

Lemma adjust_rtt next l : minRTT (adjust next l).1 = minRTT l /\ emaRTT (adjust next l).1 = emaRTT l.
Proof. by destruct next. Qed.

Lemma rttOnSuccess_rtts oob c rtt l :
  0 < rtt -> algorithm c = AlgorithmVegas ->
  let m := if negb (minRTT l =? 0) && (rtt >=? minRTT l) then minRTT l else rtt in
  let e := vegas_ema (emaRTT l) rtt in
  minRTT (rttOnSuccess oob c rtt l).1 = m /\ emaRTT (rttOnSuccess oob c rtt l).1 = e /\
  ((rttOnSuccess oob c rtt l).2 = None /\ limit (rttOnSuccess oob c rtt l).1 = limit l \/
   exists n, vegas_next c (limit l) m e = Some n /\ limit (rttOnSuccess oob c rtt l).1 = n).
Proof.
  intros P A. unfold rttOnSuccess, ema_next, rtt_next, min_samples. rewrite A.
  destruct (Z.leb_spec rtt 0); [lia|]. cbv zeta.
  destruct (negb (minRTT l =? 0) && (rtt >=? minRTT l));
    cbn [add_sample set_emaRTT set_minRTT minRTT emaRTT rttSamples limit];
    (destruct (_ <? _); [cbn; auto|]); (destruct (_ || _); [cbn; auto|]);
    match goal with |- context [vegas_next ?c ?a ?b ?d] => destruct (vegas_next c a b d) eqn:E end; cbn; eauto 8.
Qed.

Lemma sampled_step oob c rtt l seen :
  algorithm c = AlgorithmVegas -> 0 < rtt < 2 ^ 59 -> (forall x, x ∈ seen -> 0 < x < 2 ^ 59) ->
  sampled l seen -> sampled (rttOnSuccess oob c rtt l).1 (seen ++ [rtt]).
Proof.
  intros A P Ps S. destruct (rttOnSuccess_rtts oob c rtt l ltac:(lia) A) as (Em & Ee & _).
  destruct seen as [|r rs]; cbn [sampled app] in *; rewrite Em, Ee.
  - destruct S as [-> ->]. cbn. lia.
  - destruct S as [Sm Se]. rewrite 2 foldl_app. cbn [foldl]. rewrite <- Sm.
    assert (Pm : 0 < minRTT l).
    { rewrite Sm. apply foldl_min_pos; [by destruct (Ps r ltac:(left))|intros x Hx; apply Ps; by right]. }
    assert (U : foldl Z.max r rs < 2 ^ 59).
    { apply foldl_max_lt; [by destruct (Ps r ltac:(left))|intros x Hx; apply Ps; by right]. }
    pose proof (vegas_ema_between (emaRTT l) rtt (Z.min (minRTT l) rtt) (Z.max (foldl Z.max r rs) rtt)
      ltac:(lia) ltac:(lia) ltac:(lia) ltac:(lia)).
    zcases; lia.
Qed.

(** The latency signal of Vegas.  After any sequence of positive samples
    (below 2^59 ns, 18 years) the baseline is exactly their minimum and the
    moving average lies between it and their maximum; so the queue estimate
    lies in [0, limit), for products within int64, and a further sample moves
    the limit by at most one. *)
Theorem vegas_signal oob c l0 r rs rtt :
  algorithm c = AlgorithmVegas -> config_ok c -> fits c -> bounded c (limit l0) ->
  minRTT l0 = 0 -> emaRTT l0 = 0 -> (forall x, x ∈ r :: rs -> 0 < x < 2 ^ 59) -> 0 < rtt < 2 ^ 59 ->
  let l := vegas_run oob c (r :: rs) l0 in
  minRTT l = foldl Z.min r rs /\ minRTT l <= emaRTT l <= foldl Z.max r rs /\
  (limit l * emaRTT l < 2 ^ 63 -> 0 <= vegas_queue (limit l) (minRTT l) (emaRTT l) < limit l) /\
  Z.abs (limit (rttOnSuccess oob c rtt l).1 - limit l) <= 1.
Proof.
  intros A K F B M0 E0 P Pr l.
  assert (G : sampled l (r :: rs) /\ bounded c (limit l)).
  { unfold l, vegas_run. clear Pr l. induction rs as [|x rs IH] using rev_ind.
    - cbn [foldl]. split; [apply (sampled_step oob c r l0 [] A (P r ltac:(left))); [by intros x ?%not_elem_of_nil|done]|].
      destruct (rttOnSuccess_rtts oob c r l0 ltac:(by destruct (P r ltac:(left))) A) as (_ & _ & [[_ ->]|(n & N & ->)]); [done|].
      eapply (next_bounded oob); eauto. right. right. unfold rtt_next. by rewrite A.
    - assert (Px : forall y, y ∈ r :: rs -> 0 < y < 2 ^ 59) by (intros y [->|Hy]%elem_of_cons; apply P; [left|right; apply elem_of_app; by left]).
      specialize (IH Px). rewrite app_comm_cons, foldl_app. cbn [foldl] in *. set (l1 := foldl _ _ rs) in *.
      destruct IH as [S B1]. assert (Hx : 0 < x < 2 ^ 59) by (apply P; right; apply elem_of_app; right; left).
      split; [by apply (sampled_step oob c x l1 (r :: rs))|].
      destruct (rttOnSuccess_rtts oob c x l1 ltac:(lia) A) as (_ & _ & [[_ ->]|(n & N & ->)]); [done|].
      eapply (next_bounded oob); eauto. right. right. unfold rtt_next. by rewrite A. }
  destruct G as [[Sm Se] Bl]. split; [done|]. split; [done|].
  assert (Pm : 0 < minRTT l).
  { rewrite Sm. apply foldl_min_pos; [by destruct (P r ltac:(left))|intros x Hx; apply P; by right]. }
  destruct (bounded_i32 c K F) as [Emin Emax]. destruct K as [K1 K2 _ _]. unfold bounded, fits in *. split.
  - intros O. assert (U : foldl Z.max r rs < 2 ^ 59).
    { apply foldl_max_lt; [by destruct (P r ltac:(left))|intros x Hx; apply P; by right]. }
    destruct (vegas_queue_between (limit l) (minRTT l) (emaRTT l)) as [Q1 Q2]; [lia|lia|lia|done|]. lia.
  - destruct (rttOnSuccess_rtts oob c rtt l ltac:(lia) A) as (_ & _ & [[_ ->]|(n & N & ->)]); [lia|].
    unfold vegas_next in N. rewrite Emin, Emax in N. set (q := vegas_queue _ _ _) in N. clearbody q.
    zcases_in N; try done; injection N as <-; rewrite i32_small; lia.
Qed.

Lemma vegas_signal_witness :
  let l := vegas_run 0 example_config [5 * Millisecond; 9 * Millisecond; 7 * Millisecond] (New example_config) in
  minRTT l = 5 * Millisecond.
Proof.
  apply (vegas_signal 0 example_config (New example_config) (5 * Millisecond) [9 * Millisecond; 7 * Millisecond] 1);
    try reflexivity.
  - apply limits_ok.
  - by split.
  - intros x. rewrite !elem_of_cons, elem_of_nil. intros [->|[->|[->|[]]]]; by split.
  - by split.
Defined.

(** The limits are ints and the limiter keeps int32s: [setDefaults] clamps
    the sign of a limit but not its size.  With a limit of 2^32 the limiter
    starts, and stays, at zero and rejects every call. *)
Theorem oversized_limit_rejects_all c :
  InitialLimit c = 2 ^ 32 -> MaxLimit c = 2 ^ 32 -> MinLimit c = 1 ->
  limit (New c) = 0 /\ tryAcquire (New c) = (false, New c).
Proof.
  intros I X N. assert (E : limit (New c) = 0).
  { cbn. rewrite I, X, N. reflexivity. }
  split; [done|]. unfold tryAcquire. by rewrite E.
Qed.

Lemma oversized_limit_rejects_all_witness :
  limit (New {| algorithm := AlgorithmAIMD; InitialLimit := 2 ^ 32; MinLimit := 1; MaxLimit := 2 ^ 32; SuccessThreshold := 0;
    VegasAlpha := 0; VegasBeta := 0; VegasMinSamples := 0; GradientMinSamples := 0; GradientSmoothing := f_of_Z 0 |}) = 0.
Proof. apply (oversized_limit_rejects_all {| algorithm := _; InitialLimit := _; MinLimit := _; MaxLimit := _;
  SuccessThreshold := _; VegasAlpha := _; VegasBeta := _; VegasMinSamples := _; GradientMinSamples := _;
  GradientSmoothing := _ |}); reflexivity. Defined.
