(* ===== verification/Bulkhead.v ===== *)
(** The bulkhead ([bulkhead/bulkhead.go], [config.go]).

    All of the bulkhead's state is in its channels, so the component is a
    transition system: the callers inside [Execute], the worker, and the
    goroutines the worker starts, one step per channel operation.  A [select]
    is one step per ready case, its [default] a step when none is ready.  A
    semaphore channel is the number of tokens in it; the unbuffered queue is a
    rendezvous between a caller and the worker; a caller's one-place result
    channel is [resultCh].  Contexts end when the environment says so. *)

From S2P Require Import Prelude.

Record Config := {
  QueueTimeout : Z;
  MaxConcurrent : Z;
  MaxQueue : Z
}.

Definition setDefaults (c : Config) : Config := {|
  MaxConcurrent := if MaxConcurrent c <=? 0 then 10 else MaxConcurrent c;
  MaxQueue := if MaxQueue c <? 0 then 0 else MaxQueue c;
  QueueTimeout := if QueueTimeout c <? 0 then 0 else QueueTimeout c
|}.

(** What [Execute] returns: [ErrBulkheadFull], the context's error, or what
    the function returned. *)
Inductive outcome := Full | CtxError | Result.

(** Where a caller stands in [Execute] and [enqueue]. *)
Inductive pc :=
| CheckDone
| TryAcquire
| Direct
| Enqueue
| Sending
| Waiting
| Returned (o : outcome).

(** [handed] and [runs] only observe: whether the worker received the
    request, and how often the caller's function was started. *)
Record caller := {
  at_pc : pc;
  ctx_done : bool;
  queue_ctx_done : bool;
  resultCh : option outcome;
  handed : bool;
  runs : Z
}.

Definition new_caller : caller := {|
  at_pc := CheckDone; ctx_done := false; queue_ctx_done := false;
  resultCh := None; handed := false; runs := 0
|}.

Definition goto (p : pc) (c : caller) : caller := {|
  at_pc := p; ctx_done := ctx_done c; queue_ctx_done := queue_ctx_done c;
  resultCh := resultCh c; handed := handed c; runs := runs c
|}.

Definition hand (c : caller) : caller := {|
  at_pc := Waiting; ctx_done := ctx_done c; queue_ctx_done := queue_ctx_done c;
  resultCh := resultCh c; handed := true; runs := runs c
|}.

Definition answer (o : outcome) (c : caller) : caller := {|
  at_pc := at_pc c; ctx_done := ctx_done c; queue_ctx_done := queue_ctx_done c;
  resultCh := Some o; handed := handed c; runs := runs c
|}.

Definition start (c : caller) : caller := {|
  at_pc := at_pc c; ctx_done := ctx_done c; queue_ctx_done := queue_ctx_done c;
  resultCh := resultCh c; handed := handed c; runs := runs c + 1
|}.

Definition cancel (c : caller) : caller := {|
  at_pc := at_pc c; ctx_done := true; queue_ctx_done := true;
  resultCh := resultCh c; handed := handed c; runs := runs c
|}.

Definition expire (c : caller) : caller := {|
  at_pc := at_pc c; ctx_done := ctx_done c; queue_ctx_done := true;
  resultCh := resultCh c; handed := handed c; runs := runs c
|}.

(** The worker: absent, receiving, holding a request while it waits for the
    semaphore, draining, or stopped. *)
Inductive worker_pc := NoWorker | Receiving | Holding (i : nat) | Draining | Stopped.

Record bulkhead := {
  sem : Z;
  queueSem : Z;
  closed : bool;
  callers : list caller;
  worker : worker_pc;
  jobs : list nat (* the requests whose goroutine runs *)
}.

Definition New (c : Config) : bulkhead := {|
  sem := 0; queueSem := 0; closed := false; callers := [];
  worker := if MaxQueue (setDefaults c) >? 0 then Receiving else NoWorker;
  jobs := []
|}.

Section Steps.
Context (cfg : Config).

Definition update (i : nat) (c : caller) (b : bulkhead) : bulkhead := {|
  sem := sem b; queueSem := queueSem b; closed := closed b;
  callers := <[i := c]> (callers b); worker := worker b; jobs := jobs b
|}.

Definition set_sem (n : Z) (b : bulkhead) : bulkhead := {|
  sem := n; queueSem := queueSem b; closed := closed b;
  callers := callers b; worker := worker b; jobs := jobs b
|}.

Definition set_queueSem (n : Z) (b : bulkhead) : bulkhead := {|
  sem := sem b; queueSem := n; closed := closed b;
  callers := callers b; worker := worker b; jobs := jobs b
|}.

Definition set_worker (w : worker_pc) (b : bulkhead) : bulkhead := {|
  sem := sem b; queueSem := queueSem b; closed := closed b;
  callers := callers b; worker := w; jobs := jobs b
|}.

Definition set_jobs (js : list nat) (b : bulkhead) : bulkhead := {|
  sem := sem b; queueSem := queueSem b; closed := closed b;
  callers := callers b; worker := worker b; jobs := js
|}.

(** The calling goroutine, in [Execute], [execute] and [enqueue]. *)
Inductive caller_step (b : bulkhead) (i : nat) (c : caller) : bulkhead -> Prop :=
(* Execute *)
| cs_check : at_pc c = CheckDone ->
    caller_step b i c (update i (goto (if closed b then Returned Full else TryAcquire) c) b)
| cs_acquire : at_pc c = TryAcquire -> sem b < MaxConcurrent cfg ->
    caller_step b i c (set_sem (sem b + 1) (update i (start (goto Direct c)) b))
| cs_acquire_ctx : at_pc c = TryAcquire -> ctx_done c = true ->
    caller_step b i c (update i (goto (Returned CtxError) c) b)
| cs_acquire_closed : at_pc c = TryAcquire -> closed b = true ->
    caller_step b i c (update i (goto (Returned Full) c) b)
| cs_acquire_default : at_pc c = TryAcquire ->
    MaxConcurrent cfg <= sem b -> ctx_done c = false -> closed b = false ->
    caller_step b i c (update i (goto Enqueue c) b)
| cs_direct_done : at_pc c = Direct ->
    caller_step b i c (set_sem (sem b - 1) (update i (goto (Returned Result) c) b))
(* enqueue *)
| cs_no_queue : at_pc c = Enqueue -> MaxQueue cfg = 0 ->
    caller_step b i c (update i (goto (Returned Full) c) b)
| cs_slot : at_pc c = Enqueue -> MaxQueue cfg <> 0 -> queueSem b < MaxQueue cfg ->
    caller_step b i c (set_queueSem (queueSem b + 1) (update i (goto Sending c) b))
| cs_slot_ctx : at_pc c = Enqueue -> MaxQueue cfg <> 0 -> queue_ctx_done c = true ->
    caller_step b i c (update i (goto (Returned CtxError) c) b)
| cs_slot_closed : at_pc c = Enqueue -> MaxQueue cfg <> 0 -> closed b = true ->
    caller_step b i c (update i (goto (Returned Full) c) b)
| cs_slot_default : at_pc c = Enqueue -> MaxQueue cfg <> 0 ->
    MaxQueue cfg <= queueSem b -> queue_ctx_done c = false -> closed b = false ->
    caller_step b i c (update i (goto (Returned Full) c) b)
| cs_send : at_pc c = Sending -> worker b = Receiving ->
    caller_step b i c (set_worker (Holding i) (update i (hand c) b))
| cs_send_drained : at_pc c = Sending -> worker b = Draining ->
    caller_step b i c (update i (answer Full (hand c)) b)
| cs_send_ctx : at_pc c = Sending -> queue_ctx_done c = true ->
    caller_step b i c (set_queueSem (queueSem b - 1) (update i (goto (Returned CtxError) c) b))
| cs_send_closed : at_pc c = Sending -> closed b = true ->
    caller_step b i c (set_queueSem (queueSem b - 1) (update i (goto (Returned Full) c) b))
| cs_receive o : at_pc c = Waiting -> resultCh c = Some o ->
    caller_step b i c (set_queueSem (queueSem b - 1) (update i (goto (Returned o) c) b))
| cs_wait_ctx : at_pc c = Waiting -> queue_ctx_done c = true ->
    caller_step b i c (set_queueSem (queueSem b - 1) (update i (goto (Returned CtxError) c) b))
| cs_wait_closed : at_pc c = Waiting -> closed b = true ->
    caller_step b i c (set_queueSem (queueSem b - 1) (update i (goto (Returned Full) c) b)).

(** The environment: a caller's context ends, or the timeout of its wait in
    the queue. *)
Inductive env_step (b : bulkhead) (i : nat) (c : caller) : bulkhead -> Prop :=
| es_cancel : env_step b i c (update i (cancel c) b)
| es_expire : QueueTimeout cfg > 0 -> env_step b i c (update i (expire c) b).

(** [worker] and the goroutines it starts. *)
Inductive worker_step (b : bulkhead) : bulkhead -> Prop :=
| ws_run i c : worker b = Holding i -> callers b !! i = Some c -> sem b < MaxConcurrent cfg ->
    worker_step b
      (set_jobs (jobs b ++ [i]) (set_worker Receiving (set_sem (sem b + 1) (update i (start c) b))))
| ws_ctx i c : worker b = Holding i -> callers b !! i = Some c -> ctx_done c = true ->
    worker_step b (set_worker Receiving (update i (answer CtxError c) b))
| ws_closed i c : worker b = Holding i -> callers b !! i = Some c -> closed b = true ->
    worker_step b (set_worker Draining (update i (answer Full c) b))
| ws_drain : worker b = Receiving -> closed b = true -> worker_step b (set_worker Draining b)
| ws_stop : worker b = Draining -> worker_step b (set_worker Stopped b)
| ws_job_done k i c : jobs b !! k = Some i -> callers b !! i = Some c ->
    worker_step b (set_jobs (delete k (jobs b)) (set_sem (sem b - 1) (update i (answer Result c) b))).

(** [Close]: [b.once.Do] closes [b.done] the first time. *)
Definition Close (b : bulkhead) : bulkhead := {|
  sem := sem b; queueSem := queueSem b; closed := true;
  callers := callers b; worker := worker b; jobs := jobs b
|}.

Inductive step : bulkhead -> bulkhead -> Prop :=
| step_spawn b : step b {| sem := sem b; queueSem := queueSem b; closed := closed b;
    callers := callers b ++ [new_caller]; worker := worker b; jobs := jobs b |}
| step_caller b i c b' : callers b !! i = Some c -> caller_step b i c b' -> step b b'
| step_env b i c b' : callers b !! i = Some c -> env_step b i c b' -> step b b'
| step_worker b b' : worker_step b b' -> step b b'
| step_close b : step b (Close b).

(** ** The invariant *)

Definition running (c : caller) : Z := match at_pc c with Direct => 1 | _ => 0 end.
Definition queued (c : caller) : Z := match at_pc c with Sending | Waiting => 1 | _ => 0 end.

(** Before its request reaches the worker a caller's function has not run,
    except directly. *)
Definition caller_ok (c : caller) : Prop :=
  0 <= runs c <= 1 /\
  match at_pc c with
  | CheckDone | TryAcquire | Enqueue | Sending => handed c = false /\ runs c = 0
  | Direct => handed c = false /\ runs c = 1
  | Waiting => handed c = true
  | Returned Result => True
  | Returned _ => handed c = false -> runs c = 0
  end.

Record inv (b : bulkhead) : Prop := {
  iv_sem : sem b = total running (callers b) + Z.of_nat (length (jobs b));
  iv_sem_max : sem b <= MaxConcurrent cfg;
  iv_queue : queueSem b = total queued (callers b);
  iv_queue_max : queueSem b <= MaxQueue cfg;
  iv_callers : forall i c, callers b !! i = Some c -> caller_ok c;
  iv_worker : forall i, worker b = Holding i ->
    exists c, callers b !! i = Some c /\ handed c = true /\ runs c = 0
}.

Lemma running_nonneg c : 0 <= running c.
Proof. unfold running. by destruct (at_pc c). Qed.

Lemma queued_nonneg c : 0 <= queued c.
Proof. unfold queued. by destruct (at_pc c). Qed.

(** Replacing caller [i]: the invariant in terms of what changes. *)
Lemma update_inv b b' i c c' :
  inv b -> callers b !! i = Some c -> caller_ok c' ->
  callers b' = <[i := c']> (callers b) ->
  sem b' - sem b = running c' - running c + Z.of_nat (length (jobs b')) - Z.of_nat (length (jobs b)) ->
  queueSem b' - queueSem b = queued c' - queued c ->
  sem b' <= MaxConcurrent cfg -> queueSem b' <= MaxQueue cfg ->
  (forall j, worker b' = Holding j -> (j = i /\ handed c' = true /\ runs c' = 0) \/ (j <> i /\ worker b = Holding j)) ->
  inv b'.
Proof.
  intros [I1 I2 I3 I4 I5 I6] Hi Ok Ec Es Eq Ls Lq Hw.
  pose proof (total_insert running _ _ _ c' Hi). pose proof (total_insert queued _ _ _ c' Hi).
  split; rewrite ?Ec; try lia.
  - intros j d. rewrite list_lookup_insert. case_decide; [intros [= <-]; done|apply I5].
  - intros j Ej. rewrite list_lookup_insert. destruct (Hw j Ej) as [(-> & Hh & Hr)|(Hne & Hb)].
    + exists c'. rewrite decide_True by (split; [done|by eapply lookup_lt_Some]). done.
    + rewrite decide_False by (intros [? _]; congruence). auto.
Qed.

(** The worker's view survives a step of a caller that keeps [handed] and
    [runs]. *)
Lemma worker_kept b i c c' j :
  inv b -> callers b !! i = Some c -> handed c' = handed c -> runs c' = runs c -> worker b = Holding j ->
  (j = i /\ handed c' = true /\ runs c' = 0) \/ (j <> i /\ worker b = Holding j).
Proof.
  intros I Hi Eh Er Hw. destruct (decide (j = i)) as [->|]; [left|by right].
  destruct (iv_worker b I _ Hw) as (d & Hd & Hh & Hr). simplify_eq. by rewrite Eh, Er.
Qed.

(** Close a case of the step lemmas: [Pc] is the caller's place. *)
Ltac caller_case I Hi Ok Pc :=
  unfold caller_ok, running, queued in *; cbn in *; rewrite ?Pc in *;
  first
    [ done
    | reflexivity
    | lia
    | by intros j Hj; eapply worker_kept; eauto
    | intuition lia ].

Lemma caller_step_inv b i c b' : inv b -> callers b !! i = Some c -> caller_step b i c b' -> inv b'.
Proof.
  intros I Hi St. pose proof (iv_callers b I i c Hi) as Ok.
  pose proof (iv_sem_max b I) as Ms. pose proof (iv_queue_max b I) as Mq.
  destruct St as [Pc|Pc L|Pc D|Pc D|Pc L D Cl|Pc|Pc Q|Pc Q L|Pc Q D|Pc Q D|Pc Q L D Cl|Pc Wk|Pc Wk|Pc D|Pc D|o Pc R|Pc D|Pc D];
    (eapply (update_inv b _ i c); [exact I|exact Hi| |reflexivity|..]).
  all: try (caller_case I Hi Ok Pc; fail).
  1-3: destruct (closed b); caller_case I Hi Ok Pc.
  - intros j Hj. right. split; [|done]. intros ->. destruct (iv_worker b I _ Hj) as (d & Hd & Hh & _).
    unfold caller_ok in Ok. rewrite Pc in Ok. destruct Ok as (_ & Hf & _). congruence.
  - intros j [= <-]. left. unfold caller_ok in Ok. rewrite Pc in Ok. by destruct Ok as (_ & _ & Hr).
  - intros j Hj. cbn in Hj. congruence.
  - unfold caller_ok in *. rewrite Pc in Ok. cbn. destruct Ok as [? Hh]. split; [done|].
    destruct o; [| |done]; rewrite Hh; discriminate.
  - unfold caller_ok in *. rewrite Pc in Ok. cbn. destruct Ok as [? Hh]. split; [done|]. rewrite Hh. discriminate.
  - unfold caller_ok in *. rewrite Pc in Ok. cbn. destruct Ok as [? Hh]. split; [done|]. rewrite Hh. discriminate.
Qed.

Lemma env_step_inv b i c b' : inv b -> callers b !! i = Some c -> env_step b i c b' -> inv b'.
Proof.
  intros I Hi St. pose proof (iv_callers b I i c Hi) as Ok.
  pose proof (iv_sem_max b I) as Ms. pose proof (iv_queue_max b I) as Mq.
  destruct St as [|Tm]; (eapply (update_inv b _ i c); [exact I|exact Hi| |reflexivity|..]);
    unfold caller_ok, running, queued in *; cbn; try lia; try exact Ok;
    by intros j Hj; eapply worker_kept; eauto.
Qed.

Lemma worker_step_inv b b' : inv b -> worker_step b b' -> inv b'.
Proof.
  intros I St. pose proof (iv_sem_max b I) as Ms. pose proof (iv_queue_max b I) as Mq.
  destruct St as [i c Wk Hi L|i c Wk Hi D|i c Wk Hi Cl|Wk Cl|Wk|k i c Hk Hi].
  - destruct (iv_worker b I _ Wk) as (d & Hd & Hh & Hr). assert (d = c) as -> by congruence.
    pose proof (iv_callers b I i c Hi) as Ok.
    eapply (update_inv b _ i c (start c)); try done; cbn; rewrite ?length_app; cbn;
      unfold running, queued, start; cbn; try lia.
    unfold caller_ok in *. cbn. destruct (at_pc c) as [| | | | | |[]]; intuition (try lia || congruence).
  - pose proof (iv_callers b I i c Hi) as Ok.
    eapply (update_inv b _ i c (answer CtxError c)); try done; cbn; unfold running, queued; cbn; try lia.
  - pose proof (iv_callers b I i c Hi) as Ok.
    eapply (update_inv b _ i c (answer Full c)); try done; cbn; unfold running, queued; cbn; try lia.
  - destruct I as [I1 I2 I3 I4 I5 I6]. split; try done.
  - destruct I as [I1 I2 I3 I4 I5 I6]. split; try done.
  - pose proof (iv_callers b I i c Hi) as Ok.
    assert (Ld : length (delete k (jobs b)) = (length (jobs b) - 1)%nat) by (apply length_delete; by eexists).
    pose proof (lookup_lt_Some _ _ _ Hk) as Lk.
    eapply (update_inv b _ i c (answer Result c)); try done; cbn; unfold running, queued; cbn; try lia.
    intros j Hj. by eapply (worker_kept b i c).
Qed.

Lemma bulkhead_step_inv b b' : inv b -> step b b' -> inv b'.
Proof.
  intros I St. destruct St as [b|b i c b' Hi St|b i c b' Hi St|b b' St|b].
  - destruct I as [I1 I2 I3 I4 I5 I6]. split; cbn; try done; rewrite ?total_app; cbn; try lia.
    + intros i c [Hi|[_ Hi]]%lookup_app_Some; [eauto|]. apply list_lookup_singleton_Some in Hi as [_ <-].
      unfold caller_ok. cbn. lia.
    + intros i Hw. destruct (I6 i Hw) as (c & Hc & H). exists c. split; [by apply lookup_app_l_Some|done].
  - by eapply caller_step_inv.
  - by eapply env_step_inv.
  - by eapply worker_step_inv.
  - destruct I as [I1 I2 I3 I4 I5 I6]. by split.
Qed.

End Steps.

Definition init (c : Config) (b : bulkhead) : Prop := b = New c.

Lemma reachable_inv c b : reachable (init c) (step (setDefaults c)) b -> inv (setDefaults c) b.
Proof.
  apply invariant_reachable; [|apply bulkhead_step_inv]. intros b0 ->.
  split; cbn; try done; unfold setDefaults; cbn; zcases; try lia; intros; done.
Qed.

(** C7: The bulkhead isolates.  Under every interleaving of callers, worker,
    goroutines, cancellations, queue timeouts and closing: the functions
    running at any moment -- directly or for the queue -- number at most
    [MaxConcurrent], at most [MaxQueue] callers are inside the queue, every
    function is started at most once, and a caller that was refused before
    its request reached the worker never had its function started. *)
Theorem bulkhead_isolates c b :
  let d := setDefaults c in
  reachable (init c) (step d) b ->
  total running (callers b) + Z.of_nat (length (jobs b)) <= MaxConcurrent d /\
  total queued (callers b) <= MaxQueue d /\
  (forall i x, callers b !! i = Some x ->
     0 <= runs x <= 1 /\
     (at_pc x = Returned Full \/ at_pc x = Returned CtxError -> handed x = false -> runs x = 0)).
Proof.
  intros d R. pose proof (reachable_inv c b R) as [I1 I2 I3 I4 I5 _]. fold d in I1, I2, I3, I4, I5.
  split; [lia|]. split; [lia|]. intros i x Hx. destruct (I5 i x Hx) as [Hr Hp]. split; [done|].
  intros [E|E]; rewrite E in Hp; exact Hp.
Qed.

Definition one_slot : Config := {| QueueTimeout := Second; MaxConcurrent := 1; MaxQueue := 1 |}.

Lemma bulkhead_isolates_witness :
  reachable (init one_slot) (step (setDefaults one_slot)) (New one_slot) /\
  total queued (callers (New one_slot)) <= 1.
Proof.
  assert (R : reachable (init one_slot) (step (setDefaults one_slot)) (New one_slot)) by (by apply reach_init).
  split; [exact R|]. exact (proj1 (proj2 (bulkhead_isolates one_slot _ R))).
Defined.

(** ** Abandoned requests *)

Lemma caller_moves I cfg b i c b' :
  reachable I (step cfg) b -> callers b !! i = Some c -> caller_step cfg b i c b' -> reachable I (step cfg) b'.
Proof. intros R Hi St. eapply reach_step; [exact R|]. by eapply step_caller. Qed.

Lemma env_moves I cfg b i c b' :
  reachable I (step cfg) b -> callers b !! i = Some c -> env_step cfg b i c b' -> reachable I (step cfg) b'.
Proof. intros R Hi St. eapply reach_step; [exact R|]. by eapply step_env. Qed.

Lemma worker_moves I cfg b b' :
  reachable I (step cfg) b -> worker_step cfg b b' -> reachable I (step cfg) b'.
Proof. intros R St. eapply reach_step; [exact R|]. by eapply step_worker. Qed.

(** Move caller [i] of the state that [R] reaches by the rule [rule]. *)
Ltac moves R i rule :=
  match type of R with
  | reachable ?I (step ?cfg) ?b =>
      let c := eval cbn in (default new_caller (callers b !! i)) in
      let Q := fresh in
      eassert (Q : reachable I (step cfg) _);
      [let close := (eapply rule; first [reflexivity|vm_compute; discriminate]) in
       first [ eapply (caller_moves I cfg b i c _ R); [reflexivity|close]
             | eapply (env_moves I cfg b i c _ R); [reflexivity|close] ]
      |cbn in Q; clear R; rename Q into R]
  end.

Ltac spawn R :=
  match type of R with
  | reachable ?I (step ?cfg) ?b =>
      let Q := fresh in
      pose proof (reach_step _ _ _ _ R (step_spawn cfg b)) as Q; cbn in Q; clear R; rename Q into R
  end.

(** [QueueTimeout] is documented as the maximum time a request can wait in
    the queue.  It bounds the caller's wait only: the worker waits for the
    caller's own context, so a request whose caller was already told that its
    queue time expired can still be started afterwards. *)
Theorem timed_out_request_still_runs :
  exists b b' c c', reachable (init one_slot) (step (setDefaults one_slot)) b /\
    step (setDefaults one_slot) b b' /\
    callers b !! 1%nat = Some c /\ at_pc c = Returned CtxError /\ ctx_done c = false /\ runs c = 0 /\
    callers b' !! 1%nat = Some c' /\ runs c' = 1.
Proof.
  assert (R : reachable (init one_slot) (step (setDefaults one_slot)) (New one_slot)) by (by apply reach_init).
  (* caller 0 takes the slot *)
  spawn R.
  moves R 0%nat cs_check.
  moves R 0%nat cs_acquire.
  (* caller 1 queues, is handed to the worker, times out and returns *)
  spawn R.
  moves R 1%nat cs_check.
  moves R 1%nat cs_acquire_default.
  moves R 1%nat cs_slot.
  moves R 1%nat cs_send.
  moves R 1%nat es_expire.
  moves R 1%nat cs_wait_ctx.
  (* the slot is released and the worker starts the abandoned request *)
  moves R 0%nat cs_direct_done.
  do 4 eexists. split; [exact R|]. split; [eapply step_worker, ws_run; reflexivity|].
  repeat split; reflexivity.
Qed.
