(* ===== verification/BulkheadLive.v ===== *)
(** Every call of a bulkhead returns ([bulkhead/bulkhead.go]).

    [Bulkhead] shows what its interleavings never do; here is what they
    must: no caller waits for ever, nothing is left in a semaphore, and the
    worker of a closed bulkhead ends.  The steps of the code ([work]) are
    separated from those of its environment (new callers, contexts that end,
    [Close]); a rank of the state bounds how many can follow.  A protected
    function is assumed to return, as its step says. *)

From S2P Require Import Prelude Bulkhead.

(** What the code does: a caller, the worker or one of its goroutines. *)
Inductive work (cfg : Config) (b : bulkhead) : bulkhead -> Prop :=
| work_caller i c b' : callers b !! i = Some c -> caller_step cfg b i c b' -> work cfg b b'
| work_worker b' : worker_step cfg b b' -> work cfg b b'.

Lemma work_step cfg b b' : work cfg b b' -> step cfg b b'.
Proof. intros [i c t Hi St|t St]; [by eapply step_caller|by apply step_worker]. Qed.

(** ** A request that was handed over is not forgotten *)

Section Owed.
Context (cfg : Config).

Record owed (b : bulkhead) : Prop := {
  ow_result : forall i c, callers b !! i = Some c -> at_pc c = Waiting ->
    resultCh c <> None \/ worker b = Holding i \/ i ∈ jobs b;
  ow_closed : worker b = Draining \/ worker b = Stopped -> closed b = true;
  ow_worker : worker b = NoWorker -> MaxQueue cfg <= 0;
  ow_jobs : forall i, i ∈ jobs b -> (i < length (callers b))%nat
}.

(** Replacing caller [i], when the worker keeps what it holds and no
    goroutine ends. *)
Lemma update_owed b i c' w b' :
  owed b -> callers b' = <[i := c']> (callers b) -> worker b' = w -> jobs b' = jobs b -> closed b' = closed b ->
  (at_pc c' = Waiting -> resultCh c' <> None \/ w = Holding i \/ i ∈ jobs b) ->
  w = worker b \/ w = Holding i /\ worker b = Receiving ->
  owed b'.
Proof.
  intros [R C N J] Ec <- Ej Ed Own Kept. split.
  - intros j d. rewrite Ec, list_lookup_insert. case_decide as D.
    + intros [= <-] Pc. destruct D as [-> _]. rewrite Ej. auto.
    + intros Hj Pc. rewrite Ej. destruct (R j d Hj Pc) as [?|[Wk|?]]; auto.
      destruct Kept as [-> |[_ K]]; [auto|congruence].
  - rewrite Ed. destruct Kept as [-> |[-> _]]; [done|]. intros [|]; done.
  - destruct Kept as [-> |[-> _]]; [done|]. done.
  - rewrite Ej, Ec, length_insert. exact J.
Qed.

Lemma caller_step_owed b i c b' : owed b -> callers b !! i = Some c -> caller_step cfg b i c b' -> owed b'.
Proof.
  intros O Hi St.
  destruct St; (eapply (update_owed b i _ _ _ O); [reflexivity|reflexivity|done|done|cbn..]);
    repeat case_match; auto; try done; try congruence; try (right; done).
Qed.

Lemma env_step_owed b i c b' : owed b -> callers b !! i = Some c -> env_step cfg b i c b' -> owed b'.
Proof.
  intros O Hi St.
  destruct St; (eapply (update_owed b i _ _ _ O); [reflexivity|reflexivity|done|done|cbn; intros Pc|cbn; auto]);
    exact (ow_result b O i c Hi Pc).
Qed.

Lemma elem_of_delete (l : list nat) k i j : l !! k = Some i -> j <> i -> j ∈ l -> j ∈ delete k l.
Proof.
  intros K N I. apply list_elem_of_lookup in I as [n L]. apply list_elem_of_lookup.
  destruct (decide (n < k)%nat) as [Lt|Ge].
  - exists n. by rewrite list_lookup_delete_lt.
  - assert (n <> k) by congruence. exists (n - 1)%nat. rewrite list_lookup_delete_ge by lia. by replace (S (n - 1)) with n by lia.
Qed.

Lemma delete_elem_of (l : list nat) k j : j ∈ delete k l -> j ∈ l.
Proof.
  revert k. induction l as [|x l IH]; intros [|k]; cbn; rewrite ?elem_of_cons; auto. intros [->|Q]; eauto.
Qed.

Lemma worker_step_owed b b' : owed b -> worker_step cfg b b' -> owed b'.
Proof.
  intros [R C N J] St. destruct St as [i c Wk Hi L|i c Wk Hi D|i c Wk Hi Cl|Wk Cl|Wk|k i c Hk Hi]; split; cbn; try done;
    try (intros [|]; done); try (by intros _; apply C; left); rewrite ?length_insert; try exact J;
    try (intros j Q; apply delete_elem_of in Q; by apply J).
  all: try (intros j; rewrite elem_of_app, list_elem_of_singleton; intros [Q| ->]; [by apply J|by eapply lookup_lt_Some]).
  all: intros j d; try (rewrite list_lookup_insert; case_decide as E; [destruct E as [-> _]|]).
  all: try (intros [= <-] Pc; cbn in *; auto; rewrite elem_of_app, list_elem_of_singleton; auto; fail).
  all: intros Hj Pc; destruct (R j d Hj Pc) as [Q|[Q|Q]]; auto; try congruence.
  - assert (j = i) as -> by congruence. by destruct E; split; [|eapply lookup_lt_Some].
  - rewrite elem_of_app. auto.
  - assert (j = i) as -> by congruence. by destruct E; split; [|eapply lookup_lt_Some].
  - assert (j = i) as -> by congruence. by destruct E; split; [|eapply lookup_lt_Some].
  - right. right. eapply elem_of_delete; [exact Hk| |exact Q]. intros ->. by destruct E; split; [|eapply lookup_lt_Some].
Qed.

Lemma owed_step b b' : owed b -> step cfg b b' -> owed b'.
Proof.
  intros O St. destruct St as [b|b i c b' Hi St|b i c b' Hi St|b b' St|b].
  - destruct O as [R C N J]. split; try done.
    + intros i c [Hi|[_ Hi]]%lookup_app_Some; [by apply R|]. by apply list_lookup_singleton_Some in Hi as [_ <-].
    + intros i Q. cbn. rewrite length_app. apply J in Q. lia.
  - by eapply caller_step_owed.
  - by eapply env_step_owed.
  - by eapply worker_step_owed.
  - destruct O as [R C N J]. by split.
Qed.
End Owed.

Lemma reachable_owed c b : reachable (init c) (step (setDefaults c)) b -> owed (setDefaults c) b.
Proof.
  apply invariant_reachable; [|apply owed_step]. intros b0 ->. split; cbn.
  - done.
  - case_match; intros [|]; done.
  - case_match eqn:E; [done|]. intros _. rewrite Z.gtb_ltb in E. by apply Z.ltb_ge in E.
  - intros i Q. by apply not_elem_of_nil in Q.
Qed.

(** ** The code's steps come to an end *)

Definition pc_rank (p : pc) : Z :=
  match p with
  | CheckDone => 10 | TryAcquire => 9 | Enqueue => 8 | Sending => 7 | Direct => 1 | Waiting => 1 | Returned _ => 0
  end.

Definition caller_rank (c : caller) : Z := pc_rank (at_pc c).

Definition worker_rank (w : worker_pc) : Z :=
  match w with Holding _ => 4 | Receiving => 2 | Draining => 1 | NoWorker | Stopped => 0 end.

Definition rank (b : bulkhead) : Z :=
  total caller_rank (callers b) + worker_rank (worker b) + Z.of_nat (length (jobs b)).

Lemma bulkhead_rank_nonneg b : 0 <= rank b.
Proof.
  unfold rank. pose proof (total_nonneg caller_rank (callers b) ltac:(intros c; unfold caller_rank; by destruct (at_pc c))).
  destruct (worker b); cbn; lia.
Qed.

Lemma bulkhead_work_decreases cfg b b' : work cfg b b' -> rank b' < rank b.
Proof.
  unfold rank. intros [i c t Hi St|t St].
  - destruct St; cbn; rewrite (total_insert _ _ _ _ _ Hi); unfold caller_rank; cbn;
      repeat match goal with E : at_pc c = _ |- _ => rewrite E; clear E | E : worker b = _ |- _ => rewrite E; clear E end; cbn;
      try destruct (closed b); cbn; lia.
  - destruct St as [i c Wk Hi L|i c Wk Hi D|i c Wk Hi Cl|Wk Cl|Wk|k i c Hk Hi]; cbn;
      rewrite ?(total_insert _ _ _ _ _ Hi), ?Wk; unfold caller_rank; cbn; rewrite ?length_app; cbn; try lia.
    pose proof (lookup_lt_Some _ _ _ Hk). rewrite length_delete by (by eexists). lia.
Qed.

(** ** When the code can do nothing, everything has returned *)

Section Idle.
Context (cfg : Config) (b : bulkhead) (I : inv cfg b) (O : owed cfg b).
Context (positive : 0 < MaxConcurrent cfg) (idle : forall u, ~ work cfg b u).

Lemma caller_idle i c u : callers b !! i = Some c -> ~ caller_step cfg b i c u.
Proof. intros Hi St. exact (idle u (work_caller _ _ _ _ _ Hi St)). Qed.

Lemma worker_idle u : ~ worker_step cfg b u.
Proof. intros St. exact (idle u (work_worker _ _ _ St)). Qed.

Lemma no_jobs : jobs b = [].
Proof.
  destruct (jobs b) as [|i l] eqn:E; [done|]. exfalso.
  assert (L : (i < length (callers b))%nat) by (apply (ow_jobs _ _ O); rewrite E; left).
  apply lookup_lt_is_Some in L as [c Hi]. eapply worker_idle, (ws_job_done _ _ 0%nat i c); [by rewrite E|done].
Qed.

Lemma none_direct : total running (callers b) = 0.
Proof.
  assert (D : forall i c, callers b !! i = Some c -> running c = 0).
  { intros i c Hi. unfold running. destruct (at_pc c) eqn:Pc; try done. by destruct (caller_idle _ _ _ Hi (cs_direct_done _ _ _ _ Pc)). }
  clear -D. induction (callers b) as [|c l IH]; [done|]. cbn.
  rewrite (D 0%nat c eq_refl), IH; [done|]. intros i d Hd. by apply (D (S i)).
Qed.

Lemma sem_free : sem b = 0.
Proof. rewrite (iv_sem _ _ I), none_direct, no_jobs. done. Qed.

Lemma not_holding i : worker b <> Holding i.
Proof.
  intros Wk. destruct (iv_worker _ _ I _ Wk) as (c & Hi & _).
  eapply worker_idle, ws_run; [exact Wk|exact Hi|]. by rewrite sem_free.
Qed.

(** A caller in the queue finds the worker, or finds the bulkhead closed. *)
Lemma not_sending i c : callers b !! i = Some c -> at_pc c <> Sending.
Proof.
  intros Hi Pc. assert (Cl : closed b <> true) by (intros K; by destruct (caller_idle _ _ _ Hi (cs_send_closed _ _ _ _ Pc K))).
  destruct (worker b) as [| |j| |] eqn:Wk.
  - pose proof (ow_worker _ _ O Wk). pose proof (iv_queue_max _ _ I) as Q. rewrite (iv_queue _ _ I) in Q.
    pose proof (total_lookup queued _ _ _ queued_nonneg Hi) as T. unfold queued at 1 in T. rewrite Pc in T. lia.
  - by destruct (caller_idle _ _ _ Hi (cs_send _ _ _ _ Pc Wk)).
  - by apply not_holding in Wk.
  - apply Cl, (ow_closed _ _ O). by left.
  - apply Cl, (ow_closed _ _ O). by right.
Qed.

Lemma not_waiting i c : callers b !! i = Some c -> at_pc c <> Waiting.
Proof.
  intros Hi Pc. destruct (ow_result _ _ O i c Hi Pc) as [R|[Wk|J]].
  - destruct (resultCh c) as [o|] eqn:E; [|done]. by destruct (caller_idle _ _ _ Hi (cs_receive _ _ _ _ o Pc E)).
  - by apply not_holding in Wk.
  - rewrite no_jobs in J. by apply not_elem_of_nil in J.
Qed.

Lemma all_returned i c : callers b !! i = Some c -> exists o, at_pc c = Returned o.
Proof.
  intros Hi. destruct (at_pc c) as [| | | | | |o] eqn:Pc; [exfalso..|eauto].
  - by destruct (caller_idle _ _ _ Hi (cs_check _ _ _ _ Pc)).
  - assert (L : sem b < MaxConcurrent cfg) by (by rewrite sem_free).
    by destruct (caller_idle _ _ _ Hi (cs_acquire _ _ _ _ Pc L)).
  - by destruct (caller_idle _ _ _ Hi (cs_direct_done _ _ _ _ Pc)).
  - destruct (decide (MaxQueue cfg = 0)) as [Q|Q]; [by destruct (caller_idle _ _ _ Hi (cs_no_queue _ _ _ _ Pc Q))|].
    destruct (decide (queueSem b < MaxQueue cfg)) as [L|L].
    + by destruct (caller_idle _ _ _ Hi (cs_slot _ _ _ _ Pc Q L)).
    + destruct (queue_ctx_done c) eqn:D; [by destruct (caller_idle _ _ _ Hi (cs_slot_ctx _ _ _ _ Pc Q D))|].
      destruct (closed b) eqn:K; [by destruct (caller_idle _ _ _ Hi (cs_slot_closed _ _ _ _ Pc Q K))|].
      apply Z.nlt_ge in L. by destruct (caller_idle _ _ _ Hi (cs_slot_default _ _ _ _ Pc Q L D K)).
  - by destruct (not_sending _ _ Hi).
  - by destruct (not_waiting _ _ Hi).
Qed.

Lemma queue_free : queueSem b = 0.
Proof.
  rewrite (iv_queue _ _ I). pose proof all_returned as A. clear -A. induction (callers b) as [|c l IH]; [done|]. cbn.
  rewrite IH by (intros i d Hd; by apply (A (S i))). destruct (A 0%nat c eq_refl) as [o Pc]. unfold queued. by rewrite Pc.
Qed.

Lemma worker_ends : closed b = true -> worker b = NoWorker \/ worker b = Stopped.
Proof.
  intros K. destruct (worker b) as [| |j| |] eqn:Wk; auto; exfalso.
  - by apply worker_idle with (1 := ws_drain _ _ Wk K).
  - by apply not_holding in Wk.
  - by apply worker_idle with (1 := ws_stop _ _ Wk).
Qed.
End Idle.

(** C8: Every call of a bulkhead returns.  From any state that callers,
    cancellations, timeouts and [Close] can lead to, the code takes at most
    [rank] further steps unless new callers come or contexts end, in whatever
    order its goroutines run and whichever ready case each [select] picks; and
    when it can take none, every call has returned, no goroutine is left
    running a function, both semaphores are empty -- no slot leaks, also not
    those of callers that gave up -- and the worker of a closed bulkhead has
    ended. *)
Theorem bulkhead_returns c b n b' :
  let d := setDefaults c in
  reachable (init c) (step d) b -> nsteps (work d) n b b' ->
  Z.of_nat n <= rank b /\
  ((forall u, ~ work d b' u) ->
   (forall i x, callers b' !! i = Some x -> exists o, at_pc x = Returned o) /\
   jobs b' = [] /\ sem b' = 0 /\ queueSem b' = 0 /\
   (closed b' = true -> worker b' = NoWorker \/ worker b' = Stopped)).
Proof.
  intros d R S.
  assert (X : reachable (init c) (step d) b' /\ rank b' + Z.of_nat n <= rank b).
  { induction S as [b|n b1 b2 b3 W _ IH]; [split; [done|lia]|].
    destruct (IH (reach_step _ _ _ _ R (work_step _ _ _ W))) as [R3 K]. apply bulkhead_work_decreases in W. split; [done|lia]. }
  destruct X as [R' K]. pose proof (bulkhead_rank_nonneg b'). split; [lia|]. intros Idle.
  pose proof (reachable_inv c b' R') as I. pose proof (reachable_owed c b' R') as O. fold d in I, O.
  assert (P : 0 < MaxConcurrent d) by (cbn; zcases; lia).
  split; [by eapply all_returned|]. split_and!; [by eapply no_jobs|by eapply sem_free|by eapply queue_free|by eapply worker_ends].
Qed.

(** A bulkhead of one slot: one caller runs its function, another's request is
    with the worker; the first is about to return. *)
Definition one_waits : bulkhead := {|
  sem := 1; queueSem := 1; closed := false;
  callers := [ {| at_pc := Direct; ctx_done := false; queue_ctx_done := false; resultCh := None; handed := false; runs := 1 |};
               {| at_pc := Waiting; ctx_done := false; queue_ctx_done := false; resultCh := None; handed := true; runs := 0 |} ];
  worker := Holding 1; jobs := []
|}.

Lemma one_waits_reachable : reachable (init one_slot) (step (setDefaults one_slot)) one_waits.
Proof.
  assert (R : reachable (init one_slot) (step (setDefaults one_slot)) (New one_slot)) by (by apply reach_init).
  spawn R. moves R 0%nat cs_check. moves R 0%nat cs_acquire.
  spawn R. moves R 1%nat cs_check. moves R 1%nat cs_acquire_default. moves R 1%nat cs_slot. moves R 1%nat cs_send.
  exact R.
Qed.

Lemma bulkhead_returns_witness :
  exists b', nsteps (work (setDefaults one_slot)) 1 one_waits b' /\ sem b' = 0 /\ rank one_waits = 6 /\ Z.of_nat 1 <= rank one_waits.
Proof.
  assert (W : exists b', nsteps (work (setDefaults one_slot)) 1 one_waits b' /\ sem b' = 0).
  { eexists. split; [|shelve]. eapply nsteps_l; [|constructor]. eapply (work_caller _ _ 0%nat); [reflexivity|]. by eapply cs_direct_done.
    Unshelve. reflexivity. }
  destruct W as (b' & S & Z). exists b'. split; [exact S|]. split; [exact Z|]. split; [reflexivity|].
  apply (bulkhead_returns one_slot one_waits 1 _ one_waits_reachable S).
Defined.
