(* ===== verification/RateStore.v ===== *)
(** The storage of the rate limiter ([ratelimit/store.go], [memory.go]).

    - [Store W] is the interface of the source, [LawfulStore] what the
      limiter relies on: an update that succeeds is applied to the key's
      bucket and to no other, an update that fails changes nothing.
    - [MemoryStore] is the in-memory implementation; [memory_lawful]
      discharges the contract for it.
    - [Module KeyCount] interleaves any number of updates and deletions
      through the atomic operations on the map and the key counter.

    The [sync.Map] is a [gmap]; an entry's mutex is held within one step here,
    and across the steps of its holder in [StoreConc]. *)

From S2P Require Import Prelude Float64 Errors Runtime.

#[local] Open Scope go_scope.

(** ** [store.go] *)

Record BucketState := { Tokens : f64; LastRefill : Z }.

(** The function given to [AtomicUpdate] also sets a captured variable, here
    its first result. *)
Definition UpdateFn (W : Type) : Type := option BucketState -> M W (bool * option BucketState).

(** [AtomicUpdate] yields the captured variable (false when the function was
    not called) and the error.  The optional interfaces [HealthChecker],
    [Resetter] and [BucketCounter] are options. *)
Record Store (W : Type) := {
  AtomicUpdate : ctx -> string -> UpdateFn W -> M W (bool * option error);
  Get : ctx -> string -> M W (option BucketState * option error);
  Delete : ctx -> string -> M W (option error);
  Close : M W (option error);
  HealthCheck : option (ctx -> M W (option error));
  Resetter : option (ctx -> M W (option error));
  BucketCounter : option (M W Z)
}.

Arguments AtomicUpdate {W}.
Arguments Get {W}.
Arguments Delete {W}.
Arguments Close {W}.
Arguments HealthCheck {W}.
Arguments Resetter {W}.
Arguments BucketCounter {W}.

(** The contract: [bucket w key] is the state of a key.  The function given to
    an update must not itself change the store. *)
Class LawfulStore (W : Type) `{World W} (S : Store W) := {
  bucket : W -> string -> option BucketState;
  bucket_tick : forall w k, bucket (tick w) k = bucket w k;
  bucket_await : forall d o w k, bucket (await d o w).2 k = bucket w k;
  get_law : forall c key w,
    let '((st, err), w') := Get S c key w in
    clock w <= clock w' /\ (forall k, bucket w' k = bucket w k) /\ (err = None -> st = bucket w key);
  update_law : forall c key (f : UpdateFn W) w,
    (forall o w k, bucket (f o w).2 k = bucket w k) -> (forall o w, clock w <= clock (f o w).2) ->
    let '((allowed, err), w') := AtomicUpdate S c key f w in
    clock w <= clock w' /\ (forall k, k <> key -> bucket w' k = bucket w k) /\
    ((err <> None /\ allowed = false /\ bucket w' key = bucket w key) \/
     (err = None /\ exists w1, clock w <= clock w1 /\
        let '((a, st), w2) := f (bucket w key) w1 in
        allowed = a /\ clock w2 <= clock w' /\
        bucket w' key = match st with Some _ => st | None => bucket w key end))
}.

(** ** [memory.go] *)

Definition DefaultMaxKeys : Z := 100000.
Definition DefaultCleanupInterval : Z := Minute.
Definition DefaultEntryTTL : Z := Hour.
Definition DefaultMaxKeyLength : Z := 1024.

Record bucketEntry := { state : option BucketState; lastAccess : Z }.

Record MemoryStore := {
  buckets : gmap string bucketEntry;
  keyCount : Z; (* int64 *)
  closed : bool;
  maxKeys : Z;
  maxKeyLength : Z;
  cleanupInterval : Z;
  entryTTL : Z
}.

(** The options of [NewMemoryStoreWithOptions]. *)
Inductive MemoryStoreOption :=
| WithMaxKeys (maxKeys : Z)
| WithCleanupInterval (interval : Z)
| WithEntryTTL (ttl : Z)
| WithMaxKeyLength (maxLen : Z).

Definition apply_option (m : MemoryStore) (o : MemoryStoreOption) : MemoryStore := {|
  buckets := buckets m; keyCount := keyCount m; closed := closed m;
  maxKeys := match o with WithMaxKeys n => if n >? 0 then n else maxKeys m | _ => maxKeys m end;
  maxKeyLength :=
    match o with WithMaxKeyLength n => if n >? 0 then n else maxKeyLength m | _ => maxKeyLength m end;
  cleanupInterval := match o with WithCleanupInterval d => d | _ => cleanupInterval m end;
  entryTTL := match o with WithEntryTTL d => if d >? 0 then d else entryTTL m | _ => entryTTL m end
|}.

Definition NewMemoryStoreWithOptions (opts : list MemoryStoreOption) : MemoryStore :=
  foldl apply_option {|
    buckets := ∅; keyCount := 0; closed := false;
    maxKeys := DefaultMaxKeys; maxKeyLength := DefaultMaxKeyLength;
    cleanupInterval := DefaultCleanupInterval; entryTTL := DefaultEntryTTL
  |} opts.

Definition set_buckets (b : gmap string bucketEntry) (n : Z) (m : MemoryStore) : MemoryStore := {|
  buckets := b; keyCount := n; closed := closed m; maxKeys := maxKeys m;
  maxKeyLength := maxKeyLength m; cleanupInterval := cleanupInterval m; entryTTL := entryTTL m
|}.

Definition set_closed (m : MemoryStore) : MemoryStore := {|
  buckets := buckets m; keyCount := keyCount m; closed := true; maxKeys := maxKeys m;
  maxKeyLength := maxKeyLength m; cleanupInterval := cleanupInterval m; entryTTL := entryTTL m
|}.

(** [len(key)], in bytes. *)
Definition len (key : string) : Z := Z.of_nat (String.length key).

(** [buckets.LoadAndDelete] with its decrement. *)
Definition load_and_delete (key : string) (m : MemoryStore) : MemoryStore :=
  match buckets m !! key with
  | Some _ => set_buckets (delete key (buckets m)) (i64 (keyCount m - 1)) m
  | None => m
  end.

(** [cleanup] at [now]. *)
Definition stale (now ttl : Z) (e : bucketEntry) : bool := UnixNano now - lastAccess e >? ttl.

Definition cleanup (now : Z) (m : MemoryStore) : MemoryStore :=
  foldr (fun (kv : string * bucketEntry) m => if stale now (entryTTL m) kv.2 then load_and_delete kv.1 m else m)
    m (map_to_list (buckets m)).

Section Memory.
Context {W : Type} `{Has W MemoryStore}.

Definition memory : M W MemoryStore := fun w => (get w, w).
Definition modify (f : MemoryStore -> MemoryStore) : M W unit := fun w => (tt, put (f (get w)) w).

(** The checks every operation starts with: the error to return. *)
Definition refuse (c : ctx) (key : string) : M W (option error) :=
  let! m := memory in
  if closed m then ret (Some (ESentinel ErrStoreClosed))
  else
    let! e := err_of c in
    match e with
    | Some err => ret (Some err)
    | None => ret (if len key >? maxKeyLength m then Some (ESentinel ErrKeyTooLong) else None)
    end.

(** The entry of a key, created if need be; [None] when the store is full. *)
Definition load_or_store (key : string) : M W bool :=
  let! m := memory in
  match buckets m !! key with
  | Some _ => ret true
  | None =>
      if i64 (keyCount m + 1) >? maxKeys m then ret false
      else
        let! now := time_Now in
        modify (fun m => set_buckets (<[key := {| state := None; lastAccess := UnixNano now |}]> (buckets m))
                                     (i64 (keyCount m + 1)) m) ;;;
        ret true
  end.

(** The part under the entry's mutex. *)
Definition update_entry (c : ctx) (key : string) (f : UpdateFn W) : M W (bool * option error) :=
  let! e := err_of c in
  match e with
  | Some err => ret (false, Some err)
  | None =>
      let! now := time_Now in
      let! m := memory in
      let old := match buckets m !! key with Some e => state e | None => None end in
      let! r := f old in
      let st := match r.2 with Some _ => r.2 | None => old end in
      modify (fun m => set_buckets (<[key := {| state := st; lastAccess := UnixNano now |}]> (buckets m))
                                   (keyCount m) m) ;;;
      ret (r.1, None)
  end.

Definition memory_AtomicUpdate (c : ctx) (key : string) (f : UpdateFn W) : M W (bool * option error) :=
  let! e := refuse c key in
  match e with
  | Some err => ret (false, Some err)
  | None =>
      let! ok := load_or_store key in
      if negb ok then ret (false, Some (ESentinel ErrKeyLimitExceeded))
      else update_entry c key f
  end.

Definition memory_Get (c : ctx) (key : string) : M W (option BucketState * option error) :=
  let! e := refuse c key in
  match e with
  | Some err => ret (None, Some err)
  | None =>
      let! m := memory in
      ret (match buckets m !! key with Some e => state e | None => None end, None)
  end.

Definition memory_Delete (c : ctx) (key : string) : M W (option error) :=
  let! e := refuse c key in
  match e with
  | Some err => ret (Some err)
  | None => modify (load_and_delete key) ;;; ret None
  end.

(** The swap that closes the store; [StoreLife] has the goroutine it ends. *)
Definition memory_Close : M W (option error) := modify set_closed ;;; ret None.

Fixpoint reset_keys (c : ctx) (keys : list string) : M W (option error) :=
  match keys with
  | [] => ret None
  | key :: keys =>
      let! e := err_of c in
      match e with
      | Some err => ret (Some err)
      | None => modify (load_and_delete key) ;;; reset_keys c keys
      end
  end.

Definition memory_Reset (c : ctx) : M W (option error) :=
  let! m := memory in
  if closed m then ret (Some (ESentinel ErrStoreClosed))
  else
    let! e := err_of c in
    match e with
    | Some err => ret (Some err)
    | None => reset_keys c (map_to_list (buckets m)).*1
    end.

Definition memory_BucketCount : M W Z := fun w => (keyCount (get w), w).

Definition memory_HealthCheck (c : ctx) : M W (option error) :=
  let! m := memory in
  if closed m then ret (Some (ESentinel ErrStoreClosed)) else err_of c.

Definition memory_store : Store W := {|
  AtomicUpdate := memory_AtomicUpdate;
  Get := memory_Get;
  Delete := memory_Delete;
  Close := memory_Close;
  HealthCheck := Some memory_HealthCheck;
  Resetter := Some memory_Reset;
  BucketCounter := Some memory_BucketCount
|}.

(** ** The memory store keeps the contract *)

Definition memory_bucket (w : W) (key : string) : option BucketState :=
  match buckets (get w) !! key with Some e => state e | None => None end.

Lemma refuse_frame c key w : get (refuse c key w).2 = get w /\ clock w <= clock (refuse c key w).2.
Proof.
  unfold refuse, bind, memory, ret, err_of. cbn. destruct (closed (get w)); cbn; [done|].
  case_match; cbn; rewrite get_tick; (split; [done|apply clock_tick]).
Qed.

Lemma load_or_store_frame key w :
  let '(ok, w') := load_or_store key w in
  (forall k, memory_bucket w' k = memory_bucket w k) /\ clock w <= clock w'.
Proof.
  unfold load_or_store, bind, memory, ret, time_Now, modify, memory_bucket. cbn.
  destruct (buckets (get w) !! key) eqn:E; cbn; [done|].
  destruct (i64 (keyCount (get w) + 1) >? maxKeys (get w)); cbn; [done|].
  rewrite get_put, clock_put, get_tick. cbn. split; [|apply clock_tick].
  intros k. rewrite lookup_insert. case_decide; [subst; by rewrite E|done].
Qed.

#[export, refine] Instance memory_lawful : LawfulStore W memory_store := {| bucket := memory_bucket |}.
Proof.
  - intros w k. unfold memory_bucket. by rewrite get_tick.
  - intros d o w k. unfold memory_bucket. by rewrite get_await.
  - intros c key w. cbn [Get memory_store]. unfold memory_Get, bind. destruct (refuse_frame c key w) as [G C].
    destruct (refuse c key w) as [e w1]. cbn [fst snd] in *.
    assert (B : forall k, memory_bucket w1 k = memory_bucket w k) by (intros; unfold memory_bucket; by rewrite G).
    destruct e; cbn; [done|]. split; [done|]. split; [done|]. intros _. apply B.
  - intros c key f w Ff Fc. cbn [AtomicUpdate memory_store]. unfold memory_AtomicUpdate.
    unfold bind at 1. destruct (refuse_frame c key w) as [G1 C1].
    destruct (refuse c key w) as [e w1]. cbn [fst snd] in *.
    assert (B1 : forall k, memory_bucket w1 k = memory_bucket w k) by (intros; unfold memory_bucket; by rewrite G1).
    destruct e as [err|].
    { cbn. split; [done|]. split; [auto|]. left. auto. }
    unfold bind at 1. pose proof (load_or_store_frame key w1) as L.
    destruct (load_or_store key w1) as [ok w2]. destruct L as [B2 C2]. cbn [fst snd].
    destruct ok; cbn [negb].
    2:{ cbn. split; [lia|]. split; [intros; by rewrite B2, B1|]. left. split; [done|]. by rewrite B2, B1. }
    unfold update_entry. unfold bind at 1, err_of. cbn [fst snd].
    pose proof (clock_tick w2) as C3. destruct (ctx_Err c (clock (tick w2))) as [err|].
    { cbn. unfold memory_bucket at 1 3. rewrite get_tick. fold (memory_bucket w2).
      split; [lia|]. split; [intros; by rewrite <- B1, <- B2|]. left. split; [done|]. by rewrite <- B1, <- B2. }
    unfold bind, time_Now, memory, modify, ret. cbn [fst snd].
    set (w4 := tick (tick w2)). pose proof (clock_tick (tick w2)) as C4. fold w4 in C4.
    change (match buckets (get w4) !! key with Some e => state e | None => None end) with (memory_bucket w4 key).
    assert (B4 : forall k, memory_bucket w4 k = memory_bucket w k).
    { intros k. unfold w4, memory_bucket at 1. rewrite 2 get_tick. fold (memory_bucket w2 k). by rewrite B2, B1. }
    rewrite B4. pose proof (Ff (memory_bucket w key) w4) as F1. pose proof (Fc (memory_bucket w key) w4) as F2.
    destruct (f (memory_bucket w key) w4) as [[a st] w5] eqn:Ef. cbn [fst snd] in *.
    rewrite clock_put. split; [lia|]. split.
    + intros k Hk. unfold memory_bucket at 1. rewrite get_put. cbn. rewrite lookup_insert_ne by done.
      fold (memory_bucket w5 k). by rewrite F1, B4.
    + right. split; [done|]. exists w4. split; [lia|]. rewrite Ef. split; [done|]. split; [done|].
      unfold memory_bucket at 1. rewrite get_put. cbn. rewrite lookup_insert_eq. by destruct st.
Defined.
End Memory.

(** ** Cleaning up *)

(** The counter is the number of keys. *)
Definition counted (m : MemoryStore) : Prop := keyCount m = Z.of_nat (size (buckets m)) /\ keyCount m < 2 ^ 63.

Lemma load_and_delete_counted key m : counted m -> counted (load_and_delete key m).
Proof.
  intros [E L]. unfold load_and_delete, counted. destruct (buckets m !! key) eqn:K; [|done]. cbn.
  rewrite map_size_delete_Some by eauto.
  assert (size (buckets m) <> 0)%nat by (intros Z; apply map_size_empty_inv in Z; by rewrite Z, lookup_empty in K).
  rewrite i64_small; lia.
Qed.

Lemma load_and_delete_lookup key m k :
  buckets (load_and_delete key m) !! k = if decide (k = key) then None else buckets m !! k.
Proof.
  unfold load_and_delete. destruct (buckets m !! key) eqn:K; cbn.
  - rewrite lookup_delete. case_decide; subst; by simplify_option_eq.
  - case_decide; by subst.
Qed.

Lemma load_and_delete_ttl key m : entryTTL (load_and_delete key m) = entryTTL m.
Proof. unfold load_and_delete. by destruct (buckets m !! key). Qed.

(** The loop of [cleanup], over any list of entries. *)
Lemma sweep_spec now m l :
  let m' := foldr (fun (kv : string * bucketEntry) m =>
                     if stale now (entryTTL m) kv.2 then load_and_delete kv.1 m else m) m l in
  entryTTL m' = entryTTL m /\ (counted m -> counted m') /\
  forall k, (buckets m' !! k = None /\ exists e, (k, e) ∈ l /\ stale now (entryTTL m) e = true) \/
            (buckets m' !! k = buckets m !! k /\ forall e, (k, e) ∈ l -> stale now (entryTTL m) e = false).
Proof.
  induction l as [|[key e] l (T & C & IH)]; cbn in *.
  { split; [done|]. split; [done|]. intros k. right. split; [done|]. intros e H. by apply elem_of_nil in H. }
  rewrite T. destruct (stale now (entryTTL m) e) eqn:S.
  - rewrite load_and_delete_ttl. split; [done|]. split; [eauto using load_and_delete_counted|]. intros k.
    rewrite load_and_delete_lookup. case_decide as D.
    + subst. left. split; [done|]. exists e. split; [left|done].
    + destruct (IH k) as [[N (e' & I & S')]|[K F]].
      * left. split; [done|]. exists e'. split; [by right|done].
      * right. split; [done|]. intros e' I. apply elem_of_cons in I as [I|I]; [congruence|eauto].
  - split; [done|]. split; [done|]. intros k. destruct (IH k) as [[N (e' & I & S')]|[K F]].
    + left. split; [done|]. exists e'. split; [by right|done].
    + right. split; [done|]. intros e' I. apply elem_of_cons in I as [I|I]; [congruence|eauto].
Qed.

(** A pass of the cleanup loop removes exactly the entries that have not
    been used for longer than the TTL, and the counter follows. *)
Theorem cleanup_exact now m :
  counted m ->
  (forall k e, buckets (cleanup now m) !! k = Some e <->
               buckets m !! k = Some e /\ UnixNano now - lastAccess e <= entryTTL m) /\
  counted (cleanup now m).
Proof.
  intros C. destruct (sweep_spec now m (map_to_list (buckets m))) as (_ & C' & L).
  split; [|by apply C']. intros k e. fold (cleanup now m) in L.
  specialize (L k) as [[N (e' & I & S)]|[K F]].
  - apply elem_of_map_to_list in I. unfold stale in S. zcases_in S; [|done].
    rewrite N, I. split; [done|]. intros [[= ->] ?]. lia.
  - rewrite K. split; [|by intros [? _]]. intros E. split; [done|].
    specialize (F e). rewrite elem_of_map_to_list in F. specialize (F E). unfold stale in F.
    zcases_in F; done || lia.
Qed.

Lemma cleanup_exact_witness :
  let m := {| buckets := <["new" := {| state := None; lastAccess := 90 |}]>
                         {["old" := {| state := None; lastAccess := 10 |}]};
              keyCount := 2; closed := false; maxKeys := 5; maxKeyLength := 9; cleanupInterval := 1;
              entryTTL := 50 |} in
  buckets (cleanup 100 m) !! "old" = None /\ counted (cleanup 100 m).
Proof.
  intros m. split; [vm_compute; reflexivity|]. apply (cleanup_exact 100 m). split; vm_compute; reflexivity.
Defined.

(** ** The key limit under concurrency

    A goroutine in [AtomicUpdate] has found its key missing, has counted it
    in, or has an increment to undo; one that deletes has removed the entry
    and still has to decrement.  Every other part of the operations leaves the
    map's domain and the counter alone ([Write]). *)
Module KeyCount.
Inductive pc := Idle | Missing (key : string) | Counted (key : string) | Surplus.

Inductive op :=
| Update (key : string)          (* AtomicUpdate's Load *)
| Write (key : string) (e : bucketEntry) (* its part under the lock *)
| Remove (key : string)          (* Delete, cleanup, Reset: LoadAndDelete *)
| Continue (now : Z).            (* the next atomic operation of the call *)

Definition act (o : op) (m : MemoryStore) (p : pc) : option (MemoryStore * pc) :=
  match p, o with
  | Idle, Update key =>
      Some (m, match buckets m !! key with Some _ => Idle | None => Missing key end)
  | Idle, Write key e => Some (set_buckets (alter (fun _ => e) key (buckets m)) (keyCount m) m, Idle)
  | Idle, Remove key =>
      match buckets m !! key with
      | Some _ => Some (set_buckets (delete key (buckets m)) (keyCount m) m, Surplus)
      | None => Some (m, Idle)
      end
  | Missing key, Continue _ =>
      let newCount := i64 (keyCount m + 1) in
      Some (set_buckets (buckets m) newCount m, if newCount >? maxKeys m then Surplus else Counted key)
  | Counted key, Continue now =>
      match buckets m !! key with
      | Some _ => Some (m, Surplus)
      | None =>
          Some (set_buckets (<[key := {| state := None; lastAccess := UnixNano now |}]> (buckets m)) (keyCount m) m,
                Idle)
      end
  | Surplus, Continue _ => Some (set_buckets (buckets m) (i64 (keyCount m - 1)) m, Idle)
  | _, _ => None
  end.

Record sys := { shared : MemoryStore; threads : list pc }.

Inductive step : sys -> sys -> Prop :=
| step_thread o i p m ps m' p' :
    ps !! i = Some p -> act o m p = Some (m', p') ->
    step {| shared := m; threads := ps |} {| shared := m'; threads := <[i := p']> ps |}.

(** A store built by [NewMemoryStoreWithOptions], and [n] goroutines. *)
Definition init (opts : list MemoryStoreOption) (n : nat) (s : sys) : Prop :=
  s = {| shared := NewMemoryStoreWithOptions opts; threads := replicate n Idle |}.

(** An increment that no entry backs yet, or no longer. *)
Definition pending (p : pc) : Z := match p with Counted _ | Surplus => 1 | _ => 0 end.
Definition storing (p : pc) : Z := match p with Counted _ => 1 | _ => 0 end.

Record inv (max : Z) (n : nat) (s : sys) : Prop := {
  inv_max : maxKeys (shared s) = max;
  inv_len : length (threads s) = n;
  inv_count : keyCount (shared s) = Z.of_nat (size (buckets (shared s))) + total pending (threads s);
  inv_limit : Z.of_nat (size (buckets (shared s))) + total storing (threads s) <= max
}.

Lemma pending_nonneg p : 0 <= pending p.
Proof. destruct p; cbn; lia. Qed.
Lemma storing_nonneg p : 0 <= storing p.
Proof. destruct p; cbn; lia. Qed.

Lemma total_pending ps : total pending ps <= Z.of_nat (length ps) /\ total storing ps <= total pending ps.
Proof. induction ps as [|[] ps [IH1 IH2]]; cbn; lia. Qed.

Lemma size_alter (b : gmap string bucketEntry) f k : size (alter f k b) = size b.
Proof. by rewrite <- !size_dom, dom_alter_L. Qed.

Lemma options_empty opts :
  let m := NewMemoryStoreWithOptions opts in buckets m = ∅ /\ keyCount m = 0 /\ 0 < maxKeys m.
Proof.
  unfold NewMemoryStoreWithOptions. set (m := Build_MemoryStore _ _ _ _ _ _ _).
  assert (P : buckets m = ∅ /\ keyCount m = 0 /\ 0 < maxKeys m) by done.
  revert P. generalize m as m'. clear m. induction opts as [|o opts IH]; cbn; [done|].
  intros m (E & C & P). apply IH. cbn. split; [done|]. split; [done|]. destruct o; zcases; done.
Qed.

Lemma inv_step max n s t : max + Z.of_nat n < MaxInt64 -> inv max n s -> step s t -> inv max n t.
Proof.
  unfold MaxInt64. intros B I St. destruct St. destruct I as [M N C L]. cbn [shared threads] in *.
  pose proof (total_pending ps). pose proof (total_nonneg _ ps storing_nonneg).
  pose proof (total_insert pending ps i p p' H) as TP. pose proof (total_insert storing ps i p p' H) as TS.
  pose proof (total_lookup _ ps i p pending_nonneg H) as LP.
  destruct p, o; cbn in H0; try done; repeat case_match; simplify_eq; split; cbn in *;
    rewrite ?length_insert, ?TP, ?TS; cbn [pending storing] in *;
    rewrite ?size_alter; try done; try lia.
  - rewrite map_size_delete_Some by eauto.
    assert (size (buckets m) <> 0)%nat by (intros Z; apply map_size_empty_inv in Z; by rewrite Z, lookup_empty in *). lia.
  - rewrite map_size_delete_Some by eauto. lia.
  - rewrite i64_small; lia.
  - rewrite i64_small; lia.
  - match goal with E : (_ >? _) = _ |- _ => rewrite i64_small in E by lia; zcases_in E; done || lia end.
  - rewrite map_size_insert_None by done. lia.
  - rewrite map_size_insert_None by done. lia.
  - rewrite i64_small; lia.
Qed.

(** C11: However many goroutines update, delete, clean up and reset at once,
    the store never holds more than its maximum number of keys; its counter is
    the number of keys plus the calls that are still between their two atomic
    operations, hence exact whenever none is. *)
Theorem key_limit_concurrent opts n s :
  maxKeys (NewMemoryStoreWithOptions opts) + Z.of_nat n < MaxInt64 ->
  reachable (init opts n) step s ->
  Z.of_nat (size (buckets (shared s))) <= maxKeys (NewMemoryStoreWithOptions opts) /\
  0 <= keyCount (shared s) - Z.of_nat (size (buckets (shared s))) <= Z.of_nat n /\
  ((forall p, p ∈ threads s -> p = Idle \/ exists k, p = Missing k) ->
   keyCount (shared s) = Z.of_nat (size (buckets (shared s)))).
Proof.
  intros B R. set (max := maxKeys _) in *.
  assert (I : inv max n s).
  { revert s R. apply invariant_reachable; [|eauto using inv_step]. intros s ->.
    destruct (options_empty opts) as (E & C & P).
    assert (T : forall f, f Idle = 0 -> total f (replicate n Idle) = 0)
      by (intros f F; induction n; cbn; [done|rewrite F; eauto with lia]).
    split; cbn; rewrite ?length_replicate, ?E, ?C, ?T by done; rewrite ?map_size_empty; done || lia. }
  destruct I as [M N C L]. pose proof (total_pending (threads s)) as [T1 T2].
  pose proof (total_nonneg _ (threads s) storing_nonneg). split; [lia|]. split; [lia|].
  intros Q. assert (total pending (threads s) = 0); [|lia]. clear -Q.
  induction (threads s) as [|p ps IH]; [done|]. cbn. rewrite IH by (intros; apply Q; by right).
  destruct (Q p) as [->|[k ->]]; [left|done|done].
Qed.

(** A schedule, executed. *)
Fixpoint run (s : sys) (sched : list (nat * op)) : option sys :=
  match sched with
  | [] => Some s
  | (i, o) :: sched =>
      match threads s !! i with
      | None => None
      | Some p =>
          match act o (shared s) p with
          | None => None
          | Some (m, p') => run {| shared := m; threads := <[i := p']> (threads s) |} sched
          end
      end
  end.

Lemma run_reachable I s sched t : reachable I step s -> run s sched = Some t -> reachable I step t.
Proof.
  revert s. induction sched as [|[i o] sched IH]; cbn; intros s R E; [by injection E as <-|].
  destruct (threads s !! i) as [p|] eqn:L; [|done]. destruct (act o (shared s) p) as [[m p']|] eqn:A; [|done].
  refine (IH _ _ E). apply (reach_step _ _ _ _ R). destruct s as [m0 ps]. eapply step_thread; eauto.
Qed.

(** Two goroutines race for the last key: one is refused. *)
Definition race : list (nat * op) :=
  [(0%nat, Update "a"); (1%nat, Update "b"); (0%nat, Continue 0); (1%nat, Continue 0); (0%nat, Continue 0)].

Lemma key_limit_concurrent_witness :
  exists s, run {| shared := NewMemoryStoreWithOptions [WithMaxKeys 1]; threads := [Idle; Idle] |} race = Some s /\
    threads s = [Idle; Surplus] /\
    Z.of_nat (size (buckets (shared s))) <= 1 /\ keyCount (shared s) = 2.
Proof.
  eexists. split; [reflexivity|]. split; [reflexivity|]. split; [|reflexivity].
  apply (key_limit_concurrent [WithMaxKeys 1] 2); [vm_compute; reflexivity|].
  apply (run_reachable _ {| shared := NewMemoryStoreWithOptions [WithMaxKeys 1]; threads := [Idle; Idle] |} race);
    [by apply reach_init|reflexivity].
Defined.
End KeyCount.
