(* ===== verification/StoreLife.v ===== *)
(** The life of a [MemoryStore] ([ratelimit/memory.go]): the goroutine that
    cleans up, its ticker, and the callers of [Close].

    One step per channel operation, atomic operation or run of [cleanup], in
    any interleaving.  The ticker's channel holds at most one tick.  The calls
    of the store's other methods are in [RateStore]. *)

From S2P Require Import Prelude Errors Runtime RateStore.

#[local] Open Scope go_scope.

(** ** The transition system *)

(** [cleanupLoop]: never started, at its [select], inside [cleanup], returned. *)
Inductive loop_pc := NoLoop | Selecting | Cleaning | Exited.

(** A caller of [Close]: before the swap, before [close(m.done)], in
    [m.wg.Wait()], returned (after waiting or not). *)
Inductive closer_pc := Swapping | Closing | Waiting | Returned (waited : bool).

Record system := {
  store_of : MemoryStore;
  ticked : bool;       (* a tick is in [ticker.C] *)
  done_closed : bool;  (* [m.done] is closed *)
  wg : Z;
  loop : loop_pc;
  closers : list closer_pc;
  crashed : bool       (* a second [close(m.done)] would panic *)
}.

(** The end of [NewMemoryStoreWithOptions]. *)
Definition start (m : MemoryStore) : system := {|
  store_of := m; ticked := false; done_closed := false;
  wg := if cleanupInterval m >? 0 then 1 else 0;
  loop := if cleanupInterval m >? 0 then Selecting else NoLoop;
  closers := []; crashed := false
|}.

Definition with_loop (l : loop_pc) (tick : bool) (n : Z) (m : MemoryStore) (s : system) : system := {|
  store_of := m; ticked := tick; done_closed := done_closed s; wg := n; loop := l;
  closers := closers s; crashed := crashed s
|}.

Definition with_closer (i : nat) (p : closer_pc) (m : MemoryStore) (d x : bool) (s : system) : system := {|
  store_of := m; ticked := ticked s; done_closed := d; wg := wg s; loop := loop s;
  closers := <[i := p]> (closers s); crashed := x
|}.

(** [cleanupLoop]. *)
Inductive loop_step (s : system) : system -> Prop :=
| loop_tick : loop s = Selecting -> ticked s = true ->
    loop_step s (with_loop Cleaning false (wg s) (store_of s) s)
| loop_cleaned now : loop s = Cleaning ->
    loop_step s (with_loop Selecting (ticked s) (wg s) (cleanup now (store_of s)) s)
| loop_done : loop s = Selecting -> done_closed s = true ->
    loop_step s (with_loop Exited (ticked s) (wg s - 1) (store_of s) s).

(** [Close]. *)
Inductive closer_step (s : system) (i : nat) : closer_pc -> system -> Prop :=
| closer_swap : closer_step s i Swapping
    (with_closer i (if closed (store_of s) then Returned false else Closing) (set_closed (store_of s))
       (done_closed s) (crashed s) s)
| closer_close : closer_step s i Closing
    (with_closer i Waiting (store_of s) true (crashed s || done_closed s) s)
| closer_wait : wg s = 0 -> closer_step s i Waiting
    (with_closer i (Returned true) (store_of s) (done_closed s) (crashed s) s).

(** What the store's own code does next. *)
Inductive work (s : system) : system -> Prop :=
| work_loop t : loop_step s t -> work s t
| work_closer i p t : closers s !! i = Some p -> closer_step s i p t -> work s t.

Inductive step (s : system) : system -> Prop :=
| step_work t : work s t -> step s t
| step_tick : loop s = Selecting \/ loop s = Cleaning -> step s (with_loop (loop s) true (wg s) (store_of s) s)
| step_call : step s {| store_of := store_of s; ticked := ticked s; done_closed := done_closed s; wg := wg s;
    loop := loop s; closers := closers s ++ [Swapping]; crashed := crashed s |}.

Definition init (opts : list MemoryStoreOption) (s : system) : Prop := s = start (NewMemoryStoreWithOptions opts).

(** ** The invariant *)

Definition alive (l : loop_pc) : Z := match l with Selecting | Cleaning => 1 | _ => 0 end.
Definition won (p : closer_pc) : Z := match p with Closing | Waiting | Returned true => 1 | _ => 0 end.
Definition closing (p : closer_pc) : Z := match p with Closing => 1 | _ => 0 end.
Definition waiting (p : closer_pc) : Z := match p with Waiting => 1 | _ => 0 end.
Definition waited (p : closer_pc) : Z := match p with Returned true => 1 | _ => 0 end.

Definition moved (p : closer_pc) : Z := match p with Swapping => 0 | _ => 1 end.

Definition bit (b : bool) : Z := if b then 1 else 0.

Record inv (s : system) : Prop := {
  inv_won : total won (closers s) = bit (closed (store_of s));
  inv_closing : total closing (closers s) = bit (closed (store_of s)) - bit (done_closed s);
  inv_wg : wg s = alive (loop s);
  inv_crash : crashed s = false;
  inv_waited : 0 < total waited (closers s) -> alive (loop s) = 0 /\ done_closed s = true;
  inv_exited : loop s = Exited -> done_closed s = true;
  inv_moved : 0 < total moved (closers s) -> closed (store_of s) = true
}.

Lemma cleanup_closed now m : closed (cleanup now m) = closed m.
Proof.
  unfold cleanup. generalize (map_to_list (buckets m)) as l. intros l. induction l as [|[k e] l IH]; [done|].
  cbn. destruct (stale _ _ _); [|done]. unfold load_and_delete. case_match; [|done]. exact IH.
Qed.

Lemma options_closed opts : closed (NewMemoryStoreWithOptions opts) = false.
Proof.
  unfold NewMemoryStoreWithOptions. set (m := Build_MemoryStore _ _ _ _ _ _ _). assert (E : closed m = false) by done.
  revert E. generalize m as m'. clear m. induction opts as [|o opts IH]; intros m E; [done|]. by apply IH.
Qed.

Lemma parts_nonneg p : 0 <= closing p /\ 0 <= waiting p /\ 0 <= waited p.
Proof. by destruct p as [| | |[]]. Qed.

Lemma won_parts l : total won l = total closing l + total waiting l + total waited l.
Proof. induction l as [|[| | |[]] l IH]; cbn; lia. Qed.

Lemma life_inv_step s t : inv s -> step s t -> inv t.
Proof.
  intros [Iw Ic Ig Ix Id Ie Im] St. pose proof (won_parts (closers s)) as N.
  pose proof (total_nonneg waiting (closers s) (fun p => proj1 (proj2 (parts_nonneg p)))) as N1.
  pose proof (total_nonneg waited (closers s) (fun p => proj2 (proj2 (parts_nonneg p)))) as N2.
  destruct St as [t Wk|L|].
  - destruct Wk as [t Lp|i p t P Cl].
    + destruct Lp as [L T|now L|L D]; split; cbn; rewrite ?cleanup_closed, ?Ig, ?L in *; try done; try (by auto with lia).
    + pose proof (total_lookup closing _ _ _ (fun p => proj1 (parts_nonneg p)) P) as Pc.
      pose proof (total_lookup waiting _ _ _ (fun p => proj1 (proj2 (parts_nonneg p))) P) as Pw.
      destruct Cl as [| |G]; split; cbn; rewrite ?(total_insert _ _ _ _ _ P); cbn [won closing waited moved];
        destruct (closed (store_of s)) eqn:C, (done_closed s) eqn:D; cbn [bit won closing waiting waited moved orb] in *;
        try done; try lia; rewrite ?Ig, ?Ix in *; auto with lia.
  - destruct L as [L|L]; split; cbn; rewrite ?L in *; auto.
  - split; cbn; rewrite ?total_app; cbn; rewrite ?Z.add_0_r; auto.
Qed.

Lemma life_inv_reachable opts s : reachable (init opts) step s -> inv s.
Proof.
  revert s. apply invariant_reachable; [|eauto using life_inv_step]. intros s ->. unfold start.
  pose proof (options_closed opts) as O. destruct (cleanupInterval _ >? 0); split; cbn; rewrite ?O; done || lia.
Qed.

Lemma waited_in l : Returned true ∈ l -> 0 < total waited l.
Proof.
  intros I. apply list_elem_of_lookup in I as [i I].
  pose proof (total_lookup waited l i _ (fun p => proj2 (proj2 (parts_nonneg p))) I). cbn in *. lia.
Qed.

(** A loop that is over stays over, and the store is as it left it. *)
Lemma dead_step s t : alive (loop s) = 0 -> step s t -> alive (loop t) = 0 /\ buckets (store_of t) = buckets (store_of s).
Proof.
  intros A [? [? [L T|now L|L D]|i p ? P [| |G]]|[L|L]|]; cbn; try done; by rewrite L in A.
Qed.

(** C13: [Close] is safe however many goroutines call it, and wherever the
    clean-up is.  The channel is closed at most once, by the one caller that won
    the swap; the goroutine returns only after it was closed; and once the
    winner's [Close] has returned the goroutine has ended and never touches the
    store again. *)
Theorem store_close_safe opts s :
  reachable (init opts) step s ->
  crashed s = false /\ total won (closers s) <= 1 /\ (done_closed s = true -> closed (store_of s) = true) /\
  (loop s = Exited -> done_closed s = true) /\
  (Returned true ∈ closers s -> (loop s = NoLoop \/ loop s = Exited) /\
     forall t, rtc step s t -> buckets (store_of t) = buckets (store_of s)).
Proof.
  intros R. apply life_inv_reachable in R as [Iw Ic Ig Ix Id Ie Im]. split_and!; try done.
  - destruct (closed _); cbn in Iw; lia.
  - intros D. rewrite D in Ic. pose proof (total_nonneg closing (closers s) (fun p => proj1 (parts_nonneg p))).
    destruct (closed _); cbn in *; [done|lia].
  - intros I. apply waited_in, Id in I as [A _]. split; [destruct (loop s); cbn in A; auto; lia|].
    intros t S. revert A. clear -S. induction S as [|s1 s2 s3 S1 _ IH]; [done|]. intros A.
    destruct (dead_step _ _ A S1) as [A2 E]. by rewrite <- E, IH.
Qed.

(** ** [Close] returns *)

Definition loop_rank (l : loop_pc) (tick : bool) : Z :=
  match l with Selecting => if tick then 3 else 1 | Cleaning => if tick then 4 else 2 | _ => 0 end.

Definition closer_rank (p : closer_pc) : Z := match p with Swapping => 3 | Closing => 2 | Waiting => 1 | Returned _ => 0 end.

Definition rank (s : system) : Z := loop_rank (loop s) (ticked s) + total closer_rank (closers s).

Lemma rank_nonneg s : 0 <= rank s.
Proof.
  unfold rank. pose proof (total_nonneg closer_rank (closers s) ltac:(by intros [])).
  destruct (loop s), (ticked s); cbn; lia.
Qed.

Lemma work_decreases s t : work s t -> rank t < rank s.
Proof.
  unfold rank. intros [t' [L T|now L|L D]|i p t' P Cl]; cbn.
  - rewrite L, T. cbn. lia.
  - rewrite L. destruct (ticked s); cbn; lia.
  - rewrite L. destruct (ticked s); cbn; lia.
  - destruct Cl as [| |G]; cbn; rewrite (total_insert _ _ _ _ _ P); destruct (closed (store_of s)); cbn; lia.
Qed.

(** Nothing left to do: everything is over. *)
Lemma idle_over s : inv s -> closers s <> [] -> (forall u, ~ work s u) ->
  (forall p, p ∈ closers s -> exists b, p = Returned b) /\ (loop s = NoLoop \/ loop s = Exited).
Proof.
  intros [Iw Ic Ig Ix Id Ie Im] N St.
  assert (Q : forall i p, closers s !! i = Some p -> p = Waiting \/ exists b, p = Returned b).
  { intros i [| | |b] P; eauto.
    - by destruct (St _ (work_closer s i _ _ P (closer_swap s i))).
    - by destruct (St _ (work_closer s i _ _ P (closer_close s i))). }
  destruct (closers s) as [|p0 ps] eqn:E; [done|]. rewrite <- E in *.
  assert (C : closed (store_of s) = true).
  { apply Im. pose proof (total_lookup moved (closers s) 0 p0 ltac:(by intros []) ltac:(by rewrite E)) as T.
    destruct (Q 0%nat p0 ltac:(by rewrite E)) as [->|[b ->]]; cbn in T; lia. }
  assert (Z0 : total closing (closers s) = 0).
  { clear -Q. induction (closers s) as [|p l IH]; [done|]. cbn. rewrite IH by (intros i q Hq; by apply (Q (S i) q)).
    by destruct (Q 0%nat p eq_refl) as [->|[b ->]]. }
  assert (D : done_closed s = true) by (rewrite C in Ic; destruct (done_closed s); cbn in Ic; [done|lia]).
  assert (L : loop s = NoLoop \/ loop s = Exited).
  { destruct (loop s) eqn:Lp; auto.
    - by destruct (St _ (work_loop s _ (loop_done s Lp D))).
    - by destruct (St _ (work_loop s _ (loop_cleaned s 0 Lp))). }
  split; [|done]. intros p I. apply list_elem_of_lookup in I as [i P]. destruct (Q i p P) as [->|]; [|done].
  assert (G : wg s = 0) by (rewrite Ig; by destruct L as [-> | ->]).
  by destruct (St _ (work_closer s i _ _ P (closer_wait s i G))).
Qed.

(** C14: [Close] returns.  From any state that calls of [Close], ticks and
    clean-ups can lead to, the store's own code runs for at most [rank] more
    steps when no further tick or call comes, in whatever order its goroutines
    run and whichever ready case [select] picks; and when it has nothing left
    to do, and there was a call of [Close], every such call has returned and
    the clean-up goroutine, if there was one, has ended. *)
Theorem store_close_terminates opts s n t :
  reachable (init opts) step s -> nsteps work n s t ->
  Z.of_nat n <= rank s /\
  (closers s <> [] -> (forall u, ~ work t u) ->
   (forall p, p ∈ closers t -> exists b, p = Returned b) /\ (loop t = NoLoop \/ loop t = Exited)).
Proof.
  intros R S. apply life_inv_reachable in R.
  assert (X : rank t + Z.of_nat n <= rank s /\ inv t /\ (closers s <> [] -> closers t <> [])).
  { revert R. induction S as [|n s1 s2 s3 S1 _ IH]; intros I; [split_and!; [lia|done|done]|].
    destruct (IH (life_inv_step _ _ I (step_work _ _ S1))) as (B & I3 & N3). pose proof (work_decreases _ _ S1).
    split_and!; [lia|done|]. intros N. apply N3. destruct S1 as [? []|i p ? P []]; cbn; try done;
      intros E; apply N; apply (f_equal length) in E; rewrite length_insert in E; by apply nil_length_inv. }
  destruct X as (B & I & N). pose proof (rank_nonneg t). split; [lia|]. intros Ns. by apply idle_over, N.
Qed.

(** ** Two callers *)

(** A store whose ticker has fired, with two callers of [Close]. *)
Definition busy (cs : list closer_pc) (isClosed isDone : bool) : system := {|
  store_of := (if isClosed then set_closed (NewMemoryStoreWithOptions []) else NewMemoryStoreWithOptions []);
  ticked := false; done_closed := isDone; wg := 1; loop := Cleaning; closers := cs; crashed := false
|}.

(** One step of a run under construction. *)
Ltac go R tac :=
  match type of R with
  | reachable _ _ ?s =>
      let Q := fresh in eassert (Q : step s _) by tac; apply (reach_step _ _ _ _ R) in Q; clear R; rename Q into R
  end.

Lemma busy_reachable : reachable (init []) step (busy [Swapping; Swapping] false false).
Proof.
  assert (R : reachable (init []) step (start (NewMemoryStoreWithOptions []))) by by apply reach_init.
  go R ltac:(apply step_tick; by left). go R ltac:(by eapply step_work, work_loop, loop_tick).
  go R ltac:(apply step_call). go R ltac:(apply step_call). exact R.
Qed.

(** The caller that lost the swap returns while the goroutine still cleans up. *)
Lemma second_close_does_not_wait :
  reachable (init []) step (busy [Waiting; Returned false] true true).
Proof.
  assert (R := busy_reachable).
  go R ltac:(eapply step_work, work_closer with (i := 0%nat); [done|apply closer_swap]).
  go R ltac:(eapply step_work, work_closer with (i := 1%nat); [done|apply closer_swap]).
  go R ltac:(eapply step_work, work_closer with (i := 0%nat); [done|apply closer_close]). exact R.
Qed.

Lemma store_close_safe_witness :
  reachable (init []) step (busy [Waiting; Returned false] true true) /\
  total won [Waiting; Returned false] <= 1.
Proof.
  split; [exact second_close_does_not_wait|].
  destruct (store_close_safe [] _ second_close_does_not_wait) as (_ & L & _). exact L.
Defined.

Lemma store_close_terminates_witness :
  let s := busy [Swapping; Swapping] false false in
  exists t, nsteps work 1 s t /\ rank s = 8 /\ Z.of_nat 1 <= rank s.
Proof.
  intros s. exists (busy [Closing; Swapping] true false).
  assert (S : nsteps work 1 s (busy [Closing; Swapping] true false))
    by (eapply nsteps_l; [exact (work_closer s 0 _ _ eq_refl (closer_swap _ 0))|constructor]).
  split; [exact S|]. split; [reflexivity|]. apply (store_close_terminates [] s 1 _ busy_reachable S).
Defined.

(** ** [Clear] *)

Section Clear.
Context {W : Type} `{Has W MemoryStore}.

Definition memory_Clear : M W unit := let! _ := memory_Reset Background in ret tt.

Lemma reset_keys_runs keys w :
  (reset_keys Background keys w).1 = None /\
  get (reset_keys Background keys w).2 = foldl (fun m k => load_and_delete k m) (get w) keys.
Proof.
  revert w. induction keys as [|k keys IH]; intros w; [done|]. cbn [reset_keys foldl]. unfold bind at 1 3, err_of.
  rewrite ctx_Err_Background. cbn [fst snd]. unfold bind, modify. cbn [fst snd].
  destruct (IH (put (load_and_delete k (get (tick w))) (tick w))) as [E1 E2]. split; [exact E1|].
  rewrite E2, get_put, get_tick. done.
Qed.

(** [Clear] cannot be cancelled: it leaves an open store empty, with a counter
    of 0, and a closed one as it is. *)
Lemma clear_keys keys m :
  counted m -> (forall k, is_Some (buckets m !! k) -> k ∈ keys) ->
  foldl (fun m k => load_and_delete k m) m keys = set_buckets ∅ 0 m.
Proof.
  revert m. induction keys as [|k keys IH]; intros m C In; cbn [foldl].
  - assert (E : buckets m = ∅).
    { apply map_eq. intros k. rewrite lookup_empty. apply eq_None_not_Some. intros S. by apply In, not_elem_of_nil in S. }
    destruct C as [C _]. rewrite E, map_size_empty in C. destruct m. unfold set_buckets. cbn in *. by rewrite E, C.
  - rewrite IH.
    + unfold load_and_delete. by destruct (buckets m !! k).
    + by apply load_and_delete_counted.
    + intros k' S. rewrite load_and_delete_lookup in S. destruct (decide (k' = k)); [by destruct S|].
      apply In in S. set_solver.
Qed.

Lemma memory_Clear_empties w : counted (get w) ->
  get (memory_Clear w).2 = if closed (get w) then get w else set_buckets ∅ 0 (get w).
Proof.
  intros C. unfold memory_Clear, memory_Reset, bind, memory, err_of, ret. cbn [fst snd].
  destruct (closed (get w)) eqn:K; [done|]. rewrite ctx_Err_Background. cbn [fst snd].
  destruct (reset_keys_runs (map_to_list (buckets (get w))).*1 (tick w)) as [_ ->]. rewrite get_tick.
  apply clear_keys; [done|]. intros k [e E]. apply list_elem_of_fmap. exists (k, e). by rewrite elem_of_map_to_list.
Qed.
End Clear.
