(* ===== verification/StoreConc.v ===== *)
(** The in-memory store shared by goroutines ([ratelimit/memory.go]).

    [RateStore] runs one call at a time.  Here any number of calls of
    [AtomicUpdate], [Get], [Delete], [Reset] and [cleanup] interleave: one step
    per operation on the [sync.Map], the counter or an entry's mutex, per
    read or write of an entry under its mutex, and per call of the update
    function.  Entries are objects of a heap, so that a goroutine can hold an
    entry that is no longer in the map.

    The checks a call starts with are one step.  A call of [Range] visits keys one by one while the map changes: the choice
    of the next key is the scheduler's.  The update functions are the
    elements of a type [F]; [apply f now old] is what one answers. *)

From S2P Require Import Prelude Float64 Errors Runtime RateStore.

#[local] Open Scope go_scope.

Section Store.
Context {F : Type} (apply : F -> Z -> option BucketState -> bool * option BucketState).

(** [e_log] only observes: the updates made on the entry, when, and what they
    answered. *)
Record entry := {
  e_key : string;
  e_state : option BucketState;
  e_last : Z;
  e_held : bool; (* [mu] is locked *)
  e_log : list (F * Z * bool)
}.

(** [gone] only observes: the keys that were removed from the map. *)
Record shared := {
  limits : MemoryStore; (* its options *)
  now : Z;
  heap : list entry;
  index : gmap string nat;
  count : Z;
  is_shut : bool;
  gone : list string
}.

(** The calls. *)
Inductive op :=
| OpUpdate (c : ctx) (key : string) (f : F)
| OpGet (c : ctx) (key : string)
| OpDelete (c : ctx) (key : string)
| OpReset (c : ctx)
| OpCleanup.

(** For whom an entry is loaded and locked. *)
Inductive job :=
| JUpdate (c : ctx) (f : F)
| JGet
| JDelete
| JReset (c : ctx) (keys : list string)
| JClean (nowNs : Z).

Inductive answer :=
| Refused (err : error)
| Updated (key : string) (f : F) (ok : bool)
| Got (st : option BucketState)
| Done.

Inductive pc :=
| Entering (o : op)
| Loading (j : job) (key : string)
| Counting (c : ctx) (f : F) (key : string)
| Refusing
| Storing (c : ctx) (f : F) (key : string)
| Surplus (c : ctx) (f : F) (key : string) (a : nat)
| Locking (j : job) (key : string) (a : nat)
| Holding (j : job) (key : string) (a : nat)
| Stamped (f : F) (key : string) (a : nat)
| Calling (f : F) (key : string) (a : nat) (old : option BucketState)
| Uncounting (j : job) (key : string) (a : nat)
| Sweeping (nowNs : Z)
| Peeking (nowNs : Z) (key : string) (a : nat)
| Collecting (c : ctx) (keys : list string)
| Resetting (c : ctx) (keys : list string)
| Returned (r : answer).

(** What the shared state goes through. *)
Definition set_heap (h : list entry) (s : shared) : shared := {|
  limits := limits s; now := now s; heap := h; index := index s; count := count s; is_shut := is_shut s; gone := gone s |}.

Definition set_count (n : Z) (s : shared) : shared := {|
  limits := limits s; now := now s; heap := heap s; index := index s; count := n; is_shut := is_shut s; gone := gone s |}.

(** [LoadOrStore] of a new entry. *)
Definition alloc (key : string) (s : shared) : shared := {|
  limits := limits s; now := now s;
  heap := heap s ++ [{| e_key := key; e_state := None; e_last := UnixNano (now s); e_held := false; e_log := [] |}];
  index := <[key := length (heap s)]> (index s); count := count s; is_shut := is_shut s; gone := gone s |}.

(** [LoadAndDelete] of a key that is there. *)
Definition remove (key : string) (s : shared) : shared := {|
  limits := limits s; now := now s; heap := heap s; index := delete key (index s); count := count s;
  is_shut := is_shut s; gone := key :: gone s |}.

Definition hold (b : bool) (e : entry) : entry := {|
  e_key := e_key e; e_state := e_state e; e_last := e_last e; e_held := b; e_log := e_log e |}.

Definition touch (t : Z) (e : entry) : entry := {|
  e_key := e_key e; e_state := e_state e; e_last := t; e_held := e_held e; e_log := e_log e |}.

Definition update (u : F * Z * bool) (st : option BucketState) (e : entry) : entry := {|
  e_key := e_key e; e_state := match st with Some _ => st | None => e_state e end; e_last := e_last e;
  e_held := e_held e; e_log := e_log e ++ [u] |}.

Definition at_entry (a : nat) (e : entry) (s : shared) : shared := set_heap (<[a := e]> (heap s)) s.

(** The checks before anything else. *)
Definition refused (c : ctx) (key : string) (s : shared) : option error :=
  if is_shut s then Some (ESentinel ErrStoreClosed)
  else match ctx_Err c (now s) with
       | Some err => Some err
       | None => if len key >? maxKeyLength (limits s) then Some (ESentinel ErrKeyTooLong) else None
       end.

Definition enter (c : ctx) (key : string) (s : shared) (p : pc) : pc :=
  match refused c key s with Some err => Returned (Refused err) | None => p end.

(** Where a call goes on once its entry is dealt with. *)
Definition after (j : job) : pc :=
  match j with
  | JClean nowNs => Sweeping nowNs
  | JReset c keys => Resetting c keys
  | _ => Returned Done
  end.

(** [LoadAndDelete] under the entry's mutex: of the key, whichever entry it
    has by now. *)
Definition discard (j : job) (key : string) (a : nat) (e : entry) (s : shared) : shared * pc :=
  match index s !! key with
  | Some _ => (remove key s, Uncounting j key a)
  | None => (at_entry a (hold false e) s, after j)
  end.

(** The scheduler's choice for a [Range]: the next key, or to go on. *)
Inductive choice := Go | Pick (key : string).

Definition act (ch : choice) (s : shared) (p : pc) : option (shared * pc) :=
  match p, ch with
  | Entering (OpUpdate c key f), Go => Some (s, enter c key s (Loading (JUpdate c f) key))
  | Entering (OpGet c key), Go => Some (s, enter c key s (Loading JGet key))
  | Entering (OpDelete c key), Go => Some (s, enter c key s (Loading JDelete key))
  | Entering (OpReset c), Go => Some (s, enter c EmptyString s (Collecting c []))
  | Entering OpCleanup, Go => Some (s, Sweeping (UnixNano (now s)))
  | Loading j key, Go =>
      Some (s, match index s !! key, j with
               | Some a, _ => Locking j key a
               | None, JUpdate c f => Counting c f key
               | None, JGet => Returned (Got None)
               | None, _ => after j
               end)
  | Counting c f key, Go =>
      let newCount := i64 (count s + 1) in
      Some (set_count newCount s, if newCount >? maxKeys (limits s) then Refusing else Storing c f key)
  | Refusing, Go => Some (set_count (i64 (count s - 1)) s, Returned (Refused (ESentinel ErrKeyLimitExceeded)))
  | Storing c f key, Go =>
      Some (match index s !! key with
            | Some a => (s, Surplus c f key a)
            | None => (alloc key s, Locking (JUpdate c f) key (length (heap s)))
            end)
  | Surplus c f key a, Go => Some (set_count (i64 (count s - 1)) s, Locking (JUpdate c f) key a)
  | Locking j key a, Go =>
      match heap s !! a with
      | Some e => if e_held e then None else Some (at_entry a (hold true e) s, Holding j key a)
      | None => None
      end
  | Holding j key a, Go =>
      match heap s !! a with
      | Some e =>
          Some (match j with
                | JUpdate c f =>
                    match ctx_Err c (now s) with
                    | Some err => (at_entry a (hold false e) s, Returned (Refused err))
                    | None => (at_entry a (touch (UnixNano (now s)) e) s, Stamped f key a)
                    end
                | JGet => (at_entry a (hold false e) s, Returned (Got (e_state e)))
                | JClean nowNs =>
                    if nowNs - e_last e >? entryTTL (limits s) then discard j key a e s
                    else (at_entry a (hold false e) s, after j)
                | _ => discard j key a e s
                end)
      | None => None
      end
  | Stamped f key a, Go =>
      match heap s !! a with Some e => Some (s, Calling f key a (e_state e)) | None => None end
  | Calling f key a old, Go =>
      match heap s !! a with
      | Some e =>
          let r := apply f (now s) old in
          Some (at_entry a (hold false (update (f, now s, r.1) r.2 e)) s, Returned (Updated key f r.1))
      | None => None
      end
  | Uncounting j key a, Go =>
      match heap s !! a with
      | Some e => Some (at_entry a (hold false e) (set_count (i64 (count s - 1)) s), after j)
      | None => None
      end
  | Sweeping nowNs, Pick key =>
      match index s !! key with Some a => Some (s, Peeking nowNs key a) | None => None end
  | Sweeping _, Go => Some (s, Returned Done)
  | Peeking nowNs key a, Go =>
      match heap s !! a with
      | Some e => Some (s, if nowNs - e_last e >? entryTTL (limits s) then Locking (JClean nowNs) key a else Sweeping nowNs)
      | None => None
      end
  | Collecting c keys, Pick key =>
      match index s !! key with Some _ => Some (s, Collecting c (keys ++ [key])) | None => None end
  | Collecting c keys, Go => Some (s, Resetting c keys)
  | Resetting c [], Go => Some (s, Returned Done)
  | Resetting c (key :: keys), Go =>
      Some (s, match ctx_Err c (now s) with
               | Some err => Returned (Refused err)
               | None => Loading (JReset c keys) key
               end)
  | _, _ => None
  end.

Record system := { sh : shared; threads : list pc }.

Definition later (d : Z) (s : shared) : shared := {|
  limits := limits s; now := now s + d; heap := heap s; index := index s; count := count s;
  is_shut := is_shut s; gone := gone s |}.

Definition shut (s : shared) : shared := {|
  limits := limits s; now := now s; heap := heap s; index := index s; count := count s;
  is_shut := true; gone := gone s |}.

Inductive step : system -> system -> Prop :=
| step_act ch i p s ps s' p' : ps !! i = Some p -> act ch s p = Some (s', p') ->
    step {| sh := s; threads := ps |} {| sh := s'; threads := <[i := p']> ps |}
| step_time d s ps : 0 <= d -> step {| sh := s; threads := ps |} {| sh := later d s; threads := ps |}
| step_close s ps : step {| sh := s; threads := ps |} {| sh := shut s; threads := ps |}.

(** A new store at [t0] and the calls that are going to be made on it. *)
Definition fresh (opts : list MemoryStoreOption) (t0 : Z) : shared := {|
  limits := NewMemoryStoreWithOptions opts; now := t0; heap := []; index := ∅; count := 0; is_shut := false; gone := [] |}.

Definition init (opts : list MemoryStoreOption) (t0 : Z) (ops : list op) (s : system) : Prop :=
  s = {| sh := fresh opts t0; threads := Entering <$> ops |}.

(** ** The invariant *)

Context (P : F -> Prop) (t0 : Z).

(** A run of updates on one entry, made one after the other by [t]: each
    answered as [apply] does on the state the one before left. *)
Inductive serial : Z -> list (F * Z * bool) -> option BucketState -> Prop :=
| serial_nil t : t0 <= t -> serial t [] None
| serial_snoc t u l st f : serial u l st -> u <= t -> P f ->
    serial t (l ++ [(f, t, (apply f t st).1)]) (match (apply f t st).2 with Some _ => (apply f t st).2 | None => st end).

Lemma serial_later t l st : serial t l st -> t0 <= t.
Proof. induction 1; lia. Qed.

(** The entry whose mutex a goroutine holds. *)
Definition section (p : pc) : option nat :=
  match p with Holding _ _ a | Stamped _ _ a | Calling _ _ a _ | Uncounting _ _ a => Some a | _ => None end.

Definition inside (a : nat) (p : pc) : Z := if decide (section p = Some a) then 1 else 0.

(** The entry a goroutine knows, and its key. *)
Definition place (p : pc) : option (string * nat) :=
  match p with
  | Surplus _ _ key a | Locking _ key a | Holding _ key a | Stamped _ key a | Calling _ key a _ | Uncounting _ key a
  | Peeking _ key a => Some (key, a)
  | _ => None
  end.

Definition fine (p : pc) : Prop :=
  match p with
  | Entering (OpUpdate _ _ f) | Loading (JUpdate _ f) _ | Counting _ f _ | Storing _ f _ | Surplus _ f _ _
  | Locking (JUpdate _ f) _ _ | Holding (JUpdate _ f) _ _ | Stamped f _ _ | Calling f _ _ _ => P f
  | _ => True
  end.

Definition placed (h : list entry) (p : pc) : Prop :=
  match place p with
  | Some (key, a) => exists e, h !! a = Some e /\ e_key e = key /\
      match p with Calling _ _ _ old => old = e_state e | _ => True end
  | None => True
  end.

Definition answer_of (k : string) (p : pc) : option (F * bool) :=
  match p with Returned (Updated key f ok) => if decide (key = k) then Some (f, ok) else None | _ => None end.

(** The answers given on the entries of a key. *)
Definition answers (e : entry) : list (F * bool) := (fun u => (u.1.1, u.2)) <$> e_log e.
Definition of_key (k : string) (e : entry) : bool := bool_decide (e_key e = k).
Definition logged (k : string) (h : list entry) : list (F * bool) := h ≫= fun e => if of_key k e then answers e else [].

Definition removals (k : string) (l : list string) : Z := total (fun x => if decide (x = k) then 1 else 0) l.
Definition entries (k : string) (h : list entry) : Z := total (fun e => if of_key k e then 1 else 0) h.

#[local] Arguments entries : simpl never.
#[local] Arguments removals : simpl never.
#[local] Arguments logged : simpl never.

Record inv (s : system) : Prop := {
  k_pcs : forall i p, threads s !! i = Some p -> fine p /\ placed (heap (sh s)) p;
  k_index : forall k a, index (sh s) !! k = Some a -> exists e, heap (sh s) !! a = Some e /\ e_key e = k;
  k_entries : forall k, entries k (heap (sh s)) =
    removals k (gone (sh s)) + (match index (sh s) !! k with Some _ => 1 | None => 0 end);
  k_serial : forall a e, heap (sh s) !! a = Some e -> exists t, t <= now (sh s) /\ serial t (e_log e) (e_state e);
  k_held : forall a e, heap (sh s) !! a = Some e -> total (inside a) (threads s) = if e_held e then 1 else 0;
  k_answers : forall k, omap (answer_of k) (threads s) ≡ₚ logged k (heap (sh s));
  k_start : t0 <= now (sh s)
}.

(** What a step does, by its effect on the shared state. *)
Inductive effect (s : shared) (p : pc) : shared -> pc -> Prop :=
| eff_quiet s' p' : heap s' = heap s -> index s' = index s -> gone s' = gone s -> now s' = now s ->
    section p' = section p -> (forall k, answer_of k p' = None) -> fine p' -> placed (heap s) p' ->
    effect s p s' p'
| eff_entry a e e' s' p' : heap s !! a = Some e -> heap s' = <[a := e']> (heap s) ->
    index s' = index s -> gone s' = gone s -> now s' = now s ->
    e_key e' = e_key e -> e_state e' = e_state e -> e_log e' = e_log e ->
    section p = (if e_held e then Some a else None) -> section p' = (if e_held e' then Some a else None) ->
    (forall k, answer_of k p' = None) -> fine p' -> placed (heap s') p' ->
    effect s p s' p'
| eff_finish f key a e old : p = Calling f key a old -> heap s !! a = Some e -> e_held e = true -> old = e_state e ->
    e_key e = key -> P f ->
    effect s p (at_entry a (hold false (update (f, now s, (apply f (now s) old).1) (apply f (now s) old).2 e)) s)
      (Returned (Updated key f (apply f (now s) old).1))
| eff_alloc c f key : p = Storing c f key -> index s !! key = None -> P f ->
    effect s p (alloc key s) (Locking (JUpdate c f) key (length (heap s)))
| eff_remove j key a b : p = Holding j key a -> index s !! key = Some b ->
    effect s p (remove key s) (Uncounting j key a).

Lemma enter_pc c key s p : fine p -> placed (heap s) p -> section p = None -> (forall k, answer_of k p = None) ->
  let p' := enter c key s p in
  fine p' /\ placed (heap s) p' /\ section p' = None /\ (forall k, answer_of k p' = None).
Proof. intros ? ? ? ? p'. unfold enter in p'. subst p'. destruct (refused c key s); split_and!; done. Qed.

Lemma after_pc j h : fine (after j) /\ placed h (after j) /\ section (after j) = None /\ (forall k, answer_of k (after j) = None).
Proof. destruct j; split_and!; done. Qed.

Lemma act_effect ch s p s' p' :
  fine p -> placed (heap s) p ->
  (forall k a, index s !! k = Some a -> exists e, heap s !! a = Some e /\ e_key e = k) ->
  (forall a e, section p = Some a -> heap s !! a = Some e -> e_held e = true) ->
  act ch s p = Some (s', p') -> effect s p s' p' /\ (forall k, answer_of k p = None).
Proof.
  intros Fp Pl Ix Hd A. split.
  2:{ intros k. by destruct p. }
  destruct p as [o|j key|c f key| |c f key|c f key a|j key a|j key a|f key a|f key a old|j key a|t|t key a|c keys|c keys|r];
    cbn in A.
  - destruct o, ch; simplify_eq; try (unfold enter; case_match); by apply eff_quiet.
  - destruct ch; simplify_eq. destruct (index s' !! key) as [a|] eqn:E.
    + apply eff_quiet; try done. destruct (Ix _ _ E) as (e & He & Hk). exists e. done.
    + destruct j; by apply eff_quiet.
  - destruct ch; simplify_eq. case_match; by apply eff_quiet.
  - destruct ch; simplify_eq. by apply eff_quiet.
  - destruct ch; [|done]. destruct (index s !! key) as [a|] eqn:E; simplify_eq.
    + apply eff_quiet; try done. destruct (Ix _ _ E) as (e & He & Hk). exists e. done.
    + by apply eff_alloc.
  - destruct ch; simplify_eq. by apply eff_quiet.
  - destruct ch; [|done]. destruct Pl as (e & He & Hk & _). rewrite He in A. destruct (e_held e) eqn:H; simplify_eq.
    eapply (eff_entry _ _ a e); try done; cbn; [by rewrite H|]. exists (hold true e). by rewrite list_lookup_insert_eq by (by eapply lookup_lt_Some).
  - destruct ch; [|done]. destruct Pl as (e & He & Hk & _). rewrite He in A. pose proof (Hd a e eq_refl He) as H.
    assert (U : forall p', section p' = None -> (forall k, answer_of k p' = None) -> fine p' -> place p' = None ->
      effect s (Holding j key a) (at_entry a (hold false e) s) p').
    { intros p1 S N Fp1 P1. eapply (eff_entry _ _ a e); try done; [by cbn; rewrite H|]. unfold placed. by rewrite P1. }
    assert (D : forall s1 p1, discard j key a e s = (s1, p1) -> effect s (Holding j key a) s1 p1).
    { intros s1 p1 E. unfold discard in E. destruct (index s !! key) as [b|] eqn:B; simplify_eq; [by eapply eff_remove|].
      apply U; by destruct j. }
    destruct j as [c f| | |c keys|t]; simplify_eq.
    + destruct (ctx_Err c (now s)); simplify_eq; [by apply U|].
      eapply (eff_entry _ _ a e); try done; cbn; [by rewrite H|by rewrite H|].
      exists (touch (UnixNano (now s)) e). by rewrite list_lookup_insert_eq by (by eapply lookup_lt_Some).
    + by apply U.
    + by apply D.
    + by apply D.
    + destruct (t - e_last e >? entryTTL (limits s)); [by apply D|]. injection A as <- <-. by apply U.
  - destruct ch; [|done]. destruct Pl as (e & He & Hk & _). rewrite He in A. simplify_eq.
    apply eff_quiet; try done. by exists e.
  - destruct ch; [|done]. destruct Pl as (e & He & Hk & Ho). rewrite He in A. simplify_eq.
    eapply eff_finish; try done. by apply (Hd a e).
  - destruct ch; [|done]. destruct Pl as (e & He & Hk & _). rewrite He in A. simplify_eq. pose proof (Hd a e eq_refl He) as H.
    eapply (eff_entry _ _ a e); try done; cbn; [by rewrite H|..]; by destruct j.
  - destruct ch; simplify_eq; [by apply eff_quiet|]. destruct (index s !! key) as [a|] eqn:E; simplify_eq.
    apply eff_quiet; try done. destruct (Ix _ _ E) as (e & He & Hk). by exists e.
  - destruct ch; [|done]. destruct Pl as (e & He & Hk & _). rewrite He in A. simplify_eq.
    case_match; apply eff_quiet; try done. by exists e.
  - destruct ch; simplify_eq; [by apply eff_quiet|]. case_match; simplify_eq. by apply eff_quiet.
  - destruct ch; [|by destruct keys]. destruct keys; simplify_eq; [by apply eff_quiet|]. case_match; by apply eff_quiet.
  - done.
Qed.

(** ** Every step keeps it *)

Lemma omap_insert {A B} (g : A -> option B) l i x y :
  l !! i = Some x -> g x = None -> omap g (<[i := y]> l) ≡ₚ option_list (g y) ++ omap g l.
Proof.
  intros L N. rewrite (insert_take_drop _ _ _ (lookup_lt_Some _ _ _ L)). pose proof (take_drop_middle l i x L) as E.
  revert E. generalize (take i l) (drop (S i) l). intros l1 l2 <-. rewrite !omap_app. cbn. rewrite N.
  destruct (g y); cbn; [|done]. symmetry. apply Permutation_middle.
Qed.

Lemma logged_insert k h a e e' : h !! a = Some e ->
  logged k (<[a := e']> h) ≡ₚ
    (if of_key k e' then answers e' else []) ++ logged k (take a h ++ drop (S a) h) /\
  logged k h ≡ₚ (if of_key k e then answers e else []) ++ logged k (take a h ++ drop (S a) h).
Proof.
  intros L. unfold logged. rewrite (insert_take_drop _ _ _ (lookup_lt_Some _ _ _ L)). pose proof (take_drop_middle h a e L) as E.
  revert E. generalize (take a h) (drop (S a) h). intros l1 l2 <-. rewrite !bind_app, !bind_cons.
  split; apply Permutation_app_swap_app.
Qed.

Lemma logged_same k h a e e' : h !! a = Some e -> e_key e' = e_key e -> e_log e' = e_log e ->
  logged k (<[a := e']> h) ≡ₚ logged k h.
Proof.
  intros L K G. destruct (logged_insert k h a e e' L) as [-> ->]. unfold of_key, answers. by rewrite K, G.
Qed.

Lemma exclusive a ps i j p q :
  total (inside a) ps <= 1 -> ps !! i = Some p -> section p = Some a -> ps !! j = Some q -> j <> i -> section q <> Some a.
Proof.
  intros T Li Sp Lj N Sq.
  assert (In : forall p, 0 <= inside a p) by (intros r; unfold inside; case_decide; lia).
  pose proof (total_insert (inside a) ps i p Refusing Li) as T1.
  assert (Lj' : <[i := Refusing]> ps !! j = Some q) by (by rewrite list_lookup_insert_ne).
  pose proof (total_lookup (inside a) _ j q In Lj') as T2.
  assert (E1 : inside a p = 1) by (unfold inside; by rewrite decide_True).
  assert (E2 : inside a q = 1) by (unfold inside; by rewrite decide_True).
  assert (E3 : inside a Refusing = 0) by (unfold inside; by rewrite decide_False). lia.
Qed.

Lemma placed_mono h h' q :
  (forall a e, h !! a = Some e -> exists e', h' !! a = Some e' /\ e_key e' = e_key e /\
     (section q = Some a -> e_state e' = e_state e)) ->
  placed h q -> placed h' q.
Proof.
  unfold placed. intros M Pl. destruct (place q) as [[key a]|] eqn:E; [|done]. destruct Pl as (e & He & Hk & Ho).
  destruct (M a e He) as (e' & He' & Hk' & Hs). exists e'. split; [done|]. split; [congruence|].
  destruct q; try done. cbn in E. injection E as <- <-. rewrite Hs by done. done.
Qed.

(** A change of one entry leaves the others. *)
Lemma insert_mono h a e e' q :
  h !! a = Some e -> e_key e' = e_key e -> (section q = Some a -> e_state e' = e_state e) ->
  placed h q -> placed (<[a := e']> h) q.
Proof.
  intros L K S. apply placed_mono. intros b d Hb. rewrite list_lookup_insert. case_decide as D.
  - destruct D as [<- _]. simplify_eq. by exists e'.
  - by exists d.
Qed.

Lemma entries_insert k h a e e' : h !! a = Some e -> e_key e' = e_key e -> entries k (<[a := e']> h) = entries k h.
Proof. intros L K. unfold entries. rewrite (total_insert _ _ _ _ _ L). unfold of_key. rewrite K. lia. Qed.

Lemma pcs_insert h (ps : list pc) i p' :
  (forall j q, j <> i -> ps !! j = Some q -> fine q /\ placed h q) -> fine p' -> placed h p' ->
  forall j q, <[i := p']> ps !! j = Some q -> fine q /\ placed h q.
Proof.
  intros O Fp Pl j q. rewrite list_lookup_insert. case_decide as D; [intros [= <-]; done|].
  intros Hj. destruct (decide (i = j)) as [->|Ne]; [|exact (O j q (not_eq_sym Ne) Hj)].
  exfalso. apply D. split; [done|by eapply lookup_lt_Some].
Qed.

Lemma answers_insert k (ps : list pc) i p p' :
  ps !! i = Some p -> answer_of k p = None -> answer_of k p' = None -> omap (answer_of k) (<[i := p']> ps) ≡ₚ omap (answer_of k) ps.
Proof. intros L N N'. rewrite (omap_insert _ _ _ _ _ L N), N'. done. Qed.

Section Moves.
Context (s : shared) (ps : list pc) (i : nat) (p : pc).
Context (I : inv {| sh := s; threads := ps |}) (L : ps !! i = Some p) (N : forall k, answer_of k p = None).

#[local] Abbreviation moved s' p' := {| sh := s'; threads := <[i := p']> ps |}.

Lemma inv_quiet s' p' :
  heap s' = heap s -> index s' = index s -> gone s' = gone s -> now s' = now s ->
  section p' = section p -> (forall k, answer_of k p' = None) -> fine p' -> placed (heap s) p' ->
  inv (moved s' p').
Proof.
  intros Eh Ei Eg En S N' Fp Pl. destruct I as [Ip Ix Ie Is Ih Ia It]. split; cbn in *; rewrite ?Eh, ?Ei, ?Eg, ?En; try done.
  - apply pcs_insert; [|done|done]. eauto.
  - intros a e He. rewrite (total_insert _ _ _ _ _ L), (Ih a e He). unfold inside. rewrite S. lia.
  - intros k. by rewrite (answers_insert k ps i p p').
Qed.

Lemma inv_entry a e e' s' p' :
  heap s !! a = Some e -> heap s' = <[a := e']> (heap s) ->
  index s' = index s -> gone s' = gone s -> now s' = now s ->
  e_key e' = e_key e -> e_state e' = e_state e -> e_log e' = e_log e ->
  section p = (if e_held e then Some a else None) -> section p' = (if e_held e' then Some a else None) ->
  (forall k, answer_of k p' = None) -> fine p' -> placed (heap s') p' ->
  inv (moved s' p').
Proof.
  intros He Eh Ei Eg En K St G S S' N' Fp Pl. destruct I as [Ip Ix Ie Is Ih Ia It].
  split; cbn in *; rewrite ?Eh, ?Ei, ?Eg, ?En in *; try done.
  - apply pcs_insert; [|done|done]. intros j q _ Hq. destruct (Ip j q Hq) as [? Pq]. split; [done|].
    by apply (insert_mono _ _ e).
  - intros k b Hk. destruct (Ix k b Hk) as (d & Hd & Kd). rewrite list_lookup_insert. case_decide as D; [|eauto].
    destruct D as [<- _]. simplify_eq. eauto.
  - intros k. by rewrite (entries_insert _ _ _ _ _ He K), Ie.
  - intros b d Hb. rewrite list_lookup_insert in Hb. case_decide as D; [|eauto].
    destruct D as [<- _]. simplify_eq. rewrite St, G. eauto.
  - intros b d Hb. rewrite (total_insert _ _ _ _ _ L). rewrite list_lookup_insert in Hb. case_decide as D.
    + destruct D as [<- _]. simplify_eq. rewrite (Ih _ _ He). unfold inside. rewrite S, S'.
      destruct (e_held e), (e_held d); repeat case_decide; done || lia.
    + rewrite (Ih _ _ Hb). assert (a <> b) by (intros ->; apply D; split; [done|by eapply lookup_lt_Some]).
      unfold inside. rewrite S, S'. destruct (e_held e), (e_held e'); rewrite !decide_False by congruence; lia.
  - intros k. rewrite (answers_insert k ps i p p' L (N k) (N' k)), Ia. symmetry. by eapply logged_same.
Qed.

Lemma inv_finish f key a e old :
  p = Calling f key a old -> heap s !! a = Some e -> e_held e = true -> old = e_state e -> e_key e = key -> P f ->
  inv (moved (at_entry a (hold false (update (f, now s, (apply f (now s) old).1) (apply f (now s) old).2 e)) s)
             (Returned (Updated key f (apply f (now s) old).1))).
Proof.
  intros -> He Hh -> Hk Pf. destruct I as [Ip Ix Ie Is Ih Ia It]. set (r := apply f (now s) (e_state e)).
  set (e' := hold false _). split; cbn in *; try done.
  - apply pcs_insert; [|done|done]. intros j q Ne Hq. destruct (Ip j q Hq) as [? Pq]. split; [done|].
    apply (insert_mono _ _ e); try done. intros S. exfalso.
    eapply (exclusive a ps i j _ q); [|exact L|done|exact Hq|exact Ne|exact S]. rewrite (Ih a e He), Hh. done.
  - intros k b Hb. destruct (Ix k b Hb) as (d & Hd & Kd). rewrite list_lookup_insert. case_decide as D; [|eauto].
    destruct D as [<- _]. simplify_eq. eauto.
  - intros k. by rewrite (entries_insert _ _ _ e), Ie.
  - intros b d Hb. rewrite list_lookup_insert in Hb. case_decide as D; [|eauto].
    destruct D as [<- _]. injection Hb as <-. destruct (Is a e He) as (u & Hu & Su). exists (now s). split; [lia|].
    exact (serial_snoc _ _ _ _ f Su Hu Pf).
  - intros b d Hb. rewrite (total_insert _ _ _ _ _ L). rewrite list_lookup_insert in Hb. case_decide as D.
    + destruct D as [<- _]. injection Hb as <-. rewrite (Ih _ _ He), Hh. unfold inside. cbn. rewrite decide_True by done. by rewrite decide_False.
    + rewrite (Ih _ _ Hb). assert (a <> b) by (intros ->; apply D; split; [done|by eapply lookup_lt_Some]).
      unfold inside. cbn. rewrite !decide_False by congruence. lia.
  - intros k. rewrite (omap_insert _ _ _ _ _ L (N k)), Ia. destruct (logged_insert k (heap s) a e e' He) as [-> ->].
    cbn. unfold of_key. cbn. rewrite Hk. rewrite fmap_app. fold (answers e). cbn.
    destruct (decide (key = k)) as [E|E].
    + rewrite bool_decide_eq_true_2 by done. cbn. rewrite <- app_assoc. apply Permutation_middle.
    + by rewrite bool_decide_eq_false_2.
Qed.

Lemma inv_alloc c f key :
  p = Storing c f key -> index s !! key = None -> P f ->
  inv (moved (alloc key s) (Locking (JUpdate c f) key (length (heap s)))).
Proof.
  intros -> Nk Pf. destruct I as [Ip Ix Ie Is Ih Ia It]. set (e0 := {| e_key := key; e_state := None; e_last := UnixNano (now s);
    e_held := false; e_log := [] |}).
  assert (New : (heap s ++ [e0]) !! length (heap s) = Some e0) by by apply list_lookup_middle.
  assert (Old : forall a e, heap s !! a = Some e -> (heap s ++ [e0]) !! a = Some e) by (intros; by apply lookup_app_l_Some).
  assert (Cases : forall a e, (heap s ++ [e0]) !! a = Some e -> heap s !! a = Some e \/ a = length (heap s) /\ e = e0).
  { intros a e [?|[? E]]%lookup_app_Some; [by left|]. right. apply list_lookup_singleton_Some in E as [E <-]. split; [lia|done]. }
  split; cbn in *; fold e0; try done.
  - apply pcs_insert; [|done|exists e0; done]. intros j q _ Hq. destruct (Ip j q Hq) as [? Pq]. split; [done|].
    revert Pq. apply placed_mono. intros a e He. exists e. split; [by apply Old|done].
  - intros k a. rewrite lookup_insert. case_decide as D; [intros [= <-]; exists e0; done|].
    intros Hk. destruct (Ix k a Hk) as (e & He & Ke). exists e. split; [by apply Old|done].
  - intros k. unfold entries. rewrite total_app. fold (entries k (heap s)). rewrite Ie. cbn. unfold of_key. cbn.
    rewrite lookup_insert. case_decide as D; case_bool_decide; subst; try congruence; [rewrite Nk|]; lia.
  - intros a e He. destruct (Cases a e He) as [He'|[-> ->]]; [eauto|]. exists (now s). split; [lia|]. by constructor.
  - intros a e He. rewrite (total_insert _ _ _ _ _ L). unfold inside at 2 3. cbn. rewrite !decide_False by done.
    destruct (Cases a e He) as [He'|[-> ->]]; [rewrite (Ih _ _ He'); lia|]. cbn.
    assert (Z : total (inside (length (heap s))) ps = 0); [|lia].
    assert (Q : forall j q, ps !! j = Some q -> inside (length (heap s)) q = 0).
    { intros j q Hq. unfold inside. case_decide as D; [|done]. exfalso. destruct (Ip j q Hq) as [_ Pl].
      destruct q; cbn in D; try done; injection D as ->; cbn in Pl; destruct Pl as (e & Hl & _);
        apply lookup_lt_Some in Hl; lia. }
    clear -Q. induction ps as [|q l IH]; [done|]. cbn. rewrite (Q 0%nat q eq_refl), IH; [done|]. intros j r Hj. by apply (Q (S j)).
  - intros k. rewrite (answers_insert k ps i _ _ L (N k)) by done. rewrite Ia. unfold logged. rewrite bind_app, bind_cons. cbn.
    unfold answers at 2. cbn. destruct (of_key k e0); cbn; by rewrite !app_nil_r.
Qed.

Lemma inv_remove j key a b :
  p = Holding j key a -> index s !! key = Some b -> inv (moved (remove key s) (Uncounting j key a)).
Proof.
  intros -> Hk. destruct I as [Ip Ix Ie Is Ih Ia It]. destruct (Ip _ _ L) as [_ Pl].
  split; cbn in *; try done.
  - apply pcs_insert; [eauto|done|exact Pl].
  - intros k d. rewrite lookup_delete. case_decide; [done|]. apply Ix.
  - intros k. change (removals k (key :: gone s)) with ((if decide (key = k) then 1 else 0) + removals k (gone s)).
    rewrite Ie, lookup_delete. destruct (decide (key = k)) as [->|D]; [rewrite Hk|]; lia.
  - intros d e He. rewrite (total_insert _ _ _ _ _ L), (Ih d e He). unfold inside. cbn. lia.
  - intros k. by rewrite (answers_insert k ps i _ _ L (N k)).
Qed.
End Moves.

Lemma inv_step_conc s t : inv s -> step s t -> inv t.
Proof.
  intros I St. destruct St as [ch i p s ps s' p' L A|d s ps D|s ps].
  - destruct (k_pcs _ I i p L) as [Fp Pl].
    destruct (act_effect ch s p s' p' Fp Pl (k_index _ I)) as [Eff N]; [|done|].
    { intros a e S He. pose proof (k_held _ I a e He) as H. cbn in H. destruct (e_held e); [done|exfalso].
      assert (Nn : forall q, 0 <= inside a q) by (intros q; unfold inside; case_decide; lia).
      pose proof (total_lookup (inside a) ps i p Nn L) as T. unfold inside at 1 in T. rewrite decide_True in T by done. lia. }
    destruct Eff; eauto using inv_quiet, inv_entry, inv_finish, inv_alloc, inv_remove.
  - destruct I as [Ip Ix Ie Is Ih Ia It]. split; cbn in *; try done; [|lia].
    intros a e He. destruct (Is a e He) as (u & ? & ?). exists u. split; [lia|done].
  - destruct I as [Ip Ix Ie Is Ih Ia It]. by split.
Qed.

(** ** Updates serialise *)

(** The calls' requests. *)
Definition op_fine (o : op) : Prop := fine (Entering o).

Lemma inv_init opts ops s : Forall op_fine ops -> init opts t0 ops s -> inv s.
Proof.
  intros Ok ->.
  assert (E : forall i p, (Entering <$> ops) !! i = Some p -> exists o, p = Entering o /\ op_fine o).
  { intros i p Hi. rewrite list_lookup_fmap in Hi. destruct (ops !! i) as [o|] eqn:Ho; [|done]. injection Hi as <-.
    exists o. split; [done|]. by eapply Forall_lookup_1. }
  split; cbn; try done.
  - intros i p Hi. by destruct (E i p Hi) as (o & -> & ?).
  - intros k. clear. by induction ops.
Qed.

(** The runs of updates on a key's entries, past and present, each with the
    state it left. *)
Definition runs (k : string) (h : list entry) : list (list (F * Z * bool) * option BucketState) :=
  h ≫= fun e => if of_key k e then [(e_log e, e_state e)] else [].

Definition answered (l : list (F * Z * bool)) : list (F * bool) := (fun u => (u.1.1, u.2)) <$> l.

Lemma runs_entries k h :
  Z.of_nat (length (runs k h)) = entries k h /\ (runs k h ≫= fun r => answered r.1) = logged k h /\
  forall r, r ∈ runs k h <-> exists a e, h !! a = Some e /\ e_key e = k /\ r = (e_log e, e_state e).
Proof.
  induction h as [|e h (IH1 & IH2 & IH3)].
  { split_and!; try done. intros r. split; [intros []%not_elem_of_nil|]. by intros (a & e & He & _). }
  unfold runs, logged. rewrite !bind_cons. fold (runs k h) (logged k h). change (entries k (e :: h)) with ((if of_key k e then 1 else 0) + entries k h).
  rewrite length_app, bind_app, IH2. split_and!.
  - destruct (of_key k e); cbn; lia.
  - destruct (of_key k e); cbn; [|done]. by rewrite app_nil_r.
  - intros r. rewrite elem_of_app, IH3. unfold of_key. split.
    + intros [H|(a & d & ? & ?)]; [|by exists (S a), d]. case_bool_decide; [|by apply not_elem_of_nil in H].
      apply list_elem_of_singleton in H as ->. by exists 0%nat, e.
    + intros ([|a] & d & Hd & Hk & ->); cbn in Hd; [|right; by exists a, d].
      injection Hd as ->. left. rewrite bool_decide_eq_true_2 by done. by apply list_elem_of_singleton.
Qed.

Lemma reachable_conc opts ops s : Forall op_fine ops -> reachable (init opts t0 ops) step s -> inv s.
Proof. intros Ok. revert s. apply invariant_reachable; [intros s; by apply inv_init|apply inv_step_conc]. Qed.

Lemma updates_in_runs opts ops s k :
  Forall op_fine ops -> reachable (init opts t0 ops) step s ->
  let rs := runs k (heap (sh s)) in
  Z.of_nat (length rs) = removals k (gone (sh s)) + (match index (sh s) !! k with Some _ => 1 | None => 0 end) /\
  Forall (fun r => exists t, t <= now (sh s) /\ serial t r.1 r.2) rs /\
  omap (answer_of k) (threads s) ≡ₚ (rs ≫= fun r => answered r.1) /\ t0 <= now (sh s).
Proof.
  intros Ok R rs. pose proof (reachable_conc _ _ _ Ok R) as I.
  destruct (runs_entries k (heap (sh s))) as (N & A & M). fold rs in N, A, M.
  rewrite <- (k_entries s I k). split; [exact N|]. split_and!; [|rewrite A; apply (k_answers s I)|apply (k_start s I)].
  apply Forall_forall. intros r Hr. apply M in Hr as (a & e & He & _ & ->). exact (k_serial s I a e He).
Qed.

(** C4: Concurrent updates serialise.  However many goroutines update, read,
    delete, reset and clean up at once: the updates that were answered for a
    key are, together, those of some serial runs -- in each, one after the
    other, every update was answered from the state the one before left, and no
    update is lost or made twice -- and there is one run for every time the
    key's entry was removed, and one for the entry in the map.  So a key that
    was never removed has one run: its bucket is the result of all updates
    answered for it, in the order they held the mutex. *)
Theorem store_updates_serialise opts ops s k :
  Forall op_fine ops -> reachable (init opts t0 ops) step s ->
  let rs := runs k (heap (sh s)) in
  Z.of_nat (length rs) = removals k (gone (sh s)) + (match index (sh s) !! k with Some _ => 1 | None => 0 end) /\
  Forall (fun r => exists t, t <= now (sh s) /\ serial t r.1 r.2) rs /\
  omap (answer_of k) (threads s) ≡ₚ (rs ≫= fun r => answered r.1) /\
  (forall a, index (sh s) !! k = Some a -> exists e, heap (sh s) !! a = Some e /\ (e_log e, e_state e) ∈ rs /\
     (removals k (gone (sh s)) = 0 -> omap (answer_of k) (threads s) ≡ₚ answered (e_log e))).
Proof.
  intros Ok R rs. destruct (updates_in_runs opts ops s k Ok R) as (N & Fs & An & _). fold rs in N, Fs, An.
  split_and!; [exact N|exact Fs|exact An|]. intros a Ha.
  destruct (k_index s (reachable_conc _ _ _ Ok R) k a Ha) as (e & He & Hk). exists e. split; [done|].
  assert (In : (e_log e, e_state e) ∈ rs) by (apply (proj2 (proj2 (runs_entries k (heap (sh s))))); by exists a, e).
  split; [done|]. intros Z. rewrite Z, Ha in N. rewrite An. destruct rs as [|r [|]]; cbn in N; try lia.
  apply list_elem_of_singleton in In as <-. cbn. by rewrite app_nil_r.
Qed.
End Store.

(** ** Schedules, executed *)

Inductive turn := Turn (i : nat) (ch : choice) | Wait (d : Z).

Section Runs.
Context {F : Type} (apply : F -> Z -> option BucketState -> bool * option BucketState).

Fixpoint run (s : system) (sched : list turn) : option system :=
  match sched with
  | [] => Some s
  | Wait d :: sched => if d <? 0 then None else run {| sh := later d (sh s); threads := threads s |} sched
  | Turn i ch :: sched =>
      match threads s !! i with
      | None => None
      | Some p =>
          match act apply ch (sh s) p with
          | None => None
          | Some (s', p') => run {| sh := s'; threads := <[i := p']> (threads s) |} sched
          end
      end
  end.

Lemma run_reaches I s sched t : reachable I (step apply) s -> run s sched = Some t -> reachable I (step apply) t.
Proof.
  revert s. induction sched as [|[i ch|d] sched IH]; cbn; intros s R E; [by injection E as <-|..].
  - destruct (threads s !! i) as [p|] eqn:L; [|done]. destruct (act apply ch (sh s) p) as [[s' p']|] eqn:A; [|done].
    refine (IH _ _ E). apply (reach_step _ _ _ _ R). destruct s. by eapply step_act.
  - destruct (Z.ltb_spec d 0); [done|]. refine (IH _ _ E). apply (reach_step _ _ _ _ R). destruct s. by apply step_time.
Qed.
End Runs.

(** [n] turns of a goroutine. *)
Definition turns (i n : nat) : list turn := replicate n (Turn i Go).

Module Demo.
(** Updates that add to the tokens of the bucket. *)
Definition add (n now : Z) (old : option BucketState) : bool * option BucketState :=
  (true, Some {| Tokens := fadd (match old with Some st => Tokens st | None => f_of_Z 0 end) (f_of_Z n); LastRefill := now |}).

Definition start (ops : list (op (F := Z))) : system := {| sh := fresh [] 0; threads := Entering <$> ops |}.

Definition bucket (k : string) (s : system (F := Z)) : option BucketState :=
  match index (sh s) !! k with Some a => match heap (sh s) !! a with Some e => e_state e | None => None end | None => None end.

(** Two goroutines create the key's entry at once; the second adds to the
    first one's. *)
Definition both : list (op (F := Z)) := [OpUpdate Background "k" 1; OpUpdate Background "k" 2].
Definition racing : list turn := turns 0 3 ++ turns 1 4 ++ turns 0 1 ++ turns 1 4 ++ turns 0 5.

Lemma store_updates_serialise_witness :
  exists s, run add (start both) racing = Some s /\ threads s = [Returned (Updated "k" 1 true); Returned (Updated "k" 2 true)] /\
    bucket "k" s = Some {| Tokens := f_of_Z 3; LastRefill := 0 |} /\
    exists e, heap (sh s) !! 0%nat = Some e /\ omap (answer_of "k") (threads s) ≡ₚ answered (e_log e).
Proof.
  assert (T : match run add (start both) racing with
              | Some s => threads s = [Returned (Updated "k" 1 true); Returned (Updated "k" 2 true)] /\
                  bucket "k" s = Some {| Tokens := f_of_Z 3; LastRefill := 0 |} /\
                  index (sh s) !! "k"%string = Some 0%nat /\ gone (sh s) = []
              | None => False
              end) by (vm_compute; split_and!; reflexivity).
  destruct (run add (start both) racing) as [s|] eqn:E; [|destruct T].
  exists s. assert (R : reachable (init [] 0 both) (step add) s) by (eapply run_reaches; [by apply reach_init|exact E]).
  destruct T as (T & B & X & G). split; [done|]. split; [exact T|]. split; [exact B|].
  destruct (store_updates_serialise add (fun _ => True) 0 [] both s "k") as (_ & _ & _ & Q);
    [repeat constructor|exact R|].
  destruct (Q _ X) as (e & He & _ & A). exists e. split; [exact He|]. apply A. by rewrite G.
Defined.

(** Where a schedule leads. *)
Definition play (s : system (F := Z)) (sched : list turn) : system := default s (run add s sched).

(** An update that loaded its entry before [Delete] removed it updates an
    entry that is no longer in the map.  Here [Delete] has returned, then two
    updates are answered, of 2 and of 4; the bucket shows 4. *)
Definition orphaned : system := start
  [OpUpdate Background "k" 1; OpDelete Background "k"; OpUpdate Background "k" 2; OpUpdate Background "k" 4].
Definition to_delete : list turn := turns 0 8 ++ turns 2 2 ++ turns 1 5.
Definition to_updates : list turn := turns 3 8 ++ turns 2 4.

Lemma orphan_update_is_lost :
  let s1 := play orphaned to_delete in let s2 := play s1 to_updates in
  run add orphaned to_delete = Some s1 /\ run add s1 to_updates = Some s2 /\
  threads s1 !! 1%nat = Some (Returned Done) /\ bucket "k" s1 = None /\ omap (answer_of "k") (threads s1) = [(1, true)] /\
  omap (answer_of "k") (threads s2) = [(1, true); (2, true); (4, true)] /\
  bucket "k" s2 = Some {| Tokens := f_of_Z 4; LastRefill := 0 |}.
Proof. vm_compute. repeat split. Qed.

(** [cleanup] locks the stale entry it found and checks its age again, but it
    then removes the key's entry, whichever that is by now.  Here the stale
    entry was deleted and the key used again in the meantime: the bucket that is
    removed was updated at that very instant. *)
Definition swept : system := start
  [OpUpdate Background "k" 1; OpDelete Background "k"; OpCleanup; OpUpdate Background "k" 2].
Definition to_reuse : list turn :=
  turns 0 8 ++ [Wait (2 * Hour); Turn 2 Go; Turn 2 (Pick "k"); Turn 2 Go] ++ turns 1 5 ++ turns 3 8.

Lemma cleanup_removes_fresh_bucket :
  let s1 := play swept to_reuse in let s2 := play s1 (turns 2 3) in
  run add swept to_reuse = Some s1 /\ run add s1 (turns 2 3) = Some s2 /\ now (sh s2) = now (sh s1) /\
  bucket "k" s1 = Some {| Tokens := f_of_Z 2; LastRefill := now (sh s1) |} /\ bucket "k" s2 = None.
Proof. vm_compute. repeat split. Qed.
End Demo.
