(* ===== verification/RateLimiter.v ===== *)
(** The token-bucket rate limiter ([ratelimit/limiter.go], [config.go],
    [errors.go]), against any [Store] that keeps the contract
    [LawfulStore].

    - [refill], [consume] are the bucket's arithmetic, in [float64]; the
      operations of the interface follow, one Definition each.
    - [token_bucket_rate] bounds what a bucket grants; [take_spec],
      [wait_spec] and [execute_spec] are what the operations promise.

    Callbacks and metrics are arbitrary computations (a panic in a callback is
    recovered by [safeCallback]: the callback then is a computation that
    stopped there).  The log records, which [sanitizeLogKey] guards, are in
    [Logs].  [oob] is the result of the conversion of a [float64] out of
    the range of [int64]. *)

From Stdlib Require Import QArith Qabs Lqa Ascii.
From S2P Require Import Prelude Float64 Errors Runtime RateStore.

#[local] Open Scope Z_scope.
#[local] Open Scope go_scope.

(** ** Constants *)

Definition maxElapsed : Z := Hour.
Definition defaultMinWaitDuration : Z := 10 * Millisecond.
Definition defaultMaxWaitDuration : Z := 100 * Millisecond.
Definition floatEpsilon : f64 := f_ratio 1 10000.
Definition maxWaitTimeLimit : Z := 24 * Hour.
Definition defaultMaxWaitIterations : nat := Z.to_nat 10000.
Definition defaultMaxTotalWaitTime : Z := 5 * Minute.

Definition DefaultRate : Z := 100.
Definition MaxRate : Z := 1000000.
Definition MaxBurst : Z := 1000000.
Definition MinInterval : Z := Millisecond.
Definition MaxInterval : Z := 24 * Hour.
Definition DefaultMaxTokensMultiplier : Z := 10.
Definition MaxMaxTokensPerRequest : Z := 10000000.

(** ** Configuration *)

Record Metrics (W : Type) := {
  m_OnAllow : ctx -> string -> M W unit;
  m_OnDeny : ctx -> string -> M W unit;
  m_OnError : ctx -> string -> error -> M W unit;
  m_OnStoreLatency : ctx -> string -> Z -> M W unit
}.

Arguments m_OnAllow {W}.
Arguments m_OnDeny {W}.
Arguments m_OnError {W}.
Arguments m_OnStoreLatency {W}.

Record Config (W : Type) := {
  KeyFunc : option (ctx -> string -> string);
  OnAllow : option (ctx -> string -> M W unit);
  OnLimit : option (ctx -> string -> M W unit);
  cfg_Metrics : option (Metrics W);
  cfg_Store : option (Store W);
  Interval : Z;
  Rate : Z;
  Burst : Z;
  MaxTokensPerRequest : Z;
  FailOpen : bool
}.

Arguments KeyFunc {W}.
Arguments OnAllow {W}.
Arguments OnLimit {W}.
Arguments cfg_Metrics {W}.
Arguments cfg_Store {W}.
Arguments Interval {W}.
Arguments Rate {W}.
Arguments Burst {W}.
Arguments MaxTokensPerRequest {W}.
Arguments FailOpen {W}.

(** [NewMemoryStore()] in the world of the caller is an argument. *)
Definition setDefaults {W} (NewMemoryStore : Store W) (c : Config W) : Config W :=
  let rate := if Rate c <=? 0 then DefaultRate else Rate c in
  let rate := if rate >? MaxRate then MaxRate else rate in
  let burst := if Burst c <=? 0 then rate else Burst c in
  let burst := if burst >? MaxBurst then MaxBurst else burst in
  let interval := if Interval c <=? 0 then Second else Interval c in
  let interval := if interval <? MinInterval then MinInterval else interval in
  let interval := if interval >? MaxInterval then MaxInterval else interval in
  let maxTokens :=
    if MaxTokensPerRequest c <=? 0 then i64 (burst * DefaultMaxTokensMultiplier) else MaxTokensPerRequest c in
  let maxTokens := if maxTokens >? MaxMaxTokensPerRequest then MaxMaxTokensPerRequest else maxTokens in
  {| KeyFunc := KeyFunc c; OnAllow := OnAllow c; OnLimit := OnLimit c; cfg_Metrics := cfg_Metrics c;
     cfg_Store := Some match cfg_Store c with Some s => s | None => NewMemoryStore end;
     Interval := interval; Rate := rate; Burst := burst; MaxTokensPerRequest := maxTokens;
     FailOpen := FailOpen c |}.

(** The limiter: what does not change after [New].  [closed] is in the world. *)
Record rateLimiter (W : Type) := {
  config : Config W;
  store : Store W;
  intervalNs : Z;
  burstFloat : f64;
  rateFloat : f64
}.

Arguments config {W}.
Arguments store {W}.
Arguments intervalNs {W}.
Arguments burstFloat {W}.
Arguments rateFloat {W}.

Record Closed := { is_closed : bool }.

Definition New {W} (NewMemoryStore : Store W) (c : Config W) : rateLimiter W :=
  let c := setDefaults NewMemoryStore c in
  {| config := c; store := match cfg_Store c with Some s => s | None => NewMemoryStore end;
     intervalNs := Interval c; burstFloat := f_of_Z (Burst c); rateFloat := f_of_Z (Rate c) |}.

(** ** [sanitizeLogKey] *)

(** [c < 32 || c == 127] on a byte. *)
Definition control (c : ascii) : bool :=
  let n := N_of_ascii c in ((n <? 32) || (n =? 127))%N.

Definition sanitize_byte (c : ascii) : ascii := if control c then "_"%char else c.

(** The slow path: the bytes before [startIdx] are copied. *)
Fixpoint sanitizeLogKeySlow (key : string) (startIdx : nat) : string :=
  match key, startIdx with
  | EmptyString, _ => EmptyString
  | String c key, S i => String c (sanitizeLogKeySlow key i)
  | String c key, O => String (sanitize_byte c) (sanitizeLogKeySlow key O)
  end.

(** The index of the first control character. *)
Fixpoint first_control (key : string) : option nat :=
  match key with
  | EmptyString => None
  | String c key => if control c then Some O else S <$> first_control key
  end.

Definition sanitizeLogKey (key : string) : string :=
  match first_control key with
  | Some i => sanitizeLogKeySlow key i
  | None => key
  end.

(** ** The bucket *)

Section Bucket.
Context {W : Type} (rl : rateLimiter W).

Definition interval_ns : Z := if intervalNs rl <=? 0 then Second else intervalNs rl.

(** [tokensToAdd] for a capped elapsed time. *)
Definition tokensToAdd (elapsed : Z) : f64 :=
  let add := fmul (fdiv (f_of_Z elapsed) (f_of_Z interval_ns)) (rateFloat rl) in
  let add := if fltb (burstFloat rl) add then burstFloat rl else add in
  if isNaN add || isInf add then burstFloat rl else add.

Definition refill (state : BucketState) (now : Z) : BucketState :=
  let elapsed := time_Sub now (LastRefill state) in
  if elapsed <=? 0 then state
  else
    let elapsed := if elapsed >? maxElapsed then maxElapsed else elapsed in
    let add := tokensToAdd elapsed in
    if fltb add floatEpsilon then state
    else
      let newTokens := fadd (Tokens state) add in
      let newTokens := if fltb (burstFloat rl) newTokens then burstFloat rl else newTokens in
      if fleb (burstFloat rl) (Tokens state) && fleb (burstFloat rl) newTokens
      then {| Tokens := burstFloat rl; LastRefill := now |}
      else {| Tokens := newTokens; LastRefill := now |}.

(** The function [tryConsume] gives to the store, at [now]. *)
Definition consume (tokensNeeded : Z) (now : Z) (state : option BucketState) : bool * BucketState :=
  let state := match state with
               | Some s => s
               | None => {| Tokens := f_of_Z (Burst (config rl)); LastRefill := now |}
               end in
  let state := refill state now in
  let tokensRequired := f_of_Z tokensNeeded in
  if fleb tokensRequired (Tokens state)
  then (true, {| Tokens := fsub (Tokens state) tokensRequired; LastRefill := LastRefill state |})
  else (false, state).

(** [calculateWaitTime] on the state the store returned, at [now]. *)
Definition wait_estimate (oob : Z) (state : BucketState) (now : Z) : Z :=
  let elapsed := time_Sub now (LastRefill state) in
  let elapsed := if elapsed <=? 0 then 0 else elapsed in
  let elapsed := if elapsed >? maxElapsed then maxElapsed else elapsed in
  let currentTokens := fadd (Tokens state) (tokensToAdd elapsed) in
  let currentTokens := if fltb (burstFloat rl) currentTokens then burstFloat rl else currentTokens in
  if fleb (f_of_Z 1) currentTokens then 0
  else
    let tokensNeeded := fsub (f_of_Z 1) currentTokens in
    if fleb tokensNeeded (f_of_Z 0) then 0
    else if Rate (config rl) <=? 0 then maxWaitTimeLimit
    else
      let tokensPerNs := fdiv (rateFloat rl) (f_of_Z interval_ns) in
      if fleb tokensPerNs (f_of_Z 0) then maxWaitTimeLimit
      else
        let nsToWait := fdiv tokensNeeded tokensPerNs in
        if fltb nsToWait (f_of_Z 0) then 0
        else
          let wait := f_to_int64 oob nsToWait in
          if wait >? maxWaitTimeLimit then maxWaitTimeLimit else wait.
End Bucket.

(** ** The operations *)

Section Ops.
Context {W : Type} `{Has W Closed} (oob : Z) (rl : rateLimiter W).

Definition closed_load : M W bool := fun w => (is_closed (get w), w).

Definition resolveKey (c : ctx) (key : string) : string :=
  match KeyFunc (config rl) with Some f => f c key | None => key end.

Definition when_metrics (f : Metrics W -> M W unit) : M W unit :=
  match cfg_Metrics (config rl) with Some m => f m | None => ret tt end.

Definition callback (cb : option (ctx -> string -> M W unit)) (c : ctx) (key : string) : M W unit :=
  match cb with Some f => f c key | None => ret tt end.

Definition handleError (c : ctx) (key : string) (err : error) : M W bool :=
  when_metrics (fun m => m_OnError m c key err) ;;;
  ret (FailOpen (config rl)).

Definition tryConsume (c : ctx) (key : string) (tokensNeeded : Z) : M W (bool * option error) :=
  AtomicUpdate (store rl) c key (fun state =>
    let! now := time_Now in
    let '(allowed, state) := consume rl tokensNeeded now state in
    ret (allowed, Some state)).

Definition calculateWaitTime (c : ctx) (key : string) : M W Z :=
  let! r := Get (store rl) c key in
  match r with
  | (Some state, None) => let! now := time_Now in ret (wait_estimate rl oob state now)
  | _ => ret 0
  end.

(** The notifications of a grant and of a denial. *)
Definition notify_allow (c : ctx) (key : string) : M W unit :=
  when_metrics (fun m => m_OnAllow m c key) ;;; callback (OnAllow (config rl)) c key.

Definition notify_deny (c : ctx) (key : string) : M W unit :=
  when_metrics (fun m => m_OnDeny m c key) ;;; callback (OnLimit (config rl)) c key.

(** [tryConsume] with its latency measured, when there are metrics. *)
Definition timed_consume (op : string) (c : ctx) (key : string) (n : Z) : M W (bool * option error) :=
  match cfg_Metrics (config rl) with
  | None => tryConsume c key n
  | Some m =>
      let! start := time_Now in
      let! r := tryConsume c key n in
      let! now := time_Now in
      m_OnStoreLatency m c op (time_Sub now start) ;;;
      ret r
  end.

Definition Allow (c : ctx) (key : string) : M W bool :=
  let! closed := closed_load in
  if closed then ret false
  else
    let key := resolveKey c key in
    let! r := timed_consume "allow" c key 1 in
    match r.2 with
    | Some err =>
        let! failOpen := handleError c key err in
        if failOpen then notify_allow c key ;;; ret true else ret false
    | None =>
        if r.1 then notify_allow c key ;;; ret true
        else notify_deny c key ;;; ret false
    end.

Definition Take (c : ctx) (key : string) (tokens : Z) : M W bool :=
  let! closed := closed_load in
  if closed then ret false
  else if tokens <=? 0 then ret false
  else if tokens >? MaxTokensPerRequest (config rl) then ret false
  else
    let key := resolveKey c key in
    let! r := timed_consume "take" c key tokens in
    match r.2 with
    | Some err =>
        let! failOpen := handleError c key err in
        if failOpen && (tokens >? Burst (config rl)) then notify_deny c key ;;; ret false
        else if failOpen then notify_allow c key ;;; ret true
        else ret false
    | None =>
        if r.1 then notify_allow c key ;;; ret true
        else notify_deny c key ;;; ret false
    end.

(** A grant inside [Wait]. *)
Definition wait_granted (c : ctx) (key : string) (start : Z) : M W (option error) :=
  (match cfg_Metrics (config rl) with
   | Some m => let! now := time_Now in m_OnStoreLatency m c "wait" (time_Sub now start) ;;; m_OnAllow m c key
   | None => ret tt
   end) ;;;
  callback (OnAllow (config rl)) c key ;;;
  ret None.

Definition wait_duration (d : Z) : Z :=
  let d := if d <=? 0 then defaultMinWaitDuration else d in
  if d >? defaultMaxWaitDuration then defaultMaxWaitDuration else d.

(** The loop of [Wait]; [iterations] are those left before the code's own
    limit. *)
Fixpoint wait_loop (iterations : nat) (c : ctx) (key : string) (start : Z) : M W (option error) :=
  match iterations with
  | O => ret (Some (ESentinel ErrWaitTimeout))
  | S iterations =>
      let! now := time_Now in
      if time_Sub now start >? defaultMaxTotalWaitTime then ret (Some (ESentinel ErrWaitTimeout))
      else
        let! cerr := err_of c in
        match cerr with
        | Some err => ret (Some err)
        | None =>
            let! r := tryConsume c key 1 in
            let! opened := match r.2 with Some err => handleError c key err | None => ret false end in
            if opened || r.1 then wait_granted c key start
            else
              let! d := calculateWaitTime c key in
              let! e := select_timer (wait_duration d) c in
              match e with
              | Some err => ret (Some err)
              | None => wait_loop iterations c key start
              end
        end
  end.

Definition Wait (c : ctx) (key : string) : M W (option error) :=
  let! closed := closed_load in
  if closed then ret (Some (ESentinel ErrRateLimiterClosed))
  else
    let! start := time_Now in
    wait_loop defaultMaxWaitIterations c (resolveKey c key) start.

Definition limitError (c : ctx) (resolvedKey : string) : M W (option error) :=
  let! retryAfter := calculateWaitTime c resolvedKey in
  ret (Some (ELimit (sanitizeLogKey resolvedKey) retryAfter)).

Definition Execute (c : ctx) (key : string) (operation : M W (option error)) : M W (option error) :=
  let! closed := closed_load in
  if closed then ret (Some (ESentinel ErrRateLimiterClosed))
  else
    let! ok := Allow c key in
    if negb ok then limitError c (resolveKey c key) else operation.

Definition ExecuteN (c : ctx) (key : string) (tokens : Z) (operation : M W (option error)) : M W (option error) :=
  let! closed := closed_load in
  if closed then ret (Some (ESentinel ErrRateLimiterClosed))
  else if tokens <=? 0 then ret (Some (ESentinel ErrInvalidTokenCount))
  else if tokens >? MaxTokensPerRequest (config rl) then ret (Some (ESentinel ErrExcessiveTokens))
  else
    let! ok := Take c key tokens in
    if negb ok then limitError c (resolveKey c key) else operation.

Definition Reset (c : ctx) : M W (option error) :=
  let! closed := closed_load in
  if closed then ret (Some (ESentinel ErrRateLimiterClosed))
  else
    let! e := err_of c in
    match e with
    | Some err => ret (Some err)
    | None => match Resetter (store rl) with Some r => r c | None => ret None end
    end.

Definition HealthCheck (c : ctx) : M W (option error) :=
  let! closed := closed_load in
  if closed then ret (Some (ESentinel ErrRateLimiterClosed))
  else match RateStore.HealthCheck (store rl) with Some h => h c | None => ret None end.

Definition BucketCount : M W Z :=
  let! closed := closed_load in
  if closed then ret (-1)
  else match BucketCounter (store rl) with Some b => b | None => ret (-1) end.

Definition Close : M W (option error) :=
  let! closed := closed_load in
  if closed then ret None
  else (fun w => (tt, put {| is_closed := true |} w)) ;;; RateStore.Close (store rl).
End Ops.

(** ** The configuration after [New] *)

(** What [setDefaults] establishes and the arithmetic relies on. *)
Record valid {W} (rl : rateLimiter W) : Prop := {
  valid_interval : MinInterval <= intervalNs rl <= MaxInterval;
  valid_rate : 1 <= Rate (config rl) <= MaxRate;
  valid_burst : 1 <= Burst (config rl) <= MaxBurst;
  valid_max : 1 <= MaxTokensPerRequest (config rl) <= MaxMaxTokensPerRequest;
  valid_rateFloat : rateFloat rl = f_of_Z (Rate (config rl));
  valid_burstFloat : burstFloat rl = f_of_Z (Burst (config rl))
}.

Lemma default_cap v d hi :
  1 <= d <= hi ->
  let x := if v <=? 0 then d else v in let y := if x >? hi then hi else x in
  1 <= y <= hi /\ (1 <= v <= hi -> y = v).
Proof. intros. subst x y. zcases; lia. Qed.

Lemma clamp_interval v :
  let x := if v <=? 0 then Second else v in
  let x := if x <? MinInterval then MinInterval else x in
  let y := if x >? MaxInterval then MaxInterval else x in
  MinInterval <= y <= MaxInterval /\ (MinInterval <= v <= MaxInterval -> y = v).
Proof. unfold MinInterval, MaxInterval, Second, Millisecond, Hour, Minute, Second. cbv zeta. zcases; lia. Qed.

Lemma New_lemma {W} (ms : Store W) (c : Config W) : valid (New ms c).
Proof.
  destruct (default_cap (Rate c) DefaultRate MaxRate ltac:(done)) as [R1 R2].
  set (r := if _ >? MaxRate then _ else _) in R1, R2.
  destruct (default_cap (Burst c) r MaxBurst ltac:(unfold MaxBurst, MaxRate in *; lia)) as [B1 B2].
  set (b := if _ >? MaxBurst then _ else _) in B1, B2.
  assert (D : i64 (b * DefaultMaxTokensMultiplier) = b * DefaultMaxTokensMultiplier).
  { apply i64_small. unfold MaxBurst, DefaultMaxTokensMultiplier in *. lia. }
  destruct (default_cap (MaxTokensPerRequest c) (i64 (b * DefaultMaxTokensMultiplier)) MaxMaxTokensPerRequest) as [M1 M2].
  { rewrite D. unfold MaxBurst, DefaultMaxTokensMultiplier, MaxMaxTokensPerRequest in *. lia. }
  split; [apply (clamp_interval (Interval c))|done..].
Qed.

(** C40: Whatever configuration [New] is given, the limiter it builds has an
    interval between 1ms and 24h, a rate and a burst between 1 and 1000000, a
    positive maximum per request of at most 10000000 (no overflow), and
    values already in range are kept. *)
Theorem New_valid {W} (ms : Store W) (c : Config W) :
  let rl := New ms c in
  valid rl /\
  (MinInterval <= Interval c <= MaxInterval -> intervalNs rl = Interval c) /\
  (1 <= Rate c <= MaxRate -> Rate (config rl) = Rate c) /\
  (1 <= Burst c <= MaxBurst -> Burst (config rl) = Burst c) /\
  (1 <= MaxTokensPerRequest c <= MaxMaxTokensPerRequest ->
   MaxTokensPerRequest (config rl) = MaxTokensPerRequest c).
Proof.
  split; [apply New_lemma|]. split; [apply clamp_interval|]. split; [by apply default_cap|].
  pose proof (default_cap (Rate c) DefaultRate MaxRate ltac:(done)) as [R1 _].
  split; [by apply default_cap|].
  pose proof (default_cap (Burst c) _ MaxBurst R1) as [B1 _]. apply default_cap.
  set (b := if _ >? MaxBurst then _ else _) in B1. fold b.
  unfold MaxBurst, DefaultMaxTokensMultiplier, MaxMaxTokensPerRequest in *. rewrite i64_small; lia.
Qed.

(** ** The arithmetic of the bucket *)

Section Arithmetic.
Open Scope Q_scope.
Context {W : Type} (rl : rateLimiter W) (V : valid rl).

(** The nominal rate, in tokens per nanosecond, and the factor that covers
    the rounding of the quotient and of the product. *)
Definition rate : Q := inject_Z (Rate (config rl)) / inject_Z (intervalNs rl).
Definition slack : Q := 1 + pow2 (-51).

(** The capacity. *)
Definition cap : Q := inject_Z (Burst (config rl)).

Lemma inject_bounds a b c : (a <= b <= c)%Z -> inject_Z a <= inject_Z b <= inject_Z c.
Proof. rewrite <- 2 Zle_Qle. lia. Qed.

Lemma inject_le a b : (a <= b)%Z -> inject_Z a <= inject_Z b.
Proof. by rewrite <- Zle_Qle. Qed.

Lemma valid_Q :
  1000000 <= inject_Z (intervalNs rl) <= 86400000000000 /\
  1 <= inject_Z (Rate (config rl)) <= 1000000 /\ 1 <= cap <= 1000000.
Proof.
  destruct V as [I R B _ _ _]. unfold cap, MinInterval, MaxInterval, MaxRate, MaxBurst, Hour, Minute, Second, Millisecond in *.
  split; [|split]; [exact (inject_bounds _ _ _ I) | exact (inject_bounds _ _ _ R) | exact (inject_bounds _ _ _ B)].
Qed.

Lemma interval_ns_eq : interval_ns rl = intervalNs rl.
Proof. unfold interval_ns. pose proof (valid_interval _ V). unfold MinInterval, Millisecond in *. zcases; lia. Qed.

Lemma rate_pos : 0 < rate.
Proof. destruct valid_Q as (I & R & _). unfold rate. apply Qlt_shift_div_l; lra. Qed.

Lemma burst_eq : burstFloat rl = FFin cap.
Proof.
  rewrite (valid_burstFloat _ V). apply f_of_Z_exact. pose proof (valid_burst _ V). unfold MaxBurst in *. lia.
Qed.

Lemma pow2_consts :
  pow2 (-53) == 1 # 9007199254740992 /\ pow2 (-51) == 1 # 2251799813685248 /\ pow2 (-32) == 1 # 4294967296.
Proof. repeat split; vm_compute; reflexivity. Qed.

(** What a refill adds: at most the nominal rate times the elapsed time, up to
    [slack], and at least that much less, unless the capacity is reached. *)
Lemma tokensToAdd_spec e :
  (0 < e <= maxElapsed)%Z ->
  exists a, tokensToAdd rl e = FFin a /\ 0 <= a <= cap /\
    a <= rate * slack * inject_Z e /\
    (a == cap \/ rate * inject_Z e * (1 - pow2 (-51)) <= a).
Proof.
  intros E. destruct valid_Q as (I & R & B). destruct pow2_consts as (P53 & P51 & _).
  assert (Ee : 1 <= inject_Z e <= 3600000000000).
  { unfold maxElapsed, Hour, Minute, Second in E.
    apply (inject_bounds 1 e 3600000000000). lia. }
  unfold tokensToAdd. rewrite interval_ns_eq, burst_eq, (valid_rateFloat _ V).
  pose proof (valid_interval _ V). pose proof (valid_rate _ V).
  unfold MinInterval, MaxInterval, MaxRate, maxElapsed, Hour, Minute, Second, Millisecond in *.
  rewrite fdiv_Z by lia. set (x := inject_Z e / inject_Z (intervalNs rl)).
  assert (X : x * inject_Z (intervalNs rl) == inject_Z e) by (unfold x; field; lra).
  assert (X1 : x <= 3600000) by (unfold x; apply Qle_shift_div_r; lra).
  assert (X0 : 1 # 86400000000000 <= x) by (unfold x; apply Qle_shift_div_l; lra).
  assert (L1 : pow2 (-1000) <= 1 # 86400000000000000000000000).
  { apply Qle_trans with (pow2 (-90)); [apply pow2_le; lia|]. vm_compute. discriminate. }
  assert (U1 : 10000000000000000 < pow2 1000).
  { apply Qlt_le_trans with (pow2 60); [vm_compute; reflexivity|apply pow2_le; lia]. }
  destruct (rnd_rel x) as (r & Er & R1 & R2); [lra|lra|]. rewrite Er, f_of_Z_exact by lia.
  cbn [fmul]. assert (r0 : 1 # 86400000000000000 <= r) by (rewrite P53 in *; lra).
  assert (r1 : r <= 4000000) by (rewrite P53 in *; lra).
  assert (rr : r <= r * inject_Z (Rate (config rl)) <= r * 1000000) by nra.
  destruct (rnd_rel (r * inject_Z (Rate (config rl)))) as (a & Ea & A1 & A2); [lra|lra|]. rewrite Ea.
  assert (S : rate * inject_Z e == x * inject_Z (Rate (config rl))).
  { unfold rate. rewrite <- X. field. lra. }
  assert (F1 : a <= rate * inject_Z e * slack /\ rate * inject_Z e * (1 - pow2 (-51)) <= a /\ 0 <= a).
  { rewrite S. set (k := inject_Z (Rate (config rl))) in *. unfold slack. rewrite P53, P51 in *. clear - A1 A2 R1 R2 R X0 r0.
    assert (K1 : r * k <= x * (1 + (1 # 9007199254740992)) * k) by nra.
    assert (K2 : x * (1 - (1 # 9007199254740992)) * k <= r * k) by nra.
    assert (K3 : 0 < x * k) by nra. split; [|split]; lra. }
  clear A1 A2. destruct F1 as (F1 & F2 & F0). unfold fltb. cbn [fleb isNaN isInf orb].
  destruct (Qle_bool a cap) eqn:C; cbn [negb].
  - apply Qle_bool_iff in C. exists a. split; [done|]. split; [lra|]. split; [lra|]. right. exact F2.
  - apply Qle_bool_false in C. exists cap. cbn [isNaN isInf orb]. split; [done|]. split; [lra|]. split; [lra|]. left. reflexivity.
Qed.

(** A state in range. *)
Definition in_range (s : BucketState) (t : Q) : Prop := Tokens s = FFin t /\ 0 <= t <= cap.

Lemma refill_spec s t now :
  in_range s t ->
  exists t', in_range (refill rl s now) t' /\
    (LastRefill s <= LastRefill (refill rl s now) <= Z.max now (LastRefill s))%Z /\
    t' <= t + rate * slack * inject_Z (LastRefill (refill rl s now) - LastRefill s) + pow2 (-32).
Proof.
  intros [T B]. destruct valid_Q as (I & R & C). destruct pow2_consts as (P53 & P51 & P32). pose proof rate_pos as RP.
  assert (SP : 0 < rate * slack) by (unfold slack; rewrite P51; nra).
  assert (Same : exists t', in_range s t' /\ (LastRefill s <= LastRefill s <= Z.max now (LastRefill s))%Z /\
    t' <= t + rate * slack * inject_Z (LastRefill s - LastRefill s) + pow2 (-32)).
  { exists t. split; [done|]. split; [lia|]. rewrite Z.sub_diag, P32. change (inject_Z 0) with 0. lra. }
  unfold refill. destruct (Z.leb_spec (time_Sub now (LastRefill s)) 0) as [|L]; [exact Same|].
  set (e := if _ >? maxElapsed then _ else _).
  assert (E : (0 < e <= maxElapsed /\ e <= now - LastRefill s)%Z).
  { unfold e. unfold time_Sub, MaxInt64, maxElapsed, Hour, Minute, Second in *. zcases; lia. }
  clearbody e. destruct (tokensToAdd_spec e) as (a & -> & A & A1 & _); [lia|].
  destruct (fltb (FFin a) floatEpsilon); [exact Same|].
  rewrite T, burst_eq. cbn [fadd fleb].
  destruct (rnd_abs (t + a) 21) as (v & Ev & V0 & V1 & V2);
    [lra|apply Qle_lt_trans with 2000000; [lra|vm_compute; reflexivity]|lia|].
  change (21 - 53)%Z with (-32)%Z in *. rewrite Ev, P32 in *.
  assert (D : rate * slack * inject_Z e <= rate * slack * inject_Z (now - LastRefill s)).
  { apply Qmult_le_l; [exact SP|]. rewrite <- Zle_Qle. lia. }
  unfold fltb. cbn [fleb]. destruct (Qle_bool v cap) eqn:Cv; cbn [negb].
  - apply Qle_bool_iff in Cv. exists (if Qle_bool cap t && Qle_bool cap v then cap else v).
    cbn [fleb]. destruct (Qle_bool cap t && Qle_bool cap v) eqn:CC; cbn [LastRefill].
    + apply andb_prop in CC as [CC _]. apply Qle_bool_iff in CC.
      split; [split; [done|lra]|]. split; [lia|]. lra.
    + split; [split; [done|lra]|]. split; [lia|]. lra.
  - apply Qle_bool_false in Cv. exists cap.
    match goal with |- context [if ?b then _ else _] => destruct b end; cbn [LastRefill];
      (split; [split; [done|lra]|]; split; [lia|]; lra).
Qed.

(** What a bucket has granted by [t1], since [t0], in [calls] calls. *)
Definition ledger (granted : Z) (calls : nat) (t0 t1 : Z) (o : option BucketState) : Prop :=
  match o with
  | None => (granted <= 0)%Z
  | Some s => exists t, in_range s t /\ (t0 <= LastRefill s <= t1)%Z /\
      inject_Z granted + t <=
        cap + rate * slack * inject_Z (LastRefill s - t0) + inject_Z (Z.of_nat calls) * pow2 (-31)
  end.

Lemma in_range_fresh now : in_range {| Tokens := f_of_Z (Burst (config rl)); LastRefill := now |} cap.
Proof.
  destruct valid_Q as (_ & _ & C). split; [|lra]. cbn [Tokens]. rewrite <- (valid_burstFloat _ V). apply burst_eq.
Qed.

Lemma consume_spec n now o granted calls t0 t1 :
  (1 <= n <= 10000000)%Z -> (t0 <= now)%Z -> (t1 <= now)%Z ->
  ledger granted calls t0 t1 o ->
  let '(ok, s) := consume rl n now o in
  ledger (granted + if ok then n else 0) (S calls) t0 now (Some s).
Proof.
  intros N T0 T1 L. destruct valid_Q as (I & R & C). destruct pow2_consts as (_ & P51 & P32).
  pose proof rate_pos as RP. assert (SP : 0 < rate * slack) by (unfold slack; rewrite P51; nra).
  assert (P31 : pow2 (-31) == 2 # 4294967296) by (vm_compute; reflexivity).
  unfold consume. set (s0 := match o with Some s => s | None => _ end).
  assert (L0 : exists t, in_range s0 t /\ (t0 <= LastRefill s0 <= now)%Z /\ inject_Z granted + t <=
      cap + rate * slack * inject_Z (LastRefill s0 - t0) + inject_Z (Z.of_nat calls) * pow2 (-31)).
  { unfold s0. destruct o as [s|]; cbn [ledger] in L.
    - destruct L as (t & ? & ? & ?). exists t. split; [done|]. split; [lia|done].
    - exists cap. split; [apply in_range_fresh|]. cbn [LastRefill]. split; [lia|].
      assert (inject_Z granted <= 0) by (apply (inject_le granted 0); lia).
      assert (0 <= inject_Z (now - t0)) by (apply (inject_le 0); lia).
      assert (0 <= inject_Z (Z.of_nat calls)) by (apply (inject_le 0); lia). rewrite P31. nra. }
  clearbody s0. destruct L0 as (t & Rt & Bt & Gt).
  destruct (refill_spec s0 t now Rt) as (t' & [T' Rt'] & B' & G'). set (s := refill rl s0 now) in *. clearbody s.
  assert (G1 : inject_Z granted + t' <= cap + rate * slack * inject_Z (LastRefill s - t0)
                + inject_Z (Z.of_nat calls) * pow2 (-31) + pow2 (-32)).
  { replace (LastRefill s - t0)%Z with ((LastRefill s - LastRefill s0) + (LastRefill s0 - t0))%Z by lia.
    rewrite inject_Z_plus. lra. }
  assert (K : inject_Z (Z.of_nat (S calls)) == inject_Z (Z.of_nat calls) + 1).
  { rewrite Nat2Z.inj_succ. unfold Z.succ. rewrite inject_Z_plus. reflexivity. }
  rewrite T'. rewrite f_of_Z_exact by lia. cbn [fleb]. destruct (Qle_bool (inject_Z n) t') eqn:F; cbn [ledger].
  - apply Qle_bool_iff in F. unfold fsub, fneg, fadd.
    assert (N1 : 1 <= inject_Z n) by (apply (inject_le 1); lia).
    assert (E : t' + Qred (- inject_Z n) == t' - inject_Z n) by (rewrite Qred_correct; ring).
    rewrite (rnd_proper _ _ E).
    destruct (rnd_abs (t' - inject_Z n) 21) as (v & Ev & V0 & V1 & V2);
      [lra|apply Qle_lt_trans with 1000000; [lra|vm_compute; reflexivity]|lia|].
    change (21 - 53)%Z with (-32)%Z in *. rewrite Ev. rewrite P32 in *.
    assert (Vc : v <= cap).
    { assert (M : fleb (rnd (t' - inject_Z n)) (rnd cap) = true) by (apply rnd_mono; lra).
      rewrite Ev in M. change (rnd cap) with (f_of_Z (Burst (config rl))) in M.
      rewrite <- (valid_burstFloat _ V), burst_eq in M. cbn in M. by apply Qle_bool_iff in M. }
    exists v. cbn [Tokens LastRefill]. split; [split; [done|lra]|]. split; [lia|].
    rewrite inject_Z_plus, K, P31 in *. lra.
  - exists t'. split; [split; [done|lra]|]. split; [lia|].
    rewrite Z.add_0_r, K, P31, P32 in *. lra.
Qed.

(** The ledger bounds what was granted. *)
Lemma ledger_bound granted calls t0 t1 o :
  (t0 <= t1)%Z -> ledger granted calls t0 t1 o ->
  inject_Z granted <= cap + rate * slack * inject_Z (t1 - t0) + inject_Z (Z.of_nat calls) * pow2 (-31).
Proof.
  intros T L. destruct valid_Q as (_ & _ & C). destruct pow2_consts as (_ & P51 & P32). pose proof rate_pos as RP.
  assert (SP : 0 < rate * slack) by (unfold slack; rewrite P51; nra).
  assert (P31 : 0 < pow2 (-31)) by apply pow2_pos.
  assert (0 <= inject_Z (Z.of_nat calls)) by (apply (inject_le 0); lia).
  destruct o as [s|]; cbn [ledger] in L.
  - destruct L as (t & [_ Rt] & B & G).
    assert (D : rate * slack * inject_Z (LastRefill s - t0) <= rate * slack * inject_Z (t1 - t0)).
    { apply Qmult_le_l; [exact SP|]. rewrite <- Zle_Qle. lia. }
    lra.
  - assert (inject_Z granted <= 0) by (apply (inject_le granted 0); lia).
    assert (0 <= inject_Z (t1 - t0)) by (apply (inject_le 0); lia). nra.
Qed.
End Arithmetic.

(** ** What the operations do to the buckets *)

Section Spec.
Context {W : Type} `{Has W Closed} (oob : Z) (rl : rateLimiter W).
Context {LS : LawfulStore W (store rl)}.

#[local] Notation bucket := (RateStore.bucket (S := store rl)).

(** From one world to another, no bucket changed and time did not run
    backwards. *)
Definition frame (w w' : W) : Prop := (forall k, bucket w' k = bucket w k) /\ clock w <= clock w'.

#[local] Instance frame_trans : Transitive frame.
Proof. intros a b c [B1 C1] [B2 C2]. split; [intros; by rewrite B2|lia]. Qed.

#[local] Instance frame_refl : Reflexive frame.
Proof. intros a. by split. Qed.

Lemma frame_tick w : frame w (tick w).
Proof. split; [intros; apply bucket_tick|apply clock_tick]. Qed.

(** The callbacks and metrics do not touch the store. *)
Record polite : Prop := {
  polite_allow f : OnAllow (config rl) = Some f -> forall c k w, frame w (f c k w).2;
  polite_limit f : OnLimit (config rl) = Some f -> forall c k w, frame w (f c k w).2;
  polite_m_allow m : cfg_Metrics (config rl) = Some m -> forall c k w, frame w (m_OnAllow m c k w).2;
  polite_m_deny m : cfg_Metrics (config rl) = Some m -> forall c k w, frame w (m_OnDeny m c k w).2;
  polite_m_error m : cfg_Metrics (config rl) = Some m -> forall c k e w, frame w (m_OnError m c k e w).2;
  polite_m_latency m : cfg_Metrics (config rl) = Some m -> forall c o d w, frame w (m_OnStoreLatency m c o d w).2
}.

(** One attempt at the bucket of [key]: it failed, or charged the bucket. *)
Definition attempt (key : string) (n : Z) (w : W) (ok : bool) (err : option error) (w' : W) : Prop :=
  clock w <= clock w' /\ (forall k, k <> key -> bucket w' k = bucket w k) /\
  ((err <> None /\ ok = false /\ bucket w' key = bucket w key) \/
   (err = None /\ exists now, clock w <= now <= clock w' /\
      ok = (consume rl n now (bucket w key)).1 /\
      bucket w' key = Some (consume rl n now (bucket w key)).2)).

Lemma attempt_frame_l key n w0 w ok err w' : frame w0 w -> attempt key n w ok err w' -> attempt key n w0 ok err w'.
Proof.
  intros [B C] (C' & O & D). split; [lia|]. split; [intros k K; by rewrite <- B, O|].
  rewrite B in D. destruct D as [D|(E & now & ? & D)]; [by left|]. right. split; [done|]. exists now. split; [lia|done].
Qed.

Lemma attempt_frame_r key n w ok err w' w1 : frame w' w1 -> attempt key n w ok err w' -> attempt key n w ok err w1.
Proof.
  intros [B C] (C' & O & D). split; [lia|]. split; [intros k K; by rewrite B, O|].
  rewrite B. destruct D as [D|(E & now & ? & D)]; [by left|]. right. split; [done|]. exists now. split; [lia|done].
Qed.

Lemma tryConsume_attempt c key n w :
  let '((ok, err), w') := tryConsume rl c key n w in attempt key n w ok err w'.
Proof.
  unfold tryConsume. set (f := fun state => bind time_Now _).
  pose proof (update_law c key f w) as U.
  destruct (AtomicUpdate (store rl) c key f w) as [[ok err] w'].
  destruct U as (C & O & U).
  { intros o v k. unfold f, bind, time_Now. cbn. destruct (consume _ _ _ _). cbn. apply bucket_tick. }
  { intros o v. unfold f, bind, time_Now. cbn. destruct (consume _ _ _ _). cbn. apply clock_tick. }
  split; [done|]. split; [done|]. destruct U as [(? & ? & ?)|(E & w1 & C1 & U)]; [by left|]. right.
  split; [done|]. unfold f, bind, time_Now, ret in U. cbn in U.
  destruct (consume rl n (clock (tick w1)) (bucket w key)) as [a s] eqn:K. cbn in U. destruct U as (-> & C2 & ->).
  pose proof (clock_tick w1). exists (clock (tick w1)). rewrite K. split; [lia|done].
Qed.

Context (P : polite).

Lemma timed_consume_attempt op c key n w :
  let '((ok, err), w') := timed_consume rl op c key n w in attempt key n w ok err w'.
Proof.
  unfold timed_consume. destruct (cfg_Metrics (config rl)) as [m|] eqn:Em; [|apply tryConsume_attempt].
  unfold bind, time_Now, ret. cbn. pose proof (tryConsume_attempt c key n (tick w)) as T.
  destruct (tryConsume rl c key n (tick w)) as [[ok err] w1]. cbn [fst snd].
  apply (attempt_frame_l _ _ _ _ _ _ _ (frame_tick w)). refine (attempt_frame_r _ _ _ _ _ _ _ _ T).
  etrans; [apply frame_tick|]. by apply (polite_m_latency P).
Qed.

Lemma handleError_spec c key err w :
  let '(b, w') := handleError rl c key err w in b = FailOpen (config rl) /\ frame w w'.
Proof.
  unfold handleError, when_metrics, bind, ret. destruct (cfg_Metrics (config rl)) as [m|] eqn:Em; cbn.
  - split; [done|]. by apply (polite_m_error P).
  - done.
Qed.

Lemma notify_allow_frame c key w : frame w (notify_allow rl c key w).2.
Proof.
  unfold notify_allow, when_metrics, callback, bind, ret.
  etrans.
  - instantiate (1 := (match cfg_Metrics (config rl) with Some m => m_OnAllow m c key | None => fun w => (tt, w) end w).2).
    destruct (cfg_Metrics (config rl)) as [m|] eqn:Em; [by apply (polite_m_allow P)|done].
  - destruct (cfg_Metrics (config rl)), (OnAllow (config rl)) as [f|] eqn:Ef; cbn; try done; by apply (polite_allow P).
Qed.

Lemma notify_deny_frame c key w : frame w (notify_deny rl c key w).2.
Proof.
  unfold notify_deny, when_metrics, callback, bind, ret.
  etrans.
  - instantiate (1 := (match cfg_Metrics (config rl) with Some m => m_OnDeny m c key | None => fun w => (tt, w) end w).2).
    destruct (cfg_Metrics (config rl)) as [m|] eqn:Em; [by apply (polite_m_deny P)|done].
  - destruct (cfg_Metrics (config rl)), (OnLimit (config rl)) as [f|] eqn:Ef; cbn; try done; by apply (polite_limit P).
Qed.

(** The refusals of [Take] that touch nothing. *)
Lemma take_refuses c key n w :
  is_closed (get w) = true \/ n <= 0 \/ MaxTokensPerRequest (config rl) < n -> Take rl c key n w = (false, w).
Proof.
  intros R. unfold Take. unfold bind at 1, closed_load. cbn [fst snd].
  destruct (is_closed (get w)); [done|]. destruct (Z.leb_spec n 0); [done|]. rewrite Z.gtb_ltb.
  destruct (Z.ltb_spec (MaxTokensPerRequest (config rl)) n); [done|]. destruct R as [?|[?|?]]; [done|lia..].
Qed.

(** Otherwise it makes one attempt. *)
Lemma take_attempts c key n w :
  is_closed (get w) = false -> 0 < n <= MaxTokensPerRequest (config rl) ->
  let '(ok, w') := Take rl c key n w in
  exists a err, attempt (resolveKey rl c key) n w a err w' /\
    ok = match err with
         | None => a
         | Some _ => FailOpen (config rl) && (n <=? Burst (config rl))
         end.
Proof.
  intros C N. unfold Take. unfold bind at 1, closed_load. cbn [fst snd]. rewrite C, Z.gtb_ltb.
  destruct (Z.leb_spec n 0); [lia|]. destruct (Z.ltb_spec (MaxTokensPerRequest (config rl)) n); [lia|].
  set (k := resolveKey rl c key). unfold bind at 1.
  pose proof (timed_consume_attempt "take" c k n w) as T.
  destruct (timed_consume rl "take" c k n w) as [[a err] w1]. cbn [fst snd].
  assert (G : forall ok w2, frame w1 w2 ->
    ok = match err with None => a | Some _ => FailOpen (config rl) && (n <=? Burst (config rl)) end ->
    exists a err, attempt k n w a err w2 /\
      ok = match err with None => a | Some _ => FailOpen (config rl) && (n <=? Burst (config rl)) end).
  { intros ok w2 F E. exists a, err. split; [by apply (attempt_frame_r _ _ _ _ _ w1)|done]. }
  destruct err as [err|].
  - unfold bind at 1. pose proof (handleError_spec c k err w1) as Hd.
    destruct (handleError rl c k err w1) as [b w2]. destruct Hd as [-> F]. cbn [fst snd].
    rewrite Z.gtb_ltb, Z.ltb_antisym. destruct (FailOpen (config rl)), (n <=? Burst (config rl)); cbn [andb negb];
      unfold bind, ret; cbn [fst snd]; apply G; try done; etrans; try exact F;
      apply notify_allow_frame || apply notify_deny_frame.
  - destruct a; unfold bind, ret; cbn [fst snd]; apply G; try done;
      apply notify_allow_frame || apply notify_deny_frame.
Qed.

(** C24: [Take] on a closed limiter, or of a token count that is not positive
    or above the maximum, is refused and touches nothing.  Otherwise it makes
    one attempt at the bucket of the resolved key (and at no other): if the
    store answered, the bucket alone decides; if the store failed, the bucket
    is as it was and the call is granted only when [FailOpen] is set and no
    more than [Burst] tokens are asked for. *)
Theorem take_spec c key n w :
  let '(ok, w') := Take rl c key n w in
  (is_closed (get w) = true \/ n <= 0 \/ MaxTokensPerRequest (config rl) < n -> ok = false /\ w' = w) /\
  (is_closed (get w) = false -> 0 < n <= MaxTokensPerRequest (config rl) ->
   exists a err, attempt (resolveKey rl c key) n w a err w' /\
     ok = match err with
          | None => a
          | Some _ => FailOpen (config rl) && (n <=? Burst (config rl))
          end).
Proof.
  destruct (Take rl c key n w) as [ok w'] eqn:E. split.
  - intros R. rewrite (take_refuses _ _ _ _ R) in E. by injection E as <- <-.
  - intros C N. pose proof (take_attempts c key n w C N) as T. by rewrite E in T.
Qed.

(** [Allow] is one attempt at one token of the resolved key's bucket; when
    the store failed it answers [FailOpen].  A closed limiter refuses. *)
Theorem allow_spec c key w :
  let '(ok, w') := Allow rl c key w in
  (is_closed (get w) = true -> ok = false /\ w' = w) /\
  (is_closed (get w) = false ->
   exists a err, attempt (resolveKey rl c key) 1 w a err w' /\
     ok = match err with None => a | Some _ => FailOpen (config rl) end).
Proof.
  unfold Allow. unfold bind at 1, closed_load. cbn [fst snd].
  destruct (is_closed (get w)); [split; [done|discriminate]|].
  set (k := resolveKey rl c key). unfold bind at 1.
  pose proof (timed_consume_attempt "allow" c k 1 w) as T.
  destruct (timed_consume rl "allow" c k 1 w) as [[a err] w1]. cbn [fst snd].
  assert (G : forall ok w2, frame w1 w2 -> ok = match err with None => a | Some _ => FailOpen (config rl) end ->
    (false = true -> ok = false /\ w2 = w) /\
    (false = false -> exists a err, attempt k 1 w a err w2 /\
       ok = match err with None => a | Some _ => FailOpen (config rl) end)).
  { intros ok w2 F E. split; [done|]. intros _. exists a, err. split; [by apply (attempt_frame_r _ _ _ _ _ w1)|done]. }
  destruct err as [err|].
  - unfold bind at 1. pose proof (handleError_spec c k err w1) as Hd.
    destruct (handleError rl c k err w1) as [b w2]. destruct Hd as [-> F]. cbn [fst snd].
    destruct (FailOpen (config rl)); unfold bind, ret; cbn [fst snd]; apply G; try done.
    etrans; [exact F|apply notify_allow_frame].
  - destruct a; unfold bind, ret; cbn [fst snd]; apply G; try done;
      apply notify_allow_frame || apply notify_deny_frame.
Qed.

Lemma calculateWaitTime_frame c key w : frame w (calculateWaitTime oob rl c key w).2.
Proof.
  unfold calculateWaitTime, bind, time_Now, ret. pose proof (get_law c key w) as G.
  destruct (RateStore.Get (store rl) c key w) as [[st err] w1]. destruct G as (C & B & _). cbn [fst snd].
  destruct st, err; cbn; try (by split). split; [intros; by rewrite bucket_tick, B|].
  pose proof (clock_tick w1). lia.
Qed.

(** A sequence of [n] denied attempts, each followed by a sleep of at most
    100ms that was not cut short. *)
Inductive denials (c : ctx) (key : string) : nat -> W -> W -> Prop :=
| denials_frame w w' : frame w w' -> denials c key 0 w w'
| denials_more n w w1 err w2 w3 d w4 w' :
    frame w w1 -> attempt key 1 w1 false err w2 -> (err <> None -> FailOpen (config rl) = false) ->
    frame w2 w3 -> 0 < d <= defaultMaxWaitDuration -> select_timer d c w3 = (None, w4) ->
    denials c key n w4 w' ->
    denials c key (S n) w w'.

Lemma wait_duration_bounds d : 0 < wait_duration d <= defaultMaxWaitDuration.
Proof. unfold wait_duration, defaultMaxWaitDuration, defaultMinWaitDuration, Millisecond. zcases; lia. Qed.

Lemma select_timer_frame d c w : frame w (select_timer d c w).2.
Proof. unfold select_timer. cbn. split; [intros; apply bucket_await|apply await_mono]. Qed.

Lemma wait_granted_spec c key start w :
  let '(e, w') := wait_granted rl c key start w in e = None /\ frame w w'.
Proof.
  unfold wait_granted, callback, bind, ret, time_Now. split; [done|].
  destruct (cfg_Metrics (config rl)) as [m|] eqn:Em, (OnAllow (config rl)) as [f|] eqn:Ef; cbn.
  - etrans; [apply frame_tick|]. etrans; [by apply (polite_m_latency P)|].
    etrans; [by apply (polite_m_allow P)|]. by apply (polite_allow P).
  - etrans; [apply frame_tick|]. etrans; [by apply (polite_m_latency P)|]. by apply (polite_m_allow P).
  - by apply (polite_allow P).
  - done.
Qed.

(** How a wait that began at [start] ends.

    - Without an error, after [n] denied attempts and a last one, at most [max]
      in all, that took a token (or found the store failing under [FailOpen]).
    - With [ErrWaitTimeout], when all [max] attempts were denied or more than
      [defaultMaxTotalWaitTime] has passed since [start].
    - With the error of the context, which is done: seen before an attempt, or
      in the sleep that follows one.  No token was taken either way. *)
Definition wait_outcome (c : ctx) (key : string) (max : nat) (start : Z) (w : W) (e : option error) (w' : W) : Prop :=
  exists n w1,
    match e with
    | None => (n < max)%nat /\
        exists a err w2, denials c key n w w1 /\ attempt key 1 w1 a err w2 /\ frame w2 w' /\
          match err with None => a = true | Some _ => FailOpen (config rl) = true end
    | Some err =>
        (err = ESentinel ErrWaitTimeout /\ denials c key n w w' /\
           (n = max \/ (n < max)%nat /\ defaultMaxTotalWaitTime < clock w' - start)) \/
        (ctx_Err c (clock w') = Some err /\ (n < max)%nat /\
           (denials c key n w w' \/
            exists oerr w2 w3 d, denials c key n w w1 /\ attempt key 1 w1 false oerr w2 /\
              (oerr <> None -> FailOpen (config rl) = false) /\ frame w2 w3 /\
              0 < d <= defaultMaxWaitDuration /\ select_timer d c w3 = (Some err, w')))
    end.

Lemma denials_frame_l c key n w0 w w' : frame w0 w -> denials c key n w w' -> denials c key n w0 w'.
Proof.
  intros F D. inversion D; subst; [constructor; by etrans|]. eapply denials_more; [|eassumption..]. by etrans.
Qed.

(** A wait in which [k] denied attempts lead from [w0] to [w], where it goes on. *)
Lemma wait_outcome_after c key max start w0 w e w' k :
  (forall n b, denials c key n w b -> denials c key (k + n) w0 b) ->
  wait_outcome c key max start w e w' -> wait_outcome c key (k + max) start w0 e w'.
Proof.
  intros D (n & w1 & O). exists (k + n)%nat, w1. destruct e as [err|].
  - destruct O as [(E & Dn & B)|(E & L & [Dn|(oe & w2 & w3 & d & Dn & R)])].
    + left. split; [done|]. split; [auto|]. destruct B as [->|[L B]]; [by left|right; split; [lia|done]].
    + right. split; [done|]. split; [lia|]. left. auto.
    + right. split; [done|]. split; [lia|]. right. exists oe, w2, w3, d. split; [auto|done].
  - destruct O as (L & a & err & w2 & Dn & R). split; [lia|]. exists a, err, w2. split; [auto|done].
Qed.

Lemma wait_outcome_frame c key max start w0 w e w' :
  frame w0 w -> wait_outcome c key max start w e w' -> wait_outcome c key max start w0 e w'.
Proof. intros F. apply (wait_outcome_after c key max start w0 w e w' 0). intros n b. by apply denials_frame_l. Qed.

Lemma wait_outcome_more c key max start w err w2 w3 d w4 e w' :
  attempt key 1 w false err w2 -> (err <> None -> FailOpen (config rl) = false) -> frame w2 w3 ->
  0 < d <= defaultMaxWaitDuration -> select_timer d c w3 = (None, w4) ->
  wait_outcome c key max start w4 e w' -> wait_outcome c key (S max) start w e w'.
Proof.
  intros A F Fr D S. apply (wait_outcome_after c key max start w w4 e w' 1). intros n b Dn. by eapply denials_more.
Qed.

Lemma wait_loop_spec c key start : forall max w,
  let '(e, w') := wait_loop oob rl max c key start w in wait_outcome c key max start w e w'.
Proof.
  induction max as [|max IH]; intros w; cbn [wait_loop].
  { unfold ret. exists 0%nat, w. left. split; [done|]. split; [by constructor|by left]. }
  unfold bind at 1, time_Now. cbn [fst snd]. set (w1 := tick w). assert (F1 : frame w w1) by apply frame_tick.
  destruct (time_Sub (clock w1) start >? defaultMaxTotalWaitTime) eqn:Tm.
  { unfold ret. exists 0%nat, w. left. split; [done|]. split; [by constructor|]. right. split; [lia|].
    unfold time_Sub, defaultMaxTotalWaitTime, MaxInt64, Minute, Second, Millisecond in *. lia. }
  unfold bind at 1, err_of. cbn [fst snd]. set (w2 := tick w1).
  assert (F2 : frame w w2) by (etrans; [exact F1|apply frame_tick]).
  destruct (ctx_Err c (clock w2)) as [ce|] eqn:Ec.
  { unfold ret. exists 0%nat, w. right. split; [done|]. split; [lia|]. left. by constructor. }
  unfold bind at 1. pose proof (tryConsume_attempt c key 1 w2) as T.
  destruct (tryConsume rl c key 1 w2) as [[a err] w3]. cbn [fst snd].
  unfold bind at 1.
  assert (Hd : let '(b, w4) := (match err with Some e => handleError rl c key e | None => ret false end) w3 in
    b = match err with Some _ => FailOpen (config rl) | None => false end /\ frame w3 w4).
  { destruct err; [apply handleError_spec|done]. }
  destruct (_ w3) as [b w4]. destruct Hd as [-> F4]. cbn [fst snd].
  set (b := match err with Some _ => FailOpen (config rl) | None => false end).
  destruct (b || a) eqn:Ok.
  - pose proof (wait_granted_spec c key start w4) as G. destruct (wait_granted rl c key start w4) as [e w5].
    destruct G as [-> F5]. exists 0%nat, w2. split; [lia|]. exists a, err, w3.
    split; [by constructor|]. split; [done|]. split; [by etrans|].
    unfold b in Ok. destruct err; [|done]. destruct T as (_ & _ & [(_ & -> & _)|[? _]]); [|done]. by rewrite orb_false_r in Ok.
  - apply orb_false_iff in Ok as [Ob ->].
    assert (Fo : err <> None -> FailOpen (config rl) = false) by (intros Ne; unfold b in Ob; by destruct err).
    unfold bind at 1. pose proof (calculateWaitTime_frame c key w4) as F5.
    destruct (calculateWaitTime oob rl c key w4) as [d w5]. cbn [fst snd] in *.
    unfold bind at 1. destruct (select_timer (wait_duration d) c w5) as [[e|] w6] eqn:Es; cbn [fst snd].
    + unfold ret. exists 0%nat, w2. right. split; [exact (select_timer_done _ _ _ _ _ Es)|]. split; [lia|].
      right. exists err, w3, w5, (wait_duration d). split; [by constructor|]. split; [done|]. split; [done|].
      split; [by etrans|]. split; [apply wait_duration_bounds|done].
    + specialize (IH w6). destruct (wait_loop oob rl max c key start w6) as [e w7].
      apply (wait_outcome_frame c key (S max) start w w2 e w7 F2).
      apply (wait_outcome_more c key max start w2 err w3 w5 (wait_duration d) w6 e w7);
        [exact T | exact Fo | by etrans | apply wait_duration_bounds | exact Es | exact IH].
Qed.

(** C25: [Wait] always returns, after at most 10000 attempts at the bucket of
    the resolved key, between which it sleeps at most 100ms.  It returns nil
    exactly when its last attempt took a token, or the store failed in it under
    [FailOpen]; otherwise it took no token.  It reports [ErrWaitTimeout] only
    when all 10000 attempts were denied or more than five minutes have passed
    since it began, and else the error of the context, which is then done.  A
    closed limiter answers [ErrRateLimiterClosed] at once. *)
Theorem wait_spec c key w :
  let '(e, w') := Wait oob rl c key w in
  if is_closed (get w) then e = Some (ESentinel ErrRateLimiterClosed) /\ w' = w
  else wait_outcome c (resolveKey rl c key) (Z.to_nat 10000) (clock (tick w)) w e w'.
Proof.
  unfold Wait. unfold bind at 1, closed_load. cbn [fst snd]. destruct (is_closed (get w)); [done|].
  unfold bind at 1, time_Now. cbn [fst snd].
  pose proof (wait_loop_spec c (resolveKey rl c key) (clock (tick w)) defaultMaxWaitIterations (tick w)) as L.
  destruct (wait_loop _ _ _ _ _ _ _) as [e w']. refine (wait_outcome_frame _ _ _ _ _ _ _ _ (frame_tick w) L).
Qed.

(** The errors of [limitError]. *)
Lemma limitError_spec c key w :
  exists d, limitError oob rl c key w = (Some (ELimit (sanitizeLogKey key) d), (calculateWaitTime oob rl c key w).2).
Proof. unfold limitError, bind, ret. eauto. Qed.

(** [Execute] and [ExecuteN] run the operation exactly when [Allow] and
    [Take] grant it and then return its error unchanged; a refusal does not run it,
    and is an error that matches the package's [ErrLimitExceeded] and carries
    the sanitized key; it never matches [ferrors.ErrRateLimitExceeded]. *)
Theorem execute_spec c key n op w :
  let refused (r : option error * W) w1 :=
    exists d, r = (Some (ELimit (sanitizeLogKey (resolveKey rl c key)) d),
                   (calculateWaitTime oob rl c (resolveKey rl c key) w1).2) /\
      Is r.1 ErrLimitExceeded = true /\ Is r.1 ErrRateLimitExceeded = false in
  (if is_closed (get w) then Execute oob rl c key op w = (Some (ESentinel ErrRateLimiterClosed), w)
   else let '(ok, w1) := Allow rl c key w in
        if ok then Execute oob rl c key op w = op w1 else refused (Execute oob rl c key op w) w1) /\
  (if is_closed (get w) then ExecuteN oob rl c key n op w = (Some (ESentinel ErrRateLimiterClosed), w)
   else if n <=? 0 then ExecuteN oob rl c key n op w = (Some (ESentinel ErrInvalidTokenCount), w)
   else if n >? MaxTokensPerRequest (config rl)
   then ExecuteN oob rl c key n op w = (Some (ESentinel ErrExcessiveTokens), w)
   else let '(ok, w1) := Take rl c key n w in
        if ok then ExecuteN oob rl c key n op w = op w1 else refused (ExecuteN oob rl c key n op w) w1).
Proof.
  cbv zeta. unfold Execute, ExecuteN. split.
  - unfold bind, closed_load. cbn [fst snd]. destruct (is_closed (get w)); [done|].
    destruct (Allow rl c key w) as [[] w1]; cbn [fst snd negb]; [done|].
    destruct (limitError_spec c (resolveKey rl c key) w1) as [d ->]. exists d. done.
  - unfold bind, closed_load. cbn [fst snd]. destruct (is_closed (get w)); [done|].
    destruct (n <=? 0); [done|]. destruct (n >? _); [done|].
    destruct (Take rl c key n w) as [[] w1]; cbn [fst snd negb]; [done|].
    destruct (limitError_spec c (resolveKey rl c key) w1) as [d ->]. exists d. done.
Qed.

(** ** A client *)

(** Any sequence of [Take]s, on any keys, with any contexts. *)
Fixpoint takes (reqs : list (ctx * string * Z)) : M W (list bool) :=
  match reqs with
  | [] => ret []
  | (c, key, n) :: reqs =>
      let! ok := Take rl c key n in
      let! oks := takes reqs in
      ret (ok :: oks)
  end.

(** The tokens granted on a bucket. *)
Fixpoint granted (key : string) (reqs : list (ctx * string * Z)) (oks : list bool) : Z :=
  match reqs, oks with
  | (c, k, n) :: reqs, ok :: oks =>
      (if ok && bool_decide (resolveKey rl c k = key) then n else 0) + granted key reqs oks
  | _, _ => 0
  end.

Context (V : valid rl).

Lemma ledger_weaken g calls calls' t0 t1 t1' o :
  (calls <= calls')%nat -> t1 <= t1' -> ledger rl g calls t0 t1 o -> ledger rl g calls' t0 t1' o.
Proof.
  intros C T. destruct o as [s|]; [|done]. intros (t & R & B & G). exists t. split; [done|]. split; [lia|].
  pose proof (inject_le (Z.of_nat calls) (Z.of_nat calls') ltac:(lia)). pose proof (pow2_pos (-31)). nra.
Qed.

(** One [Take], in the ledger of a bucket. *)
Lemma take_ledger c k n key w g calls t0 t1 :
  FailOpen (config rl) = false -> t0 <= clock w -> t1 <= clock w -> ledger rl g calls t0 t1 (bucket w key) ->
  let '(ok, w') := Take rl c k n w in
  clock w <= clock w' /\
  ledger rl (g + if ok && bool_decide (resolveKey rl c k = key) then n else 0) (S calls) t0 (clock w') (bucket w' key).
Proof.
  intros FO T0 T1 L. destruct (Take rl c k n w) as [ok w'] eqn:TK.
  assert (Rej : Take rl c k n w = (false, w) -> clock w <= clock w' /\
    ledger rl (g + if ok && bool_decide (resolveKey rl c k = key) then n else 0) (S calls) t0 (clock w') (bucket w' key)).
  { rewrite TK. intros [= -> ->]. cbn. rewrite Z.add_0_r. split; [lia|]. revert L. apply ledger_weaken; lia. }
  destruct (is_closed (get w)) eqn:E; [apply Rej, take_refuses; auto|].
  destruct (Z_le_gt_dec n 0); [apply Rej, take_refuses; auto|].
  destruct (Z_lt_ge_dec (MaxTokensPerRequest (config rl)) n); [apply Rej, take_refuses; auto|]. clear Rej.
  pose proof (take_attempts c k n w E ltac:(lia)) as F. rewrite TK in F.
  destruct F as (a & err & (C & O & A) & ->). rewrite FO. split; [done|].
  destruct (decide (resolveKey rl c k = key)) as [<-|Ne].
  - rewrite bool_decide_eq_true_2, andb_true_r by done. destruct A as [(Ne & -> & ->)|(-> & now & Bn & -> & ->)].
    + destruct err; [|done]. cbn [andb]. rewrite Z.add_0_r. revert L. apply ledger_weaken; lia.
    + pose proof (valid_max _ V) as VM. unfold MaxMaxTokensPerRequest in VM.
      pose proof (consume_spec rl V n now _ g calls t0 t1 ltac:(lia) ltac:(lia) ltac:(lia) L) as CS.
      destruct (consume rl n now (bucket w (resolveKey rl c k))) as [b s]. cbn [fst snd].
      revert CS. apply ledger_weaken; lia.
  - rewrite bool_decide_eq_false_2, andb_false_r, Z.add_0_r, O by done. revert L. apply ledger_weaken; lia.
Qed.

Lemma takes_ledger reqs key : FailOpen (config rl) = false -> forall w g calls t0 t1,
  t0 <= clock w -> t1 <= clock w -> ledger rl g calls t0 t1 (bucket w key) ->
  let '(oks, w') := takes reqs w in
  clock w <= clock w' /\
  ledger rl (g + granted key reqs oks) (calls + length reqs) t0 (clock w') (bucket w' key).
Proof.
  intros FO. induction reqs as [|[[c k] n] reqs IH]; intros w g calls t0 t1 T0 T1 L; cbn [takes].
  - unfold ret. cbn. rewrite Z.add_0_r, Nat.add_0_r. split; [lia|]. revert L. apply ledger_weaken; lia.
  - unfold bind at 1. pose proof (take_ledger c k n key w g calls t0 t1 FO T0 T1 L) as T.
    destruct (Take rl c k n w) as [ok w1]. destruct T as [C1 L1]. cbn [fst snd]. unfold bind, ret.
    assert (T2 : t0 <= clock w1) by lia. specialize (IH w1 _ _ _ _ T2 (Z.le_refl _) L1).
    destruct (takes reqs w1) as [oks w2]. destruct IH as [C2 L2]. cbn [fst snd granted length].
    rewrite Z.add_assoc, Nat.add_succ_r. split; [lia|exact L2].
Qed.

(** C3: The guarantee of the token bucket, for a valid limiter (as [New] builds
    them) that fails closed ([FailOpen] not set: with it a store that fails
    grants without bound), and whose callbacks leave the store alone.  On any
    store that keeps the contract, whatever sequence of [Take]s on whatever keys
    a client makes, the tokens granted on a fresh bucket never exceed the burst plus the rate
    times the time that passed; 64-bit floating point adds at most 2^-51 of that
    and 2^-31 of a token per call. *)
Theorem token_bucket_rate reqs key w :
  FailOpen (config rl) = false -> bucket w key = None ->
  let '(oks, w') := takes reqs w in
  (inject_Z (granted key reqs oks) <=
   inject_Z (Burst (config rl)) + rate rl * (1 + pow2 (-51)) * inject_Z (clock w' - clock w)
   + inject_Z (Z.of_nat (length reqs)) * pow2 (-31))%Q.
Proof.
  intros FO B. pose proof (takes_ledger reqs key FO w 0 0 (clock w) (clock w)) as T. rewrite B in T.
  destruct (takes reqs w) as [oks w']. destruct T as [C L]; [lia..|cbn; lia|].
  exact (ledger_bound rl V _ _ _ _ _ C L).
Qed.
End Spec.

(** ** The estimate of the wait *)

Section Estimate.
Context {W : Type} (rl : rateLimiter W) (V : valid rl).

Lemma tokensToAdd_nonneg e :
  0 <= e <= maxElapsed -> exists a, tokensToAdd rl e = FFin a /\ (0 <= a <= cap rl)%Q.
Proof.
  intros E. destruct (Z.eq_dec e 0) as [->|Ne].
  - destruct (valid_Q rl V) as (_ & _ & C). exists 0%Q. split; [|lra].
    unfold tokensToAdd. rewrite (interval_ns_eq _ V), (burst_eq rl V), (valid_rateFloat _ V).
    pose proof (valid_interval _ V) as I. pose proof (valid_rate _ V) as R.
    unfold MinInterval, MaxInterval, MaxRate, Hour, Minute, Second, Millisecond in *.
    rewrite fdiv_Z by lia. rewrite f_of_Z_exact by lia.
    rewrite (rnd_proper (inject_Z 0 / inject_Z (intervalNs rl)) 0)
      by (unfold Qeq, Qdiv, Qmult; cbn; by rewrite Z.mul_1_r).
    change (rnd 0) with (FFin 0). cbn [fmul].
    rewrite (rnd_proper (0 * inject_Z (Rate (config rl))) 0) by ring. change (rnd 0) with (FFin 0).
    unfold fltb. cbn [fleb]. replace (Qle_bool 0 (cap rl)) with true by (symmetry; apply Qle_bool_iff; lra). done.
  - destruct (tokensToAdd_spec rl V e) as (a & E' & A & _); [lia|]. by exists a.
Qed.

(** The division by the rate is far from every edge of [float64] and [int64]. *)
Lemma wait_quotient x :
  (0 <= x <= 1)%Q ->
  exists z n, fdiv (rateFloat rl) (f_of_Z (interval_ns rl)) = FFin z /\ (0 < z)%Q /\
    fdiv (FFin x) (FFin z) = FFin n /\ forall oob, 0 <= f_to_int64 oob (FFin n) <= 90000000000000.
Proof.
  intros [X0 X1]. destruct (valid_Q rl V) as (I & R & C). rewrite (interval_ns_eq _ V), (valid_rateFloat _ V).
  pose proof (valid_interval _ V). pose proof (valid_rate _ V).
  unfold MinInterval, MaxInterval, MaxRate, Hour, Minute, Second, Millisecond in *.
  rewrite fdiv_Z by lia. set (y := (inject_Z (Rate (config rl)) / inject_Z (intervalNs rl))%Q).
  assert (Y0 : (1 # 86400000000000 <= y)%Q) by (unfold y; apply Qle_shift_div_l; lra).
  assert (Y1 : (y <= 1000000)%Q) by (unfold y; apply Qle_shift_div_r; nra).
  destruct (rnd_rel y) as (z & -> & Z0 & _).
  { apply Qle_trans with (pow2 (-90)); [apply pow2_le; lia|]. apply Qle_trans with (1 # 86400000000000); [|exact Y0].
    vm_compute. discriminate. }
  { apply Qle_lt_trans with 1000000%Q; [exact Y1|]. apply Qlt_le_trans with (pow2 60);
      [vm_compute; reflexivity|apply pow2_le; lia]. }
  destruct pow2_consts as (P53 & _). rewrite P53 in Z0.
  assert (Z1 : (1 # 90000000000000 <= z)%Q) by lra. exists z.
  unfold fdiv, qzero. destruct (Qcompare_spec z 0) as [Ez|Ez|Ez]; [lra|lra|].
  destruct (rnd_between 0 90000000000000 (x / z)) as (n & -> & N0 & N1); [lia|lia| | |].
  { apply Qle_shift_div_l; [exact Ez|]. change (inject_Z 0) with 0%Q. lra. }
  { apply Qle_shift_div_r; [exact Ez|]. change (inject_Z 90000000000000) with 90000000000000%Q. lra. }
  exists n. split; [done|]. split; [lra|]. split; [done|]. intros oob.
  apply f_to_int64_between; [lia|lia|]. by exists n.
Qed.

(** The estimate behind [RetryAfter] is always between 0 and 24 hours for
    a bucket in range, whatever the platform does with a [float64] that does
    not fit an [int64]: the conversion never happens on such a value. *)
Theorem wait_estimate_bounds oob s t now :
  in_range rl s t -> 0 <= wait_estimate rl oob s now <= maxWaitTimeLimit.
Proof.
  intros [T Bt]. destruct (valid_Q rl V) as (I & R & C).
  assert (L0 : 0 <= 0 <= maxWaitTimeLimit) by done. assert (L1 : 0 <= maxWaitTimeLimit <= maxWaitTimeLimit) by done.
  unfold wait_estimate. set (e0 := time_Sub now (LastRefill s)).
  set (e := if (if e0 <=? 0 then 0 else e0) >? maxElapsed then maxElapsed else if e0 <=? 0 then 0 else e0).
  assert (E : 0 <= e <= maxElapsed) by (unfold e, maxElapsed, Hour, Minute, Second; clearbody e0; zcases; lia).
  clearbody e. destruct (tokensToAdd_nonneg e E) as (a & -> & A).
  rewrite T, (burst_eq rl V). cbn [fadd].
  destruct (rnd_abs (t + a) 21) as (v & -> & V0 & _);
    [lra|apply Qle_lt_trans with 2000000%Q; [lra|vm_compute; reflexivity]|lia|].
  set (cur := if fltb (FFin (cap rl)) (FFin v) then FFin (cap rl) else FFin v).
  assert (Ec : exists c, cur = FFin c /\ (0 <= c)%Q).
  { unfold cur. destruct (fltb _ _); [exists (cap rl)|exists v]; (split; [done|lra]). }
  clearbody cur. destruct Ec as (c & -> & Hc). change (f_of_Z 1) with (FFin 1). change (f_of_Z 0) with (FFin 0).
  destruct (fleb (FFin 1) (FFin c)) eqn:F; [done|]. cbn in F. apply Qle_bool_false in F.
  unfold fsub, fneg, fadd. rewrite (rnd_proper (1 + Qred (- c)) (1 - c)) by (rewrite Qred_correct; ring).
  assert (D : (0 <= 1 - c <= 1)%Q) by lra.
  destruct (rnd_between 0 1 (1 - c)) as (x & -> & X0 & X1); [lia|lia|exact (proj1 D)|exact (proj2 D)|].
  change (inject_Z 0) with 0%Q in X0. change (inject_Z 1) with 1%Q in X1.
  destruct (fleb (FFin x) (FFin 0)); [done|]. destruct (Z.leb_spec (Rate (config rl)) 0); [done|].
  destruct (wait_quotient x) as (z & n & -> & Z & -> & B); [done|]. specialize (B oob).
  destruct (fleb (FFin z) (FFin 0)); [done|]. destruct (fltb (FFin n) (FFin 0)); [done|].
  set (k := f_to_int64 oob (FFin n)) in *. clearbody k.
  unfold maxWaitTimeLimit in *. zcases; lia.
Qed.
End Estimate.

(** ** Keys in the log *)

Lemma sanitizeLogKeySlow_get key i n :
  String.get n (sanitizeLogKeySlow key i) =
    (fun c => if (n <? i)%nat then c else sanitize_byte c) <$> String.get n key.
Proof.
  revert i n. induction key as [|c key IH]; intros i n; [by destruct i|].
  destruct i as [|i], n as [|n]; cbn; try done; by rewrite IH.
Qed.

Lemma first_control_spec key :
  match first_control key with
  | Some i => (forall n c, (n < i)%nat -> String.get n key = Some c -> control c = false)
  | None => forall n c, String.get n key = Some c -> control c = false
  end.
Proof.
  induction key as [|c key IH]; cbn; [done|]. destruct (control c) eqn:C; [intros; lia|].
  destruct (first_control key) as [i|]; cbn.
  - intros [|n] d L G; cbn in G; [congruence|]. apply (IH n d); [lia|done].
  - intros [|n] d G; cbn in G; [congruence|]. by apply (IH n d).
Qed.

Lemma sanitize_clean c : control c = false -> sanitize_byte c = c.
Proof. unfold sanitize_byte. by intros ->. Qed.

(** The key written to a log is the key with every control character
    replaced by an underscore and every other byte (UTF-8 included) in its
    place; the copy of the clean prefix is not observable.  So it
    contains no line break, and sanitizing it again changes nothing. *)
Theorem sanitizeLogKey_spec key n :
  String.get n (sanitizeLogKey key) = sanitize_byte <$> String.get n key /\
  (forall c, String.get n (sanitizeLogKey key) = Some c -> control c = false) /\
  sanitizeLogKey (sanitizeLogKey key) = sanitizeLogKey key.
Proof.
  assert (G : forall m, String.get m (sanitizeLogKey key) = sanitize_byte <$> String.get m key).
  { intros m. unfold sanitizeLogKey. pose proof (first_control_spec key) as F.
    destruct (first_control key) as [i|].
    - rewrite sanitizeLogKeySlow_get. destruct (String.get m key) as [c|] eqn:E; [|done].
      cbn [fmap option_fmap option_map]. destruct (Nat.ltb_spec m i); [|done]. f_equal. symmetry. by apply sanitize_clean, (F m).
    - destruct (String.get m key) as [c|] eqn:E; [|done]. cbn. f_equal. symmetry. by apply sanitize_clean, (F m). }
  assert (K : forall m c, String.get m (sanitizeLogKey key) = Some c -> control c = false).
  { intros m c. rewrite G. destruct (String.get m key) as [d|]; [|done]. cbn. intros [= <-].
    unfold sanitize_byte. by destruct (control d) eqn:D. }
  split; [apply G|]. split; [apply K|].
  set (s := sanitizeLogKey key) in *. clearbody s. unfold sanitizeLogKey.
  destruct (first_control s) as [i|] eqn:E; [exfalso|done].
  clear G. revert i E K. induction s as [|c s IH]; intros i E K; [done|]. cbn in E.
  pose proof (K 0%nat c eq_refl) as C. rewrite C in E. destruct (first_control s) as [j|] eqn:J; [|done].
  apply (IH j); [done|]. intros m d. apply (K (S m)).
Qed.

(** ** Concrete limiters *)

Module Demo.
Definition world : Type := sim (Closed * MemoryStore).
#[local] Instance has_closed : Has world Closed := Has_fst.
#[local] Instance has_memory : Has world MemoryStore := Has_snd.

Definition config : Config world := {|
  KeyFunc := None; OnAllow := None; OnLimit := None; cfg_Metrics := None; cfg_Store := None;
  Interval := 0; Rate := 5; Burst := 2; MaxTokensPerRequest := 0; FailOpen := false |}.

Definition limiter : rateLimiter world := New memory_store config.

#[local] Instance lawful : LawfulStore world (store limiter) := memory_lawful.

Definition start : world := Sim 0 ({| is_closed := false |}, NewMemoryStoreWithOptions []).

Lemma limiter_valid : valid limiter.
Proof. apply New_lemma. Qed.

Lemma limiter_polite : polite limiter.
Proof. by split. Qed.

(** Three takes of one token, then one of two. *)
Definition reqs : list (ctx * string * Z) :=
  [(Background, "a", 1); (Background, "a", 1); (Background, "b", 2); (Background, "a", 1)].

Lemma token_bucket_rate_witness :
  let r := takes limiter reqs start in
  r.1 = [true; true; true; false] /\
  (inject_Z (granted limiter "a" reqs r.1) <=
   inject_Z 2 + rate limiter * (1 + pow2 (-51)) * inject_Z (clock r.2 - clock start)
   + inject_Z 4 * pow2 (-31))%Q.
Proof.
  intros r. split; [vm_compute; reflexivity|].
  exact (token_bucket_rate limiter (LS := lawful) limiter_polite limiter_valid reqs "a" start eq_refl eq_refl).
Defined.

Lemma take_spec_witness :
  let r := Take limiter Background "a" 3 start in r.1 = false /\ attempt limiter (LS := lawful) "a" 3 start false None r.2.
Proof.
  intros r. split; [vm_compute; reflexivity|].
  pose proof (take_spec limiter (LS := lawful) limiter_polite Background "a" 3 start) as T.
  change (Take limiter Background "a" 3 start) with r in T.
  assert (E : r.1 = false) by (vm_compute; reflexivity).
  assert (S : match buckets (sim_state r.2).2 !! "a" with Some e => state e | None => None end <> None)
    by (vm_compute; discriminate).
  destruct r as [ok w']. cbn in E, S. subst ok. destruct T as [_ T].
  destruct (T eq_refl ltac:(vm_compute; split; congruence)) as (a & err & A & Ok).
  pose proof A as (_ & _ & [(_ & _ & B)|(-> & _)]); [|by subst a].
  exfalso. apply S. etrans; [exact B|]. reflexivity.
Defined.

Lemma allow_spec_witness :
  let r := Allow limiter Background "a" start in
  r.1 = true /\ exists err, attempt limiter (LS := lawful) "a" 1 start true err r.2.
Proof.
  intros r. split; [vm_compute; reflexivity|].
  pose proof (allow_spec limiter (LS := lawful) limiter_polite Background "a" start) as T.
  change (Allow limiter Background "a" start) with r in T.
  assert (E : r.1 = true) by (vm_compute; reflexivity). destruct r as [ok w']. cbn in E. subst ok.
  destruct T as [_ T]. destruct (T eq_refl) as (a & err & A & Ok). exists err.
  destruct err; [discriminate|]. by subst a.
Defined.

Lemma wait_spec_witness :
  let r := Wait 0 limiter Background "a" start in
  wait_outcome limiter (LS := lawful) Background "a" (Z.to_nat 10000) (clock (tick start)) start r.1 r.2.
Proof.
  intros r. pose proof (wait_spec 0 limiter (LS := lawful) limiter_polite Background "a" start) as T.
  change (Wait 0 limiter Background "a" start) with r in T. destruct r as [e w']. exact T.
Defined.

Lemma wait_estimate_bounds_witness :
  0 <= wait_estimate limiter 0 {| Tokens := FFin 0; LastRefill := 0 |} 0 <= maxWaitTimeLimit.
Proof.
  apply (wait_estimate_bounds limiter limiter_valid 0 _ 0). split; [reflexivity|].
  split; vm_compute; discriminate.
Defined.

(** One token a day, for which [MaxInterval] leaves room. *)
Definition daily : rateLimiter world := New memory_store {|
  KeyFunc := None; OnAllow := None; OnLimit := None; cfg_Metrics := None; cfg_Store := None;
  Interval := 24 * Hour; Rate := 1; Burst := 1; MaxTokensPerRequest := 0; FailOpen := false |}.

(** Because a refill counts at most one hour ([maxElapsed]) and then
    forgets the rest, a client of a limiter of one token a day who comes back
    after a whole day is refused, although its token is due; it still is
    after ten years. *)
Theorem idle_time_is_lost :
  exists s, consume daily 1 0 None = (true, s) /\ intervalNs daily = 24 * Hour /\
    (consume daily 1 (24 * Hour) (Some s)).1 = false /\
    (consume daily 1 (3650 * 24 * Hour) (Some s)).1 = false.
Proof. eexists. repeat split; vm_compute; reflexivity. Qed.
End Demo.
