(* ===== verification/RateConc.v ===== *)
(** Concurrent requests to a limiter on the in-memory store
    ([ratelimit/limiter.go], [memory.go]).

    [token_bucket_rate] bounds what one goroutine is granted, call after
    call.  Here the calls interleave as in [StoreConc], with the function that
    [tryConsume] gives to [AtomicUpdate]; deletions, resets and clean-ups run
    among them.  Refusals before the store and grants of [FailOpen] are not
    the store's answers and are in [RateLimiter]. *)

From Stdlib Require Import QArith Lqa.
From S2P Require Import Prelude Float64 Errors Runtime RateStore RateLimiter StoreConc.

#[local] Open Scope Z_scope.

Section Rate.
Context {W : Type} (rl : rateLimiter W) (V : valid rl).

(** The update function of [tryConsume]. *)
Definition taking (n now : Z) (old : option BucketState) : bool * option BucketState :=
  let '(allowed, state) := consume rl n now old in (allowed, Some state).

(** The requests that [Take] lets through to the store. *)
Definition request (n : Z) : Prop := 1 <= n <= MaxTokensPerRequest (config rl).

(** The tokens granted in answers. *)
Definition granted_of (a : Z * bool) : Z := if a.2 then a.1 else 0.

Definition granted_tokens (k : string) (s : system (F := Z)) : Z := total granted_of (omap (answer_of k) (threads s)).
Definition answered_calls (k : string) (s : system (F := Z)) : Z := Z.of_nat (length (omap (answer_of k) (threads s))).

(** A serial run keeps the ledger of its bucket. *)
Lemma serial_ledger t0 t l st :
  serial taking request t0 t l st -> ledger rl (total granted_of (answered l)) (length l) t0 t st.
Proof.
  induction 1 as [t T|t u l st n S IH U N].
  - cbn. lia.
  - pose proof (serial_later _ _ _ _ _ _ S) as T0. pose proof (valid_max _ V) as B. unfold MaxMaxTokensPerRequest in B.
    pose proof (consume_spec rl V n t st (total granted_of (answered l)) (length l) t0 u) as C. unfold taking. destruct (consume rl n t st) as [ok s]. cbn [fst snd].
    unfold answered. rewrite fmap_app, total_app, length_app. cbn [fmap list_fmap length total fst snd granted_of].
    fold (answered l). rewrite Nat.add_1_r, Z.add_0_r. apply C; [unfold request in N; lia..|exact IH].
Qed.

(** What one bucket can grant from [t0] to [t], but for the rounding. *)
Definition allowance (t0 t : Z) : Q :=
  (inject_Z (Burst (config rl)) + rate rl * (1 + pow2 (-51)) * inject_Z (t - t0))%Q.

Lemma slope_pos : (0 < rate rl * (1 + pow2 (-51)))%Q.
Proof. destruct pow2_consts as (_ & P51 & _). pose proof (rate_pos rl V) as RP. rewrite P51. nra. Qed.

Lemma allowance_mono t0 t u : t <= u -> (allowance t0 t <= allowance t0 u)%Q.
Proof.
  intros L. unfold allowance. apply Qplus_le_r, Qmult_le_l; [apply slope_pos|]. rewrite <- Zle_Qle. lia.
Qed.

Lemma allowance_nonneg t0 t : t0 <= t -> (0 <= allowance t0 t)%Q.
Proof.
  intros L. unfold allowance. pose proof (valid_burst _ V) as B.
  assert (0 <= inject_Z (t - t0))%Q by (apply (inject_le 0); lia).
  assert (0 <= inject_Z (Burst (config rl)))%Q by (apply (inject_le 0); lia).
  pose proof (Qmult_le_0_compat _ (inject_Z (t - t0)) (Qlt_le_weak _ _ slope_pos) ltac:(done)). lra.
Qed.

Lemma runs_bound t0 now rs :
  Forall (fun r => exists t, t <= now /\ serial taking request t0 t r.1 r.2) rs ->
  let l := rs ≫= fun r => answered r.1 in
  (inject_Z (total granted_of l) <=
   inject_Z (Z.of_nat (length rs)) * allowance t0 now + inject_Z (Z.of_nat (length l)) * pow2 (-31))%Q.
Proof.
  cbv zeta. induction 1 as [|[l st] rs (t & T & S) _ IH].
  { change (0 <= 0 * allowance t0 now + 0 * pow2 (-31))%Q. lra. }
  cbn [fst snd] in *.
  rewrite bind_cons. cbn [fst]. rewrite total_app, length_app. cbn [length].
  pose proof (serial_later _ _ _ _ _ _ S) as T0. pose proof (ledger_bound rl V _ _ _ _ _ T0 (serial_ledger _ _ _ _ S)) as B.
  pose proof (allowance_mono t0 t now T) as A. unfold cap, slack in B. change (inject_Z (total granted_of (answered l)) <=
    allowance t0 t + inject_Z (Z.of_nat (length l)) * pow2 (-31))%Q in B.
  assert (Ln : length (answered l) = length l) by apply length_fmap. rewrite Ln, Nat2Z.inj_add, Nat2Z.inj_succ. unfold Z.succ.
  rewrite !inject_Z_plus. change (inject_Z 1) with 1%Q. lra.
Qed.

(** C5: The guarantee of the token bucket under concurrency.  However many
    goroutines take from a key at once, while others delete, reset and clean
    up: by [now sh] the tokens granted on the key are at most what one bucket
    grants since the store was made -- the burst and the rate times the time --
    once, and once more for every time the key's bucket was removed from the
    map; 64-bit floating point adds what it adds to calls in sequence.  In
    particular no interleaving of calls lets a key exceed its rate while its
    bucket stays. *)
Theorem concurrent_rate opts t0 ops s k :
  Forall (op_fine request) ops -> reachable (init opts t0 ops) (step taking) s ->
  (inject_Z (granted_tokens k s) <=
   inject_Z (1 + removals k (gone (sh s))) * allowance t0 (now (sh s)) +
   inject_Z (answered_calls k s) * pow2 (-31))%Q.
Proof.
  intros Ok R. destruct (updates_in_runs taking request t0 opts ops s k Ok R) as (N & Fs & An & T0).
  set (rs := runs k _) in *. pose proof (runs_bound t0 (now (sh s)) rs Fs) as B. cbv zeta in B.
  unfold granted_tokens, answered_calls. rewrite (total_permutation _ _ _ An), (Permutation_length An).
  eapply Qle_trans; [exact B|]. apply Qplus_le_l, Qmult_le_compat_r; [|by apply allowance_nonneg]. rewrite <- Zle_Qle, N. case_match; lia.
Qed.
End Rate.

(** Three goroutines take a token of a burst of two: they race for the entry,
    and the last to get its mutex is refused. *)
Module Demo.
Definition rl := RateLimiter.Demo.limiter.
Definition ops : list (op (F := Z)) := repeat (OpUpdate Background "k" 1) 3.
Definition start : system := {| sh := fresh [] 0; threads := Entering <$> ops |}.
Definition race : list turn := turns 0 3 ++ turns 1 3 ++ turns 2 7 ++ turns 1 2 ++ turns 0 2 ++ turns 2 1 ++ turns 1 4 ++ turns 0 4.
Definition final : system := default start (run (taking rl) start race).

Lemma concurrent_rate_witness :
  run (taking rl) start race = Some final /\
  threads final = [Returned (Updated "k" 1 false); Returned (Updated "k" 1 true); Returned (Updated "k" 1 true)] /\
  granted_tokens "k" final = 2 /\
  (inject_Z (granted_tokens "k" final) <=
   inject_Z (1 + removals "k" (gone (sh final))) * allowance rl 0 (now (sh final)) +
   inject_Z (answered_calls "k" final) * pow2 (-31))%Q.
Proof.
  assert (E : run (taking rl) start race = Some final) by (vm_compute; reflexivity).
  split; [exact E|]. split; [vm_compute; reflexivity|]. split; [vm_compute; reflexivity|].
  apply (concurrent_rate rl RateLimiter.Demo.limiter_valid [] 0 ops final "k").
  - repeat constructor; vm_compute; discriminate.
  - eapply run_reaches; [by apply reach_init|exact E].
Defined.
End Demo.
