(* ===== verification/Timeout.v ===== *)
(** The timeout wrapper ([timeout/timeout.go], [config.go]).

    [Execute] derives a context with a deadline, runs the function under it,
    and then decides whose end the derived context's is.  The log
    records are in [Logs]; a callback's panic, which [safeCallback] recovers, and
    the function's are in [Panic]. *)

From S2P Require Import Prelude Errors Runtime.

#[local] Open Scope go_scope.

Record Config (W : Type) := {
  OnTimeout : option (M W unit);
  DefaultTimeout : Z
}.

Arguments OnTimeout {W}.
Arguments DefaultTimeout {W}.

Definition setDefaults {W} (c : Config W) : Config W := {|
  OnTimeout := OnTimeout c;
  DefaultTimeout := if DefaultTimeout c <=? 0 then 30 * Second else DefaultTimeout c
|}.

Section Execute.
Context {W T : Type} `{World W} (zero : T) (cfg : Config W).

Definition callOnTimeout : M W unit :=
  match OnTimeout cfg with Some f => f | None => ret tt end.

Definition Execute (c : ctx) (timeout : Z) (fn : Fn W T) : M W (result T) :=
  let timeout := if timeout =? 0 then DefaultTimeout cfg else timeout in
  let! now := time_Now in
  let tCtx := WithTimeout c timeout now in
  let! r := fn tCtx in
  let! ctxErr := err_of tCtx in
  match ctxErr with
  | Some e =>
      let! pErr := err_of c in
      match pErr with
      | Some p => ret (zero, Some p)
      | None =>
          if same e DeadlineExceeded then
            callOnTimeout ;;;
            ret (zero, Some (ETimeout timeout))
          else ret (zero, Some e)
      end
  | None => ret r
  end.
End Execute.

Section Spec.
Context {W T : Type} `{World W} (zero : T) (cfg : Config W).

(** The deadline a call runs under. *)
Definition deadline (timeout : Z) (w : W) : Z :=
  clock (tick w) + if timeout =? 0 then DefaultTimeout cfg else timeout.

(** C30: A timeout is transparent or definite.  The function runs exactly once,
    under a context that ends at the deadline or with the caller's, whichever
    comes first.  If that context is not done when the function has returned,
    its result and error are returned unchanged.  If it is, the result is
    dropped: the error is the caller's own when the caller's context is done,
    else a timeout error, after the deadline has passed and [OnTimeout]
    has run, which matches both [ErrTimeout] and [DeadlineExceeded].  The
    branch of the source for any other context error is never taken. *)
Theorem timeout_spec c timeout (fn : Fn W T) w :
  let d := if timeout =? 0 then DefaultTimeout cfg else timeout in
  let tCtx := WithTimeout c d (clock (tick w)) in
  let '(r, w1) := fn tCtx (tick w) in
  let w2 := tick w1 in
  match ctx_Err tCtx (clock w2) with
  | None => Execute zero cfg c timeout fn w = (r, w2) /\ clock w2 < deadline timeout w
  | Some _ =>
      let w3 := tick w2 in
      match ctx_Err c (clock w3) with
      | Some p => Execute zero cfg c timeout fn w = ((zero, Some p), w3)
      | None =>
          Execute zero cfg c timeout fn w = ((zero, Some (ETimeout d)), (callOnTimeout cfg w3).2) /\
          deadline timeout w <= clock w2 /\
          Is (Some (ETimeout d)) ErrTimeout = true /\ Is (Some (ETimeout d)) DeadlineExceeded = true
      end
  end.
Proof.
  intros d tCtx. unfold Execute, deadline, bind, time_Now, err_of, ret. cbn [fst snd]. fold d. fold tCtx.
  destruct (fn tCtx (tick w)) as [r w1]. cbn [fst snd].
  destruct (ctx_Err tCtx (clock (tick w1))) as [e|] eqn:E.
  - destruct (ctx_Err c (clock (tick (tick w1)))) as [p|] eqn:Ep; [done|].
    assert (Ep1 : ctx_Err c (clock (tick w1)) = None).
    { destruct (ctx_Err c (clock (tick w1))) as [p|] eqn:E1; [|done].
      by rewrite (ctx_Err_mono c _ _ _ (clock_tick (tick w1)) E1) in Ep. }
    unfold tCtx in E. rewrite (WithTimeout_own c d _ _ Ep1) in E. zcases_in E; [|done].
    injection E as <-. split; [done|]. split; [lia|]. by split.
  - split; [done|]. unfold ctx_Err, tCtx, WithTimeout in E. cbn in E.
    destruct (done_at c) as [[t e]|]; zcases_in E; cbn in E; zcases_in E; done || lia.
Qed.

(** The case distinction of the error does not go by who ended first: when
    the deadline has passed and the caller's context ends as well while the
    function is still running, the caller's error is reported, although the
    deadline came first. *)
Theorem late_cancellation_hides_timeout :
  exists (fn : Fn (sim unit) Z) c, let '((_, err), w) := Execute 0 {| OnTimeout := None; DefaultTimeout := Second |}
      c Second fn (Sim 0 tt) in
    done_at c = Some (2 * Second, ESentinel Canceled) /\ err = Some (ESentinel Canceled) /\
    ctx_Err (WithTimeout c Second 0) Second = Some (ESentinel DeadlineExceeded).
Proof.
  exists (fun _ w => ((1, None), Sim (3 * Second) (sim_state w))),
    {| done_at := Some (2 * Second, ESentinel Canceled); ctx_values := [] |}.
  repeat split; vm_compute; reflexivity.
Qed.
End Spec.
