(* ===== verification/StreamTimeout.v ===== *)
(** The stream timeout ([streamtimeout/streamtimeout.go]).

    One call of [Execute] is a step relation: the protected function, which
    marks the chunks it receives and returns; the watchdogs of the three
    deadlines, each of which takes any ready case of its [select]; the
    caller's context; and time.  A watchdog that received from its timer is
    [Expired] until it has the lock of [fire].  Marks come from the function,
    one at a time, before it returns.  [marks] (when they came) is a ghost;
    [firedAt] is the recorded time.  In the runs of [prompt_step] the program's
    own steps are not delayed: time passes only when it has none to take.  The
    log record is in [Logs]. *)

From S2P Require Import Prelude Errors Runtime.

Record Config := {
  FirstByteTimeout : Z;
  IdleTimeout : Z;
  TotalTimeout : Z
}.

Definition New (cfg : Config) : Config + error :=
  if (FirstByteTimeout cfg <=? 0) && (IdleTimeout cfg <=? 0) && (TotalTimeout cfg <=? 0)
  then inr (ESentinel (ErrNew "streamtimeout.New: at least one of FirstByteTimeout, IdleTimeout, TotalTimeout must be positive"))
  else inl cfg.

Inductive watchdog := Watching | Expired | Gone.

#[export] Instance watchdog_eq_dec : EqDecision watchdog.
Proof. solve_decision. Defined.

(** Where [Execute] is: inside the function; returned from it; past the
    closing of [idleStop]; past the critical section, with a stage that fired;
    returned. *)
Inductive phase (T : Type) :=
| Running
| Returned (r : result T)
| Stopped (r : result T)
| TimedOut (r : result T) (st : Stage)
| Done (r : result T) (out : result T).

Arguments Running {T}.
Arguments Returned {T}.
Arguments Stopped {T}.
Arguments TimedOut {T}.
Arguments Done {T}.

Record call (T : Type) := {
  now : Z;
  startAt : Z;
  parent : option error;
  fired : option (Z * Stage); (* firedAt, stage *)
  seenMark : bool;
  fbTimer : Z;
  totalTimer : Z;
  idleTimer : option Z;
  firstByte : watchdog;
  idle : watchdog;
  total : watchdog;
  fn : phase T;
  marks : list Z
}.

Arguments now {T}.
Arguments startAt {T}.
Arguments parent {T}.
Arguments fired {T}.
Arguments seenMark {T}.
Arguments fbTimer {T}.
Arguments totalTimer {T}.
Arguments idleTimer {T}.
Arguments firstByte {T}.
Arguments idle {T}.
Arguments total {T}.
Arguments fn {T}.
Arguments marks {T}.

Section Call.
Context {T : Type} (zero : T) (cfg : Config).

(** The state in which the function is called: [t0] is [startAt], [t1] and [t2]
    the times at which the two timers were started. *)
Definition started (t0 t1 t2 : Z) : call T := {|
  now := t2; startAt := t0; parent := None; fired := None; seenMark := false;
  fbTimer := t1 + FirstByteTimeout cfg; totalTimer := t2 + TotalTimeout cfg; idleTimer := None;
  firstByte := if FirstByteTimeout cfg >? 0 then Watching else Gone;
  idle := Gone;
  total := if TotalTimeout cfg >? 0 then Watching else Gone;
  fn := Running; marks := []
|}.

Definition set_now (t : Z) (s : call T) : call T := {|
  now := t; startAt := startAt s; parent := parent s; fired := fired s; seenMark := seenMark s;
  fbTimer := fbTimer s; totalTimer := totalTimer s; idleTimer := idleTimer s; firstByte := firstByte s;
  idle := idle s; total := total s; fn := fn s; marks := marks s
|}.

Definition set_parent (e : error) (s : call T) : call T := {|
  now := now s; startAt := startAt s; parent := Some e; fired := fired s; seenMark := seenMark s;
  fbTimer := fbTimer s; totalTimer := totalTimer s; idleTimer := idleTimer s; firstByte := firstByte s;
  idle := idle s; total := total s; fn := fn s; marks := marks s
|}.

Definition set_fn (p : phase T) (s : call T) : call T := {|
  now := now s; startAt := startAt s; parent := parent s; fired := fired s; seenMark := seenMark s;
  fbTimer := fbTimer s; totalTimer := totalTimer s; idleTimer := idleTimer s; firstByte := firstByte s;
  idle := idle s; total := total s; fn := p; marks := marks s
|}.

(** A watchdog, by the stage it would record. *)
Definition dog (st : Stage) (s : call T) : watchdog :=
  match st with StageFirstByte => firstByte s | StageIdle => idle s | StageTotal => total s end.

Definition set_dog (st : Stage) (d : watchdog) (s : call T) : call T := {|
  now := now s; startAt := startAt s; parent := parent s; fired := fired s; seenMark := seenMark s;
  fbTimer := fbTimer s; totalTimer := totalTimer s; idleTimer := idleTimer s;
  firstByte := match st with StageFirstByte => d | _ => firstByte s end;
  idle := match st with StageIdle => d | _ => idle s end;
  total := match st with StageTotal => d | _ => total s end;
  fn := fn s; marks := marks s
|}.

(** When a watchdog's timer fires; an idle timer that was not started never
    does. *)
Definition timer (st : Stage) (s : call T) : option Z :=
  match st with StageFirstByte => Some (fbTimer s) | StageIdle => idleTimer s | StageTotal => Some (totalTimer s) end.

Definition fire (st : Stage) (s : call T) : call T := {|
  now := now s; startAt := startAt s; parent := parent s;
  fired := match fired s with Some f => Some f | None => Some (now s, st) end;
  seenMark := seenMark s; fbTimer := fbTimer s; totalTimer := totalTimer s; idleTimer := idleTimer s;
  firstByte := firstByte s; idle := idle s; total := total s; fn := fn s; marks := marks s
|}.

Definition mark (s : call T) : call T :=
  let first := negb (seenMark s) && (IdleTimeout cfg >? 0) in {|
  now := now s; startAt := startAt s; parent := parent s; fired := fired s; seenMark := true;
  fbTimer := fbTimer s; totalTimer := totalTimer s;
  idleTimer :=
    if first then Some (now s + IdleTimeout cfg)
    else match idleTimer s with Some _ => Some (now s + IdleTimeout cfg) | None => None end;
  firstByte := firstByte s;
  idle := if first then Watching else idle s;
  total := total s; fn := fn s; marks := marks s ++ [now s]
|}.

(** [cctx] is done: the caller's is, a stage fired, or [Execute] has returned. *)
Definition ctx_done (s : call T) : bool :=
  match parent s, fired s, fn s with
  | None, None, Done _ _ => true
  | None, None, _ => false
  | _, _, _ => true
  end.

(** The case, other than the timer and [cctx.Done()], that ends a watchdog. *)
Definition relieved (st : Stage) (s : call T) : bool :=
  match st with
  | StageFirstByte => seenMark s
  | StageIdle => match fn s with Running | Returned _ => false | _ => true end
  | StageTotal => false
  end.

Definition timeout_error (st : Stage) (s : call T) : error :=
  EStreamTimeout {|
    ste_Stage := st; ste_FirstByteTimeout := FirstByteTimeout cfg; ste_IdleTimeout := IdleTimeout cfg;
    ste_TotalTimeout := TotalTimeout cfg; ste_Elapsed := time_Sub (now s) (startAt s)
  |}.

(** What the program does by itself. *)
Inductive move : call T -> call T -> Prop :=
| mv_leave st s : dog st s = Watching -> relieved st s || ctx_done s = true -> move s (set_dog st Gone s)
| mv_expire st t s : dog st s = Watching -> timer st s = Some t -> t <= now s -> move s (set_dog st Expired s)
| mv_fire st s : dog st s = Expired -> move s (fire st (set_dog st Gone s))
| mv_stop r s : fn s = Returned r -> move s (set_fn (Stopped r) s)
| mv_lock r s : fn s = Stopped r ->
    move s (set_fn (match fired s with Some (_, st) => TimedOut r st | None => Done r r end) s)
| mv_return r st s : fn s = TimedOut r st ->
    move s (set_fn (Done r (zero, Some (match parent s with Some p => p | None => timeout_error st s end))) s).

(** With time, the caller and the protected function. *)
Inductive step : call T -> call T -> Prop :=
| st_time t s : now s <= t -> step s (set_now t s)
| st_cancel e s : parent s = None -> step s (set_parent e s)
| st_mark s : fn s = Running -> step s (mark s)
| st_fn r s : fn s = Running -> step s (set_fn (Returned r) s)
| st_move s s' : move s s' -> step s s'.

(** ** What always holds *)

Definition limit (st : Stage) : Z :=
  match st with StageFirstByte => FirstByteTimeout cfg | StageIdle => IdleTimeout cfg | StageTotal => TotalTimeout cfg end.

(** A deadline was set and has been missed: the time from the start, or the gap
    between two consecutive marks (or the last one and now). *)
Definition overdue (st : Stage) (s : call T) : Prop :=
  0 < limit st /\
  match st with
  | StageIdle => exists i m, marks s !! i = Some m /\ m + limit st <= default (now s) (marks s !! S i)
  | _ => startAt s + limit st <= now s
  end.

(** What [Execute] may return for what the function returned. *)
Definition justified (r out : result T) (s : call T) : Prop :=
  (fired s = None -> out = r) /\
  (out = r \/
   (exists p, parent s = Some p /\ out = (zero, Some p)) \/
   exists e t, out = (zero, Some (EStreamTimeout e)) /\ fired s = Some (t, ste_Stage e) /\ overdue (ste_Stage e) s).

(** A watchdog still has to watch. *)
Definition on_duty (st : Stage) (s : call T) : Prop := 0 < limit st /\ ctx_done s = false /\
  match st with
  | StageFirstByte => seenMark s = false
  | StageIdle => seenMark s = true /\ (fn s = Running \/ exists r, fn s = Returned r)
  | StageTotal => True
  end.

Record inv (s : call T) : Prop := {
  iv_start : startAt s <= now s /\ startAt s + FirstByteTimeout cfg <= fbTimer s /\ startAt s + TotalTimeout cfg <= totalTimer s;
  iv_seen : seenMark s = negb (bool_decide (marks s = []));
  iv_idle : idleTimer s = if IdleTimeout cfg >? 0 then (fun m => m + IdleTimeout cfg) <$> last (marks s) else None;
  iv_enabled : forall st, dog st s <> Gone -> 0 < limit st;
  iv_expired : forall st, dog st s = Expired -> overdue st s;
  iv_fired : forall t st, fired s = Some (t, st) -> overdue st s;
  iv_timed_out : forall r st, fn s = TimedOut r st -> (exists t, fired s = Some (t, st)) /\ overdue st s;
  iv_done : forall r out, fn s = Done r out -> justified r out s;
  iv_armed : forall st, on_duty st s -> dog st s <> Gone
}.

Lemma overdue_mono st s s' :
  startAt s' = startAt s -> now s <= now s' ->
  marks s' = marks s \/ (now s' = now s /\ marks s' = marks s ++ [now s]) -> overdue st s -> overdue st s'.
Proof.
  intros A N M [L O]. split; [done|]. destruct st; [lia| |lia]. destruct O as (i & m & Hi & Hm).
  exists i, m. destruct M as [->|[E ->]].
  - split; [done|]. destruct (marks s !! S i); cbn in *; lia.
  - split; [by apply lookup_app_l_Some|]. destruct (marks s !! S i) as [m'|] eqn:Hs; cbn in *.
    + by rewrite (lookup_app_l_Some _ _ _ _ Hs).
    + apply lookup_ge_None in Hs. apply lookup_lt_Some in Hi. rewrite lookup_app_r by lia.
      replace (S i - length (marks s))%nat with 0%nat by lia. cbn. lia.
Qed.

Lemma justified_stays r out s s' :
  (forall st, overdue st s -> overdue st s') -> (forall f, fired s = Some f -> fired s' = Some f) ->
  (parent s <> None -> parent s' = parent s) -> justified r out s -> justified r out s'.
Proof.
  intros O F P [J1 J2]. split; [intros N; apply J1; destruct (fired s) as [f|]; [by rewrite (F f eq_refl) in N|done]|].
  destruct J2 as [E|[(p & Ep & E)|(e & t & E & Fe & J)]]; [by left| |].
  - right; left. exists p. rewrite P; [done|by rewrite Ep].
  - right; right. exists e, t. auto.
Qed.

(** The idle watchdog that received from its timer saw a gap. *)
Lemma expired_overdue st t s :
  inv s -> dog st s = Watching -> timer st s = Some t -> t <= now s -> overdue st s.
Proof.
  intros I D E L. assert (Pos : 0 < limit st) by (apply (iv_enabled s I); by rewrite D).
  split; [exact Pos|]. destruct I as [(I1 & I2 & I3) _ I6 _ _ _ _ _ _], st; cbn in *.
  - injection E as <-. lia.
  - rewrite I6 in E. zcases_in E; [|done]. destruct (last (marks s)) as [m|] eqn:Lm; [|done]. injection E as <-.
    rewrite last_lookup in Lm. exists (pred (length (marks s))), m. split; [done|].
    replace (marks s !! S (pred (length (marks s)))) with (@None Z); [exact L|].
    symmetry. apply lookup_ge_None. lia.
  - injection E as <-. lia.
Qed.
Lemma ctx_done_mono s s' :
  (parent s <> None -> parent s' <> None) -> (fired s <> None -> fired s' <> None) ->
  (forall r out, fn s = Done r out -> fn s' = Done r out) -> ctx_done s' = false -> ctx_done s = false.
Proof.
  unfold ctx_done. intros P F D.
  destruct (parent s) as [p|], (parent s') as [p'|]; try done; [exfalso; by apply P|].
  destruct (fired s) as [f|], (fired s') as [f'|]; try done; [exfalso; by apply F|].
  destruct (fn s) as [| | | |r out]; try done. by rewrite (D r out eq_refl).
Qed.

Lemma started_inv t0 t1 t2 : t0 <= t1 <= t2 -> inv (started t0 t1 t2).
Proof.
  intros H. split; cbn; try done; try lia.
  - by destruct (_ >? _).
  - intros []; cbn; zcases; done || lia.
  - intros []; cbn; zcases; done.
  - intros [] [P [_ K]]; cbn in *; zcases; try done; try lia.
Qed.

(** A step that leaves the marks, the timers and the watchdogs alone. *)
Lemma quiet_inv s s' :
  startAt s' = startAt s -> now s <= now s' -> marks s' = marks s -> seenMark s' = seenMark s ->
  fbTimer s' = fbTimer s -> totalTimer s' = totalTimer s -> idleTimer s' = idleTimer s ->
  (forall st, dog st s' = dog st s) -> fired s' = fired s -> (parent s <> None -> parent s' = parent s) ->
  (forall r out, fn s = Done r out -> fn s' = Done r out) ->
  (fn s' = Running \/ (exists r, fn s' = Returned r) -> fn s = Running \/ exists r, fn s = Returned r) ->
  (forall r st, fn s' = TimedOut r st -> (exists t, fired s' = Some (t, st)) /\ overdue st s') ->
  (forall r out, fn s' = Done r out -> justified r out s') ->
  inv s -> inv s'.
Proof.
  intros A N M Se Fb To Id D F P Dn Ru TO DO [I1 I2 I3 I4 I5 I6 _ _ I9].
  assert (O : forall st, overdue st s -> overdue st s') by (intros; eapply overdue_mono; eauto).
  split; rewrite ?A, ?Se, ?M, ?Fb, ?To, ?Id; try done; [lia|..]; try (intros st; rewrite D; by auto).
  - rewrite F. intros t st E. eauto.
  - intros st (L & C & K). rewrite D. apply I9. split; [exact L|]. split.
    + eapply (ctx_done_mono s s'); [intros E; by rewrite P|by rewrite F|exact Dn|exact C].
    + destruct st; [by rewrite <- Se| |done]. rewrite Se in K. destruct K. auto.
Qed.

(** A watchdog moves. *)
Lemma set_dog_inv st d s :
  (d = Expired -> 0 < limit st /\ overdue st s) -> (d = Watching -> 0 < limit st) ->
  (d = Gone -> ~ on_duty st s) -> inv s -> inv (set_dog st d s).
Proof.
  intros De Dw Dg [I1 I2 I3 I4 I5 I6 I7 I8 I9].
  split; [exact I1|exact I2|exact I3| | |exact I6|exact I7|exact I8|]; intros st'.
  - intros E. destruct (decide (st' = st)) as [->|Ne]; [|apply I4; by destruct st', st].
    destruct d; [by apply Dw|by apply De|by destruct st].
  - intros E. destruct (decide (st' = st)) as [->|Ne]; [|apply I5; by destruct st', st].
    apply De. by destruct st.
  - intros On. change (on_duty st' s) in On. destruct (decide (st' = st)) as [->|Ne].
    + intros E. apply (Dg ltac:(by destruct st)), On.
    + intros E. apply (I9 st' On). by destruct st', st.
Qed.

Lemma fire_inv st s : dog st s = Expired -> inv s -> inv (fire st (set_dog st Gone s)).
Proof.
  intros E [I1 I2 I3 I4 I5 I6 I7 I8 I9].
  assert (C : ctx_done (fire st (set_dog st Gone s)) = true) by (unfold ctx_done; cbn; by destruct (parent s), (fired s)).
  split; [exact I1|exact I2|exact I3|..].
  - intros st' K. apply I4. intros G. apply K. by destruct st', st.
  - intros st' K. apply I5. by destruct st', st.
  - cbn. intros t st' K. destruct (fired s) as [f|] eqn:F; [injection K as ->; by apply (I6 t)|].
    injection K as <- <-. by apply I5.
  - intros r st' K. destruct (I7 r st' K) as [[t F] O]. split; [exists t; cbn; by rewrite F|exact O].
  - intros r out K. eapply justified_stays; [..|exact (I8 r out K)]; try done. cbn. by intros f ->.
  - intros st' (_ & K & _). by rewrite C in K.
Qed.

Lemma mark_inv s : fn s = Running -> inv s -> inv (mark s).
Proof.
  intros R [I1 I2 I3 I4 I5 I6 I7 I8 I9].
  assert (O : forall st, overdue st s -> overdue st (mark s)).
  { intros st. apply overdue_mono; [done|cbn; lia|]. by right. }
  split; cbn [startAt now fbTimer totalTimer seenMark marks idleTimer mark fn]; try done; try (rewrite R; done).
  - by destruct (marks s).
  - rewrite last_snoc. destruct (seenMark s) eqn:Se; cbn [negb andb].
    + rewrite I3. destruct (IdleTimeout cfg >? 0); [|done]. by destruct (last (marks s)) as [m|] eqn:L;
        [|apply last_None in L; rewrite L in I2].
    + rewrite I3. by destruct (IdleTimeout cfg >? 0).
  - intros [] K; [by apply (I4 StageFirstByte)| |by apply (I4 StageTotal)]. cbn in K |- *.
    destruct (Z.gtb_spec (IdleTimeout cfg) 0); [lia|]. rewrite andb_false_r in K. by apply (I4 StageIdle).
  - intros [] K; [by apply O, I5| |by apply O, I5]. cbn in K. destruct (_ && _); [done|]. by apply O, I5.
  - intros t st K. apply O. by apply (I6 t).
  - intros [] (L & C & K); cbn in *; [done| |apply (I9 StageTotal); by repeat split].
    destruct (seenMark s) eqn:Se; cbn [negb andb].
    + apply (I9 StageIdle). split; [done|]. split; [exact C|]. split; [done|by left].
    + destruct (Z.gtb_spec (IdleTimeout cfg) 0); [done|lia].
Qed.

Lemma move_inv s s' : inv s -> move s s' -> inv s'.
Proof.
  intros I M. destruct M as [st s D C|st t s D E L|st s D|r s R|r s R|r st s R].
  - apply set_dog_inv; try done. intros _ (L & N & K). rewrite N, orb_false_r in C.
    destruct st; cbn in C; [by rewrite K in C| |done]. destruct K as [_ [K|[r K]]]; by rewrite K in C.
  - apply set_dog_inv; try done. intros _. split; [|by eapply expired_overdue].
    apply (iv_enabled s I). by rewrite D.
  - by apply fire_inv.
  - eapply quiet_inv; [..|exact I]; try done; cbn; rewrite R; try done; eauto.
  - eapply quiet_inv; [..|exact I]; try done; cbn; rewrite ?R; try done; destruct (fired s) as [[t st]|] eqn:F; try done.
    + by intros [?|[]].
    + by intros [?|[]].
    + intros r0 st0 [= <- <-]. split; [by exists t|]. by apply (iv_fired s I t).
    + intros r0 out [= <- <-]. split; [done|by left].
  - destruct (iv_timed_out s I r st R) as [[t F] O].
    eapply quiet_inv; [..|exact I]; try done; cbn; rewrite ?R; try done.
    + by intros [?|[]].
    + intros r0 out [= <- <-]. split; [intros N; cbn in N; congruence|]. right. cbn. destruct (parent s) as [p|] eqn:P.
      * left. by exists p.
      * right. eexists _, t. by split.
Qed.

Lemma stream_step_inv s s' : inv s -> step s s' -> inv s'.
Proof.
  intros I St. destruct St as [t s L|e s P|s R|r s R|s s' M].
  - assert (O : forall st, overdue st s -> overdue st (set_now t s)) by (intros st; apply overdue_mono; cbn; auto).
    eapply quiet_inv; [..|exact I]; try done; cbn; auto; intros r o K.
    + destruct (iv_timed_out s I r o K). auto.
    + by eapply justified_stays; [..|exact (iv_done s I r o K)].
  - eapply quiet_inv; [..|exact I]; try done; cbn; auto; intros r o K.
    + exact (iv_timed_out s I r o K).
    + eapply justified_stays; [..|exact (iv_done s I r o K)]; try done.
  - by apply mark_inv.
  - eapply quiet_inv; [..|exact I]; try done; cbn; rewrite R; try done; auto.
  - by eapply move_inv.
Qed.

(** A watchdog on duty whose timer has fired can end the function's context. *)
Lemma overdue_cancels s st t :
  inv s -> on_duty st s -> timer st s = Some t -> t <= now s ->
  exists s', rtc move s s' /\ ctx_done s' = true.
Proof.
  intros I O E L. assert (Fire : forall s, ctx_done (fire st s) = true)
    by (intros s0; unfold ctx_done; cbn; by destruct (parent s0), (fired s0)).
  assert (End : forall s, dog st s = Expired -> exists s', rtc move s s' /\ ctx_done s' = true).
  { intros s0 D. eexists. split; [by apply rtc_once, mv_fire|]. apply Fire. }
  destruct (dog st s) eqn:D; [|by apply End|by apply (iv_armed s I) in D].
  destruct (End (set_dog st Expired s)) as (s' & M & C); [by destruct st|].
  exists s'. split; [|exact C]. eapply rtc_l; [by eapply mv_expire|exact M].
Qed.

(** *** Prompt runs

    The program is never late: time passes only when it has no step to take. *)
Definition prompt_step (s s' : call T) : Prop :=
  step s s' /\ (now s' <> now s -> forall s2, ~ move s s2).

(** The first byte was not marked before its deadline. *)
Definition no_early_byte (s : call T) : Prop :=
  forall m, m ∈ marks s -> startAt s + FirstByteTimeout cfg <= m.

(** In a prompt run the first-byte watchdog hears of the first mark before time
    passes. *)
Record prompt_inv (s : call T) : Prop := {
  pi_inv : inv s;
  pi_watching : firstByte s = Watching -> forall m, m ∈ marks s -> m = now s;
  pi_expired : firstByte s = Expired -> no_early_byte s;
  pi_fired : forall t, fired s = Some (t, StageFirstByte) -> no_early_byte s
}.

Lemma no_early_byte_mark s : startAt s + FirstByteTimeout cfg <= now s -> no_early_byte s -> no_early_byte (mark s).
Proof.
  intros L N m I. cbn [marks mark startAt] in *. apply elem_of_app in I as [I|I]; [by apply N|].
  apply list_elem_of_singleton in I as ->. done.
Qed.

Lemma prompt_move s s' : prompt_inv s -> move s s' -> prompt_inv s'.
Proof.
  intros [I W E F] M. pose proof (move_inv s s' I M) as I'.
  destruct M as [st s D C|st t s D Et L|st s D|r s R|r s R|r st s R]; (split; [exact I'|..]); cbn; try done.
  - by destruct st.
  - by destruct st.
  - by destruct st.
  - destruct st; try done. intros _ m Im. cbn in D, Et, Im |- *. injection Et as <-. rewrite (W D m Im).
    pose proof (iv_start s I). lia.
  - by destruct st.
  - by destruct st.
  - destruct (fired s) as [[u st']|] eqn:Fs; intros t0 [= <- ->]; [by apply (F u)|]. by apply E.
Qed.

Lemma prompt_step_inv s s' : prompt_inv s -> prompt_step s s' -> prompt_inv s'.
Proof.
  intros P [St Q]. pose proof P as [I W E F]. pose proof (stream_step_inv s s' I St) as I'.
  destruct St as [t s L|e s Pa|s R|r s R|s s' M]; [split; [exact I'|..]; cbn; try done..|by eapply prompt_move].
  - intros D m Im. cbn in Q. destruct (decide (t = now s)) as [->|Ne]; [by apply W|]. exfalso.
    apply (Q Ne (set_dog StageFirstByte Gone s)), mv_leave; [done|]. cbn.
    rewrite (iv_seen s I). destruct (marks s); [by apply elem_of_nil in Im|done].
  - intros D m Im. apply elem_of_app in Im as [Im|Im]; [by apply W|]. by apply list_elem_of_singleton in Im.
  - intros D. apply no_early_byte_mark; [|by apply E]. exact (proj2 (iv_expired s I StageFirstByte D)).
  - intros t Ft. apply no_early_byte_mark; [|by apply (F t)]. exact (proj2 (iv_fired s I t StageFirstByte Ft)).
Qed.

(** Once the function has returned, so does [Execute]. *)
Lemma execute_returns s r : fn s = Returned r -> exists s' out, rtc move s s' /\ fn s' = Done r out.
Proof.
  intros R. set (s1 := set_fn (Stopped r) s).
  assert (M1 : move s s1) by (by apply mv_stop).
  assert (M2 : move s1 (set_fn (match fired s1 with Some (_, st) => TimedOut r st | None => Done r r end) s1)) by (by apply mv_lock).
  destruct (fired s1) as [[t st]|] eqn:F.
  - set (s2 := set_fn (TimedOut r st) s1) in *.
    eexists (set_fn (Done r _) s2), _. split; [|reflexivity].
    eapply rtc_l; [exact M1|]. eapply rtc_l; [exact M2|]. apply rtc_once. by apply mv_return.
  - exists (set_fn (Done r r) s1), r. split; [|reflexivity]. eapply rtc_l; [exact M1|]. apply rtc_once. exact M2.
Qed.
End Call.

(** The calls that begin. *)
Definition begun {T} (cfg : Config) (s : call T) : Prop := exists t0 t1 t2, t0 <= t1 <= t2 /\ s = started cfg t0 t1 t2.

(** C31: The three deadlines, under every interleaving of the function, its
    marks, the watchdogs, the caller's context and time.  When [Execute]
    returns, it returns what the function returned unless a stage fired; else
    it may return the caller's error, or a timeout error that matches
    [ErrTimeout] and [DeadlineExceeded] and names the stage that fired, whose
    deadline was set and has run out: for the total and the first byte that much
    time has passed since the start, for the idle one there was such a gap
    between two consecutive marks (or after the last), so a stream that marks
    in time is never idle.  A first byte marked in time keeps its stage from
    firing when the program's own steps are not delayed; a watchdog that is
    late can fire all the same ([timely_first_byte_times_out]).  While the
    function runs and its context is not done, each deadline that passed, first
    byte before the first mark and idle after it, can cancel the context by the
    program's own steps; and once the function has returned so can [Execute]. *)
Theorem stream_timeout_contract {T} (zero : T) cfg s :
  reachable (begun cfg) (step zero cfg) s ->
  (forall r out, fn s = Done r out ->
     (fired s = None -> out = r) /\
     (out = r \/
      (exists p, parent s = Some p /\ out = (zero, Some p)) \/
      exists e t, out = (zero, Some (EStreamTimeout e)) /\ fired s = Some (t, ste_Stage e) /\ overdue cfg (ste_Stage e) s /\
        Is (Some (EStreamTimeout e)) ErrTimeout = true /\ Is (Some (EStreamTimeout e)) DeadlineExceeded = true)) /\
  (reachable (begun cfg) (prompt_step zero cfg) s ->
     forall t, fired s = Some (t, StageFirstByte) -> forall m, m ∈ marks s -> startAt s + FirstByteTimeout cfg <= m) /\
  (forall st t, on_duty cfg st s -> timer st s = Some t -> t <= now s ->
     exists s', rtc (move zero cfg) s s' /\ ctx_done s' = true) /\
  idleTimer s = (if IdleTimeout cfg >? 0 then (fun m => m + IdleTimeout cfg) <$> last (marks s) else None) /\
  (forall r, fn s = Returned r -> exists s' out, rtc (move zero cfg) s s' /\ fn s' = Done r out).
Proof.
  intros R. assert (I : inv zero cfg s).
  { revert s R. apply invariant_reachable; [|intros; by eapply stream_step_inv].
    intros s (t0 & t1 & t2 & H & ->). by apply started_inv. }
  split; [|split; [|split; [|split; [exact (iv_idle _ _ _ I)|]]]].
  - intros r out D. destruct (iv_done _ _ _ I r out D) as [J1 [J|[J|(e & t & -> & F & O)]]]; (split; [done|]); auto.
    right; right. exists e, t. split; [done|]. split; [done|]. by repeat split; try exact (proj1 O); try exact (proj2 O).
  - intros Rp. enough (P : prompt_inv zero cfg s) by exact (pi_fired _ _ _ P). clear R I. revert s Rp.
    apply invariant_reachable; [|intros; by eapply prompt_step_inv].
    intros s (t0 & t1 & t2 & H & ->). split; [by apply started_inv|..]; try done; intros _ m Im; by apply elem_of_nil in Im.
  - intros st t O E L. by eapply overdue_cancels.
  - intros r E. by eapply execute_returns.
Qed.

(** A stream that stalls, executed: chunks after one and two seconds, none for
    the next two. *)
Definition stalls : Config := {| FirstByteTimeout := 5 * Second; IdleTimeout := 2 * Second; TotalTimeout := 60 * Second |}.

(** Extend the run [R] by a step of the environment, and of the program. *)
Ltac side := first [reflexivity|vm_compute; discriminate].
Tactic Notation "go" ident(R) uconstr(rule) :=
  let Q := fresh in eassert (Q : reachable _ _ _) by (eapply reach_step; [exact R|eapply rule; side]);
  cbn in Q; clear R; rename Q into R.
Tactic Notation "moves" ident(R) uconstr(rule) :=
  let Q := fresh in eassert (Q : reachable _ _ _) by (eapply reach_step; [exact R|eapply st_move, rule; side]);
  cbn in Q; clear R; rename Q into R.

Lemma stream_timeout_contract_witness :
  exists s e, reachable (begun stalls) (step 0 stalls) s /\
    fn s = Done (7, Some (ESentinel Canceled)) (0, Some (EStreamTimeout e)) /\ ste_Stage e = StageIdle /\
    ste_Elapsed e = 4 * Second /\ overdue stalls StageIdle s.
Proof.
  assert (R : reachable (begun stalls) (step 0 stalls)
                (started (T := Z) stalls 0 0 0)) by (apply reach_init; by exists 0, 0, 0).
  go R (st_time _ _ (1 * Second)).
  go R (st_mark _ _).
  go R (st_time _ _ (2 * Second)).
  go R (st_mark _ _).
  go R (st_time _ _ (4 * Second)).
  moves R (mv_expire _ _ StageIdle (4 * Second)).
  moves R (mv_fire _ _ StageIdle).
  go R (st_fn _ _ (7, Some (ESentinel Canceled))).
  moves R (mv_stop _ _ _).
  moves R (mv_lock _ _ _).
  moves R (mv_return _ _ _ StageIdle).
  destruct (stream_timeout_contract 0 stalls _ R) as (C & _).
  specialize (C (7, Some (ESentinel Canceled)) (0, Some (timeout_error stalls StageIdle (set_now (4 * Second) (started (T := Z) stalls 0 0 0)))) eq_refl).
  destruct C as (_ & [K|[(p & K & _)|(e & u & K & _ & O & _)]]); [done|done|].
  eexists _, e. split; [exact R|]. injection K as <-. split; [reflexivity|]. by repeat split; try exact (proj2 O).
Defined.

(** The first call of [Mark] is said to satisfy [FirstByteTimeout].  Here the
    first byte is marked after one second of five, and yet the call fails with
    the first-byte timeout: its watchdog, scheduled only after its timer has
    fired, finds both cases of its [select] ready and may take the timer's. *)
Theorem timely_first_byte_times_out :
  let cfg := {| FirstByteTimeout := 5 * Second; IdleTimeout := 0; TotalTimeout := 60 * Second |} in
  exists s e, reachable (begun cfg) (step 0 cfg) s /\
    marks s = [1 * Second] /\ fn s = Done (7, None) (0, Some (EStreamTimeout e)) /\ ste_Stage e = StageFirstByte.
Proof.
  intros cfg. assert (R : reachable (begun cfg) (step 0 cfg)
                (started (T := Z) cfg 0 0 0)) by (apply reach_init; by exists 0, 0, 0).
  go R (st_time _ _ (1 * Second)).
  go R (st_mark _ _).
  go R (st_time _ _ (5 * Second)).
  moves R (mv_expire _ _ StageFirstByte (5 * Second)).
  moves R (mv_fire _ _ StageFirstByte).
  go R (st_fn _ _ (7, None)).
  moves R (mv_stop _ _ _).
  moves R (mv_lock _ _ _).
  moves R (mv_return _ _ _ StageFirstByte).
  eexists _, _. split; [exact R|]. by repeat split.
Qed.
