(* ===== verification/Fallback.v ===== *)
(** The fallback wrapper ([fallback/fallback.go], [config.go]).

    The log records are in [Logs]; a callback's panic, which [safeCallback]
    recovers, and the function's are in [Panic]. *)

From S2P Require Import Prelude Errors Runtime.

#[local] Open Scope go_scope.

Record Config (W T : Type) := {
  Fallback : option (ctx -> error -> M W (result T));
  ShouldFallback : option (error -> bool);
  OnFallback : option (error -> M W unit);
  OnSuccess : option (M W unit)
}.

Arguments Fallback {W T}.
Arguments ShouldFallback {W T}.
Arguments OnFallback {W T}.
Arguments OnSuccess {W T}.

Section Execute.
Context {W T : Type} `{World W} (zero : T) (cfg : Config W T).

Definition Execute (c : ctx) (primary : Fn W T) : M W (result T) :=
  let! e := err_of c in
  match e with
  | Some err => ret (zero, Some err)
  | None =>
      let! r := primary c in
      match r.2 with
      | None =>
          (match OnSuccess cfg with Some f => f | None => ret tt end) ;;;
          ret (r.1, None)
      | Some err =>
          if match ShouldFallback cfg with Some f => negb (f err) | None => false end then ret (zero, Some err)
          else
            match Fallback cfg with
            | None => ret (zero, Some err)
            | Some fallback =>
                (match OnFallback cfg with Some f => f err | None => ret tt end) ;;;
                let! fr := fallback c err in
                match fr.2 with
                | Some _ => ret (zero, Some err)
                | None => ret (fr.1, None)
                end
            end
      end
  end.

(** ** Degradation, abstractly

    A call yields the primary's value, or the fallback's when the primary
    failed with an error the fallback is for, or the primary's error. *)
Inductive degraded (p : result T) (f : error -> option (result T)) : result T -> Prop :=
| primary_value v : p = (v, None) -> degraded p f (v, None)
| fallback_value x err v : p = (x, Some err) -> f err = Some (v, None) -> degraded p f (v, None)
| primary_error x err : p = (x, Some err) -> (forall v, f err <> Some (v, None)) -> degraded p f (zero, Some err).

(** Whether the configuration hands an error to the fallback. *)
Definition eligible (err : error) : bool :=
  match ShouldFallback cfg with Some f => f err | None => true end &&
  match Fallback cfg with Some _ => true | None => false end.

(** The fallback degrades gracefully.  With a live context the primary
    runs exactly once; the call returns its value when it succeeds, the
    fallback's value when it failed with an eligible error and the fallback
    succeeded, and otherwise the primary's error, never the
    fallback's.  The fallback runs at most once, after the primary, only for
    an eligible error, and with that error.  With a context that is done
    nothing runs. *)
Theorem fallback_spec c primary w :
  match ctx_Err c (clock (tick w)) with
  | Some e => Execute c primary w = ((zero, Some e), tick w)
  | None =>
      let '(p, w1) := primary c (tick w) in
      let w2 err := match OnFallback cfg with Some f => (f err w1).2 | None => w1 end in
      let ran err := match Fallback cfg with
                     | Some f => if eligible err then Some (f c err (w2 err)) else None
                     | None => None
                     end in
      degraded p (fun err => fst <$> ran err) (Execute c primary w).1 /\
      (Execute c primary w).2 =
        match p.2 with
        | None => match OnSuccess cfg with Some f => (f w1).2 | None => w1 end
        | Some err => match ran err with Some r => r.2 | None => w1 end
        end
  end.
Proof.
  unfold Execute, bind, err_of, ret. cbn [fst snd].
  destruct (ctx_Err c (clock (tick w))) as [e|]; [done|].
  destruct (primary c (tick w)) as [[v [err|]] w1]; cbn [fst snd].
  2:{ split; [by apply primary_value|]. by destruct (OnSuccess cfg). }
  assert (Hel : match ShouldFallback cfg with Some f => negb (f err) | None => false end =
                negb match ShouldFallback cfg with Some f => f err | None => true end)
    by (by destruct (ShouldFallback cfg)).
  rewrite Hel. clear Hel. destruct (Fallback cfg) as [f|] eqn:Ef.
  2:{ split; [|by destruct (negb _)]. destruct (negb _); by eapply primary_error. }
  destruct (match ShouldFallback cfg with Some f => f err | None => true end) eqn:Es; cbn [negb].
  2:{ assert (Ee : eligible err = false) by (unfold eligible; by rewrite Es).
      rewrite Ee. split; [|done]. eapply primary_error; [done|]. cbn. by rewrite Ee. }
  assert (Ee : eligible err = true) by (unfold eligible; by rewrite Es, Ef). rewrite Ee.
  set (w2 := match OnFallback cfg with Some g => (g err w1).2 | None => w1 end).
  replace ((match OnFallback cfg with Some g => g err | None => fun w : W => (tt, w) end w1).2) with w2
    by (unfold w2; by destruct (OnFallback cfg)).
  destruct (f c err w2) as [[fv [fe|]] w3] eqn:Er; cbn [fst snd]; (split; [|done]).
  - eapply primary_error; [done|]. intros u. rewrite Ee. fold w2. by rewrite Er.
  - eapply fallback_value; [done|]. rewrite Ee. fold w2. by rewrite Er.
Qed.
End Execute.
