(* ===== verification/Hedge.v ===== *)
(** Hedged requests ([hedge/hedge.go], [config.go]; [LLMHedge] of
    [middleware/presets.go]).

    A call on a context that is done returns its error at once ([enter]).  Any
    other is a step relation: the goroutines of the attempts, which run,
    finish and send; the timer; the cancellation of the caller's context; and
    the coordinator's [select], which takes any case that is ready.  The
    channel holds [MaxAttempts] results, so a send never blocks; an attempt
    whose context is done may drop its result instead.  [received] (what the
    coordinator has read so far) is a ghost; [onHedge] logs the callback. *)

From S2P Require Import Prelude Errors Runtime.

(** ** [config.go] *)

Definition defaultMaxAttempts : Z := 2.
Definition maxAttemptsCap : Z := 16.
Definition defaultHedgeDelay : Z := 100 * Millisecond.

Record Config := { HedgeDelay : Z; MaxAttempts : Z }.

Definition setDefaults (c : Config) : Config :=
  let n := if MaxAttempts c <=? 0 then defaultMaxAttempts else MaxAttempts c in {|
    HedgeDelay := if HedgeDelay c <=? 0 then defaultHedgeDelay else HedgeDelay c;
    MaxAttempts := if n >? maxAttemptsCap then maxAttemptsCap else n
  |}.

(** ** One attempt *)

Inductive attempt (T : Type) :=
| Running
| Finished (r : result T)
| Sent (r : result T)
| Dropped (r : result T).

Arguments Running {T}.
Arguments Finished {T}.
Arguments Sent {T}.
Arguments Dropped {T}.

Inductive timer_state := Armed | Expired | Idle.

(** ** One call of [Execute] *)

Record call (T : Type) := {
  attempts : list (attempt T);
  results : list (result T);
  fired : Z;
  collected : Z;
  firstErr : option error;
  timer : timer_state;
  parent : option error;
  returned : option (result T);
  received : list (result T);
  onHedge : list Z
}.

Arguments attempts {T}.
Arguments results {T}.
Arguments fired {T}.
Arguments collected {T}.
Arguments firstErr {T}.
Arguments timer {T}.
Arguments parent {T}.
Arguments returned {T}.
Arguments received {T}.
Arguments onHedge {T}.

Section Call.
Context {T : Type} (zero : T) (cfg : Config).

(** The primary fired and the timer started. *)
Definition started : call T := {|
  attempts := [Running]; results := []; fired := 1; collected := 0; firstErr := None; timer := Armed;
  parent := None; returned := None; received := []; onHedge := []
|}.

(** The entry of [Execute], by the error of the caller's context. *)
Definition enter (err : option error) : result T + call T :=
  match err with
  | Some e => inl (zero, Some e)
  | None => inr started
  end.

Definition set_attempt (i : nat) (a : attempt T) (s : call T) : call T := {|
  attempts := <[i := a]> (attempts s); results := results s; fired := fired s; collected := collected s;
  firstErr := firstErr s; timer := timer s; parent := parent s; returned := returned s;
  received := received s; onHedge := onHedge s
|}.

Definition send (r : result T) (s : call T) : call T := {|
  attempts := attempts s; results := results s ++ [r]; fired := fired s; collected := collected s;
  firstErr := firstErr s; timer := timer s; parent := parent s; returned := returned s;
  received := received s; onHedge := onHedge s
|}.

Definition set_timer (t : timer_state) (s : call T) : call T := {|
  attempts := attempts s; results := results s; fired := fired s; collected := collected s;
  firstErr := firstErr s; timer := t; parent := parent s; returned := returned s;
  received := received s; onHedge := onHedge s
|}.

Definition set_parent (e : error) (s : call T) : call T := {|
  attempts := attempts s; results := results s; fired := fired s; collected := collected s;
  firstErr := firstErr s; timer := timer s; parent := Some e; returned := returned s;
  received := received s; onHedge := onHedge s
|}.

Definition set_returned (r : result T) (s : call T) : call T := {|
  attempts := attempts s; results := results s; fired := fired s; collected := collected s;
  firstErr := firstErr s; timer := timer s; parent := parent s; returned := Some r;
  received := received s; onHedge := onHedge s
|}.

(** The branch of a received result. *)
Definition collect (r : result T) (rs : list (result T)) (s : call T) : call T :=
  let first := match r.2, firstErr s with
               | Some e, None => Some e
               | _, f => f
               end in
  let s' := {|
    attempts := attempts s; results := rs; fired := fired s; collected := collected s + 1;
    firstErr := first; timer := timer s; parent := parent s; returned := returned s;
    received := received s ++ [r]; onHedge := onHedge s
  |} in
  match r.2 with
  | None => set_returned (r.1, None) s'
  | Some _ =>
      if (collected s' =? fired s') && (fired s' =? MaxAttempts cfg) then set_returned (zero, first) s' else s'
  end.

(** The branch of the timer. *)
Definition hedge (s : call T) : call T :=
  if fired s <? MaxAttempts cfg then {|
    attempts := attempts s ++ [Running]; results := results s; fired := fired s + 1; collected := collected s;
    firstErr := firstErr s; timer := Armed; parent := parent s; returned := returned s;
    received := received s; onHedge := onHedge s ++ [fired s + 1]
  |} else set_timer Idle s.

(** [hedgeCtx] is done once the caller's is, or the call has returned. *)
Definition cancelled (s : call T) : Prop := parent s <> None \/ returned s <> None.

(** What the program does by itself. *)
Inductive move : call T -> call T -> Prop :=
| mv_send i r s : attempts s !! i = Some (Finished r) -> move s (send r (set_attempt i (Sent r) s))
| mv_drop i r s : attempts s !! i = Some (Finished r) -> cancelled s -> move s (set_attempt i (Dropped r) s)
| mv_expire s : timer s = Armed -> move s (set_timer Expired s)
(* the coordinator *)
| mv_receive r rs s : returned s = None -> results s = r :: rs -> move s (collect r rs s)
| mv_hedge s : returned s = None -> timer s = Expired -> move s (hedge s)
| mv_done e s : returned s = None -> parent s = Some e -> move s (set_returned (zero, Some e) s).

(** With the protected function, which returns, and the caller, who cancels. *)
Inductive step : call T -> call T -> Prop :=
| st_finish i r s : attempts s !! i = Some Running -> step s (set_attempt i (Finished r) s)
| st_cancel e s : parent s = None -> step s (set_parent e s)
| st_move s s' : move s s' -> step s s'.

(** ** What always holds *)

Fixpoint sents (l : list (attempt T)) : list (result T) :=
  match l with
  | [] => []
  | Sent r :: l => r :: sents l
  | _ :: l => sents l
  end.
Definition unsent (a : attempt T) : Z := match a with Running | Finished _ => 1 | _ => 0 end.
Definition dropped (a : attempt T) : Z := match a with Dropped _ => 1 | _ => 0 end.
Definition failed (r : result T) : Prop := r.2 <> None.

(** What a call may return. *)
Definition justified (s : call T) (r : result T) : Prop :=
  match r with
  | (v, None) => (v, None) ∈ received s
  | (v, Some e) => v = zero /\
      (parent s = Some e \/
       Forall failed (received s) /\ Z.of_nat (length (received s)) = MaxAttempts cfg /\
       exists x, head (received s) = Some (x, Some e))
  end.

Record inv (s : call T) : Prop := {
  iv_fired : fired s = Z.of_nat (length (attempts s));
  iv_bound : 1 <= fired s <= MaxAttempts cfg;
  iv_collected : collected s = Z.of_nat (length (received s));
  iv_sent : received s ++ results s ≡ₚ sents (attempts s);
  iv_dropped : returned s = None -> parent s = None -> total dropped (attempts s) = 0;
  iv_first : returned s = None -> Forall failed (received s) /\ firstErr s = (head (received s)) ≫= snd;
  iv_open : returned s = None -> collected s < MaxAttempts cfg;
  iv_timer : returned s = None -> fired s < MaxAttempts cfg -> timer s <> Idle;
  iv_hedge : onHedge s = Z.of_nat <$> seq 2 (length (attempts s) - 1);
  iv_returned : forall r, returned s = Some r -> justified s r
}.

Lemma sents_app l k : sents (l ++ k) = sents l ++ sents k.
Proof. induction l as [|[] l IH]; cbn; by rewrite ?IH. Qed.

Lemma sents_insert l i a b :
  l !! i = Some a -> sents (<[i := b]> l) ≡ₚ sents [b] ++ sents (take i l ++ drop (S i) l).
Proof.
  intros L. rewrite insert_take_drop by (by eapply lookup_lt_Some). rewrite !sents_app.
  change (b :: drop (S i) l) with ([b] ++ drop (S i) l). rewrite sents_app, !app_assoc. f_equiv. apply Permutation_app_comm.
Qed.

Lemma sents_lookup l i a : l !! i = Some a -> sents l ≡ₚ sents [a] ++ sents (take i l ++ drop (S i) l).
Proof. intros L. rewrite <- (sents_insert l i a a L). by rewrite list_insert_id. Qed.

Lemma sents_count l : total unsent l + total dropped l + Z.of_nat (length (sents l)) = Z.of_nat (length l).
Proof. induction l as [|[] l IH]; cbn; lia. Qed.
Lemma sents_same l i a b :
  l !! i = Some a -> sents [a] = [] -> sents [b] = [] -> sents (<[i := b]> l) ≡ₚ sents l.
Proof. intros L A B. by rewrite (sents_insert l i a b L), (sents_lookup l i a L), A, B. Qed.

Lemma justified_mono s s' r :
  received s' = received s -> (parent s <> None -> parent s' = parent s) -> justified s r -> justified s' r.
Proof.
  intros R P. destruct r as [v [e|]]; cbn; rewrite R; [|done]. intros [-> [E|E]]; (split; [done|]); [left|by right].
  rewrite P; [done|by rewrite E].
Qed.

(** An attempt moves: only the attempts change, and what was sent does not. *)
Lemma attempt_inv i a b s :
  attempts s !! i = Some a -> sents [a] = [] -> sents [b] = [] ->
  (returned s = None -> parent s = None -> dropped b = dropped a) ->
  inv s -> inv (set_attempt i b s).
Proof.
  intros L A B D [I1 I2 I3 I4 I5 I6 I7 I8 I9 I10]. split; cbn; try done.
  - by rewrite length_insert.
  - by rewrite I4, (sents_same _ _ _ _ L A B).
  - intros R P. rewrite (total_insert _ _ _ _ _ L), (D R P), I5 by done. lia.
  - by rewrite length_insert.
Qed.

Lemma send_inv i r s : attempts s !! i = Some (Finished r) -> inv s -> inv (send r (set_attempt i (Sent r) s)).
Proof.
  intros L [I1 I2 I3 I4 I5 I6 I7 I8 I9 I10]. split; cbn; try done.
  - by rewrite length_insert.
  - rewrite (sents_insert _ _ _ _ L). cbn. rewrite app_assoc, I4, (sents_lookup _ _ _ L). cbn.
    apply Permutation_sym, Permutation_cons_append.
  - intros R P. rewrite (total_insert _ _ _ _ _ L), I5 by done. cbn. lia.
  - by rewrite length_insert.
Qed.

Lemma collect_inv r rs s :
  returned s = None -> results s = r :: rs -> inv s -> inv (collect r rs s).
Proof.
  intros R E [I1 I2 I3 I4 I5 I6 I7 I8 I9 I10]. destruct (I6 R) as [Ff Fe]. specialize (I7 R).
  assert (P : (received s ++ [r]) ++ rs ≡ₚ sents (attempts s)) by (rewrite <- app_assoc; cbn; by rewrite <- E).
  assert (C : collected s + 1 = Z.of_nat (length (received s ++ [r]))) by (rewrite length_app; cbn; lia).
  assert (Nil : received s ++ [r] <> []) by (intros K; by apply app_nil in K as [_ ?]).
  assert (F' : failed r -> Forall failed (received s ++ [r])) by (intros; apply Forall_app; split; [done|by repeat constructor]).
  assert (Last : r ∈ received s ++ [r]) by (apply elem_of_app; right; by left).
  assert (H' : forall e, r.2 = Some e -> match firstErr s with Some x => Some x | None => Some e end =
                 head (received s ++ [r]) ≫= snd).
  { intros e Er. rewrite Fe. destruct (received s) as [|[x [e0|]] l] eqn:El; cbn; [done|done|].
    by apply Forall_inv in Ff as []. }
  unfold collect. set (rec := received s ++ [r]) in *. clearbody rec. destruct r as [v [e|]]; cbn [fst snd] in *.
  - specialize (F' ltac:(done)). specialize (H' e eq_refl).
    destruct ((_ =? _) && _) eqn:Full; cbn [collected fired] in Full.
    + apply andb_prop in Full as [F1 F2]. apply Z.eqb_eq in F1, F2. split; cbn; try done; try lia.
      intros r0 [= <-]. destruct rec as [|[x [e0|]] l]; [done| |by apply Forall_inv in F' as []].
      rewrite H'. cbn. split; [done|]. right. split; [done|]. split; [cbn in C; lia|]. by exists x.
    + apply andb_false_iff in Full. split; cbn; try done; try lia.
      * intros _. rewrite 2 Z.eqb_neq in Full. pose proof (sents_count (attempts s)) as K.
        apply Permutation_length in P. rewrite length_app in P.
        pose proof (total_nonneg unsent (attempts s) ltac:(intros []; cbn; lia)).
        pose proof (total_nonneg dropped (attempts s) ltac:(intros []; cbn; lia)). lia.
      * intros r0. by rewrite R.
  - split; cbn; try done; try lia. by intros r0 [= <-].
Qed.

Lemma hedge_inv s : returned s = None -> timer s = Expired -> inv s -> inv (hedge s).
Proof.
  intros R E [I1 I2 I3 I4 I5 I6 I7 I8 I9 I10]. unfold hedge. destruct (Z.ltb_spec (fired s) (MaxAttempts cfg)) as [L|L].
  - split; cbn; try done; rewrite ?length_app; cbn; try lia.
    + rewrite sents_app. cbn. by rewrite app_nil_r.
    + intros _ P. rewrite total_app, I5 by done. cbn. lia.
    + rewrite I9. assert (length (attempts s) <> 0)%nat by lia.
      replace (length (attempts s) + 1 - 1)%nat with (length (attempts s) - 1 + 1)%nat by lia.
      rewrite seq_app, fmap_app. cbn. do 2 f_equal. lia.
  - split; cbn; try done. lia.
Qed.

Lemma hedge_step_inv s s' : inv s -> step s s' -> inv s'.
Proof.
  intros I St. destruct St as [i r s L|e s P|s s' [i r t L|i r t L C|t A|r rs t R E|t R E|e t R E]].
  - by apply (attempt_inv i Running).
  - destruct I as [I1 I2 I3 I4 I5 I6 I7 I8 I9 I10]. split; cbn; try done.
    intros r R. apply (justified_mono s); [done| |by apply I10]. by rewrite P.
  - by apply send_inv.
  - apply (attempt_inv i (Finished r)); try done. intros R P. by destruct C.
  - destruct I as [I1 I2 I3 I4 I5 I6 I7 I8 I9 I10]. split; cbn; try done.
  - by apply collect_inv.
  - by apply hedge_inv.
  - destruct I as [I1 I2 I3 I4 I5 I6 I7 I8 I9 I10]. split; cbn; try done.
    intros r [= <-]. cbn. split; [done|]. by left.
Qed.

Lemma unsent_or_none l :
  total unsent l = 0 \/ (exists i, l !! i = Some Running) \/ exists i r, l !! i = Some (Finished (T := T) r).
Proof.
  induction l as [|a l IH]; [by left|].
  destruct a as [|r|r|r]; [right; left; by exists 0%nat|right; right; by exists 0%nat, r| |];
    (destruct IH as [Z|[[i L]|(i & r' & L)]]; [by left|right; left; by exists (S i)|right; right; by exists (S i), r']).
Qed.

(** A call that has not returned is never stuck. *)
Lemma hedge_progress s :
  inv s -> returned s = None -> (exists i, attempts s !! i = Some Running) \/ exists s', move s s'.
Proof.
  intros [I1 I2 I3 I4 I5 I6 I7 I8 I9 I10] R.
  destruct (results s) as [|r rs] eqn:Er; [|right; eexists; by eapply mv_receive].
  destruct (timer s) eqn:Et; [right; eexists; by apply mv_expire|right; eexists; by apply mv_hedge|].
  destruct (parent s) as [e|] eqn:Ep; [right; eexists; by apply mv_done|].
  destruct (unsent_or_none (attempts s)) as [U|[[i L]|(i & r & L)]];
    [|left; by exists i|right; eexists; by eapply mv_send].
  exfalso.
  pose proof (sents_count (attempts s)) as K. rewrite U, I5 in K by done.
  apply Permutation_length in I4. rewrite app_nil_r in I4.
  assert (~ fired s < MaxAttempts cfg) by (intros L; by apply (I8 R L)). specialize (I7 R). lia.
Qed.
End Call.

(** C29: A hedged call, under every interleaving of its attempts, its timer, the
    coordinator and a cancellation.  It fires between one and [MaxAttempts] (at
    most 16) attempts, the channel always has room for their results, and [OnHedge] reports 2, 3, ... in order; a value it
    returns was returned by an attempt; an error it returns is the caller's
    context's, or the first one received when all [MaxAttempts] attempts
    were fired and every one failed; and until it returns it is never stuck:
    an attempt is still running, or some step is possible. *)
Theorem hedge_contract {T} (zero : T) c s :
  let d := setDefaults c in
  reachable (fun s => exists err, enter zero err = inr s) (step zero d) s ->
  (fired s = Z.of_nat (length (attempts s)) /\ 1 <= fired s <= MaxAttempts d /\ MaxAttempts d <= 16 /\
   Z.of_nat (length (results s)) <= MaxAttempts d) /\
  onHedge s = Z.of_nat <$> seq 2 (Z.to_nat (fired s) - 1) /\
  (forall v, returned s = Some (v, None) -> Sent (v, None) ∈ attempts s) /\
  (forall v e, returned s = Some (v, Some e) -> v = zero /\
     (parent s = Some e \/
      Z.of_nat (length (attempts s)) = MaxAttempts d /\ Forall (fun a => exists r, a = Sent r /\ r.2 <> None) (attempts s) /\
      exists x, head (received s) = Some (x, Some e))) /\
  (returned s = None -> (exists i, attempts s !! i = Some Running) \/ exists s', move zero d s s').
Proof.
  intros d R.
  assert (D : 1 <= MaxAttempts d <= 16) by (unfold d, setDefaults, defaultMaxAttempts, maxAttemptsCap; cbn; zcases; lia). clearbody d.
  assert (I : inv zero d s).
  { revert s R. apply invariant_reachable; [|intros; by eapply hedge_step_inv].
    intros s [[e|] [= <-]]. split; cbn; try done; lia. }
  pose proof (hedge_progress zero d s I) as Pr. destruct I as [I1 I2 I3 I4 I5 I6 I7 I8 I9 I10].
  assert (Sub : forall r, r ∈ received s -> Sent r ∈ attempts s).
  { intros r E. assert (E' : r ∈ sents (attempts s)) by (rewrite <- I4; apply elem_of_app; by left).
    clear -E'. induction (attempts s) as [|[| | |] l IH]; cbn in E'; try (right; by apply IH); [by apply elem_of_nil in E'|].
    apply elem_of_cons in E' as [->|E']; [left|right; by apply IH]. }
  split; [split; [done|split; [lia|split; [lia|]]]|].
  { pose proof (sents_count (attempts s)) as K. apply Permutation_length in I4. rewrite length_app in I4.
    pose proof (total_nonneg unsent (attempts s) ltac:(intros []; cbn; lia)).
    pose proof (total_nonneg dropped (attempts s) ltac:(intros []; cbn; lia)). lia. }
  split; [rewrite I9, I1; by rewrite Nat2Z.id|]. split; [|split; [|exact Pr]].
  - intros v E. apply Sub. exact (I10 _ E).
  - intros v e E. destruct (I10 _ E) as [-> [Q|(F & N & X)]]; (split; [done|]); [by left|right].
    apply Permutation_length in I4 as L4. rewrite length_app in L4. pose proof (sents_count (attempts s)) as K.
    pose proof (total_nonneg unsent (attempts s) ltac:(intros []; cbn; lia)).
    pose proof (total_nonneg dropped (attempts s) ltac:(intros []; cbn; lia)).
    assert (L : length (attempts s) = length (received s)) by lia. split; [lia|]. split; [|done].
    assert (Rn : results s = []) by (destruct (results s); [done|cbn in L4; lia]).
    rewrite Rn, app_nil_r in I4. assert (Fs : Forall failed (sents (attempts s))) by (by rewrite <- I4).
    assert (Z1 : total unsent (attempts s) + total dropped (attempts s) = 0) by lia. clear -Z1 Fs.
    induction (attempts s) as [|a l IH]; [done|]. cbn in Z1, Fs.
    pose proof (total_nonneg unsent l ltac:(intros []; cbn; lia)). pose proof (total_nonneg dropped l ltac:(intros []; cbn; lia)).
    destruct a as [|r|r|r]; cbn in Z1; try lia. inversion Fs; subst. constructor; [by exists r|]. apply IH; [done|lia].
Qed.

(** A schedule, executed: the primary is slow, the hedge wins. *)
Lemma hedge_contract_witness :
  let d := setDefaults {| HedgeDelay := 0; MaxAttempts := 0 |} in
  exists s, reachable (fun s => exists err, enter 0 err = inr s) (step 0 d) s /\ returned s = Some (7, None) /\
    Sent (7, None) ∈ attempts s.
Proof.
  intros d. set (s1 := hedge d (set_timer Expired (@started Z))).
  set (s2 := send (7, None) (set_attempt 1 (Sent (7, None)) (set_attempt 1 (Finished (7, None)) s1))).
  set (s3 := collect 0 d (7, None) [] s2).
  assert (R : reachable (fun s => exists err, enter 0 err = inr s) (step 0 d) s3).
  { eapply reach_step; [eapply reach_step; [eapply reach_step; [eapply reach_step; [eapply reach_step;
      [by apply reach_init; exists None|]|]|]|]|].
    - by apply st_move, mv_expire.
    - by apply st_move, mv_hedge.
    - by apply (st_finish _ _ 1 (7, None)).
    - by apply st_move, (mv_send _ _ 1 (7, None)).
    - by apply st_move, mv_receive. }
  exists s3. split; [exact R|]. split; [reflexivity|].
  destruct (hedge_contract 0 {| HedgeDelay := 0; MaxAttempts := 0 |} s3 R) as (_ & _ & V & _). by apply V.
Defined.

(** ** [LLMHedge] *)

Module LLM.
Record LLMHedgeConfig := {
  Attempts : Z; (* how many *)
  HedgeAfter : Z;
  AllowCrossVendor : bool;
  AllAttemptsSameVendor : bool
}.

Definition LLMHedge (cfg : LLMHedgeConfig) : LLMHedgeConfig + error :=
  if Attempts cfg =? 0 then inr (ESentinel (ErrNew "middleware.LLMHedge: at least one Attempt required"))
  else if HedgeAfter cfg <? 0 then inr (ESentinel (ErrNew "middleware.LLMHedge: HedgeAfter must be non-negative"))
  else if (Attempts cfg >? 1) && negb (AllAttemptsSameVendor cfg) && negb (AllowCrossVendor cfg)
  then inr (ESentinel (ErrNew "middleware.LLMHedge: multiple Attempts require either AllAttemptsSameVendor or AllowCrossVendor=true; see godoc for the data-residency rationale"))
  else inl {|
    Attempts := Attempts cfg;
    HedgeAfter := if HedgeAfter cfg =? 0 then 800 * Millisecond else HedgeAfter cfg;
    AllowCrossVendor := AllowCrossVendor cfg;
    AllAttemptsSameVendor := AllAttemptsSameVendor cfg
  |}.

(** One call of [Run]. *)
Record run (T : Type) := {
  attempts : list (attempt T);
  results : list (result T);
  pending : Z;
  nextHedge : Z;
  lastErr : option error;
  timer : timer_state;
  parent : option error;
  returned : option (result T);
  onHedge : list Z
}.

Arguments attempts {T}.
Arguments results {T}.
Arguments pending {T}.
Arguments nextHedge {T}.
Arguments lastErr {T}.
Arguments timer {T}.
Arguments parent {T}.
Arguments returned {T}.
Arguments onHedge {T}.

Section Run.
Context {T : Type} (zero : T) (cfg : LLMHedgeConfig).

(** [dispatch(0)] and the timer. *)
Definition started : run T := {|
  attempts := [Running]; results := []; pending := 1; nextHedge := 1; lastErr := None; timer := Armed;
  parent := None; returned := None; onHedge := []
|}.

Definition set (l : list (attempt T)) (rs : list (result T)) (t : timer_state) (p : option error)
    (ret : option (result T)) (s : run T) : run T := {|
  attempts := l; results := rs; pending := pending s; nextHedge := nextHedge s; lastErr := lastErr s;
  timer := t; parent := p; returned := ret; onHedge := onHedge s
|}.

(** A received outcome, and the test of the loop. *)
Definition receive (r : result T) (rs : list (result T)) (s : run T) : run T :=
  let last := match r.2 with Some e => Some e | None => lastErr s end in
  {| attempts := attempts s; results := rs; pending := pending s - 1; nextHedge := nextHedge s; lastErr := last;
     timer := timer s; parent := parent s;
     returned :=
       match r.2 with
       | None => Some (r.1, None)
       | Some _ =>
           if pending s - 1 >? 0 then None
           else Some (zero, match last with
                            | Some e => Some e
                            | None => Some (ESentinel (ErrNew "middleware.LLMHedge: no attempts produced a result"))
                            end)
       end;
     onHedge := onHedge s |}.

Definition dispatch (s : run T) : run T := {|
  attempts := attempts s ++ [Running]; results := results s; pending := pending s + 1; nextHedge := nextHedge s + 1;
  lastErr := lastErr s; timer := if nextHedge s + 1 <? Attempts cfg then Armed else Idle; parent := parent s;
  returned := returned s; onHedge := onHedge s ++ [nextHedge s]
|}.

Inductive step : run T -> run T -> Prop :=
| st_finish i r s : attempts s !! i = Some Running ->
    step s (set (<[i := Finished r]> (attempts s)) (results s) (timer s) (parent s) (returned s) s)
| st_send i r s : attempts s !! i = Some (Finished r) ->
    step s (set (<[i := Sent r]> (attempts s)) (results s ++ [r]) (timer s) (parent s) (returned s) s)
| st_drop i r s : attempts s !! i = Some (Finished r) -> parent s <> None \/ returned s <> None ->
    step s (set (<[i := Dropped r]> (attempts s)) (results s) (timer s) (parent s) (returned s) s)
| st_expire s : timer s = Armed ->
    step s (set (attempts s) (results s) Expired (parent s) (returned s) s)
| st_cancel e s : parent s = None ->
    step s (set (attempts s) (results s) (timer s) (Some e) (returned s) s)
| st_receive r rs s : returned s = None -> results s = r :: rs -> step s (receive r rs s)
(* the channel is nil once every attempt was dispatched *)
| st_hedge s : returned s = None -> nextHedge s < Attempts cfg -> timer s = Expired -> step s (dispatch s)
| st_done e s : returned s = None -> parent s = Some e ->
    step s (set (attempts s) (results s) (timer s) (parent s) (Some (zero, Some e)) s).
End Run.

(** [Run] is documented to return the first result that is not an error, and
    the last error only if every attempt errors.  However many attempts are
    configured, if the primary fails before the hedge timer fires the call
    returns its error and none of the others is ever started. *)
Theorem llm_hedge_gives_up_early n (e : error) :
  2 <= n ->
  let cfg := {| Attempts := n; HedgeAfter := 0; AllowCrossVendor := true; AllAttemptsSameVendor := false |} in
  exists d, LLMHedge cfg = inl d /\ Attempts d = n /\
  exists s, reachable (fun s => s = started) (step 0 d) s /\ returned s = Some (0, Some e) /\
    parent s = None /\ length (attempts s) = 1%nat /\ onHedge s = [].
Proof.
  intros N cfg. unfold LLMHedge. cbn [Attempts HedgeAfter AllowCrossVendor AllAttemptsSameVendor cfg].
  rewrite andb_false_r. zcases; try lia. eexists. split; [reflexivity|]. split; [reflexivity|].
  eexists. split.
  { eapply reach_step; [eapply reach_step; [eapply reach_step; [by apply reach_init|]|]|].
    - by apply (st_finish _ _ 0 (0, Some e)).
    - by apply (st_send _ _ 0 (0, Some e)).
    - by apply st_receive. }
  repeat split.
Qed.

Lemma llm_hedge_gives_up_early_witness :
  exists d, LLMHedge {| Attempts := 3; HedgeAfter := 0; AllowCrossVendor := true; AllAttemptsSameVendor := false |} = inl d.
Proof.
  destruct (llm_hedge_gives_up_early 3 (ESentinel (ErrUser 1)) ltac:(lia)) as (d & E & _). by exists d.
Defined.
End LLM.
