(* ===== verification/Chain.v ===== *)
(** The middleware chain ([middleware/chain.go]).

    A pattern is used through its interface: an [Executor] is the [Execute]
    method of an instance.  A chain is the list of its middlewares; [Execute]
    folds it with the loop of the source.  The last part composes the
    breaker and the retry as the package comment recommends, and the other
    way round. *)

From S2P Require Import Prelude Float64 Errors Runtime Breaker BreakerSpec Retry Timeout.

#[local] Open Scope go_scope.

(** ** [chain.go] *)

Section Chain.
Context {W T : Type} `{World W} (zero : T).

Definition Middleware : Type := Fn W T -> Fn W T.

Definition Chain : Type := list Middleware.

Definition New : Chain := [].

(** [circuitbreaker.CircuitBreaker[T]], [retry.Retry[T]], [bulkhead.Bulkhead[T]],
    [adaptive.Limiter[T]], [budget.Budget[T]], [hedge.Hedge[T]] and
    [fallback.Fallback[T]]. *)
Definition Executor : Type := ctx -> Fn W T -> M W (result T).

Definition WithCircuitBreaker (cb : Executor) (c : Chain) : Chain := c ++ [fun next ctx => cb ctx next].
Definition WithRetry (r : Executor) (c : Chain) : Chain := c ++ [fun next ctx => r ctx next].
Definition WithBulkhead (bh : Executor) (c : Chain) : Chain := c ++ [fun next ctx => bh ctx next].
Definition WithAdaptive (a : Executor) (c : Chain) : Chain := c ++ [fun next ctx => a ctx next].
Definition WithBudget (b : Executor) (c : Chain) : Chain := c ++ [fun next ctx => b ctx next].
Definition WithHedge (h : Executor) (c : Chain) : Chain := c ++ [fun next ctx => h ctx next].
Definition WithFallback (fb : Executor) (c : Chain) : Chain := c ++ [fun next ctx => fb ctx next].

Definition WithTimeout (tm : ctx -> Z -> Fn W T -> M W (result T)) (duration : Z) (c : Chain) : Chain :=
  c ++ [fun next ctx => tm ctx duration next].

(** [Wait] of the rate limiter. *)
Definition WithRateLimit (wait : ctx -> string -> M W (option error)) (key : string) (c : Chain) : Chain :=
  c ++ [fun next ctx =>
    let! err := wait ctx key in
    match err with
    | Some e => ret (zero, Some e)
    | None => next ctx
    end].

(** The loop of [Execute], for [i] down to 0. *)
Fixpoint wrap (middlewares : list Middleware) (i : nat) (next : Fn W T) : Fn W T :=
  match i with
  | O => next
  | S i => wrap middlewares i (match middlewares !! i with Some m => m next | None => next end)
  end.

Definition Execute (c : Chain) (ctx : ctx) (fn : Fn W T) : M W (result T) :=
  wrap c (length c) fn ctx.

(** ** What the loop builds *)

Lemma wrap_app (c : list Middleware) m i next : (i <= length c)%nat -> wrap (c ++ [m]) i next = wrap c i next.
Proof.
  revert next. induction i as [|i IH]; intros next L; [done|]. cbn. rewrite lookup_app_l by exact L. apply IH. by apply Nat.lt_le_incl.
Qed.

Lemma wrap_foldr (c : list Middleware) next : wrap c (length c) next = foldr (fun m next => m next) next c.
Proof.
  revert next. induction c as [|m c IH] using rev_ind; intros next; [done|].
  rewrite length_app, Nat.add_1_r. cbn. rewrite list_lookup_middle by done.
  rewrite wrap_app by done. by rewrite IH, foldr_app.
Qed.

Lemma wrap_cons (m : Middleware) (c : list Middleware) next :
  wrap (m :: c) (length (m :: c)) next = m (wrap c (length c) next).
Proof. by rewrite (wrap_foldr (m :: c)), wrap_foldr. Qed.

Lemma execute_cons m c ctx fn : Execute (m :: c) ctx fn = m (fun ctx => Execute c ctx fn) ctx.
Proof.
  unfold Execute. by rewrite wrap_cons.
Qed.
End Chain.

Arguments Middleware : clear implicits.
Arguments Chain : clear implicits.
Arguments Executor : clear implicits.

(** ** The order of the layers *)

(** A layer that leaves a mark on the way in and on the way out. *)
Definition around {T} (i : nat) : Middleware (sim (list (bool * nat))) T := fun next c w =>
  let r := next c (Sim (sim_clock w) (sim_state w ++ [(true, i)])) in
  (r.1, Sim (sim_clock r.2) (sim_state r.2 ++ [(false, i)])).

(** A chain built as A, B, C executes A, B, C, the function, C, B, A: for
    every list of layers, whatever the function does in between, each layer
    is entered once in the order of the list and left once in the
    opposite order, and the result is the function's; and a chain is the
    composition of its parts, so that a layer wraps everything added after it. *)
Theorem chain_order {T} (ids : list nat) (c : ctx) (fn : Fn (sim (list (bool * nat))) T) w :
  (let inner := fn c (Sim (sim_clock w) (sim_state w ++ ((fun i => (true, i)) <$> ids))) in
   Execute (map around ids) c fn w =
     (inner.1, Sim (sim_clock inner.2) (sim_state inner.2 ++ ((fun i => (false, i)) <$> reverse ids)))) /\
  forall (outer inner : Chain (sim (list (bool * nat))) T) ctx w,
    Execute (outer ++ inner) ctx fn w = Execute outer ctx (fun ctx => Execute inner ctx fn) w.
Proof.
  split.
  - cbv zeta. revert w. induction ids as [|i ids IH]; intros [t l].
    + cbn. unfold Execute. cbn. rewrite app_nil_r. destruct (fn c (Sim t l)) as [r [t' l']]. cbn. by rewrite app_nil_r.
    + rewrite reverse_cons, fmap_app. cbn [map]. rewrite execute_cons. unfold around at 1.
      cbn [sim_clock sim_state]. rewrite IH. cbn [fst snd sim_clock sim_state].
      rewrite <- (app_assoc l). by rewrite <- app_assoc.
  - intros outer inner ctx w'. unfold Execute.
    rewrite (wrap_foldr (outer ++ inner)), (wrap_foldr outer), foldr_app. do 2 f_equal.
    by rewrite (wrap_foldr inner).
Qed.

(** ** A breaker around a retry *)

(** A retry leaves alone what its function, its draws and its callback leave
    alone. *)
Lemma retry_leaves {W T V} `{World W} (view : W -> V) (Pow : f64 -> f64 -> f64) (rand : M W f64)
    (cfg : Retry.Config W) (c : ctx) (fn : Fn W T) :
  (forall w, view (tick w) = view w) -> (forall d o w, view (await d o w).2 = view w) ->
  leaves view rand -> (forall a e, leaves view (callOnRetry cfg a e)) -> (forall c, leaves view (fn c)) ->
  forall n attempt res err, leaves view (attempts Pow rand cfg c fn n attempt res err).
Proof.
  intros Tk Aw Rd Cb Fn. induction n as [|n IH]; intros attempt res err w; [done|].
  cbn [attempts]. unfold bind at 1, err_of. cbn [fst snd].
  unfold ret. destruct (ctx_Err c (clock (tick w))); [apply Tk|]. unfold bind at 1.
  pose proof (Fn c (tick w)) as F. destruct (fn c (tick w)) as [[v [e|]] w1]; cbn [fst snd] in *; rewrite Tk in F; [|exact F].
  destruct (negb (isRetryable cfg e)); [exact F|].
  destruct (attempt =? MaxAttempts cfg); [exact F|].
  unfold bind at 1. set (w2 := (callOnRetry cfg (attempt + 1) e w1).2).
  unfold bind at 1. set (p := backoff_M Pow rand cfg attempt w2).
  unfold bind at 1. set (q := select_timer p.1 c p.2).
  assert (E : view q.2 = view w).
  { unfold q, select_timer. cbn. rewrite Aw. unfold p, backoff_M.
    assert (E2 : view w2 = view w) by (unfold w2; by rewrite Cb, F).
    destruct (_ && _); [|done]. unfold bind. cbn. by rewrite Rd. }
  destruct q.1; [done|]. by rewrite IH.
Qed.

Section Composition.
Context {W T : Type} {WW : World W} {HB : Has W breaker} (zero : T) (p : policy).
Context (Pow : f64 -> f64 -> f64) (rand : M W f64) (cfg : Retry.Config W).
Context (rest : Chain W T) (fn : Fn W T).

(** What the retry calls: the rest of the chain around the operation. *)
Definition operation : Fn W T := fun c => Execute rest c fn.

Definition breaker_layer : Middleware W T := fun next c => Breaker.Execute zero c next.
Definition retry_layer : Middleware W T := fun next c => Retry.Execute zero Pow rand cfg c next.

Definition breaker_then_retry : Chain W T :=
  WithRetry (Retry.Execute zero Pow rand cfg) (WithCircuitBreaker (Breaker.Execute zero) New) ++ rest.

Context (script : W -> list (result T)) (Sc : scripted script operation).
Context (Quiet : forall c, leaves (get (S := breaker)) (operation c)) (Put : forall b w, script (put (b : breaker) w) = script w).
Context (RandS : leaves script rand) (RandB : leaves (get (S := breaker)) rand).
Context (OnRS : forall a e, leaves script (callOnRetry cfg a e)).
Context (OnRB : forall a e, leaves (get (S := breaker)) (callOnRetry cfg a e)).

Lemma first_settled_recovered errs v rest' n :
  Forall (fun r : result T => exists e, r.2 = Some e /\ isRetryable cfg e = true) errs -> (length errs < n)%nat ->
  first_settled zero cfg n (errs ++ (v, None) :: rest') = ((v, None), S (length errs)).
Proof.
  intros F. revert n. induction F as [|r errs (e & Er & Re) F IH]; intros [|n] L; cbn in L; try lia; [done|].
  change ((r :: errs) ++ (v, None) :: rest') with (r :: (errs ++ (v, None) :: rest')). cbn [first_settled].
  unfold settled at 1. rewrite Er, Re. cbn [negb orb]. destruct (Nat.eqb_spec n 0); [lia|]. by rewrite IH by lia.
Qed.

End Composition.

(** ** Concrete chains

    The world holds a breaker and what the operation is going to return. *)
Module Demo.
Definition world : Type := sim (breaker * list (result Z)).
#[local] Instance has_breaker : Has world breaker := Has_fst.

Definition script (w : world) : list (result Z) := (sim_state w).2.

Definition op : Fn world Z := fun _ w =>
  match script w with
  | [] => ((0, None), w)
  | r :: rs => (r, Sim (sim_clock w) ((sim_state w).1, rs))
  end.

Lemma op_scripted (rest : Chain world Z) : rest = [] -> scripted script (operation rest op).
Proof.
  intros ->. split.
  - intros c w r rs E. unfold operation, Execute, op. cbn. rewrite E. by eexists.
  - done.
  - intros d [t|] w; cbn; zcases; done.
Qed.

Definition retry_config : Retry.Config world := Retry.setDefaults {|
  RetryableErrors := []; NonRetryableErrors := []; IsRetryable_fn := None; OnRetry := None;
  InitialDelay := 0; MaxDelay := 0; Multiplier := f_of_Z 2; MaxAttempts := 3;
  Policy := BackoffConstant; Jitter := false |}.

Definition pow (x y : f64) : f64 := x.
Definition draw : M world f64 := ret (f_of_Z 0).

Definition blip : list (result Z) := [(0, Some (ESentinel (ErrUser 1))); (0, Some (ESentinel (ErrUser 1))); (7, None)].

Definition start (cb : breaker) (rs : list (result Z)) : world := Sim 0 (cb, rs).

(** The breaker of the documentation: five failures in a row. *)
Definition five : breaker := Breaker.New (BreakerSpec.example_config 5) 0 [].


(** The other way round: a retry outside the breaker. *)
Definition retry_then_breaker : Chain world Z :=
  WithCircuitBreaker (Breaker.Execute 0) (WithRetry (Retry.Execute 0 pow draw retry_config) New).

Fixpoint calls (n : nat) : M world (list (result Z)) :=
  match n with
  | O => ret []
  | S n =>
      let! r := Execute retry_then_breaker Background op in
      let! rs := calls n in
      ret (r :: rs)
  end.

(** The documentation of the chain says that with five failures to trip
    and three attempts two recovered blips open the circuit when the retry is
    outside the breaker.  They do not, and neither do fifty: the success
    that makes it a recovered blip resets the count of consecutive
    failures.  (Calls that fail for good do: two of them are enough.) *)
Theorem recovered_blips_do_not_trip :
  (let r := calls 50 (start five (concat (replicate 50 blip))) in
   r.1 = replicate 50 (7, None) /\ state (sim_state r.2).1 = StateClosed /\
   ConsecutiveFailures (counts (sim_state r.2).1) = 0 /\ Requests (counts (sim_state r.2).1) = 150) /\
  state (sim_state (calls 2 (start five (replicate 6 (0, Some (ESentinel (ErrUser 1)))))).2).1 = StateOpen.
Proof. split; [cbv zeta; repeat split|]; vm_compute; reflexivity. Qed.
End Demo.
