(* ===== verification/Presets.v ===== *)
(** The presets ([middleware/presets.go]): the chains of [HTTPClient],
    [DatabaseQuery], [RPCDownstream] and [LLMCall], with the configurations
    they build and the predicates they retry by.

    A preset returns an error, or the configuration of the breaker it creates
    and the chain; the state of the breaker and of the budget, fresh when the
    preset returns, is the world's.  [LLMHedge] is in [Hedge]. *)

From S2P Require Import Prelude Float64 Errors Runtime Breaker BreakerSpec Retry Timeout Budget Chain.

#[local] Open Scope go_scope.

(** ** Configurations *)

Record HTTPClientConfig := {
  hc_Timeout : Z;
  hc_MaxRetries : Z;
  hc_RetryInitialDelay : Z;
  hc_CBFailureThreshold : Z; (* uint32 *)
  hc_CBOpenTimeout : Z
}.

Definition hc_setDefaults (c : HTTPClientConfig) : HTTPClientConfig := {|
  hc_Timeout := hc_Timeout c;
  hc_MaxRetries := if hc_MaxRetries c <=? 0 then 3 else hc_MaxRetries c;
  hc_RetryInitialDelay := if hc_RetryInitialDelay c <=? 0 then 100 * Millisecond else hc_RetryInitialDelay c;
  hc_CBFailureThreshold := if hc_CBFailureThreshold c =? 0 then 5 else hc_CBFailureThreshold c;
  hc_CBOpenTimeout := if hc_CBOpenTimeout c <=? 0 then 30 * Second else hc_CBOpenTimeout c
|}.

Record DatabaseQueryConfig := {
  dq_QueryTimeout : Z;
  dq_MaxRetries : Z;
  dq_CBFailureThreshold : Z
}.

Definition dq_setDefaults (c : DatabaseQueryConfig) : DatabaseQueryConfig := {|
  dq_QueryTimeout := dq_QueryTimeout c;
  dq_MaxRetries := if dq_MaxRetries c <=? 0 then 2 else dq_MaxRetries c;
  dq_CBFailureThreshold := if dq_CBFailureThreshold c =? 0 then 10 else dq_CBFailureThreshold c
|}.

Record RPCDownstreamConfig := {
  rd_CallTimeout : Z;
  rd_MaxRetries : Z;
  rd_CBFailureThreshold : Z
}.

Definition rd_setDefaults (c : RPCDownstreamConfig) : RPCDownstreamConfig := {|
  rd_CallTimeout := rd_CallTimeout c;
  rd_MaxRetries := if rd_MaxRetries c <=? 0 then 3 else rd_MaxRetries c;
  rd_CBFailureThreshold := if rd_CBFailureThreshold c =? 0 then 5 else rd_CBFailureThreshold c
|}.

(** [Provider] and [Model] are labels; [lc_Budget] is the [BudgetConfig]. *)
Record LLMCallConfig (W T : Type) := {
  lc_CallTimeout : Z;
  lc_MaxRetries : Z;
  lc_RetryInitialDelay : Z;
  lc_AssumeIdempotent : bool;
  lc_CBFailureThreshold : Z;
  lc_CBOpenTimeout : Z;
  lc_MaxConcurrent : Z;
  lc_Budget_Max : Cost;
  lc_Budget_Charge : option (ctx -> T -> option error -> Cost);
  lc_Budget_OnExceeded : option (Cost -> M W unit)
}.

Arguments lc_CallTimeout {W T}.
Arguments lc_MaxRetries {W T}.
Arguments lc_RetryInitialDelay {W T}.
Arguments lc_AssumeIdempotent {W T}.
Arguments lc_CBFailureThreshold {W T}.
Arguments lc_CBOpenTimeout {W T}.
Arguments lc_MaxConcurrent {W T}.
Arguments lc_Budget_Max {W T}.
Arguments lc_Budget_Charge {W T}.
Arguments lc_Budget_OnExceeded {W T}.

Definition lc_setDefaults {W T} (c : LLMCallConfig W T) : LLMCallConfig W T := {|
  lc_CallTimeout := lc_CallTimeout c;
  lc_MaxRetries := if lc_MaxRetries c <=? 0 then 3 else lc_MaxRetries c;
  lc_RetryInitialDelay := if lc_RetryInitialDelay c <=? 0 then 250 * Millisecond else lc_RetryInitialDelay c;
  lc_AssumeIdempotent := lc_AssumeIdempotent c;
  lc_CBFailureThreshold := if lc_CBFailureThreshold c =? 0 then 5 else lc_CBFailureThreshold c;
  lc_CBOpenTimeout := if lc_CBOpenTimeout c <=? 0 then 30 * Second else lc_CBOpenTimeout c;
  lc_MaxConcurrent := if lc_MaxConcurrent c <=? 0 then 64 else lc_MaxConcurrent c;
  lc_Budget_Max := lc_Budget_Max c;
  lc_Budget_Charge := lc_Budget_Charge c;
  lc_Budget_OnExceeded := lc_Budget_OnExceeded c
|}.

(** ** What the presets hand to the patterns *)

(** [ReadyToTrip] of every preset; no sliding window. *)
Definition preset_breaker (maxRequests timeout threshold : Z) : Breaker.Config := {|
  ReadyToTrip := Some (fun c => ConsecutiveFailures c >=? threshold); OnStateChange := false; IsSuccessful := None;
  Interval := 60 * Second; Breaker.Timeout := timeout; MaxRequests := maxRequests;
  WindowType := SlidingWindowDisabled; SlidingWindowSize := 0; MinimumCalls := 0;
  FailureRateThreshold := f_of_Z 0
|}.

Definition preset_retry {W} (maxAttempts initialDelay maxDelay : Z) (isRetryable : option (error -> bool)) :
    Retry.Config W := {|
  RetryableErrors := []; NonRetryableErrors := []; IsRetryable_fn := isRetryable; OnRetry := None;
  InitialDelay := initialDelay; MaxDelay := maxDelay; Multiplier := f_of_Z 2;
  MaxAttempts := maxAttempts; Policy := BackoffExponential; Jitter := true
|}.

Definition preset_timeout {W} (d : Z) : Timeout.Config W := {| OnTimeout := None; DefaultTimeout := d |}.

(** The predicate of [HTTPClient]. *)
Definition http_isRetryable (err : error) : bool :=
  negb (errors_is err ErrCircuitOpen) && negb (errors_is err Canceled) && negb (errors_is err DeadlineExceeded).

Definition llmIsRetryable (assumeIdempotent : bool) (err : option error) : bool :=
  match err with
  | None => false
  | Some e =>
      if errors_is e ErrBudgetExceeded then false
      else if errors_is e ErrCircuitOpen then false
      else if errors_is e Canceled || errors_is e DeadlineExceeded then false
      else if errors_is e ErrRateLimitExceeded then true
      else if IsRetryable (Some e) then true
      else assumeIdempotent
  end.

Definition http_breaker (c : HTTPClientConfig) : Breaker.Config :=
  preset_breaker 3 (hc_CBOpenTimeout c) (hc_CBFailureThreshold c).
Definition http_retry {W} (c : HTTPClientConfig) : Retry.Config W :=
  preset_retry (hc_MaxRetries c) (hc_RetryInitialDelay c) 0 (Some http_isRetryable).

Definition database_breaker (c : DatabaseQueryConfig) : Breaker.Config :=
  preset_breaker 2 (20 * Second) (dq_CBFailureThreshold c).
Definition database_retry {W} (c : DatabaseQueryConfig) : Retry.Config W :=
  preset_retry (dq_MaxRetries c) (50 * Millisecond) (500 * Millisecond) None.

Definition rpc_breaker (c : RPCDownstreamConfig) : Breaker.Config :=
  preset_breaker 3 (30 * Second) (rd_CBFailureThreshold c).
Definition rpc_retry {W} (c : RPCDownstreamConfig) : Retry.Config W :=
  preset_retry (rd_MaxRetries c) (100 * Millisecond) (2 * Second) None.

Definition llm_breaker {W T} (c : LLMCallConfig W T) : Breaker.Config :=
  preset_breaker 3 (lc_CBOpenTimeout c) (lc_CBFailureThreshold c).
Definition llm_retry {W T} (c : LLMCallConfig W T) : Retry.Config W :=
  preset_retry (lc_MaxRetries c) (lc_RetryInitialDelay c) 0
    (Some (fun e => llmIsRetryable (lc_AssumeIdempotent c) (Some e))).

(** ** The presets *)

Section Presets.
Context {W T : Type} {WW : World W} {HB : Has W breaker} {HG : Has W budget} (zero : T).
Context (Pow : f64 -> f64 -> f64) (rand : M W f64).
(** [bulkhead.New(cfg).Execute], by [MaxConcurrent]. *)
Context (bulkhead : Z -> Executor W T).

Definition Preset : Type := error + (Breaker.Config * Chain W T).

(** Breaker, retry, timeout, from the outside in. *)
Definition layered (cb : Breaker.Config) (r : Retry.Config W) (d : Z) : Breaker.Config * Chain W T :=
  (cb,
   WithTimeout (Timeout.Execute zero (Timeout.setDefaults (preset_timeout d))) d
     (WithRetry (Retry.Execute zero Pow rand (Retry.setDefaults r))
        (WithCircuitBreaker (Breaker.Execute zero) New))).

Definition HTTPClient (cfg : HTTPClientConfig) : Preset :=
  if hc_Timeout cfg <=? 0 then inl (ESentinel (ErrNew "middleware.HTTPClient: Timeout must be positive"))
  else
    let cfg := hc_setDefaults cfg in
    inr (layered (http_breaker cfg) (http_retry cfg) (hc_Timeout cfg)).

Definition DatabaseQuery (cfg : DatabaseQueryConfig) : Preset :=
  if dq_QueryTimeout cfg <=? 0
  then inl (ESentinel (ErrNew "middleware.DatabaseQuery: QueryTimeout must be positive"))
  else
    let cfg := dq_setDefaults cfg in
    inr (layered (database_breaker cfg) (database_retry cfg) (dq_QueryTimeout cfg)).

Definition RPCDownstream (cfg : RPCDownstreamConfig) : Preset :=
  if rd_CallTimeout cfg <=? 0
  then inl (ESentinel (ErrNew "middleware.RPCDownstream: CallTimeout must be positive"))
  else
    let cfg := rd_setDefaults cfg in
    inr (layered (rpc_breaker cfg) (rpc_retry cfg) (rd_CallTimeout cfg)).

Definition LLMCall (cfg : LLMCallConfig W T) : Preset :=
  if lc_CallTimeout cfg <=? 0 then inl (ESentinel (ErrNew "middleware.LLMCall: CallTimeout must be positive"))
  else
    let cfg := lc_setDefaults cfg in
    match Budget.New (lc_Budget_Max cfg) with
    | inr err => inl err
    | inl _ =>
        let b := {| Max := lc_Budget_Max cfg; Charge := lc_Budget_Charge cfg;
                    OnExceeded := lc_Budget_OnExceeded cfg; ResetAfter := 0 |} in
        inr (llm_breaker cfg,
             WithTimeout (Timeout.Execute zero (Timeout.setDefaults (preset_timeout (lc_CallTimeout cfg)))) (lc_CallTimeout cfg)
               (WithBudget (Budget.Execute zero b)
                 (WithRetry (Retry.Execute zero Pow rand (Retry.setDefaults (llm_retry cfg)))
                   (WithCircuitBreaker (Breaker.Execute zero)
                     (WithBulkhead (bulkhead (lc_MaxConcurrent cfg)) New)))))
    end.

(** ** What a preset chain is *)

(** The body every preset shares: retry around timeout. *)
Definition retried (r : Retry.Config W) (d : Z) (fn : Fn W T) : Fn W T := fun c =>
  Retry.Execute zero Pow rand (Retry.setDefaults r) c
    (fun c => Timeout.Execute zero (Timeout.setDefaults (preset_timeout d)) c d fn).

Lemma layered_execute cb r d c fn :
  Execute (layered cb r d).2 c fn = Breaker.Execute zero c (retried r d fn).
Proof. reflexivity. Qed.

(** The presets layer as documented.  [HTTPClient], [DatabaseQuery] and
    [RPCDownstream] reject exactly a timeout that is not positive; otherwise
    a call is the breaker around the retry around the timeout around the
    operation, with the parameters given or their defaults.  [LLMCall] also
    rejects a budget without a positive ceiling, and is the bulkhead around
    the breaker around the retry around the budget around the timeout: the
    budget is inside the retry, so every attempt is charged. *)
Theorem preset_layers c fn hc dq rd lc :
  match HTTPClient hc with
  | inl _ => hc_Timeout hc <= 0
  | inr p => 0 < hc_Timeout hc /\ let k := hc_setDefaults hc in
      p.1 = http_breaker k /\ Execute p.2 c fn = Breaker.Execute zero c (retried (http_retry k) (hc_Timeout hc) fn) /\
      1 <= hc_MaxRetries k /\ (1 <= hc_MaxRetries hc -> hc_MaxRetries k = hc_MaxRetries hc)
  end /\
  match DatabaseQuery dq with
  | inl _ => dq_QueryTimeout dq <= 0
  | inr p => 0 < dq_QueryTimeout dq /\ let k := dq_setDefaults dq in
      p.1 = database_breaker k /\
      Execute p.2 c fn = Breaker.Execute zero c (retried (database_retry k) (dq_QueryTimeout dq) fn)
  end /\
  match RPCDownstream rd with
  | inl _ => rd_CallTimeout rd <= 0
  | inr p => 0 < rd_CallTimeout rd /\ let k := rd_setDefaults rd in
      p.1 = rpc_breaker k /\ Execute p.2 c fn = Breaker.Execute zero c (retried (rpc_retry k) (rd_CallTimeout rd) fn)
  end /\
  match LLMCall lc with
  | inl _ => lc_CallTimeout lc <= 0 \/
      let m := lc_Budget_Max lc in Tokens m <= 0 /\ USDMicros m <= 0 /\ Calls m <= 0
  | inr p => 0 < lc_CallTimeout lc /\ let k := lc_setDefaults lc in
      p.1 = llm_breaker k /\
      Execute p.2 c fn =
        bulkhead (lc_MaxConcurrent k) c (fun c => Breaker.Execute zero c (fun c =>
          Retry.Execute zero Pow rand (Retry.setDefaults (llm_retry k)) c (fun c =>
            Budget.Execute zero {| Max := lc_Budget_Max lc; Charge := lc_Budget_Charge lc;
                                   OnExceeded := lc_Budget_OnExceeded lc; ResetAfter := 0 |} c (fun c =>
              Timeout.Execute zero (Timeout.setDefaults (preset_timeout (lc_CallTimeout lc))) c (lc_CallTimeout lc) fn))))
  end.
Proof.
  unfold HTTPClient, DatabaseQuery, RPCDownstream, LLMCall.
  destruct (Z.leb_spec (hc_Timeout hc) 0), (Z.leb_spec (dq_QueryTimeout dq) 0), (Z.leb_spec (rd_CallTimeout rd) 0),
    (Z.leb_spec (lc_CallTimeout lc) 0);
    repeat match goal with |- _ /\ _ => split end; try done; try (by left);
    try (cbn; zcases; lia).
  all: unfold Budget.New; cbn [lc_setDefaults lc_Budget_Max];
    destruct (_ && _) eqn:E; [right; apply andb_prop in E as [E E3]; apply andb_prop in E as [E1 E2]; lia|].
  all: split; [lia|]; split; reflexivity.
Qed.
End Presets.

(** ** What is retried *)

