(* ===== verification/CostBudget.v ===== *)
(** The monetary budget of the top-level package ([costbudget.go]).

    [usdToMicros] is computed in [float64] as the source does; a [Composer] is a
    middleware chain; a panic of the builder is an [inr].  A budget reads the
    time from the world, so [Clock] is not a field. *)

From Stdlib Require Import QArith Qround Lqa.
From S2P Require Import Prelude Float64 Errors Runtime Budget Chain.

#[local] Open Scope Z_scope.
#[local] Open Scope go_scope.

(** ** The code *)

Definition usdMicrosPerUSD : f64 := f_of_Z 1000000.

Definition usdToMicros (usd : f64) : option Z :=
  if isNaN usd || isInf usd || fleb usd (f_of_Z 0) then None
  else
    let scaled := fmul usd usdMicrosPerUSD in
    if fleb (f_of_Z MaxInt64) scaled then None
    else Some (f_to_int64 0 (fround scaled)).

Record CostBudgetConfig (T : Type) := {
  MaxCost : f64;
  CostFunc : option (T -> option error -> f64);
  cb_ResetAfter : Z
}.

Arguments MaxCost {T}.
Arguments CostFunc {T}.
Arguments cb_ResetAfter {T}.

Definition costFuncToCharge {T} (costFunc : option (T -> option error -> f64)) :
    option (ctx -> T -> option error -> Cost) :=
  match costFunc with
  | None => None
  | Some f => Some (fun _ result err =>
      match usdToMicros (f result err) with
      | None => zero_cost
      | Some micros => {| Tokens := 0; USDMicros := micros; Calls := 0 |}
      end)
  end.

(** The delegating builders of a [Composer] are those of [Chain] (see
    [Compose]). *)
Definition Composer (W T : Type) : Type := Chain W T.

(** What the builder panics with. *)
Inductive panic := InvalidMaxCost (usd : f64) | BudgetError (err : error).

(** The composer, with the state of the new budget, which is to be the world's. *)
Definition WithCostBudget {W T} `{Has W budget} (zero : T) (cfg : CostBudgetConfig T) (c : Composer W T) :
    budget * Composer W T + panic :=
  match usdToMicros (MaxCost cfg) with
  | None => inr (InvalidMaxCost (MaxCost cfg))
  | Some micros =>
      let max := {| Tokens := 0; USDMicros := micros; Calls := 0 |} in
      match Budget.New max with
      | inr err => inr (BudgetError err)
      | inl b =>
          inl (b, WithBudget (Budget.Execute zero {| Max := max; Charge := costFuncToCharge (CostFunc cfg);
                                                  OnExceeded := None; ResetAfter := cb_ResetAfter cfg |}) c)
      end
  end.

Definition Execute {W T} (policy : Composer W T) (c : ctx) (fn : Fn W T) : M W (result T) :=
  Chain.Execute policy c fn.

(** ** The conversion *)

Section Conversion.
Open Scope Q_scope.

(** Rounding twice is rounding once. *)
Lemma rnd_mag_idem x : 1 <= x -> rnd_mag (rnd_mag x) == rnd_mag x.
Proof.
  intros H. assert (P : 0 < x) by lra. destruct (Qlog2_spec x P) as [L U].
  assert (0 <= Qlog2 x)%Z.
  { enough (0 < Qlog2 x + 1)%Z by lia. apply pow2_le_inv. change (pow2 0) with 1. lra. }
  assert (B : binade x = (Qlog2 x - 52)%Z) by (unfold binade; lia). set (b := binade x) in *.
  replace (Qlog2 x + 1)%Z with (b + 53)%Z in U by lia.
  assert (S : rnd_mag x <= pow2 (b + 53)) by (apply rnd_mag_le_grid; [lra|fold b; lia|lra]).
  assert (S0 : pow2 (b + 52) <= rnd_mag x).
  { apply rnd_mag_ge_grid; [lra|fold b; lia|]. replace (b + 52)%Z with (Qlog2 x) by lia. exact L. }
  pose proof (pow2_pos (b + 52)) as P2.
  destruct (Qlt_le_dec (rnd_mag x) (pow2 (b + 53))) as [Lt|Ge].
  - apply rnd_mag_grid with (rne (x / pow2 b)) b; [lra| |reflexivity].
    pose proof (binade_lt (rnd_mag x) (b + 53) ltac:(lra) Lt ltac:(lia)). lia.
  - assert (E : rnd_mag x == pow2 (b + 53)) by lra.
    apply rnd_mag_grid with 1%Z (b + 53)%Z; [lra| |rewrite E; change (inject_Z 1) with 1; ring].
    pose proof (binade_lt (rnd_mag x) (b + 54)) as K.
    assert (pow2 (b + 53) < pow2 (b + 54)).
    { replace (b + 54)%Z with (b + 53 + 1)%Z by lia. rewrite (pow2_add (b + 53) 1). change (pow2 1) with 2.
      pose proof (pow2_pos (b + 53)). lra. }
    specialize (K ltac:(lra) ltac:(lra) ltac:(lia)). lia.
Qed.

(** [math.Round] and the conversion, on a small and on a large value. *)
Lemma round_small v :
  0 <= v -> v <= pow2 52 -> exists n, f_to_int64 0 (fround (FFin v)) = n /\ (0 <= n)%Z /\
    - (1 # 2) <= inject_Z n - v <= 1 # 2.
Proof.
  intros V0 V1. assert (P52 : pow2 52 == inject_Z (2 ^ 52)) by (apply pow2_Z; lia).
  unfold fround, qsign. destruct (Qcompare_spec v 0) as [E|E|E]; try lra.
  all: set (n := Qfloor (v + (1 # 2))); pose proof (Qfloor_le (v + (1 # 2))) as F1;
    pose proof (Qlt_floor (v + (1 # 2))) as F2; rewrite inject_Z_plus in F2; change (inject_Z 1) with 1 in F2; fold n in F1, F2;
    assert (N0 : (0 <= n)%Z) by (enough (-1 < n)%Z by lia; rewrite Zlt_Qlt; change (inject_Z (-1)) with (-1); lra);
    assert (N1 : (n < 2 ^ 53)%Z) by (rewrite Zlt_Qlt; change (inject_Z (2 ^ 53)) with 9007199254740992;
      change (inject_Z (2 ^ 52)) with 4503599627370496 in P52; lra).
  all: exists n; rewrite f_of_Z_exact by lia; split; [|split; [exact N0|lra]].
  all: unfold f_to_int64, f_to_int, ftrunc, qsign; destruct (Qcompare_spec (inject_Z n) 0) as [Z|Z|Z];
    [| exfalso; change 0 with (inject_Z 0) in Z; rewrite <- Zlt_Qlt in Z; lia |]; rewrite Qfloor_Z; zcases; done || lia.
Qed.
(** A large value is already an integer. *)
Lemma grid_integer x : pow2 52 <= x -> exists k, rnd_mag x == inject_Z k.
Proof.
  intros H. assert (P : 0 < x) by (pose proof (pow2_pos 52); lra). destruct (Qlog2_spec x P) as [L U].
  assert (52 <= Qlog2 x)%Z by (enough (52 < Qlog2 x + 1)%Z by lia; apply pow2_le_inv; lra).
  exists (rne (x / pow2 (binade x)) * 2 ^ binade x)%Z. unfold rnd_mag. rewrite inject_Z_mult, <- pow2_Z; [reflexivity|].
  unfold binade. lia.
Qed.

Lemma round_large x r :
  pow2 52 <= x -> rnd x = FFin r -> r < pow2 63 ->
  exists n, f_to_int64 0 (fround (FFin r)) = n /\ (0 <= n)%Z /\ inject_Z n == r.
Proof.
  intros H E L. assert (P : 1 <= x) by (pose proof (pow2_le 0 52 ltac:(lia)) as Q; change (pow2 0) with 1 in Q; lra).
  assert (R : r == rnd_mag x).
  { destruct (rndP x) as [Zr|q Zr Eq _|q Zr _ _|_ _|Zr _]; try lra; try discriminate. injection E as <-. exact Eq. }
  destruct (grid_integer x H) as [k K]. assert (Rk : r == inject_Z k) by lra.
  assert (P52 : pow2 52 <= rnd_mag x).
  { assert (M : fleb (rnd (pow2 52)) (rnd x) = true) by (apply rnd_mono; exact H). rewrite E in M.
    change (rnd (pow2 52)) with (FFin (4503599627370496 # 1)) in M. cbn in M. apply Qle_bool_iff in M.
    change (pow2 52) with (4503599627370496 # 1). lra. }
  assert (K0 : (0 < k)%Z) by (rewrite Zlt_Qlt; change (inject_Z 0) with 0; pose proof (pow2_pos 52); lra).
  assert (K1 : (k < 2 ^ 63)%Z) by (rewrite Zlt_Qlt, <- pow2_Z by lia; lra).
  exists k. split; [|split; [lia|lra]].
  assert (Rr : exists r', rnd (inject_Z k) = FFin r' /\ r' == inject_Z k).
  { assert (Ep : rnd (inject_Z k) = rnd (rnd_mag x)) by (apply rnd_proper; lra). rewrite Ep.
    pose proof (rnd_mag_idem x P) as I.
    assert (Big : pow2 63 < pow2 1024) by (rewrite 2 pow2_Z by lia; rewrite <- Zlt_Qlt; vm_compute; reflexivity).
    pose proof (pow2_pos 52). destruct (rndP (rnd_mag x)) as [Zr|q Zr Eq _|q Zr _ _|_ Zr|Zr _]; try lra.
    exists q. split; [done|]. lra. }
  destruct Rr as (r' & Er & Ek). unfold fround, qsign.
  destruct (Qcompare_spec r 0) as [Zr|Zr|Zr]; try (exfalso; pose proof (pow2_pos 52); lra).
  assert (F : Qfloor (r + (1 # 2)) = k).
  { rewrite Rk. apply Z.le_antisymm.
    - enough (Qfloor (inject_Z k + (1 # 2)) < k + 1)%Z by lia. rewrite Zlt_Qlt.
      pose proof (Qfloor_le (inject_Z k + (1 # 2))). rewrite inject_Z_plus. change (inject_Z 1) with 1. lra.
    - rewrite <- (Qfloor_Z k) at 1. apply Qfloor_resp_le. lra. }
  rewrite F. unfold f_of_Z. rewrite Er. unfold f_to_int64, f_to_int, ftrunc, qsign.
  destruct (Qcompare_spec r' 0) as [Zr'|Zr'|Zr']; try (exfalso; pose proof (pow2_pos 52); lra).
  assert (Fr : Qfloor r' = k) by (rewrite Ek; apply Qfloor_Z). rewrite Fr. zcases; done || lia.
Qed.
End Conversion.

(** What a converted product [x] becomes. *)
Definition converted (x : Q) (m : Z) : Prop :=
  0 <= m <= MaxInt64 /\
  (inject_Z m - x <= (1 # 2) + x * pow2 (-53) /\ x - inject_Z m <= (1 # 2) + x * pow2 (-53))%Q.

Lemma below_max m : (inject_Z m < pow2 63)%Q -> m <= MaxInt64.
Proof. change (pow2 63) with (inject_Z (2 ^ 63)). rewrite <- Zlt_Qlt. unfold MaxInt64. lia. Qed.

Lemma convert_small x r :
  (0 < x)%Q -> (x < pow2 52)%Q -> rnd x = FFin r -> converted x (f_to_int64 0 (fround (FFin r))).
Proof.
  intros X Lt Er. pose proof (pow2_pos (-53)) as P53.
  assert (R0 : (0 <= r)%Q).
  { destruct (rnd_abs x 52 ltac:(lra) Lt ltac:(lia)) as (r' & Er' & R0 & _). rewrite Er in Er'. by injection Er' as <-. }
  assert (R52 : (r <= pow2 52)%Q).
  { assert (M : fleb (rnd x) (rnd (pow2 52)) = true) by (apply rnd_mono; lra). rewrite Er in M.
    change (rnd (pow2 52)) with (FFin (pow2 52)) in M. cbn [fleb] in M. by apply Qle_bool_iff in M. }
  destruct (round_small r R0 R52) as (m & -> & M0 & Em).
  split; [split; [exact M0|apply below_max]|].
  { assert (pow2 52 + 1 < pow2 63)%Q by (vm_compute; reflexivity). lra. }
  destruct (Qlt_le_dec x (pow2 (-1000))) as [Ti|No].
  - destruct (rnd_abs x (-1000) ltac:(lra) Ti ltac:(lia)) as (r' & Er' & _ & R1 & _).
    rewrite Er in Er'. injection Er' as <-.
    assert (T1 : (pow2 (-1000) <= 1 # 8)%Q) by (apply Qle_trans with (pow2 (-3)); [apply pow2_le; lia|done]).
    assert (T2 : (pow2 (-1000 - 53) <= 1 # 8)%Q) by (apply Qle_trans with (pow2 (-3)); [apply pow2_le; lia|done]).
    assert (m = 0) as ->.
    { enough (m < 1) by lia. rewrite Zlt_Qlt. change (inject_Z 1) with 1%Q. lra. }
    change (inject_Z 0) with 0%Q. assert (0 <= x * pow2 (-53))%Q by nra. split; lra.
  - destruct (rnd_rel x No) as (r' & Er' & R1 & R2).
    { assert (pow2 52 < pow2 1000)%Q by (apply Qlt_le_trans with (pow2 60); [reflexivity|apply pow2_le; lia]). lra. }
    rewrite Er in Er'. injection Er' as <-. split; lra.
Qed.

Lemma convert_large x r :
  (pow2 52 <= x)%Q -> rnd x = FFin r -> (r < pow2 63)%Q -> converted x (f_to_int64 0 (fround (FFin r))).
Proof.
  intros Ge Er Lr. pose proof (pow2_pos (-53)) as P53. destruct (round_large x r Ge Er Lr) as (m & -> & M0 & Em).
  destruct (rnd_rel x) as (r' & Er' & R1 & R2).
  { pose proof (pow2_le (-1000) 52 ltac:(lia)). lra. }
  { destruct (Qlt_le_dec x (pow2 1000)) as [|Hx]; [done|exfalso].
    assert (M : fleb (rnd (pow2 63)) (rnd x) = true).
    { apply rnd_mono. pose proof (pow2_le 63 1000 ltac:(lia)). lra. }
    rewrite Er in M. change (rnd (pow2 63)) with (FFin (pow2 63)) in M. cbn [fleb] in M. apply Qle_bool_iff in M. lra. }
  rewrite Er in Er'. injection Er' as <-. split; [split; [exact M0|apply below_max; lra]|]. split; lra.
Qed.

(** The conversion to micro-dollars is exact to the rounding.  It succeeds on
    exactly the finite positive amounts whose product stays below 2^63; the
    result is then never negative and never overflows, and differs from a
    million times the amount by at most half a micro-dollar plus the relative
    rounding of the product (2^-53). *)
Theorem usdToMicros_spec usd :
  match usdToMicros usd with
  | Some m => exists q, usd = FFin q /\ (0 < q)%Q /\ converted (q * 1000000) m
  | None => forall q, usd = FFin q -> (q <= 0)%Q \/ fleb (f_of_Z MaxInt64) (rnd (q * 1000000)) = true
  end.
Proof.
  unfold usdToMicros. destruct usd as [|s|q]; [done|done|]. cbn [isNaN isInf orb].
  change (f_of_Z 0) with (FFin 0). cbn [fleb]. destruct (Qle_bool q 0) eqn:S.
  { intros q' [= <-]. left. by apply Qle_bool_iff. }
  apply Qle_bool_false in S. change usdMicrosPerUSD with (FFin (1000000 # 1)). cbn [fmul].
  change (f_of_Z MaxInt64) with (FFin (9223372036854775808 # 1)).
  set (x := (q * (1000000 # 1))%Q). assert (X : (0 < x)%Q) by (unfold x; lra).
  destruct (fleb (FFin (9223372036854775808 # 1)) (rnd x)) eqn:F.
  { intros q' [= <-]. right. exact F. }
  cbn [orb]. assert (Fx : exists r, rnd x = FFin r /\ (r < pow2 63)%Q).
  { destruct (rndP x) as [Zx|r Zx _ _|r Zx _ _|Zx _|Zx _]; try lra; cbn in F; try discriminate.
    exists r. split; [done|]. apply Qle_bool_false in F. exact F. }
  destruct Fx as (r & Er & Lr). rewrite Er. exists q. split; [done|]. split; [exact S|]. fold x.
  destruct (Qlt_le_dec x (pow2 52)); [by apply convert_small|by apply convert_large].
Qed.

(** An amount below half a micro-dollar converts to zero, successfully.  So
    [WithCostBudget] with such a ceiling passes its own check and then panics
    with the budget's error, which the source holds to be impossible; and a
    cost of that size is never charged, however often it is incurred. *)
Theorem tiny_amounts_vanish :
  let tiny := f_ratio 4 10000000 in
  fltb (f_of_Z 0) tiny = true /\ usdToMicros tiny = Some 0 /\
  (forall (c : Composer (sim budget) Z), exists err,
     WithCostBudget (H0 := sim_Has budget) 0 {| MaxCost := tiny; CostFunc := None; cb_ResetAfter := 0 |} c = inr (BudgetError err)) /\
  (forall charge, costFuncToCharge (Some (fun (_ : Z) _ => tiny)) = Some charge ->
     forall c r e b, charge_cost (charge c r e) b = b).
Proof.
  cbv zeta. split; [vm_compute; reflexivity|].
  assert (E : usdToMicros (f_ratio 4 10000000) = Some 0) by (vm_compute; reflexivity).
  revert E. generalize (f_ratio 4 10000000). intros tiny E. split; [exact E|]. split.
  - intros c. unfold WithCostBudget. cbn [MaxCost]. rewrite E. eexists. reflexivity.
  - intros charge [= <-] c r e b. by rewrite E.
Qed.
