(* ===== verification/Compose.v ===== *)
(** Chains and composers as the objects they are ([middleware/chain.go],
    [costbudget.go], [compose.go]).

    A builder extends its receiver in place and returns it.  Chains live in a
    heap, an object is its address, and [Chain] says what an object holds.  A
    [Composer] is an object that points to a chain. *)

From S2P Require Import Prelude Float64 Errors Runtime Budget Chain CostBudget.

#[local] Open Scope go_scope.

Section Compose.
Context {W T : Type} `{World W} (zero : T).

#[local] Notation heap := (list (Chain W T)).
#[local] Notation ref := nat.

(** Methods of chains, as computations on the heap. *)
Definition chain_of (h : heap) (c : ref) : Chain W T := default [] (h !! c).

Definition alloc : M heap ref := fun h => (length h, h ++ [Chain.New]).

(** [c.middlewares = append(c.middlewares, ...); return c]. *)
Definition extend (f : Chain W T -> Chain W T) (c : ref) : M heap ref := fun h => (c, alter f c h).

Definition ref_Execute (c : ref) (h : heap) (x : ctx) (fn : Fn W T) : M W (result T) := Chain.Execute (chain_of h c) x fn.

(** ** The builders *)

Inductive builder :=
| WithCircuitBreaker (cb : Executor W T)
| WithRetry (r : Executor W T)
| WithRateLimit (wait : ctx -> string -> M W (option error)) (key : string)
| WithTimeout (tm : ctx -> Z -> Fn W T -> M W (result T)) (duration : Z)
| WithBulkhead (bh : Executor W T)
| WithAdaptive (a : Executor W T)
| WithBudget (b : Executor W T)
| WithHedge (h : Executor W T)
| WithFallback (fb : Executor W T).

(** What a builder does to the chain it is called on. *)
Definition on_chain (b : builder) : Chain W T -> Chain W T :=
  match b with
  | WithCircuitBreaker cb => Chain.WithCircuitBreaker cb
  | WithRetry r => Chain.WithRetry r
  | WithRateLimit wait key => Chain.WithRateLimit zero wait key
  | WithTimeout tm d => Chain.WithTimeout tm d
  | WithBulkhead bh => Chain.WithBulkhead bh
  | WithAdaptive a => Chain.WithAdaptive a
  | WithBudget b => Chain.WithBudget b
  | WithHedge h => Chain.WithHedge h
  | WithFallback fb => Chain.WithFallback fb
  end.

(** The middleware it adds. *)
Definition layer (b : builder) : Middleware W T := fun next x =>
  match b with
  | WithCircuitBreaker e | WithRetry e | WithBulkhead e | WithAdaptive e | WithBudget e | WithHedge e | WithFallback e => e x next
  | WithTimeout tm d => tm x d next
  | WithRateLimit wait key => let! err := wait x key in match err with Some e => ret (zero, Some e) | None => next x end
  end.

Lemma on_chain_layer b c : on_chain b c = c ++ [layer b].
Proof. by destruct b. Qed.

Definition chain_With (b : builder) (c : ref) : M heap ref := extend (on_chain b) c.

(** ** [Composer] *)

Record Composer := { chain : ref }.

Definition composer_New : M heap Composer := let! c := alloc in ret {| chain := c |}.

Definition composer_With (b : builder) (c : Composer) : M heap Composer := chain_With b (chain c) ;;; ret c.

Definition composer_WithCircuitBreaker (cb : Executor W T) := composer_With (WithCircuitBreaker cb).
Definition composer_WithRetry (r : Executor W T) := composer_With (WithRetry r).
Definition composer_WithRateLimit (wait : ctx -> string -> M W (option error)) (key : string) := composer_With (WithRateLimit wait key).
Definition composer_WithTimeout (tm : ctx -> Z -> Fn W T -> M W (result T)) (d : Z) := composer_With (WithTimeout tm d).
Definition composer_WithBulkhead (bh : Executor W T) := composer_With (WithBulkhead bh).
Definition composer_WithAdaptive (a : Executor W T) := composer_With (WithAdaptive a).
Definition composer_WithHedge (h : Executor W T) := composer_With (WithHedge h).
Definition composer_WithFallback (fb : Executor W T) := composer_With (WithFallback fb).

Definition composer_Execute (c : Composer) (h : heap) (x : ctx) (fn : Fn W T) : M W (result T) := ref_Execute (chain c) h x fn.

(** The free function of [compose.go]. *)
Definition compose_Execute (x : ctx) (policy : Composer) (h : heap) (fn : Fn W T) : M W (result T) :=
  composer_Execute policy h x fn.

(** ** A program that builds *)

(** Builder calls, each on some object, in order. *)
Fixpoint build (calls : list (ref * builder)) : M heap unit :=
  match calls with
  | [] => ret tt
  | (c, b) :: calls => chain_With b c ;;; build calls
  end.

(** The layers that were added to an object. *)
Definition added (c : ref) (calls : list (ref * builder)) : list builder :=
  (filter (fun call : ref * builder => call.1 = c) calls).*2.

Lemma build_adds calls h c :
  (build calls h).2 !! c = (fun l : Chain W T => (l ++ (layer <$> added c calls)) : Chain W T) <$> h !! c.
Proof.
  revert h. induction calls as [|[d b] calls IH]; intros h.
  - cbn. destruct (h !! c); cbn; by rewrite ?app_nil_r.
  - cbn [build]. unfold bind. cbn [fst snd]. rewrite IH. unfold chain_With, extend. cbn [snd].
    unfold added. rewrite filter_cons. cbn [fst]. case_decide as D.
    + subst d. rewrite list_lookup_alter_eq. destruct (h !! c); [|reflexivity]. cbn.
      by rewrite on_chain_layer, <- app_assoc.
    + by rewrite list_lookup_alter_ne.
Qed.

(** A chain runs every layer that was ever added to it, through whatever
    name.  After any builder calls on any objects, executing an object runs
    the layers it had, then the added ones, each around the next, in the order
    of the calls and whoever made them; the calls on other objects do not
    matter. *)
Theorem shared_chain_grows calls h c x fn :
  (c < length h)%nat ->
  ref_Execute c (build calls h).2 x fn =
  foldr (fun m next => m next) (foldr (fun b next => layer b next) fn (added c calls)) (chain_of h c) x.
Proof.
  intros L. unfold ref_Execute, chain_of. rewrite build_adds.
  destruct (lookup_lt_is_Some_2 h c L) as [l E]. unfold Chain.Chain in *. rewrite E. cbn. unfold Chain.Execute. rewrite wrap_foldr, foldr_app.
  refine (f_equal (fun g => foldr (fun (m : Middleware W T) next => m next) g l x) _).
  generalize (added c calls). intros bs. induction bs as [|b bs IH]; [done|]. cbn. by rewrite IH.
Qed.

(** So a chain that was meant as a common base is no base: what is added
    through one name is run through all of them. *)
Lemma no_fork h a b x fn :
  let '(base, h1) := alloc h in
  let '(with_a, h2) := chain_With a base h1 in
  let '(with_b, h3) := chain_With b base h2 in
  with_a = base /\ with_b = base /\
  forall c, c ∈ [base; with_a; with_b] -> ref_Execute c h3 x fn = layer a (layer b fn) x.
Proof.
  unfold alloc, chain_With, extend. split_and!; [done|done|].
  intros c C. assert (E : c = length h) by set_solver. subst c. unfold ref_Execute, chain_of.
  rewrite !list_lookup_alter_eq, list_lookup_middle by done. cbn. by rewrite !on_chain_layer.
Qed.

(** A composer is the chain it points to. *)
Lemma composer_is_chain b c h x fn :
  composer_With b c h = (c, (chain_With b (chain c) h).2) /\
  compose_Execute x c h fn = ref_Execute (chain c) h x fn /\ (composer_New h).1 = {| chain := (alloc h).1 |}.
Proof. done. Qed.
End Compose.

(** The README's order, built on a composer while another object is built. *)
Example two_builders :
  let mark i : Executor (sim (list (bool * nat))) Z := fun c next => Chain.around i next c in
  let h := (build 0 [(0%nat, WithRetry (mark 1%nat)); (1%nat, WithHedge (mark 7%nat)); (0%nat, WithBulkhead (mark 2%nat))] [[]; []]).2 in
  (ref_Execute 0%nat h Background (fun _ => ret (5, None)) (Sim 0 [])).2 =
    Sim 0 [(true, 1%nat); (true, 2%nat); (false, 2%nat); (false, 1%nat)].
Proof. vm_compute. reflexivity. Qed.

Lemma shared_chain_grows_witness :
  let mark i : Executor (sim (list (bool * nat))) Z := fun c next => Chain.around i next c in
  let calls := [(0%nat, WithRetry (mark 1%nat)); (0%nat, WithBulkhead (mark 2%nat))] in
  ref_Execute 0%nat (build 0 calls [[]]).2 Background (fun _ => ret (5, None)) =
  foldr (fun m next => m next) (foldr (fun b next => layer 0 b next) (fun _ => ret (5, None)) (added 0%nat calls)) [] Background.
Proof.
  intros mark calls. apply (shared_chain_grows 0 calls [[]] 0%nat Background (fun _ => ret (5, None))). cbn. lia.
Defined.
