(* ===== verification/Utf8.v ===== *)
(** Strings as bytes and as runes: the part of Go's strings and of package
    [unicode/utf8] that the key sanitisers use.

    A byte and a rune are integers.  [decode] is [range] over a string (and
    the conversion to [[]rune]): an invalid byte is one [RuneError].  [encode] is
    the conversion back. *)

From Stdlib Require Import Ascii.
From S2P Require Import Prelude.

(** ** Bytes *)

Definition byte_of (c : ascii) : Z := Z.of_N (N_of_ascii c).
Definition of_byte (b : Z) : ascii := ascii_of_N (Z.to_N b).

Fixpoint bytes (s : string) : list Z :=
  match s with
  | EmptyString => []
  | String c s => byte_of c :: bytes s
  end.

Fixpoint of_bytes (l : list Z) : string :=
  match l with
  | [] => EmptyString
  | b :: l => String (of_byte b) (of_bytes l)
  end.

Definition is_byte (b : Z) : Prop := 0 <= b < 256.

Lemma byte_of_range c : is_byte (byte_of c).
Proof. unfold is_byte, byte_of. pose proof (N_ascii_bounded c). lia. Qed.

Lemma of_byte_of c : of_byte (byte_of c) = c.
Proof. unfold of_byte, byte_of. by rewrite N2Z.id, ascii_N_embedding. Qed.

Lemma byte_of_byte b : is_byte b -> byte_of (of_byte b) = b.
Proof. unfold is_byte, of_byte, byte_of. intros. rewrite N_ascii_embedding by lia. lia. Qed.

Lemma bytes_range s : Forall is_byte (bytes s).
Proof. induction s; cbn; constructor; auto using byte_of_range. Qed.

Lemma of_bytes_bytes s : of_bytes (bytes s) = s.
Proof. induction s as [|c s IH]; cbn; [done|]. by rewrite of_byte_of, IH. Qed.

Lemma bytes_of_bytes l : Forall is_byte l -> bytes (of_bytes l) = l.
Proof. induction 1 as [|b l B F IH]; cbn; [done|]. by rewrite byte_of_byte, IH. Qed.

Lemma bytes_app s t : bytes (s +:+ t) = bytes s ++ bytes t.
Proof. induction s as [|c s IH]; [done|]. cbn [String.append bytes app]. by rewrite <- IH. Qed.

Lemma length_bytes s : length (bytes s) = String.length s.
Proof. induction s; cbn; congruence. Qed.

Lemma bytes_inj s t : bytes s = bytes t -> s = t.
Proof. intros E. by rewrite <- (of_bytes_bytes s), E, of_bytes_bytes. Qed.

(** ** Runes *)

Definition RuneError : Z := 65533. (* U+FFFD *)
Definition MaxRune : Z := 1114111. (* U+10FFFF *)

(** [utf8.ValidRune]. *)
Definition ValidRune (r : Z) : bool :=
  ((0 <=? r) && (r <? 55296)) || ((57344 <=? r) && (r <=? MaxRune)).

(** [utf8.AppendRune]: a rune that is not valid is encoded as [RuneError]. *)
Definition encode_rune (r : Z) : list Z :=
  let r := if ValidRune r then r else RuneError in
  if r <? 128 then [r]
  else if r <? 2048 then [192 + r / 64; 128 + r mod 64]
  else if r <? 65536 then [224 + r / 4096; 128 + r / 64 mod 64; 128 + r mod 64]
  else [240 + r / 262144; 128 + r / 4096 mod 64; 128 + r / 64 mod 64; 128 + r mod 64].

Definition encode (l : list Z) : list Z := concat (encode_rune <$> l).

Definition continuation (b : Z) : bool := (128 <=? b) && (b <=? 191).

(** What the second byte may be, after a given first one. *)
Definition accept (b0 b1 : Z) : bool :=
  if b0 =? 224 then (160 <=? b1) && (b1 <=? 191)
  else if b0 =? 237 then (128 <=? b1) && (b1 <=? 159)
  else if b0 =? 240 then (144 <=? b1) && (b1 <=? 191)
  else if b0 =? 244 then (128 <=? b1) && (b1 <=? 143)
  else continuation b1.

(** [range]: [utf8.DecodeRuneInString] until the string is empty. *)
Fixpoint decode (l : list Z) : list Z :=
  match l with
  | [] => []
  | b0 :: l1 =>
      if b0 <? 128 then b0 :: decode l1
      else if (b0 <? 194) || (244 <? b0) then RuneError :: decode l1
      else
        match l1 with
        | b1 :: l2 =>
            if negb (accept b0 b1) then RuneError :: decode l1
            else if b0 <? 224 then (b0 - 192) * 64 + (b1 - 128) :: decode l2
            else
              match l2 with
              | b2 :: l3 =>
                  if negb (continuation b2) then RuneError :: decode l1
                  else if b0 <? 240 then (b0 - 224) * 4096 + (b1 - 128) * 64 + (b2 - 128) :: decode l3
                  else
                    match l3 with
                    | b3 :: l4 =>
                        if negb (continuation b3) then RuneError :: decode l1
                        else (b0 - 240) * 262144 + (b1 - 128) * 4096 + (b2 - 128) * 64 + (b3 - 128) :: decode l4
                    | [] => RuneError :: decode l1
                    end
              | [] => RuneError :: decode l1
              end
        | [] => RuneError :: decode l1
        end
  end.

(** ** Round trip *)

#[local] Ltac Zify.zify_post_hook ::= Z.to_euclidean_division_equations.

Ltac zbools := rewrite ?Z.gtb_ltb, ?Z.geb_leb in *;
  repeat match goal with
  | |- context [?a <? ?b] => first [rewrite (proj2 (Z.ltb_lt a b)) by lia | rewrite (proj2 (Z.ltb_ge a b)) by lia]
  | |- context [?a <=? ?b] => first [rewrite (proj2 (Z.leb_le a b)) by lia | rewrite (proj2 (Z.leb_gt a b)) by lia]
  | |- context [?a =? ?b] => first [rewrite (proj2 (Z.eqb_eq a b)) by lia | rewrite (proj2 (Z.eqb_neq a b)) by lia]
  end; cbn [negb andb orb].

Lemma valid_cases r : ValidRune r = true -> 0 <= r < 55296 \/ 57344 <= r <= 1114111.
Proof. unfold ValidRune, MaxRune. intros H. zcases_in H; cbn in H; done || lia. Qed.

Lemma decode_encode_rune r l : ValidRune r = true -> decode (encode_rune r ++ l) = r :: decode l.
Proof.
  intros V. unfold encode_rune. rewrite V. apply valid_cases in V.
  destruct (Z.ltb_spec r 128); [|destruct (Z.ltb_spec r 2048); [|destruct (Z.ltb_spec r 65536)]]; cbn [app decode].
  - by zbools.
  - unfold accept, continuation. zbools. f_equal. lia.
  - assert (A : accept (224 + r / 4096) (128 + r / 64 mod 64) = true).
    { unfold accept, continuation.
      destruct (Z.eqb_spec (224 + r / 4096) 224); [zbools; done|].
      destruct (Z.eqb_spec (224 + r / 4096) 237); [zbools; done|]. by zbools. }
    rewrite A. unfold continuation. zbools. f_equal. lia.
  - assert (A : accept (240 + r / 262144) (128 + r / 4096 mod 64) = true).
    { unfold accept, continuation. zbools.
      destruct (Z.eqb_spec (240 + r / 262144) 240); [zbools; done|].
      destruct (Z.eqb_spec (240 + r / 262144) 244); [zbools; done|]. by zbools. }
    rewrite A. unfold continuation. zbools. f_equal. lia.
Qed.

Lemma decode_encode l : Forall (fun r => ValidRune r = true) l -> decode (encode l) = l.
Proof.
  unfold encode. induction 1 as [|r l V F IH]; [done|]. cbn [fmap list_fmap concat].
  by rewrite decode_encode_rune, IH.
Qed.

(** Every rune of a string is valid. *)
Lemma decode_valid l : Forall is_byte l -> Forall (fun r => ValidRune r = true) (decode l).
Proof.
  remember (length l) as n eqn:N. revert l N.
  induction n as [n IH] using (well_founded_induction lt_wf). intros l -> B.
  assert (Rest : forall k, (length k < length l)%nat -> Forall is_byte k -> Forall (fun r => ValidRune r = true) (decode k))
    by (intros k L Bk; by apply (IH _ L)). clear IH.
  destruct l as [|b0 l1]; [constructor|]. apply Forall_cons in B as [B0 B1]. cbn [length] in Rest.
  assert (E : Forall (fun r => ValidRune r = true) (RuneError :: decode l1)) by (constructor; [done|apply Rest; [lia|done]]).
  cbn [decode]. unfold is_byte in B0.
  destruct (Z.ltb_spec b0 128).
  { constructor; [unfold ValidRune; by zbools|apply Rest; [lia|done]]. }
  destruct ((b0 <? 194) || (244 <? b0)) eqn:R0; [exact E|]. apply orb_false_iff in R0 as [L0 U0].
  apply Z.ltb_ge in L0, U0.
  destruct l1 as [|b1 l2]; [exact E|]. apply Forall_cons in B1 as [_ B2]. cbn [length] in Rest.
  destruct (accept b0 b1) eqn:A1; [|exact E]. cbn [negb]. unfold accept, continuation in A1.
  destruct (Z.ltb_spec b0 224).
  { constructor; [|apply Rest; [lia|done]]. zcases_in A1; try done; try lia. unfold ValidRune. by zbools. }
  destruct l2 as [|b2 l3]; [exact E|]. apply Forall_cons in B2 as [_ B3]. cbn [length] in Rest.
  destruct (continuation b2) eqn:A2; [|exact E]. cbn [negb]. unfold continuation in A2. apply andb_prop in A2 as [C2 D2].
  apply Z.leb_le in C2, D2.
  destruct (Z.ltb_spec b0 240).
  { constructor; [|apply Rest; [lia|done]]. unfold ValidRune, MaxRune. zcases_in A1; try done; try lia; zcases; first [done|exfalso; lia]. }
  destruct l3 as [|b3 l4]; [exact E|]. apply Forall_cons in B3 as [_ B4]. cbn [length] in Rest.
  destruct (continuation b3) eqn:A3; [|exact E]. cbn [negb]. unfold continuation in A3. apply andb_prop in A3 as [C3 D3].
  apply Z.leb_le in C3, D3.
  constructor; [|apply Rest; [lia|done]]. unfold ValidRune, MaxRune. zcases_in A1; try done; try lia; zcases; first [done|exfalso; lia].
Qed.

Lemma encode_rune_bytes r : Forall is_byte (encode_rune r).
Proof.
  assert (V : exists v, ValidRune v = true /\ (if ValidRune r then r else RuneError) = v)
    by (eexists; split; [|reflexivity]; by destruct (ValidRune r) eqn:E). destruct V as (v & V & E). unfold encode_rune. rewrite E.
  apply valid_cases in V. unfold is_byte. zcases; repeat constructor; lia.
Qed.

Lemma encode_bytes l : Forall is_byte (encode l).
Proof. induction l; cbn; [done|]. apply Forall_app. auto using encode_rune_bytes. Qed.

Lemma encode_app l k : encode (l ++ k) = encode l ++ encode k.
Proof. unfold encode. by rewrite fmap_app, concat_app. Qed.

(** ASCII is its own encoding. *)
Definition ascii_only (l : list Z) : Prop := Forall (fun b => 0 <= b < 128) l.

Lemma decode_ascii l : ascii_only l -> decode l = l.
Proof. induction 1 as [|b l B F IH]; [done|]. cbn [decode]. zbools. by rewrite IH. Qed.

Lemma encode_ascii l : ascii_only l -> encode l = l.
Proof.
  unfold encode. induction 1 as [|b l B F IH]; [done|]. cbn. rewrite IH.
  assert (V : ValidRune b = true) by (unfold ValidRune; by zbools). unfold encode_rune. rewrite V. by zbools.
Qed.

(** Runes below 128 come from bytes below 128 only. *)
Lemma decode_hd b0 l : 128 <= b0 -> exists r k, decode (b0 :: l) = r :: k /\ 128 <= r.
Proof.
  intros H. cbn [decode]. destruct (Z.ltb_spec b0 128); [lia|].
  assert (E : exists r k, RuneError :: decode l = r :: k /\ 128 <= r) by (exists RuneError; eexists; done).
  destruct ((b0 <? 194) || (244 <? b0)) eqn:R0; [exact E|]. apply orb_false_iff in R0 as [L0 U0]. apply Z.ltb_ge in L0, U0.
  destruct l as [|b1 l2]; [exact E|]. destruct (accept b0 b1) eqn:A1; [|exact E]. cbn [negb].
  assert (B1 : 128 <= b1) by (unfold accept, continuation in A1; zcases_in A1; try done; lia).
  destruct (Z.ltb_spec b0 224); [eexists _, _; split; [reflexivity|lia]|].
  assert (B2 : b0 = 224 -> 160 <= b1) by (intros ->; cbn in A1; zcases_in A1; try done; lia).
  destruct l2 as [|b2 l3]; [exact E|]. destruct (continuation b2) eqn:A2; [|exact E]. cbn [negb].
  assert (128 <= b2) by (unfold continuation in A2; zcases_in A2; try done; lia).
  destruct (Z.ltb_spec b0 240); [eexists _, _; split; [reflexivity|lia]|].
  assert (B3 : b0 = 240 -> 144 <= b1) by (intros ->; cbn in A1; zcases_in A1; try done; lia).
  destruct l3 as [|b3 l4]; [exact E|]. destruct (continuation b3) eqn:A3; [|exact E]. cbn [negb].
  assert (128 <= b3) by (unfold continuation in A3; zcases_in A3; try done; lia).
  eexists _, _; split; [reflexivity|lia].
Qed.

Lemma decode_below l : Forall is_byte l -> Forall (fun r => r < 128) (decode l) -> ascii_only l.
Proof.
  induction 1 as [|b0 l B F IH]; intros D; [constructor|]. destruct (Z.lt_ge_cases b0 128).
  - cbn [decode] in D. rewrite (proj2 (Z.ltb_lt b0 128)) in D by lia. apply Forall_cons in D as [_ D].
    constructor; [unfold is_byte in B; lia|by apply IH].
  - destruct (decode_hd b0 l) as (r & k & E & R); [lia|]. rewrite E in D. apply Forall_cons in D as [D _]. lia.
Qed.
