(* ===== verification/HttpKeys.v ===== *)
(** Rate-limiting keys of HTTP requests ([http/middleware.go]): [SanitizeKey],
    [KeyFromIP] and [KeyFromHeader].

    [norm.NFC] (golang.org/x/text), the table of printable runes beyond
    Latin-1 and [net.ParseIP(...).String()] are arguments.  The rest of what the
    code uses of the standard library ([strings.Map], [SplitHostPort],
    [Header.Get]) is modelled.  A panic is an [inr]. *)

From S2P Require Import Prelude Runtime Utf8.

#[local] Open Scope Z_scope.

Definition DefaultMaxKeyLength : Z := 256.

(** [len(s)]. *)
Definition len (s : string) : Z := Z.of_nat (length (bytes s)).

(** [l[:n]] for [0 <= n]. *)
Definition upto {A} (n : Z) (l : list A) : list A := take (Z.to_nat n) l.

(** [unicode.IsControl], and [unicode.IsPrint] with its table for the runes
    above Latin-1. *)
Definition IsControl (r : Z) : bool := ((0 <=? r) && (r <? 32)) || ((127 <=? r) && (r <? 160)).

Definition IsPrint (PrintRanges : Z -> bool) (r : Z) : bool :=
  if r <=? 255 then ((32 <=? r) && (r <? 127)) || ((161 <=? r) && negb (r =? 173)) else PrintRanges r.

Section Keys.
Context (NFC : string -> string) (PrintRanges : Z -> bool).

(** ** [SanitizeKey] *)

Definition isCleanASCII (s : string) : bool :=
  forallb (fun c => negb ((c <? 32) || (c >? 126))) (bytes s).

Definition isASCII (s : string) : bool := forallb (fun c => negb (c >? 127)) (bytes s).

Definition sanitizeASCII (key : string) (maxLen : Z) : string :=
  let needsSanitization := existsb (fun c => (c <? 32) || (c =? 127)) (bytes key) in
  if negb needsSanitization then
    if len key >? maxLen then of_bytes (upto maxLen (bytes key)) else key
  else
    let result := List.filter (fun c => (c >=? 32) && negb (c =? 127)) (bytes key) in
    of_bytes (if Z.of_nat (length result) >? maxLen then upto maxLen result else result).

(** What the function given to [strings.Map] keeps. *)
Definition keeps (r : Z) : bool := negb (IsControl r || negb (IsPrint PrintRanges r)).

Definition sanitizeUnicode (key : string) (maxLen : Z) : string :=
  let key := NFC key in
  let sanitized := encode (List.filter keeps (decode (bytes key))) in
  if Z.of_nat (length (decode sanitized)) >? maxLen
  then of_bytes (encode (upto maxLen (decode sanitized)))
  else of_bytes sanitized.

Definition SanitizeKey (key : string) (maxLen : Z) : string :=
  let maxLen := if maxLen <=? 0 then DefaultMaxKeyLength else maxLen in
  if isCleanASCII key && (len key <=? maxLen) then key
  else if isASCII key then sanitizeASCII key maxLen
  else sanitizeUnicode key maxLen.

(** ** [KeyFromIP] *)

Fixpoint IndexByte (b : Z) (l : list Z) : option nat :=
  match l with
  | [] => None
  | c :: l => if c =? b then Some O else S <$> IndexByte b l
  end.

Fixpoint LastIndexByte (b : Z) (l : list Z) : option nat :=
  match l with
  | [] => None
  | c :: l => match LastIndexByte b l with
              | Some i => Some (S i)
              | None => if c =? b then Some O else None
              end
  end.

Definition contains (b : Z) (l : list Z) : bool := existsb (Z.eqb b) l.

Definition colon : Z := 58.
Definition percent : Z := 37.
Definition lbracket : Z := 91.
Definition rbracket : Z := 93.

(** [net.SplitHostPort]: host and port; its error is not used. *)
Definition SplitHostPort (s : list Z) : option (list Z * list Z) :=
  match LastIndexByte colon s with
  | None => None
  | Some i =>
      let rest host j k :=
        if contains lbracket (drop j s) then None
        else if contains rbracket (drop k s) then None
        else Some (host, drop (S i) s) in
      if hd 0 s =? lbracket then
        match IndexByte rbracket s with
        | None => None
        | Some e => if Nat.eqb (S e) i then rest (take (e - 1) (drop 1 s)) 1%nat (S e) else None
        end
      else
        let host := take i s in
        if contains colon host then None else rest host 0%nat 0%nat
  end.

Context (ParseIP_String : string -> option string).

Definition KeyFromIP (RemoteAddr : string) : string :=
  let ip := bytes RemoteAddr in
  let host := match SplitHostPort ip with Some (host, _) => host | None => ip end in
  let host := of_bytes (match IndexByte percent host with Some idx => take idx host | None => host end) in
  match ParseIP_String host with
  | Some s => s
  | None => SanitizeKey host DefaultMaxKeyLength
  end.

(** ** [KeyFromHeader] *)

(** [validHeaderFieldByte]: the token characters. *)
Definition token_byte (c : Z) : bool :=
  ((48 <=? c) && (c <=? 57)) || ((65 <=? c) && (c <=? 90)) || ((97 <=? c) && (c <=? 122)) ||
  existsb (Z.eqb c) [33; 35; 36; 37; 38; 39; 42; 43; 45; 46; 94; 95; 96; 124; 126].

Fixpoint canonical (upper : bool) (l : list Z) : list Z :=
  match l with
  | [] => []
  | c :: l =>
      let c := if upper && ((97 <=? c) && (c <=? 122)) then c - 32
               else if negb upper && ((65 <=? c) && (c <=? 90)) then c + 32 else c in
      c :: canonical (c =? 45) l
  end.

(** [textproto.CanonicalMIMEHeaderKey]. *)
Definition CanonicalMIMEHeaderKey (s : string) : string :=
  if forallb token_byte (bytes s) then of_bytes (canonical true (bytes s)) else s.

(** [http.Header], and its [Get]. *)
Definition Header : Type := gmap string (list string).

Definition Header_Get (h : Header) (key : string) : string :=
  match h !! CanonicalMIMEHeaderKey key with
  | Some (v :: _) => v
  | _ => ""
  end.

(** The panic of [validateHeaderName], or nothing. *)
Definition validateHeaderName (header : string) : option string :=
  if String.eqb header "" then Some "fortify/http: KeyFromHeader requires non-empty header name"%string
  else if existsb (fun ch => (ch <? 33) || (ch >? 126) || (ch =? colon)) (decode (bytes header))
  then Some "fortify/http: invalid header name"%string
  else None.

Definition KeyFromHeaderWithMaxLen (header : string) (maxLen : Z) : (Header -> string) + string :=
  match validateHeaderName header with
  | Some p => inr p
  | None => inl (fun h => SanitizeKey (Header_Get h header) maxLen)
  end.

Definition KeyFromHeader (header : string) : (Header -> string) + string :=
  match validateHeaderName header with
  | Some p => inr p
  | None => inl (fun h => SanitizeKey (Header_Get h header) DefaultMaxKeyLength)
  end.

End Keys.

(** ** What [SanitizeKey] computes *)

Section Spec.
Context (NFC : string -> string) (PrintRanges : Z -> bool).

(** One pass over the runes, without fast paths. *)
Definition sanitized (key : string) (maxLen : Z) : list Z :=
  upto (if maxLen <=? 0 then DefaultMaxKeyLength else maxLen)
    (List.filter (keeps PrintRanges) (decode (bytes (if isASCII key then key else NFC key)))).

Lemma keeps_ascii c : 0 <= c < 128 -> keeps PrintRanges c = (c >=? 32) && negb (c =? 127).
Proof.
  intros H. unfold keeps, IsControl, IsPrint. zcases; try lia; done.
Qed.

Lemma isASCII_spec s : isASCII s = true <-> ascii_only (bytes s).
Proof.
  unfold isASCII, ascii_only. rewrite forallb_forall, Forall_forall. pose proof (bytes_range s) as B.
  rewrite Forall_forall in B. unfold is_byte in B. split; intros H c I.
  - specialize (H c ltac:(by apply list_elem_of_In)). specialize (B c I). zcases_in H; [done|lia].
  - apply list_elem_of_In in I. specialize (H c I). zcases; [lia|done].
Qed.

Lemma filter_ext_in (f g : Z -> bool) l : (forall c, c ∈ l -> f c = g c) -> List.filter f l = List.filter g l.
Proof.
  induction l as [|c l IH]; intros H; [done|]. cbn. rewrite (H c ltac:(left)), IH; [done|]. intros. apply H. by right.
Qed.

Lemma filter_all (f : Z -> bool) l : forallb f l = true -> List.filter f l = l.
Proof. induction l as [|c l IH]; cbn; [done|]. intros [H1 H2]%andb_prop. by rewrite H1, IH. Qed.

Lemma upto_all {A} n (l : list A) : Z.of_nat (length l) <= n -> upto n l = l.
Proof. intros. apply take_ge. lia. Qed.

Lemma upto_le {A} n (l : list A) : (if Z.of_nat (length l) >? n then upto n l else l) = upto n l.
Proof. zcases; [done|]. by rewrite upto_all. Qed.

Lemma filter_sub {P : Z -> Prop} f l : Forall P l -> Forall P (List.filter f l).
Proof. induction 1; cbn; [constructor|]. destruct (f x); [by constructor|done]. Qed.

Lemma upto_sub {P : Z -> Prop} n l : Forall P l -> Forall P (upto n l).
Proof. apply Forall_take. Qed.

Lemma sanitizeASCII_eq s n :
  isASCII s = true -> 0 <= n -> sanitizeASCII s n = of_bytes (upto n (List.filter (keeps PrintRanges) (bytes s))).
Proof.
  intros A N. apply isASCII_spec in A. unfold sanitizeASCII.
  assert (F : List.filter (keeps PrintRanges) (bytes s) = List.filter (fun c => (c >=? 32) && negb (c =? 127)) (bytes s)).
  { apply filter_ext_in. intros c I. unfold ascii_only in A. rewrite Forall_forall in A. by apply keeps_ascii, A. }
  rewrite F. destruct (existsb _ (bytes s)) eqn:E; cbn [negb].
  - by rewrite upto_le.
  - rewrite filter_all.
    + unfold len. zcases; [done|]. by rewrite upto_all, of_bytes_bytes.
    + apply forallb_forall. intros c I. pose proof (proj1 (existsb_exists (fun c => (c <? 32) || (c =? 127)) (bytes s))) as X.
      destruct ((c <? 32) || (c =? 127)) eqn:Ec.
      * exfalso. enough (false = true) by done. rewrite <- E. apply existsb_exists. by exists c.
      * apply orb_false_iff in Ec as [E1 E2]. rewrite E2. zcases_in E1; zcases; done || lia.
Qed.

Lemma isCleanASCII_spec s :
  isCleanASCII s = true -> isASCII s = true /\ forallb (fun c => (c >=? 32) && negb (c =? 127)) (bytes s) = true.
Proof.
  unfold isCleanASCII, isASCII. rewrite !forallb_forall. intros H.
  split; intros c I; specialize (H c I); zcases_in H; zcases; done || lia.
Qed.

Lemma SanitizeKey_sanitized key maxLen :
  SanitizeKey NFC PrintRanges key maxLen = of_bytes (encode (sanitized key maxLen)).
Proof.
  unfold SanitizeKey, sanitized. set (n := if maxLen <=? 0 then DefaultMaxKeyLength else maxLen).
  assert (N : 0 <= n) by (unfold n, DefaultMaxKeyLength; zcases; lia). clearbody n.
  destruct (isASCII key) eqn:A.
  - apply isASCII_spec in A as A'. rewrite (decode_ascii _ A').
    rewrite (encode_ascii (upto n _)) by (unfold ascii_only in *; by apply upto_sub, filter_sub).
    destruct (isCleanASCII key && (len key <=? n)) eqn:C.
    + apply andb_prop in C as [C L]. apply Z.leb_le in L. unfold len in L. apply isCleanASCII_spec in C as [_ C].
      rewrite (filter_ext_in (keeps PrintRanges) (fun c => (c >=? 32) && negb (c =? 127))).
      * by rewrite filter_all, upto_all, of_bytes_bytes.
      * intros c I. unfold ascii_only in A'. rewrite Forall_forall in A'. by apply keeps_ascii, A'.
    + by apply sanitizeASCII_eq.
  - destruct (isCleanASCII key) eqn:C; [apply isCleanASCII_spec in C as [C _]; congruence|]. cbn [andb].
    unfold sanitizeUnicode. rewrite decode_encode by (apply filter_sub, decode_valid, bytes_range).
    destruct (_ >? n) eqn:G; [done|]. by rewrite upto_all by (rewrite Z.gtb_ltb in G; by apply Z.ltb_ge).
Qed.

Lemma sanitized_valid key maxLen : Forall (fun r => ValidRune r = true) (sanitized key maxLen).
Proof. apply upto_sub, filter_sub, decode_valid, bytes_range. Qed.

Lemma SanitizeKey_decode key maxLen : decode (bytes (SanitizeKey NFC PrintRanges key maxLen)) = sanitized key maxLen.
Proof.
  rewrite SanitizeKey_sanitized, bytes_of_bytes by apply encode_bytes. apply decode_encode, sanitized_valid.
Qed.

Lemma SanitizeKey_length key maxLen :
  Z.of_nat (length (decode (bytes (SanitizeKey NFC PrintRanges key maxLen)))) <=
    if maxLen <=? 0 then DefaultMaxKeyLength else maxLen.
Proof.
  rewrite SanitizeKey_decode. unfold sanitized, upto. rewrite length_take.
  set (n := if maxLen <=? 0 then DefaultMaxKeyLength else maxLen).
  assert (0 <= n) by (unfold n, DefaultMaxKeyLength; zcases; lia). lia.
Qed.

(** C21: [SanitizeKey] and its fast paths compute one function, for every
    normalisation and every table of printable runes: the printable runes of the
    key (normalised first unless it is ASCII), in order, cut to [maxLen]
    runes (256 by default).  So a sanitised key is valid UTF-8 of at most that
    many runes, none of them a control character or unprintable, no character
    is split by the cut, and sanitising an ASCII key again changes
    nothing. *)
Theorem SanitizeKey_spec key maxLen :
  let n := if maxLen <=? 0 then DefaultMaxKeyLength else maxLen in
  let result := SanitizeKey NFC PrintRanges key maxLen in
  decode (bytes result) = upto n (List.filter (keeps PrintRanges) (decode (bytes (if isASCII key then key else NFC key)))) /\
  encode (decode (bytes result)) = bytes result /\
  Z.of_nat (length (decode (bytes result))) <= n /\
  Forall (fun r => keeps PrintRanges r = true /\ IsControl r = false) (decode (bytes result)) /\
  (isASCII key = true -> SanitizeKey NFC PrintRanges result maxLen = result).
Proof.
  intros n result.
  assert (D : decode (bytes result) = sanitized key maxLen) by apply SanitizeKey_decode.
  pose proof (SanitizeKey_length key maxLen) as L. fold result in L. rewrite D in L |- *. split; [done|]. split; [|split; [|split]].
  - unfold result. by rewrite SanitizeKey_sanitized, bytes_of_bytes by apply encode_bytes.
  - exact L.
  - unfold sanitized. apply upto_sub. clear. induction (decode _) as [|r l IH]; cbn; [constructor|].
    destruct (keeps PrintRanges r) eqn:K; [|done]. constructor; [|done]. split; [done|].
    unfold keeps in K. by destruct (IsControl r).
  - intros A. apply isASCII_spec in A as A'.
    assert (S : sanitized key maxLen = upto n (List.filter (keeps PrintRanges) (bytes key)))
      by (unfold sanitized; by rewrite A, decode_ascii).
    assert (Asc : ascii_only (sanitized key maxLen)) by (rewrite S; unfold ascii_only in *; by apply upto_sub, filter_sub).
    assert (R : bytes result = sanitized key maxLen).
    { unfold result. rewrite SanitizeKey_sanitized, bytes_of_bytes by apply encode_bytes. by apply encode_ascii. }
    rewrite SanitizeKey_sanitized. unfold sanitized at 1. fold n.
    rewrite (proj2 (isASCII_spec result)) by (by rewrite R). rewrite R, (decode_ascii _ Asc).
    rewrite filter_all.
    + rewrite upto_all; [|rewrite S; unfold upto; rewrite length_take; unfold n, DefaultMaxKeyLength; zcases; lia].
      rewrite (encode_ascii _ Asc), <- R. apply of_bytes_bytes.
    + rewrite S. apply forallb_forall. intros c I. apply list_elem_of_In in I.
      unfold upto in I. apply elem_of_take in I as (i & I & _). apply list_elem_of_lookup_2, list_elem_of_In in I.
      by apply filter_In in I as [_ I].
Qed.
End Spec.

(** Canonically equivalent keys that are sanitised differently.  The key is
    normalised before unprintable runes are removed, so a removal can bring
    together runes that compose: the result is not normalised, and a client
    gets a second bucket. *)
Lemma sanitised_keys_not_normal (NFC : string -> string) PrintRanges :
  let str l := of_bytes (encode l) in
  let split := str [101; 8205; 769] in (* e, zero-width joiner, combining acute *)
  let decomposed := str [101; 769] in
  let composed := str [233] in
  NFC split = split -> NFC decomposed = composed -> PrintRanges 8205 = false -> PrintRanges 769 = true ->
  SanitizeKey NFC PrintRanges decomposed 0 = composed /\
  SanitizeKey NFC PrintRanges split 0 = decomposed /\
  NFC (SanitizeKey NFC PrintRanges split 0) = SanitizeKey NFC PrintRanges decomposed 0 /\ decomposed <> composed.
Proof.
  intros str split decomposed composed N1 N2 P1 P2.
  assert (E1 : SanitizeKey NFC PrintRanges decomposed 0 = composed).
  { unfold SanitizeKey, sanitizeUnicode. rewrite N2. reflexivity. }
  assert (E2 : SanitizeKey NFC PrintRanges split 0 = decomposed).
  { unfold SanitizeKey, sanitizeUnicode. rewrite N1.
    change (decode (bytes split)) with [101; 8205; 769]. cbn [List.filter].
    unfold keeps, IsPrint. cbn. by rewrite P1, P2. }
  rewrite E1, E2. done.
Qed.

(** ** What [KeyFromIP] computes *)

Lemma contains_app b l k : contains b (l ++ k) = contains b l || contains b k.
Proof. apply existsb_app. Qed.

Lemma LastIndexByte_none b l : contains b l = false -> LastIndexByte b l = None.
Proof.
  induction l as [|c l IH]; cbn; [done|]. intros [H1 H2]%orb_false_iff. rewrite IH by done.
  rewrite Z.eqb_sym. by rewrite H1.
Qed.

Lemma LastIndexByte_app b l k : contains b k = false -> LastIndexByte b (l ++ b :: k) = Some (length l).
Proof.
  intros H. induction l as [|c l IH]; cbn; [by rewrite LastIndexByte_none, Z.eqb_refl|by rewrite IH].
Qed.

Lemma IndexByte_none b l : contains b l = false -> IndexByte b l = None.
Proof.
  induction l as [|c l IH]; cbn; [done|]. intros [H1 H2]%orb_false_iff. rewrite IH by done.
  rewrite Z.eqb_sym. by rewrite H1.
Qed.

Lemma IndexByte_app b l k : contains b l = false -> IndexByte b (l ++ b :: k) = Some (length l).
Proof.
  induction l as [|c l IH]; cbn; [by rewrite Z.eqb_refl|]. intros [H1 H2]%orb_false_iff.
  rewrite Z.eqb_sym, H1, IH; done.
Qed.

(** None of the bytes [l] is in [s]. *)
Definition free (l : list Z) (s : list Z) : bool := forallb (fun b => negb (contains b s)) l.

Lemma free_contains l s b : free l s = true -> contains b l = true -> contains b s = false.
Proof.
  unfold free. rewrite forallb_forall. intros H (c & I & ->%Z.eqb_eq)%existsb_exists. specialize (H c I).
  by destruct (contains c s).
Qed.

Lemma split_bracketed h p :
  free [lbracket; rbracket] h = true -> free [colon; lbracket; rbracket] p = true ->
  SplitHostPort (lbracket :: h ++ rbracket :: colon :: p) = Some (h, p).
Proof.
  intros Fh Fp. assert (Hh : contains lbracket h = false /\ contains rbracket h = false)
    by (split; by apply (free_contains _ _ _ Fh)).
  assert (Hp : contains colon p = false /\ contains lbracket p = false /\ contains rbracket p = false)
    by (repeat split; by apply (free_contains _ _ _ Fp)).
  destruct Hh as [H1 H2], Hp as (P1 & P2 & P3). unfold SplitHostPort.
  replace (lbracket :: h ++ rbracket :: colon :: p) with ((lbracket :: h ++ [rbracket]) ++ colon :: p)
    by (cbn; by rewrite <- app_assoc). rewrite LastIndexByte_app by done.
  replace ((lbracket :: h ++ [rbracket]) ++ colon :: p) with ((lbracket :: h) ++ rbracket :: colon :: p)
    by (cbn; by rewrite <- app_assoc). rewrite IndexByte_app by exact H2.
  cbn [hd app length]. rewrite Z.eqb_refl, length_app. cbn [length].
  replace (Nat.eqb (S (S (length h))) (S (length h + 1))) with true by (symmetry; apply Nat.eqb_eq; lia).
  replace (S (length h) - 1)%nat with (length h) by lia. cbn [drop].
  rewrite !drop_0, take_app_length, contains_app, H1.
  rewrite drop_app_ge by lia. replace (S (length h) - length h)%nat with 1%nat by lia.
  rewrite drop_app_ge by lia. replace (S (length h + 1) - length h)%nat with 2%nat by lia. cbn [drop].
  replace (contains lbracket (rbracket :: colon :: p)) with (contains lbracket p) by done.
  replace (contains rbracket (colon :: p)) with (contains rbracket p) by done. by rewrite P2, P3.
Qed.

Lemma split_plain h p :
  free [colon; lbracket; rbracket] h = true -> free [colon; lbracket; rbracket] p = true ->
  SplitHostPort (h ++ colon :: p) = Some (h, p).
Proof.
  intros Fh Fp. assert (Hh : contains colon h = false /\ contains lbracket h = false /\ contains rbracket h = false)
    by (repeat split; by apply (free_contains _ _ _ Fh)).
  assert (Hp : contains colon p = false /\ contains lbracket p = false /\ contains rbracket p = false)
    by (repeat split; by apply (free_contains _ _ _ Fp)).
  destruct Hh as (H1 & H2 & H3), Hp as (P1 & P2 & P3). unfold SplitHostPort. rewrite LastIndexByte_app by done.
  assert (Hd : (hd 0 (h ++ colon :: p) =? lbracket) = false).
  { destruct h as [|c h]; [done|]. cbn. cbn in H2. apply orb_false_iff in H2 as [H2 _]. by rewrite Z.eqb_sym. }
  rewrite Hd, take_app_length, H1, !drop_0, !contains_app, H2, H3.
  rewrite drop_app_ge by lia. replace (S (length h) - length h)%nat with 1%nat by lia. cbn [drop orb].
  replace (contains lbracket (colon :: p)) with (contains lbracket p) by done.
  replace (contains rbracket (colon :: p)) with (contains rbracket p) by done. by rewrite P2, P3.
Qed.

(** The key of an address does not depend on the port or on the zone of an
    IPv6 address, and a missing port does not matter: whatever [ParseIP] does,
    the key of "[h%z]:p" is that of "[h]:p" and, for an IPv4 address, of
    "h:p" and of "h": the normalised address, or the sanitised host when it
    is not an address. *)
Theorem KeyFromIP_spec NFC PrintRanges ParseIP_String (h z p : string) :
  free [percent; lbracket; rbracket] (bytes h) = true -> free [lbracket; rbracket] (bytes z) = true ->
  free [colon; lbracket; rbracket] (bytes p) = true ->
  let KeyFromIP := KeyFromIP NFC PrintRanges ParseIP_String in
  let key := match ParseIP_String h with
             | Some s => s
             | None => SanitizeKey NFC PrintRanges h DefaultMaxKeyLength
             end in
  KeyFromIP ("[" +:+ h +:+ "%" +:+ z +:+ "]:" +:+ p) = key /\
  KeyFromIP ("[" +:+ h +:+ "]:" +:+ p) = key /\
  (contains colon (bytes h) = false -> KeyFromIP (h +:+ ":" +:+ p) = key /\ KeyFromIP h = key).
Proof.
  intros Fh Fz Fp. cbv zeta. unfold KeyFromIP. rewrite !bytes_app.
  change (bytes "[") with [lbracket]. change (bytes "%") with [percent]. change (bytes "]:") with [rbracket; colon].
  change (bytes ":") with [colon].
  assert (Hp : contains percent (bytes h) = false) by (by apply (free_contains _ _ _ Fh)).
  assert (Hl : contains lbracket (bytes h) = false) by (by apply (free_contains _ _ _ Fh)).
  assert (Hr : contains rbracket (bytes h) = false) by (by apply (free_contains _ _ _ Fh)).
  split; [|split].
  - replace ([lbracket] ++ bytes h ++ [percent] ++ bytes z ++ [rbracket; colon] ++ bytes p) with
      (lbracket :: (bytes h ++ percent :: bytes z) ++ rbracket :: colon :: bytes p) by (cbn; by rewrite <- !app_assoc).
    rewrite split_bracketed; [|..|exact Fp].
    + by rewrite IndexByte_app, take_app_length, of_bytes_bytes.
    + unfold free. cbn [forallb]. rewrite !contains_app, Hl, Hr. cbn [orb].
      exact Fz.
  - cbn [app]. rewrite split_bracketed; [|by unfold free; cbn; rewrite Hl, Hr|exact Fp].
    by rewrite IndexByte_none, of_bytes_bytes.
  - intros C. cbn [app]. rewrite split_plain; [|by unfold free; cbn; rewrite C, Hl, Hr|exact Fp].
    unfold SplitHostPort. rewrite (LastIndexByte_none _ _ C). by rewrite IndexByte_none, of_bytes_bytes.
Qed.

Lemma KeyFromIP_spec_witness :
  let ParseIP_String s := if String.eqb s "fe80::1" then Some "fe80::1"%string else None in
  KeyFromIP id (fun _ => false) ParseIP_String "[fe80::1%eth0]:8080" = "fe80::1"%string /\
  KeyFromIP id (fun _ => false) ParseIP_String "[fe80::1%eth1]:9090" = "fe80::1"%string.
Proof.
  intros P. split.
  - exact (proj1 (KeyFromIP_spec id (fun _ => false) P "fe80::1" "eth0" "8080" eq_refl eq_refl eq_refl)).
  - exact (proj1 (KeyFromIP_spec id (fun _ => false) P "fe80::1" "eth1" "9090" eq_refl eq_refl eq_refl)).
Defined.

(** [KeyFromHeader] panics exactly on a name that is empty or has a byte
    outside 33-126 or a colon; otherwise the extractor yields at most
    [maxLen] printable runes of the header's first value, and the empty key
    for a request without the header. *)
Theorem KeyFromHeader_spec NFC PrintRanges header maxLen :
  match KeyFromHeaderWithMaxLen NFC PrintRanges header maxLen with
  | inr _ => header = ""%string \/ exists c, c ∈ bytes header /\ (c < 33 \/ 126 < c \/ c = colon)
  | inl key =>
      header <> ""%string /\ Forall (fun c => 33 <= c <= 126 /\ c <> colon) (bytes header) /\
      KeyFromHeader NFC PrintRanges header = inl (fun h => SanitizeKey NFC PrintRanges (Header_Get h header) 256) /\
      forall h, let n := if maxLen <=? 0 then DefaultMaxKeyLength else maxLen in
        Z.of_nat (length (decode (bytes (key h)))) <= n /\
        (h !! CanonicalMIMEHeaderKey header = None -> key h = ""%string)
  end.
Proof.
  unfold KeyFromHeader, KeyFromHeaderWithMaxLen, validateHeaderName.
  destruct (String.eqb_spec header "") as [->|Ne]; [by left|].
  destruct (existsb _ (decode (bytes header))) eqn:E.
  - right. destruct (Forall_dec (fun c => 33 <= c <= 126 /\ c <> colon) (bytes header)) as [A|A].
    + exfalso. apply existsb_exists in E as (r & I & B). rewrite decode_ascii in I.
      * rewrite Forall_forall in A. apply list_elem_of_In, A in I. zcases_in B; done || lia.
      * unfold ascii_only. eapply Forall_impl; [exact A|]. cbn. lia.
    + apply not_Forall_Exists in A; [|intros c; apply _]. apply Exists_exists in A as (c & Ic & Nc).
      exists c. split; [done|]. cbn in Nc. lia.
  - assert (A : Forall (fun r => 33 <= r <= 126 /\ r <> colon) (decode (bytes header))).
    { apply Forall_forall. intros r I%list_elem_of_In.
      destruct ((r <? 33) || (r >? 126) || (r =? colon)) eqn:B; [|zcases_in B; done || lia].
      exfalso. enough (true = false) by done. rewrite <- E. symmetry. apply existsb_exists. by exists r. }
    rewrite decode_ascii in A by (apply decode_below; [apply bytes_range|]; eapply Forall_impl; [exact A|]; cbn; lia).
    split; [done|]. split; [done|]. split; [done|]. intros h.
    split; [apply SanitizeKey_length|].
    intros N. unfold Header_Get. rewrite N. unfold SanitizeKey, DefaultMaxKeyLength.
    change (isCleanASCII "") with true. change (len "") with 0. cbn [andb]. zcases; done || lia.
Qed.
