(* ===== verification/ErrorText.v ===== *)
(** The texts and log values of errors: the [Error] and [LogValue] methods of
    [ferrors/errors.go], [ratelimit/errors.go], [budget/budget.go] and
    [streamtimeout/streamtimeout.go], with the formatting of the standard
    library they use ([%s] of a [time.Duration], [%d], [%q]).

    The texts of a caller's own error types, and of [status.Error] of package
    grpc, are an argument. *)

From Stdlib Require Import Ascii.
From stdpp Require Import pretty.
From S2P Require Import Prelude Errors Utf8 HttpKeys.

#[local] Set Warnings "-register-all".

(** ** [fmt] and [time.Duration.String] *)

(** [%d]. *)
Definition dec (n : Z) : string := pretty n.

Definition digit_char (d : Z) : ascii := of_byte (48 + d).

(** [fmtFrac]: the fraction of [v/10**prec] without trailing zeros, and
    [v/10**prec]. *)
Fixpoint fmtFrac (prec : nat) (v : Z) (print : bool) (acc : string) : string * Z :=
  match prec with
  | O => ((if print then "." +:+ acc else acc), v)
  | S prec =>
      let digit := v mod 10 in
      let print := print || negb (digit =? 0) in
      fmtFrac prec (v / 10) print (if print then String (digit_char digit) acc else acc)
  end.

Definition unit_text (prec : nat) (u : Z) (unit : string) : string :=
  let '(frac, n) := fmtFrac prec u false "" in dec n +:+ frac +:+ unit.

Definition Duration_String (d : Z) : string :=
  let u := Z.abs d in
  let text :=
    if u =? 0 then "0s"
    else if u <? Microsecond then unit_text 0 u "ns"
    else if u <? Millisecond then unit_text 3 u (of_bytes [194; 181] +:+ "s")
    else if u <? Second then unit_text 6 u "ms"
    else
      let '(frac, secs) := fmtFrac 9 u false "" in
      let seconds := dec (secs mod 60) +:+ frac +:+ "s" in
      let mins := secs / 60 in
      if mins >? 0 then
        let minutes := dec (mins mod 60) +:+ "m" +:+ seconds in
        let hours := mins / 60 in
        if hours >? 0 then dec hours +:+ "h" +:+ minutes else minutes
      else seconds in
  if d <? 0 then "-" +:+ text else text.

(** ** [strconv.Quote] *)

Definition hex_char (n : Z) : ascii := of_byte (if n <? 10 then 48 + n else 87 + n).

(** The low [digits] hexadecimal digits. *)
Fixpoint hex (digits : nat) (n : Z) : string :=
  match digits with
  | O => ""
  | S k => hex k (n / 16) +:+ String (hex_char (n mod 16)) ""
  end.

Definition backslash : string := of_bytes [92].

Section Quote.
Context (PrintRanges : Z -> bool).

Definition escaped_rune (r : Z) : string :=
  if (r =? 34) || (r =? 92) then backslash +:+ of_bytes [r]
  else if IsPrint PrintRanges r then of_bytes (encode_rune r)
  else if r =? 7 then backslash +:+ "a"
  else if r =? 8 then backslash +:+ "b"
  else if r =? 12 then backslash +:+ "f"
  else if r =? 10 then backslash +:+ "n"
  else if r =? 13 then backslash +:+ "r"
  else if r =? 9 then backslash +:+ "t"
  else if r =? 11 then backslash +:+ "v"
  else if (r <? 32) || (r =? 127) then backslash +:+ "x" +:+ hex 2 r
  else if r <? 65536 then backslash +:+ "u" +:+ hex 4 r
  else backslash +:+ "U" +:+ hex 8 r.

(** The rune at the head is an invalid byte, not U+FFFD itself. *)
Definition invalid_head (l : list Z) (r : Z) : bool :=
  (r =? RuneError) && negb (bool_decide (take 3 l = [239; 191; 189])).

Fixpoint quoted_runes (fuel : nat) (l : list Z) : string :=
  match fuel, l, decode l with
  | S fuel, b :: rest, r :: _ =>
      if invalid_head l r then backslash +:+ "x" +:+ hex 2 b +:+ quoted_runes fuel rest
      else escaped_rune r +:+ quoted_runes fuel (drop (length (encode_rune r)) l)
  | _, _, _ => ""
  end.

Definition Quote (s : string) : string :=
  of_bytes [34] +:+ quoted_runes (length (bytes s)) (bytes s) +:+ of_bytes [34].

(** ** [Error] *)

Context (caller : error -> string).

Definition sentinel_Error (s : sentinel) : string :=
  match s with
  | ErrCircuitOpen => "circuit breaker is open"
  | ErrRateLimitExceeded => "rate limit exceeded"
  | ErrBulkheadFull => "bulkhead at capacity"
  | ErrTimeout => "operation timeout"
  | ErrMaxAttemptsReached => "max retry attempts reached"
  | Canceled => "context canceled"
  | DeadlineExceeded => "context deadline exceeded"
  | ErrBudgetExceeded => "budget exceeded"
  | ErrAdaptiveLimitExceeded => "adaptive: concurrency limit exceeded"
  | ErrLimitExceeded => "ratelimit: limit exceeded"
  | ErrStorageUnavailable => "ratelimit: storage unavailable"
  | ErrInvalidTokenCount => "ratelimit: invalid token count"
  | ErrExcessiveTokens => "ratelimit: token request exceeds maximum"
  | ErrStoreClosed => "ratelimit: store is closed"
  | ErrKeyLimitExceeded => "ratelimit: key limit exceeded"
  | ErrKeyTooLong => "ratelimit: key exceeds maximum length"
  | ErrWaitTimeout => "ratelimit: wait timeout exceeded"
  | ErrRateLimiterClosed => "ratelimit: rate limiter is closed"
  | ErrUser _ => caller (ESentinel s)
  | ErrNew msg => msg
  end.

Definition CircuitOpenError_Error (e : CircuitOpenError) : string :=
  if coe_RetryAfter e >? 0 then
    "circuit breaker is open (state=" +:+ coe_State e +:+ ", retry_after=" +:+ Duration_String (coe_RetryAfter e) +:+ ")"
  else if negb (bool_decide (coe_State e = ""%string)) then "circuit breaker is open (state=" +:+ coe_State e +:+ ")"
  else sentinel_Error ErrCircuitOpen.

Definition RateLimitError_Error (e : RateLimitError) : string :=
  if rle_RetryAfter e >? 0 then "rate limit exceeded (retry_after=" +:+ Duration_String (rle_RetryAfter e) +:+ ")"
  else sentinel_Error ErrRateLimitExceeded.

Definition TimeoutError_Error (timeout : Z) : string :=
  if timeout >? 0 then "operation timeout after " +:+ Duration_String timeout else sentinel_Error ErrTimeout.

Definition BudgetExceededError_Error (consumed max : Cost) : string :=
  "budget exceeded (tokens=" +:+ dec (Tokens consumed) +:+ "/" +:+ dec (Tokens max) +:+
  " usd_micros=" +:+ dec (USDMicros consumed) +:+ "/" +:+ dec (USDMicros max) +:+
  " calls=" +:+ dec (Calls consumed) +:+ "/" +:+ dec (Calls max) +:+ ")".

Definition rateLimitError_Error (key : string) (retryAfter : Z) : string :=
  if retryAfter >? 0 then
    "ratelimit: limit exceeded for key=" +:+ Quote key +:+ " (retry_after=" +:+ Duration_String retryAfter +:+ ")"
  else sentinel_Error ErrLimitExceeded.

Definition Stage_string (s : Stage) : string :=
  match s with StageFirstByte => "first_byte" | StageIdle => "idle" | StageTotal => "total" end.

Definition StreamTimeoutError_Error (e : StreamTimeoutError) : string :=
  match ste_Stage e with
  | StageFirstByte =>
      "stream first-byte timeout after " +:+ Duration_String (ste_Elapsed e) +:+
      " (limit " +:+ Duration_String (ste_FirstByteTimeout e) +:+ ")"
  | StageIdle => "stream idle timeout (no chunk in " +:+ Duration_String (ste_IdleTimeout e) +:+ ")"
  | StageTotal =>
      "stream total timeout after " +:+ Duration_String (ste_Elapsed e) +:+
      " (limit " +:+ Duration_String (ste_TotalTimeout e) +:+ ")"
  end.

(** [fmt.Errorf] whose only verbs are [%w]. *)
Fixpoint Errorf (format : string) (args : list string) : string :=
  match format, args with
  | String "%" (String "w" rest), a :: args => a +:+ Errorf rest args
  | String c rest, _ => String c (Errorf rest args)
  | EmptyString, _ => ""
  end.

Fixpoint Error (e : error) : string :=
  match e with
  | ESentinel s => sentinel_Error s
  | ECircuitOpen e => CircuitOpenError_Error e
  | ERateLimit e => RateLimitError_Error e
  | ETimeout d => TimeoutError_Error d
  | ERetryable None => "retryable: <nil>"
  | ERetryable (Some e) => Error e
  | EBudgetExceeded c m => BudgetExceededError_Error c m
  | ELimit k r => rateLimitError_Error k r
  | EStreamTimeout e => StreamTimeoutError_Error e
  | EWrap format es => Errorf format (List.map Error es)
  | EStatus _ _ | EUserRetryable _ _ => caller e
  end.
End Quote.

(** [ratelimit.WrapStorageError]. *)
Definition WrapStorageError (cause : option error) : error :=
  match cause with
  | None => ErrStorageUnavailable
  | Some e => EWrap "%w: %w" [ESentinel ErrStorageUnavailable; e]
  end.

Definition rateLimitError_Key (key : string) (retryAfter : Z) : string := key.
Definition rateLimitError_RetryAfter (key : string) (retryAfter : Z) : Z := retryAfter.

Example duration_texts :
  Duration_String 0 = "0s"%string /\ Duration_String (90 * Second) = "1m30s"%string /\
  Duration_String (1500 * Millisecond) = "1.5s"%string /\ Duration_String (100 * Hour + 1) = "100h0m0.000000001s"%string /\
  Duration_String (- 2500000) = "-2.5ms"%string /\ Duration_String (- 2 ^ 63) = "-2562047h47m16.854775808s"%string.
Proof. vm_compute. split_and!; reflexivity. Qed.

Example quoted_key :
  Quote (fun _ => true) (of_bytes [97; 34; 10; 27; 195; 169; 255]) = (of_bytes [34] +:+ "a" +:+ of_bytes [92; 34] +:+
    backslash +:+ "n" +:+ backslash +:+ "x1b" +:+ of_bytes [195; 169] +:+ backslash +:+ "xff" +:+ of_bytes [34])%string.
Proof. vm_compute. reflexivity. Qed.

(** ** [errors.Unwrap]

    It calls a method [Unwrap() error]; an [Unwrap() []error] is not one. *)
Definition errors_Unwrap (e : error) : option error :=
  match e with
  | ECircuitOpen _ | ERateLimit _ | EBudgetExceeded _ _ | ELimit _ _ => head (Unwrap e)
  | ERetryable e => e
  | EWrap _ [e] => Some e
  | _ => None
  end.

Lemma append_empty (s : string) : (s +:+ "")%string = s.
Proof. induction s as [|c s IH]; [done|]. change (String c (s +:+ "") = String c s). by rewrite IH. Qed.

(** A storage error matches its sentinel and everything its cause matches,
    and its text shows both; but the cause is not what [errors.Unwrap] gives. *)
Lemma WrapStorageError_spec PrintRanges caller e t :
  errors_is (WrapStorageError (Some e)) t = bool_decide (ErrStorageUnavailable = t) || errors_is e t /\
  Error PrintRanges caller (WrapStorageError (Some e)) =
    ("ratelimit: storage unavailable: " +:+ Error PrintRanges caller e)%string /\
  errors_Unwrap (WrapStorageError (Some e)) = None.
Proof.
  split_and!; [|cbn; by rewrite append_empty|done].
  cbn. by rewrite !orb_false_r.
Qed.

(** ** [log/slog] values and [LogValue] *)

(** What [slog.Any] is given here: an error or the value of a panic. *)
Inductive any := AnyError (e : error) | AnyString (s : string) | AnyOther (id : Z).

Inductive value :=
| StringValue (s : string)
| Int64Value (n : Z)
| Uint64Value (n : Z)
| DurationValue (d : Z)
| BoolValue (b : bool)
| AnyValue (a : any)
| GroupValue (attrs : list (string * value)).

Definition Attr : Type := string * value.

(** [append] of an attribute when a condition holds. *)
Definition attr_if (b : bool) (a : Attr) : list Attr := if b then [a] else [].

Definition nonempty (s : string) : bool := negb (bool_decide (s = ""%string)).

Definition CircuitOpenError_attrs (e : CircuitOpenError) : list Attr :=
  [("error", StringValue "circuit_open")]%string ++
  attr_if (nonempty (coe_Name e)) ("name", StringValue (coe_Name e))%string ++
  attr_if (nonempty (coe_State e)) ("state", StringValue (coe_State e))%string ++
  attr_if (coe_RetryAfter e >? 0) ("retry_after", DurationValue (coe_RetryAfter e))%string ++
  [("total_requests", Uint64Value (u64 (coe_TotalRequests e)));
   ("total_failures", Uint64Value (u64 (coe_TotalFailures e)));
   ("consecutive_failures", Uint64Value (u64 (coe_ConsecutiveFailures e)));
   ("consecutive_successes", Uint64Value (u64 (coe_ConsecutiveSuccesses e)))]%string.

Definition RateLimitError_attrs (e : RateLimitError) : list Attr :=
  [("error", StringValue "rate_limit_exceeded")]%string ++
  attr_if (nonempty (rle_Key e)) ("key", StringValue (rle_Key e))%string ++
  attr_if (rle_RetryAfter e >? 0) ("retry_after", DurationValue (rle_RetryAfter e))%string.

Definition TimeoutError_attrs (timeout : Z) : list Attr :=
  [("error", StringValue "timeout")]%string ++ attr_if (timeout >? 0) ("timeout", DurationValue timeout)%string.

Definition BudgetExceededError_attrs (consumed max : Cost) : list Attr :=
  [("error", StringValue "budget_exceeded");
   ("consumed_tokens", Int64Value (Tokens consumed)); ("max_tokens", Int64Value (Tokens max));
   ("consumed_usd_micros", Int64Value (USDMicros consumed)); ("max_usd_micros", Int64Value (USDMicros max));
   ("consumed_calls", Int64Value (Calls consumed)); ("max_calls", Int64Value (Calls max))]%string.

Definition StreamTimeoutError_attrs (e : StreamTimeoutError) : list Attr :=
  [("error", StringValue "stream_timeout"); ("stage", StringValue (Stage_string (ste_Stage e)));
   ("elapsed", DurationValue (ste_Elapsed e)); ("first_byte_timeout", DurationValue (ste_FirstByteTimeout e));
   ("idle_timeout", DurationValue (ste_IdleTimeout e)); ("total_timeout", DurationValue (ste_TotalTimeout e))]%string.

(** A method with a pointer receiver that may be nil. *)
Definition LogValue_of {A} (attrs : A -> list Attr) (e : option A) : value :=
  GroupValue (match e with None => [] | Some e => attrs e end).

(** The errors that are [slog.LogValuer]s. *)
Definition LogValue (e : error) : option value :=
  match e with
  | ECircuitOpen e => Some (LogValue_of CircuitOpenError_attrs (Some e))
  | ERateLimit e => Some (LogValue_of RateLimitError_attrs (Some e))
  | ETimeout d => Some (LogValue_of TimeoutError_attrs (Some d))
  | EBudgetExceeded c m => Some (LogValue_of (fun cm => BudgetExceededError_attrs cm.1 cm.2) (Some (c, m)))
  | EStreamTimeout e => Some (LogValue_of StreamTimeoutError_attrs (Some e))
  | _ => None
  end.

(** What a group's tag promises of [errors.Is]. *)
Definition tag_matches (tag : string) (e : error) : Prop :=
  (tag = "circuit_open"%string -> errors_is e ErrCircuitOpen = true) /\
  (tag = "rate_limit_exceeded"%string -> errors_is e ErrRateLimitExceeded = true) /\
  (tag = "timeout"%string \/ tag = "stream_timeout"%string -> errors_is e ErrTimeout = true /\ errors_is e DeadlineExceeded = true) /\
  (tag = "budget_exceeded"%string -> errors_is e ErrBudgetExceeded = true).

Definition tags : list string := ["circuit_open"; "rate_limit_exceeded"; "timeout"; "stream_timeout"; "budget_exceeded"]%string.

Lemma attr_if_keys b a : (attr_if b a).*1 = if b then [a.1] else [].
Proof. by destruct b. Qed.

(** A structured error logs a group that begins with a tag, the tag tells which
    sentinels the error matches, and no key occurs twice. *)
Lemma log_value_spec e v : LogValue e = Some v ->
  exists tag rest, v = GroupValue (("error"%string, StringValue tag) :: rest) /\ tag ∈ tags /\ tag_matches tag e /\
    NoDup ("error"%string :: rest.*1).
Proof.
  destruct e; intros [= <-]; (eexists _, _; split; [reflexivity|]);
    (split; [unfold tags; set_solver|]);
    (split; [split_and!; first [by intros | intros [?|?]; done]|]);
    rewrite ?fmap_app, ?attr_if_keys; repeat case_match; cbn;
    apply (bool_decide_unpack _); reflexivity.
Qed.

(** The hints that are unknown are left out; the counters of a breaker are
    logged exactly. *)
Lemma circuit_open_log e :
  let a := CircuitOpenError_attrs e in
  (("retry_after"%string ∈ a.*1) <-> 0 < coe_RetryAfter e) /\ (("name"%string ∈ a.*1) <-> coe_Name e <> ""%string) /\
  (0 <= coe_TotalFailures e < 2 ^ 32 -> ("total_failures", Uint64Value (coe_TotalFailures e))%string ∈ a).
Proof.
  cbv zeta. unfold CircuitOpenError_attrs. rewrite !fmap_app, !attr_if_keys, Z.gtb_ltb. unfold nonempty.
  split_and!.
  - destruct (Z.ltb_spec 0 (coe_RetryAfter e)); repeat case_match; cbn; split; intros; try done; try lia; try set_solver.
  - case_bool_decide; repeat case_match; cbn; split; intros; try done; set_solver.
  - intros R. rewrite (u64_small (coe_TotalFailures e)) by lia. set_solver.
Qed.
