(* ===== verification/Logs.v ===== *)
(** The log records of the patterns.

    A logger is the handler its records go to, or nil.  What is modelled is
    what the patterns log: level, message and attributes, and when they log.
    Handlers belong to the caller. *)

From Stdlib Require Import Ascii.
From S2P Require Import Prelude Float64 Errors ErrorText Runtime Window Breaker RateStore RateLimiter.

#[local] Open Scope go_scope.

(** ** [log/slog] *)

Inductive Level := LevelDebug | LevelInfo | LevelWarn | LevelError.

Record log_record := { level : Level; message : string; attrs : list Attr }.

Definition Logger (W : Type) : Type := option (ctx -> log_record -> M W unit).

Definition log {W} (l : Logger W) (c : ctx) (lv : Level) (msg : string) (a : list Attr) : M W unit :=
  match l with
  | None => ret tt
  | Some handle => handle c {| level := lv; message := msg; attrs := a |}
  end.

(** [slog.Int]. *)
Definition IntValue : Z -> value := Int64Value.

Section Records.
Context {W : Type}.
(** [err.Error()]; see [ErrorText]. *)
Context (Error : error -> string).

(** ** circuitbreaker *)

Definition SlidingWindowType_String (t : SlidingWindowType) : string :=
  match t with
  | SlidingWindowDisabled => "disabled"
  | SlidingWindowCount => "count-based"
  | SlidingWindowTime => "time-based"
  | _ => "unknown"
  end.

Definition cb_override_log (l : Logger W) (windowType : SlidingWindowType) : M W unit :=
  log l Background LevelWarn "circuit breaker: ReadyToTrip overrides the sliding-window configuration"
    [("sliding_window_type", StringValue (SlidingWindowType_String windowType))]%string.

Definition cb_dropped_log (l : Logger W) (from to : State) : M W unit :=
  log l Background LevelWarn "circuit breaker state change dropped: callback queue full"
    [("from", StringValue (State_String from)); ("to", StringValue (State_String to))]%string.

Definition logStateChange (l : Logger W) (from to : State) : M W unit :=
  log l Background LevelInfo "circuit breaker state changed"
    [("from", StringValue (State_String from)); ("to", StringValue (State_String to))]%string.

(** [String], with [%+v] of the counts. *)
Definition breaker_String (cb : breaker) : string :=
  let c := Breaker.counts cb in
  ("CircuitBreaker[state=" +:+ State_String (Breaker.state cb) +:+ ", generation=" +:+ dec (Breaker.generation cb) +:+
   ", counts={Requests:" +:+ dec (Requests c) +:+ " TotalSuccesses:" +:+ dec (TotalSuccesses c) +:+
   " TotalFailures:" +:+ dec (TotalFailures c) +:+ " ConsecutiveSuccesses:" +:+ dec (ConsecutiveSuccesses c) +:+
   " ConsecutiveFailures:" +:+ dec (ConsecutiveFailures c) +:+ "}]")%string.

(** ** retry *)

Definition logAttempt (l : Logger W) (MaxAttempts : Z) (c : ctx) (attempt : Z) (err : error) (willRetry : bool) : M W unit :=
  let a := [("attempt", IntValue attempt); ("max_attempts", IntValue MaxAttempts); ("error", StringValue (Error err))]%string in
  if willRetry then log l c LevelWarn "retry attempt failed, retrying" a else log l c LevelError "retry exhausted" a.

(** ** bulkhead, hedge, timeout, streamtimeout, adaptive *)

Definition logRejection (l : Logger W) (MaxConcurrent MaxQueue : Z) : M W unit :=
  log l Background LevelWarn "bulkhead rejection"
    [("max_concurrent", IntValue MaxConcurrent); ("max_queue", IntValue MaxQueue)]%string.

Definition logHedge (l : Logger W) (MaxAttempts HedgeDelay : Z) (c : ctx) (attempt : Z) : M W unit :=
  log l c LevelDebug "hedge attempt fired"
    [("attempt", IntValue attempt); ("max_attempts", IntValue MaxAttempts); ("hedge_delay", DurationValue HedgeDelay)]%string.

Definition timeout_logTimeout (l : Logger W) (duration : Z) : M W unit :=
  log l Background LevelWarn "operation timeout" [("timeout", DurationValue duration)]%string.

Definition stream_logTimeout (l : Logger W) (stage : Stage) (elapsed : Z) : M W unit :=
  log l Background LevelWarn "streaming operation timeout"
    [("pattern", StringValue "streamtimeout"); ("stage", StringValue (Stage_string stage));
     ("elapsed", DurationValue elapsed)]%string.

Definition limit_changed_log (l : Logger W) (c : ctx) (old new : Z) : M W unit :=
  log l c LevelInfo "adaptive limit changed" [("old", IntValue old); ("new", IntValue new)]%string.

(** ** fallback: the zero [slog.Attr] is [None] *)

Definition logEvent (l : Logger W) (event : string) (attr : option Attr) : M W unit :=
  log l Background LevelInfo "fallback event"
    ([("pattern", StringValue "fallback"); ("event", StringValue event)]%string ++
     match attr with Some a => if nonempty a.1 then [a] else [] | None => [] end).

(** ** ratelimit *)

Definition interval_defaulted_log (l : Logger W) (Rate : Z) : M W unit :=
  log l Background LevelWarn "ratelimit: Interval not set, defaulting to 1s — Rate is read per Interval"
    [("rate", IntValue Rate); ("interval", StringValue (Duration_String Second));
     ("effective", StringValue (dec Rate +:+ " per second"));
     ("hint", StringValue "set Interval explicitly, e.g. Interval: time.Minute for a per-minute quota")]%string.

(** The records that a request can cause, with the key the caller sent or the
    key it resolved to. *)
Inductive limiter_event :=
| ExcessiveRequest (key : string) (requested max_allowed : Z)
| FailOpenDenied (resolvedKey : string) (requested burst : Z)
| StorageError (resolvedKey : string) (err : error) (fail_open : bool)
| LimitExceeded (resolvedKey : string) (rate burst : Z).

Definition limiter_record (e : limiter_event) : log_record :=
  match e with
  | ExcessiveRequest key n max =>
      {| level := LevelWarn; message := "excessive token request rejected";
         attrs := [("key", StringValue key); ("requested", IntValue n); ("max_allowed", IntValue max)]%string |}
  | FailOpenDenied key n burst =>
      {| level := LevelWarn; message := "fail-open denied: tokens exceed burst";
         attrs := [("key", StringValue (sanitizeLogKey key)); ("requested", IntValue n); ("burst", IntValue burst)]%string |}
  | StorageError key err failOpen =>
      {| level := LevelError; message := "rate limiter storage error";
         attrs := [("key", StringValue (sanitizeLogKey key)); ("error", StringValue (Error err));
                   ("fail_open", BoolValue failOpen)]%string |}
  | LimitExceeded key rate burst =>
      {| level := LevelWarn; message := "rate limit exceeded";
         attrs := [("key", StringValue (sanitizeLogKey key)); ("rate", IntValue rate); ("burst", IntValue burst)]%string |}
  end.

Definition limiter_log (l : Logger W) (c : ctx) (e : limiter_event) : M W unit :=
  let r := limiter_record e in log l c (level r) (message r) (attrs r).

Definition logRateLimit (l : Logger W) (cfg : RateLimiter.Config W) (c : ctx) (key : string) : M W unit :=
  limiter_log l c (LimitExceeded key (Rate cfg) (Burst cfg)).

Definition no_resetter_log (l : Logger W) (c : ctx) (store_type : string) : M W unit :=
  log l c LevelWarn "Store does not implement Resetter - reset not supported" [("store_type", StringValue store_type)]%string.

(** Logged once per limiter ([sync.Once]). *)
Definition no_health_checker_log (l : Logger W) (c : ctx) (store_type : string) : M W unit :=
  log l c LevelWarn "Store does not implement HealthChecker - health checks always pass"
    [("store_type", StringValue store_type)]%string.
End Records.

(** ** Log injection

    The keys in the limiter's records are sanitised: no control character
    of a key reaches a record, with one exception. *)

Definition clean_text (s : string) : Prop := forall n c, String.get n s = Some c -> control c = false.

Definition key_of (r : log_record) : option string :=
  match attrs r with (_, StringValue s) :: _ => Some s | _ => None end.

Lemma limiter_keys_clean Error e s :
  key_of (limiter_record Error e) = Some s ->
  clean_text s \/ exists n max, e = ExcessiveRequest s n max.
Proof.
  destruct e as [key n max|key n b|key err f|key r b]; intros [= <-]; [right; eauto|left..];
    intros i c; by apply sanitizeLogKey_spec.
Qed.

(** A key that ends a line and begins another. *)
Definition forged_key : string := ("a" +:+ String "010" "level=ERROR msg=forged")%string.

(** The keys in the limiter's log records cannot forge records, but for one.
    The key of every record that a request causes is free of control
    characters, except in the record of a request for too many tokens, which
    carries the key as the caller sent it: a key with a line break goes
    through there, and would not have, sanitised like the others. *)
Theorem limiter_log_hygiene (Error : error -> string) n max :
  (forall e s, key_of (limiter_record Error e) = Some s ->
     clean_text s \/ exists n max, e = ExcessiveRequest s n max) /\
  key_of (limiter_record Error (ExcessiveRequest forged_key n max)) = Some forged_key /\
  ~ clean_text forged_key /\ clean_text (sanitizeLogKey forged_key).
Proof.
  split_and!; [apply limiter_keys_clean|done| |].
  - intros C. specialize (C 1%nat "010"%char eq_refl). vm_compute in C. discriminate C.
  - intros i c. by apply sanitizeLogKey_spec.
Qed.
