(* ===== verification/Panic.v ===== *)
(** Panics: of the callbacks, which [safeCallback] recovers, and of the
    protected functions, which nothing recovers.

    A call that can panic is a computation of an [outcome]; a call that can
    wait for a mutex that will never be unlocked can also be [Blocked].
    [defer] and [recover] are the language's.  Each [Execute] is given again
    for such functions, with what it defers, and is the one of the
    pattern's own file when the function returns ([lifted]). *)

From S2P Require Import Prelude Float64 Errors ErrorText Runtime Bulkhead Retry Budget Adaptive.
From S2P Require Import Timeout Fallback RateStore RateLimiter Window Breaker BreakerSpec Logs.


#[local] Open Scope go_scope.

(** ** Computations that can panic *)

Inductive outcome (A : Type) := Returned (a : A) | Panicked (v : any) | Blocked.

Arguments Returned {A}.
Arguments Panicked {A}.
Arguments Blocked {A}.

Definition P (W A : Type) : Type := M W (outcome A).

Definition pret {W A} (a : A) : P W A := ret (Returned a).

Definition pbind {W A B} (m : P W A) (k : A -> P W B) : P W B := fun w =>
  match m w with
  | (Returned a, w') => k a w'
  | (Panicked v, w') => (Panicked v, w')
  | (Blocked, w') => (Blocked, w')
  end.

Notation "'let?' x ':=' m 'in' k" := (pbind m (fun x => k))
  (at level 10, x pattern, m at level 100, k at level 200) : go_scope.

(** A computation that returns. *)
Definition lift {W A} (m : M W A) : P W A := fun w => (Returned (m w).1, (m w).2).

Definition Panic {W A} (v : any) : P W A := ret (Panicked v).

(** [defer d()] at the head of a function of body [m]. *)
Definition defer {W A} (d : M W unit) (m : P W A) : P W A := fun w =>
  match m w with
  | (Blocked, w') => (Blocked, w')
  | (o, w') => (o, (d w').2)
  end.

(** [defer func() { if r := recover(); r != nil { h(r) } }()]. *)
Definition recover {W} (h : any -> M W unit) (m : P W unit) : P W unit := fun w =>
  match m w with
  | (Panicked v, w') => (Returned tt, (h v w').2)
  | r => r
  end.

(** A protected function that can panic, and one that does not. *)
Definition PFn (W T : Type) : Type := ctx -> P W (result T).
Definition lifted {W T} (fn : Fn W T) : PFn W T := fun c => lift (fn c).

Lemma pbind_lift {W A B} (m : M W A) (k : A -> P W B) w : pbind (lift m) k w = k (m w).1 (m w).2.
Proof. done. Qed.

Lemma lift_bind {W A B} (m : M W A) (k : A -> M W B) w : lift (bind m k) w = lift (k (m w).1) (m w).2.
Proof. done. Qed.

Lemma lift_ext {W A} (m m' : M W A) w : m w = m' w -> lift m w = lift m' w.
Proof. unfold lift. by intros ->. Qed.

(** Statement by statement, two bodies agree. *)
Ltac agree :=
  unfold lifted; repeat first [done | rewrite pbind_lift, lift_bind | case_match; try discriminate; simplify_eq/=].

(** ** [safeCallback] *)

Section SafeCallback.
Context {W : Type} (l : Logger W) (Stack : string).

Definition callback_panic (msg : string) (stack : bool) (pattern : string) (r : any) : M W unit :=
  log l Background LevelError msg
    ([("pattern", StringValue pattern); ("panic", AnyValue r)]%string ++ attr_if stack ("stack", StringValue Stack)%string).

Definition cb_safeCallback (fn : P W unit) : P W unit :=
  recover (callback_panic "circuit breaker callback panic" false "circuit_breaker") fn.
Definition retry_safeCallback (fn : P W unit) : P W unit :=
  recover (callback_panic "retry callback panic" false "retry") fn.
Definition budget_safeCallback (fn : Cost -> P W unit) (c : Cost) : P W unit :=
  recover (callback_panic "budget callback panic" false "budget") (fn c).
Definition adaptive_safeCallback (fn : P W unit) : P W unit :=
  recover (callback_panic "adaptive callback panic" true "adaptive") fn.
Definition bulkhead_safeCallback (fn : P W unit) : P W unit :=
  recover (callback_panic "bulkhead callback panic" false "bulkhead") fn.
Definition limiter_safeCallback (fn : P W unit) : P W unit :=
  recover (callback_panic "rate limiter callback panic" true "rate_limit") fn.
Definition timeout_safeCallback (fn : P W unit) : P W unit :=
  recover (callback_panic "timeout callback panic" false "timeout") fn.
Definition fallback_safeCallback (fn : P W unit) : P W unit :=
  recover (callback_panic "fallback callback panic" false "fallback") fn.
Definition hedge_safeCallback (fn : P W unit) : P W unit :=
  recover (callback_panic "hedge callback panic" true "hedge") fn.
End SafeCallback.

(** A recovered callback that does not block is a computation that returns,
    and so what the configurations of the patterns hold. *)
Definition guarded {W} (m : P W unit) : M W unit := fun w => (tt, (m w).2).

Lemma recover_returns {W} (h : any -> M W unit) (m : P W unit) w :
  (m w).1 <> Blocked -> recover h m w = lift (guarded (recover h m)) w.
Proof. unfold recover, lift, guarded. by destruct (m w) as [[[]| |] w']. Qed.

(** ** The patterns *)

Section Breaker.
Context {W T : Type} `{Has W breaker} (zero : T).

Definition Breaker_Execute (c : ctx) (fn : PFn W T) : P W (result T) :=
  let? e := lift (err_of c) in
  match e with
  | Some err => pret (zero, Some err)
  | None =>
      let? admitted := lift fastAdmit_M in
      match admitted with
      | Some gen => let? r := fn c in lift (finish gen r)
      | None =>
          let? p := lift (locked beforeRequest) in
          match p with
          | (_, Some err) => pret (zero, Some err)
          | (gen, None) => let? r := fn c in lift (finish gen r)
          end
      end
  end.

Lemma Breaker_agrees c fn w : Breaker_Execute c (lifted fn) w = lift (Breaker.Execute zero c fn) w.
Proof.
  unfold Breaker_Execute, Breaker.Execute. agree.
Qed.

(** What can have become of a closed breaker between [w] and [w'] when no
    outcome was recorded: nothing, unless its counting interval ended, and then
    the interval that a look at the time began. *)
Definition only_time_passed (p : policy) (since : list entry) (until t t' : Z) (since' : list entry) (until' : Z) : Prop :=
  (since' = since /\ until' = until) \/
  (0 < Interval (p_config p) /\ since' = [] /\ exists u, t <= u <= t' /\ until < u /\ until' = u + Interval (p_config p)).

Lemma only_time_passed_trans p s0 u0 s1 u1 s2 u2 t0 t1 t2 :
  t0 <= t1 <= t2 -> only_time_passed p s0 u0 t0 t1 s1 u1 -> only_time_passed p s1 u1 t1 t2 s2 u2 ->
  only_time_passed p s0 u0 t0 t2 s2 u2.
Proof.
  intros L [[-> ->]|(I & -> & u & B & U & ->)] [[-> ->]|(J & -> & v & C & V & ->)].
  - by left.
  - right. split; [done|]. split; [done|]. exists v. split_and!; done || lia.
  - right. split; [done|]. split; [done|]. exists u. split_and!; done || lia.
  - right. split; [done|]. split; [done|]. exists v. split_and!; done || lia.
Qed.

(** A call whose function panics: a closed breaker runs it, and has then done
    nothing but look at the time. *)
Lemma breaker_panic p c fn v w since wlog until :
  done_at c = None -> (forall c w, (fn c w).1 = Panicked v /\ clock w <= clock (fn c w).2) ->
  (forall c, leaves (get (S := breaker)) (fn c)) ->
  refines p (get w) (SClosed since wlog until) ->
  let '(o, w') := Breaker_Execute c fn w in
  o = Panicked v /\ clock w <= clock w' /\
  exists since' until', refines p (get w') (SClosed since' wlog until') /\
    only_time_passed p since until (clock w) (clock w') since' until'.
Proof.
  intros D F Q R. unfold Breaker_Execute. rewrite pbind_lift. unfold err_of, ctx_Err. rewrite D. cbn [fst snd].
  rewrite pbind_lift, fastAdmit_M_run. cbn [fst snd]. rewrite !get_tick.
  pose proof (clock_tick w) as T1. pose proof (clock_tick (tick w)) as T2. pose proof (clock_tick (tick (tick w))) as T3.
  destruct (fastAdmit _ _) as [gen|].
  - unfold pbind. destruct (F c (tick (tick w))) as [E G]. pose proof (Q c (tick (tick w))) as L.
    destruct (fn c (tick (tick w))) as [o w1]. cbn in E, G, L. subst o. split; [done|]. split; [lia|].
    exists since, until. rewrite L, !get_tick. split; [done|by left].
  - rewrite pbind_lift. unfold locked. cbn [fst snd]. rewrite !get_tick, (beforeRequest_spec _ _ _ _ R).
    set (now := clock (tick (tick (tick w)))) in *.
    pose proof (currentState_refines _ _ _ now R) as R'. cbn [spec_now] in *.
    destruct (_ && _) eqn:Roll; cbn [fst snd] in *;
      (unfold pbind; set (w3 := put _ _); destruct (F c w3) as [E G]; pose proof (Q c w3) as L;
       assert (clock w3 = now) as C3 by apply clock_put;
       destruct (fn c w3) as [o w1]; cbn in E, G, L; subst o; split; [done|]; split; [lia|];
       rewrite L; unfold w3; rewrite get_put; eexists _, _; split; [exact R'|]).
    + right. apply andb_true_iff in Roll as [I U]. split; [lia|]. split; [done|]. exists now. split; [lia|]. split; [lia|done].
    + by left.
Qed.

Lemma breaker_panics p c fn v w since wlog until n :
  done_at c = None -> (forall c w, (fn c w).1 = Panicked v /\ clock w <= clock (fn c w).2) ->
  (forall c, leaves (get (S := breaker)) (fn c)) ->
  refines p (get w) (SClosed since wlog until) ->
  let w' := Nat.iter n (fun w => (Breaker_Execute c fn w).2) w in
  clock w <= clock w' /\
  exists since' until', refines p (get w') (SClosed since' wlog until') /\
    only_time_passed p since until (clock w) (clock w') since' until'.
Proof.
  intros D F Q R. cbv zeta. induction n as [|n (L & s & u & R1 & O)].
  { change (Nat.iter 0 _ w) with w. split; [lia|]. exists since, until. split; [done|by left]. }
  change (Nat.iter (S n) ?f w) with (f (Nat.iter n f w)). cbv beta. set (w1 := Nat.iter n _ w) in *.
  pose proof (breaker_panic p c fn v w1 s wlog u D F Q R1) as B.
  destruct (Breaker_Execute c fn w1) as [o w2]. destruct B as (_ & L2 & s' & u' & R2 & O2). cbn [snd]. split; [lia|].
  exists s', u'. split; [done|]. eapply only_time_passed_trans; [|exact O|exact O2]. lia.
Qed.

(** C12: A panic of the protected function is not an outcome.  The call (its
    context does not end) lets it through and the next one runs the function
    again.  However many calls of a closed breaker panic, it stays closed and
    its sliding window is as it was; so are its counts and the end of its
    counting interval, unless that interval is over, when the code begins a
    new one at that look at the time.  And until then the next outcome is
    judged as if nothing had panicked: the same number of failures opens it. *)
Theorem panics_never_trip p c fn v w since wlog until n :
  done_at c = None -> (forall c w, (fn c w).1 = Panicked v /\ clock w <= clock (fn c w).2) ->
  (forall c, leaves (get (S := breaker)) (fn c)) ->
  refines p (get w) (SClosed since wlog until) ->
  let w' := Nat.iter n (fun w => (Breaker_Execute c fn w).2) w in
  (Breaker_Execute c fn w').1 = Panicked v /\
  (exists since' until', refines p (get w') (SClosed since' wlog until') /\
     only_time_passed p since until (clock w) (clock w') since' until') /\
  (forall success now, clock w' <= now -> (Interval (p_config p) <= 0 \/ now <= until) ->
     past now (SClosed since wlog until) ->
     refines p (afterRequest (generation (get w')) success now (get w')) (spec_complete p success now (SClosed since wlog until))).
Proof.
  intros D F Q R w'. destruct (breaker_panics p c fn v w since wlog until n D F Q R) as (L & s & u & R1 & O). fold w' in L, R1, O.
  split; [|split].
  - pose proof (breaker_panic p c fn v w' s wlog u D F Q R1) as B. destruct (Breaker_Execute c fn w'). by apply B.
  - by exists s, u.
  - intros success now N U P. destruct O as [[-> ->]|(I & _ & t & B & V & _)]; [|lia].
    pose proof (afterRequest_spec p _ _ (generation (get w')) success now R1 P) as A.
    rewrite (currentState_gen _ _ _ now R1) in A. cbn [spec_now] in A.
    assert ((Interval (p_config p) >? 0) && (until <? now) = false) as E by (apply andb_false_iff; destruct U; [left|right]; lia).
    rewrite E in A. unfold next_gen in A. cbn [spec_state] in A. rewrite bool_decide_eq_true_2, Z.eqb_refl in A by done. exact A.
Qed.
End Breaker.

Lemma panics_never_trip_witness :
  let fn : PFn (sim breaker) Z := fun _ => Panic (AnyString "nil map") in
  let w := Sim 0 (Breaker.New (example_config 1) 0 []) in
  let w' := Nat.iter 100 (fun w => (Breaker_Execute 0 Background fn w).2) w in
  (Breaker_Execute 0 Background fn w').1 = Panicked (AnyString "nil map") /\
  state (afterRequest (generation (get w')) false 0 (get w')) = StateOpen.
Proof.
  intros fn w w'.
  destruct (panics_never_trip (H0 := sim_Has breaker) 0 (policy_of (example_config 1)) Background fn (AnyString "nil map") w
    [] [] (0 + Interval (Breaker.setDefaults (example_config 1))) 100) as (P & _ & A); [done|done|done| |].
  { apply (New_refines (example_config 1) 0 []). cbn. lia. }
  split; [exact P|]. assert (clock w' <= 0) as C by (vm_compute; discriminate).
  assert (Interval (p_config (policy_of (example_config 1))) <= 0) as I by (vm_compute; discriminate).
  specialize (A false 0 C (or_introl I)).
  pose proof (rf_state _ _ _ (A (fun x Hx => match not_elem_of_nil x Hx with end))) as St. fold w' in St.
  etransitivity; [exact St|vm_compute; reflexivity].
Defined.

(** A panic ends the retry: it is not an error, and no attempt follows. *)
Section Retry.
Context {W T : Type} `{World W} (zero : T).
Context (Pow : f64 -> f64 -> f64) (rand_Float64 : M W f64) (cfg : Retry.Config W).

Fixpoint Retry_attempts (c : ctx) (fn : PFn W T) (remaining : nat) (attempt : Z) (res : T) (err : option error) :
    P W (result T) :=
  match remaining with
  | O => pret (res, err)
  | S remaining =>
      let? done := lift (err_of c) in
      match done with
      | Some e => pret (res, Some e)
      | None =>
          let? r := fn c in
          let '(res, err) := r in
          match err with
          | None => pret (res, None)
          | Some e =>
              if negb (isRetryable cfg e) then pret (res, Some e)
              else if attempt =? MaxAttempts cfg then pret (res, Some e)
              else
                let? _ := lift (callOnRetry cfg (attempt + 1) e) in
                let? delay := lift (backoff_M Pow rand_Float64 cfg attempt) in
                let? stopped := lift (select_timer delay c) in
                match stopped with
                | Some e => pret (res, Some e)
                | None => Retry_attempts c fn remaining (attempt + 1) res (Some e)
                end
          end
      end
  end.

Definition Retry_Execute (c : ctx) (fn : PFn W T) : P W (result T) :=
  Retry_attempts c fn (Z.to_nat (MaxAttempts cfg)) 1 zero None.

Lemma Retry_agrees c fn w :
  Retry_Execute c (lifted fn) w = lift (Retry.Execute zero Pow rand_Float64 cfg c fn) w.
Proof.
  unfold Retry_Execute, Retry.Execute. generalize 1 as k. generalize (None (A := error)) as e. generalize zero as z.
  revert w. induction (Z.to_nat (MaxAttempts cfg)) as [|n IH]; intros w z e k; [done|].
  cbn [Retry_attempts attempts]. agree.
Qed.

Lemma retry_panic c fn v w w1 :
  done_at c = None -> 1 <= MaxAttempts cfg -> fn c (tick w) = (Panicked v, w1) -> Retry_Execute c fn w = (Panicked v, w1).
Proof.
  intros D A E. unfold Retry_Execute. destruct (Z.to_nat (MaxAttempts cfg)) as [|n] eqn:N; [lia|].
  cbn [Retry_attempts]. rewrite pbind_lift. unfold err_of, ctx_Err. rewrite D. cbn [fst snd]. unfold pbind. by rewrite E.
Qed.
End Retry.

(** The context is cancelled; a timeout is neither reported nor counted. *)
Section Timeout.
Context {W T : Type} `{World W} (zero : T) (cfg : Timeout.Config W).

Definition Timeout_Execute (c : ctx) (timeout : Z) (fn : PFn W T) : P W (result T) :=
  let timeout := if timeout =? 0 then DefaultTimeout cfg else timeout in
  let? now := lift time_Now in
  let tCtx := WithTimeout c timeout now in
  let? r := fn tCtx in
  let? ctxErr := lift (err_of tCtx) in
  match ctxErr with
  | Some e =>
      let? pErr := lift (err_of c) in
      match pErr with
      | Some p => pret (zero, Some p)
      | None =>
          if same e DeadlineExceeded then
            let? _ := lift (callOnTimeout cfg) in
            pret (zero, Some (ETimeout timeout))
          else pret (zero, Some e)
      end
  | None => pret r
  end.

Lemma Timeout_agrees c timeout fn w :
  Timeout_Execute c timeout (lifted fn) w = lift (Timeout.Execute zero cfg c timeout fn) w.
Proof. unfold Timeout_Execute, Timeout.Execute. agree. Qed.

Lemma timeout_panic c timeout (fn : PFn W T) v w1 w :
  fn (WithTimeout c (if timeout =? 0 then DefaultTimeout cfg else timeout) (clock (tick w))) (tick w) = (Panicked v, w1) ->
  Timeout_Execute c timeout fn w = (Panicked v, w1).
Proof. intros E. unfold Timeout_Execute. rewrite pbind_lift. cbn [fst snd time_Now]. unfold pbind. by rewrite E. Qed.
End Timeout.

(** The fallback is for errors: it does not run for a panic. *)
Section Fallback.
Context {W T : Type} `{World W} (zero : T) (cfg : Fallback.Config W T) (fallback : option (ctx -> error -> P W (result T))).

Definition Fallback_Execute (c : ctx) (primary : PFn W T) : P W (result T) :=
  let? e := lift (err_of c) in
  match e with
  | Some err => pret (zero, Some err)
  | None =>
      let? r := primary c in
      match r.2 with
      | None =>
          let? _ := lift (match OnSuccess cfg with Some f => f | None => ret tt end) in
          pret (r.1, None)
      | Some err =>
          if match ShouldFallback cfg with Some f => negb (f err) | None => false end then pret (zero, Some err)
          else
            match fallback with
            | None => pret (zero, Some err)
            | Some fallback =>
                let? _ := lift (match OnFallback cfg with Some f => f err | None => ret tt end) in
                let? fr := fallback c err in
                match fr.2 with
                | Some _ => pret (zero, Some err)
                | None => pret (fr.1, None)
                end
            end
      end
  end.
End Fallback.

Lemma Fallback_agrees {W T} `{World W} (zero : T) cfg c fn w :
  Fallback_Execute zero cfg ((fun f c e => lift (f c e)) <$> Fallback.Fallback cfg) c (lifted fn) w =
  lift (Fallback.Execute zero cfg c fn) w.
Proof.
  unfold Fallback_Execute, Fallback.Execute. destruct (Fallback.Fallback cfg); cbn [fmap option_fmap option_map]; agree.
Qed.

(** The slot of an adaptive limiter is given back by a deferred call, so a
    panicking function holds none, and the limit does not move. *)
Section Adaptive.
Context {W T : Type} `{Has W limiter} (zero : T) (oob : Z) (cfg : Adaptive.Config).
Context (OnLimitChange : option (Z -> Z -> M W unit)).

Definition Adaptive_Execute (c : ctx) (fn : PFn W T) : P W (result T) :=
  let? e := lift (err_of c) in
  match e with
  | Some err => pret (zero, Some err)
  | None =>
      let? ok := lift (fun w => let r := tryAcquire (get w) in (r.1, put r.2 w)) in
      if negb ok then pret (zero, Some (ESentinel ErrAdaptiveLimitExceeded))
      else
        defer (fun w => (tt, put (Adaptive.release (get w)) w))
          (let? start := lift (if rttAware cfg then time_Now else ret 0) in
           let? r := fn c in
           let? _ := lift (feedback oob cfg OnLimitChange start r) in
           pret r)
  end.

Lemma Adaptive_agrees c fn w :
  Adaptive_Execute c (lifted fn) w = lift (Adaptive.Execute zero oob cfg OnLimitChange c fn) w.
Proof. unfold Adaptive_Execute, Adaptive.Execute. agree. Qed.

Lemma adaptive_panic c fn v w w' :
  (forall c, leaves (get (S := limiter)) (fn c)) -> - 2 ^ 31 <= inFlight (get w) < MaxInt32 ->
  Adaptive_Execute c fn w = (Panicked v, w') -> get w' = get w.
Proof.
  intros Q I. unfold Adaptive_Execute. rewrite pbind_lift. unfold err_of. cbn [fst snd].
  destruct (ctx_Err c _); [done|]. rewrite pbind_lift. cbn [fst snd]. rewrite get_tick. unfold tryAcquire.
  destruct (_ >=? _); cbn [fst snd negb]; [done|]. unfold defer. rewrite pbind_lift.
  set (w1 := put _ (tick w)). set (p := (if rttAware cfg then time_Now else ret 0) w1).
  assert (E1 : get p.2 = set_inFlight (i32 (inFlight (get w) + 1)) (get w)).
  { unfold p. destruct (rttAware cfg); cbn; unfold w1; by rewrite ?get_tick, get_put. }
  unfold pbind. pose proof (Q c p.2) as L. destruct (fn c p.2) as [[r|u|] w2]; intros [= <- <-].
  cbn [snd] in *. rewrite get_put, L, E1. unfold Adaptive.release, set_inFlight. cbn. unfold MaxInt32 in I.
  rewrite (i32_small (inFlight (get w) + 1)) by lia. rewrite i32_small by lia.
  replace (inFlight (get w) + 1 - 1) with (inFlight (get w)) by lia. by destruct (get w).
Qed.
End Adaptive.

(** The rate limiter's documentation: a panic propagates, and the tokens are
    not refunded. *)
Section RateLimiter.
Context {W : Type} `{Has W Closed} (oob : Z) (rl : rateLimiter W).

Definition Limiter_Execute (c : ctx) (key : string) (operation : P W (option error)) : P W (option error) :=
  let? closed := lift closed_load in
  if closed then pret (Some (ESentinel ErrRateLimiterClosed))
  else
    let? ok := lift (Allow rl c key) in
    if negb ok then lift (limitError oob rl c (resolveKey rl c key)) else operation.

Definition Limiter_ExecuteN (c : ctx) (key : string) (tokens : Z) (operation : P W (option error)) : P W (option error) :=
  let? closed := lift closed_load in
  if closed then pret (Some (ESentinel ErrRateLimiterClosed))
  else if tokens <=? 0 then pret (Some (ESentinel ErrInvalidTokenCount))
  else if tokens >? MaxTokensPerRequest (RateLimiter.config rl) then pret (Some (ESentinel ErrExcessiveTokens))
  else
    let? ok := lift (Take rl c key tokens) in
    if negb ok then lift (limitError oob rl c (resolveKey rl c key)) else operation.

Lemma Limiter_agrees c key op w : Limiter_Execute c key (lift op) w = lift (RateLimiter.Execute oob rl c key op) w.
Proof. unfold Limiter_Execute, RateLimiter.Execute. agree. Qed.

Lemma Limiter_agrees_n c key n op w :
  Limiter_ExecuteN c key n (lift op) w = lift (RateLimiter.ExecuteN oob rl c key n op) w.
Proof. unfold Limiter_ExecuteN, RateLimiter.ExecuteN. agree. Qed.

(** Every write to the limiter comes before the operation. *)
Lemma limiter_panic c key op v w w' :
  Limiter_Execute c key op w = (Panicked v, w') -> op (Allow rl c key w).2 = (Panicked v, w').
Proof.
  unfold Limiter_Execute. rewrite pbind_lift. cbn [fst snd closed_load].
  destruct (is_closed (get w)); [done|]. rewrite pbind_lift. by destruct (Allow rl c key w).1.
Qed.
End RateLimiter.

(** ** Goroutines

    A panic that reaches the top of a goroutine ends the process. *)
Inductive process := Running | Crashed (v : any).

Definition goroutine {W A} (m : P W A) : M W process := fun w =>
  match m w with
  | (Panicked v, w') => (Crashed v, w')
  | (_, w') => (Running, w')
  end.

Section Bulkhead.
Context {W T : Type} `{Has W bulkhead}.

(** [<-b.sem]. *)
Definition release_sem : M W unit := fun w => (tt, put (set_sem (sem (get w) - 1) (get w)) w).

(** [execute], in the caller's goroutine. *)
Definition Bulkhead_execute (c : ctx) (fn : PFn W T) : P W (result T) :=
  defer release_sem (let? r := fn c in pret r).

(** The goroutine that the worker starts for a queued request; [send] is the
    send to [resultCh]. *)
Definition worker_job (send : result T -> M W unit) (c : ctx) (fn : PFn W T) : P W unit :=
  defer release_sem (let? r := fn c in lift (send r)).

(** Where a panic goes depends on how full the bulkhead was.  The permit is
    given back in both cases; but the panic of a call that got a permit at once
    reaches its caller, who can recover it, and the panic of the same call when
    it was queued ends the process: no caller can prevent it, since the
    worker's goroutine recovers nothing. *)
Theorem bulkhead_panic send c (fn : PFn W T) v w w1 :
  fn c w = (Panicked v, w1) ->
  Bulkhead_execute c fn w = (Panicked v, (release_sem w1).2) /\
  goroutine (worker_job send c fn) w = (Crashed v, (release_sem w1).2) /\
  sem (get (release_sem w1).2) = sem (get w1) - 1 /\
  (forall l Stack, (goroutine (bulkhead_safeCallback l Stack (let? r := Bulkhead_execute c fn in pret tt)) w).1 = Running).
Proof.
  intros E. unfold Bulkhead_execute, worker_job, goroutine, bulkhead_safeCallback, recover, defer, pbind. rewrite E.
  cbn [fst snd]. split_and!; [done|done| |done]. unfold release_sem. cbn [snd]. by rewrite get_put.
Qed.
End Bulkhead.

Lemma bulkhead_panic_witness :
  let w := Sim 0 (Bulkhead.New {| QueueTimeout := 0; MaxConcurrent := 1; MaxQueue := 1 |}) in
  goroutine (worker_job (fun _ => ret tt) Background (fun _ => Panic (AnyString "boom") : P _ (result Z))) w =
    (Crashed (AnyString "boom"), (release_sem w).2).
Proof.
  intros w. apply (bulkhead_panic (H0 := sim_Has bulkhead) (T := Z) (fun _ => ret tt) Background
    (fun _ => Panic (AnyString "boom")) (AnyString "boom") w w). reflexivity.
Defined.

(** The attempts of a hedge run in goroutines as well: the panic of an
    attempt, even of one that has lost, ends the process. *)
Definition hedge_fire {W T} (send : result T -> M W unit) (hedgeCtx : ctx) (fn : PFn W T) : P W unit :=
  let? r := fn hedgeCtx in lift (send r).

Lemma hedge_panic {W T} send c (fn : PFn W T) v w w1 :
  fn c w = (Panicked v, w1) -> goroutine (hedge_fire send c fn) w = (Crashed v, w1).
Proof. intros E. unfold goroutine, hedge_fire, pbind. by rewrite E. Qed.

(** ** The budget: [Charge] runs under the mutex

    [windowMu] is unlocked by a plain call on each path of [executeWindowed],
    not by a deferred one.  A section under it is [critical]: it waits when
    the mutex is locked, and leaves it locked when it panics. *)
Section Budget.
Context {W T : Type} `{HW : World W} {HG : Has W (budget * bool)} (zero : T) (cfg : Budget.Config W T).
Context (ChargeFn : option (ctx -> T -> option error -> outcome Cost)).
#[local] Instance the_budget : Has W budget := Has_fst.
#[local] Instance windowMu : Has W bool := Has_snd.

Definition held (w : W) : bool := get w.

Definition critical {A} (m : P W A) : P W A := fun w =>
  if held w then (Blocked, w)
  else match m w with
       | (Panicked v, w') => (Panicked v, put true w')
       | r => r
       end.

(** [if b.cfg.Charge != nil { c := b.cfg.Charge(...)], and the additions. *)
Definition charged (c : ctx) (r : result T) : outcome (option Cost) :=
  match ChargeFn with
  | Some f =>
      match f c r.1 r.2 with
      | Returned k => Returned (Some k)
      | Panicked v => Panicked v
      | Blocked => Blocked
      end
  | None => Returned None
  end.

Definition add_cost (k : option Cost) : M W unit :=
  match k with Some k => Budget.update (charge_cost k) | None => ret tt end.

(** The first section: the refusal with the cost to report, or nothing. *)
Definition precharge : M W (option (error * (Cost * bool))) :=
  let! now := time_Now in
  Budget.update (autoResetLocked (ResetAfter cfg) now) ;;;
  let! b := read breached in
  if (b : bool) then let! s := read snapshot in ret (Some (exceededError (Max cfg) s, (zero_cost, false)))
  else
    Budget.update add_call ;;;
    let! n := read Budget.calls in
    if over_calls (Max cfg) n then
      let! m := markBreachLocked cfg in
      let! s := read snapshot in
      ret (Some (exceededError (Max cfg) s, m))
    else ret None.

(** The second: the cost so far, whether it is over, what to fire. *)
Definition account (k : option Cost) : M W (Cost * bool * (Cost * bool)) :=
  add_cost k ;;;
  let! consumed := read snapshot in
  if over (Max cfg) consumed
  then let! m := markBreachLocked cfg in ret (consumed, true, m)
  else ret (consumed, false, (zero_cost, false)).

Definition settle (c : ctx) (r : result T) : P W (Cost * bool * (Cost * bool)) :=
  let? k := ret (charged c r) in lift (account k).

Definition fire (m : Cost * bool) : M W unit := if m.2 then fireOnExceeded cfg m.1 else ret tt.

Definition Budget_executeWindowed (c : ctx) (fn : PFn W T) : P W (result T) :=
  let? refused := critical (lift precharge) in
  match refused with
  | Some (err, m) => let? _ := lift (fire m) in pret (zero, Some err)
  | None =>
      let? r := fn c in
      let? s := critical (settle c r) in
      let? _ := lift (fire s.2) in
      if (s.1.2 : bool) then pret (r.1, Some (exceededError (Max cfg) s.1.1)) else pret r
  end.

Definition Budget_executeLockFree (c : ctx) (fn : PFn W T) : P W (result T) :=
  let? b := lift (read breached) in
  if (b : bool) then let? s := lift (read snapshot) in pret (zero, Some (exceededError (Max cfg) s))
  else
    let? _ := lift (Budget.update add_call) in
    let? n := lift (read Budget.calls) in
    if over_calls (Max cfg) n then
      let? _ := lift (markBreach cfg) in
      let? s := lift (read snapshot) in pret (zero, Some (exceededError (Max cfg) s))
    else
      let? r := fn c in
      let? k := ret (charged c r) in
      let? _ := lift (add_cost k) in
      let? consumed := lift (read snapshot) in
      if over (Max cfg) consumed then
        let? _ := lift (markBreach cfg) in
        pret (r.1, Some (exceededError (Max cfg) consumed))
      else pret r.

Definition Budget_Execute (c : ctx) (fn : PFn W T) : P W (result T) :=
  if ResetAfter cfg >? 0 then Budget_executeWindowed c fn else Budget_executeLockFree c fn.

Definition Budget_Reset : P W unit :=
  let reset := lift (Budget.update (Budget.Reset (ResetAfter cfg))) in
  if ResetAfter cfg >? 0 then critical reset else reset.

Lemma update_held f w : held (Budget.update f w).2 = held w.
Proof. unfold held. cbn. by rewrite get_put. Qed.

Lemma markBreachLocked_held w : held (markBreachLocked cfg w).2 = held w.
Proof. unfold markBreachLocked, cas_breached, bind, held. cbn. destruct (_ && _); cbn; by rewrite get_put. Qed.

Lemma precharge_held w : held (precharge w).2 = held w.
Proof.
  unfold precharge, bind at 1 2, time_Now. cbn [fst snd].
  assert (E : held (Budget.update (autoResetLocked (ResetAfter cfg) (clock (tick w))) (tick w)).2 = held w)
    by (rewrite update_held; unfold held; cbn; by rewrite get_tick).
  rewrite <- E. set (w1 := (Budget.update _ (tick w)).2). unfold bind at 1, read at 1. cbn [fst snd].
  destruct (breached (get w1)); [done|]. unfold bind at 1 2, read at 1. cbn [fst snd].
  destruct (over_calls _ _); [|apply update_held]. unfold bind, ret. cbn [fst snd read].
  rewrite markBreachLocked_held. apply update_held.
Qed.

Lemma critical_blocked {A} (m : P W A) w : held w = true -> critical m w = (Blocked, w).
Proof. unfold critical. by intros ->. Qed.

Lemma critical_lift {A} (m : M W A) w : held w = false -> critical (lift m) w = lift m w.
Proof. unfold critical, lift. by intros ->. Qed.

Lemma account_held k w : held (account k w).2 = held w.
Proof.
  unfold account, bind, ret. cbn [fst snd read].
  assert (E : held (add_cost k w).2 = held w) by (destruct k; [apply update_held|done]).
  destruct (over _ _); cbn [snd]; by rewrite ?markBreachLocked_held.
Qed.

Lemma account_over k w : (account k w).1.1.2 = over (Max cfg) (account k w).1.1.1.
Proof. unfold account, bind, ret. cbn [fst snd read]. by destruct (over _ _) eqn:E; cbn [fst snd]. Qed.

Lemma fire_held m w : (forall f k, OnExceeded cfg = Some f -> leaves held (f k)) -> held (fire m w).2 = held w.
Proof.
  intros Q. unfold fire, fireOnExceeded. destruct (m.2), (OnExceeded cfg) as [f|]; try done. by apply Q.
Qed.

(** C23: A [Charge] that panics on the windowed path locks the budget for good.
    A call that finds the mutex free returns with it free, refused or not,
    and so does one whose function panics (the call is counted and nothing
    is charged); but when [Charge] panics the mutex stays locked, nothing
    having been charged, and with the mutex locked every call blocks before it
    has looked at the budget or run its function, and [Reset] blocks. *)
Theorem charge_panic_locks_budget c fn w :
  ResetAfter cfg > 0 -> held w = false ->
  (forall c, leaves held (fn c)) -> (forall f k, OnExceeded cfg = Some f -> leaves held (f k)) ->
  let '(o, w') := Budget_Execute c fn w in
  match (precharge w).1 with
  | Some (err, _) => o = Returned (zero, Some err) /\ held w' = false
  | None =>
      match fn c (precharge w).2 with
      | (Panicked v, w1) => o = Panicked v /\ w' = w1 /\ held w' = false
      | (Blocked, _) => o = Blocked
      | (Returned r, w1) =>
          match charged c r with
          | Panicked v => o = Panicked v /\ held w' = true /\ get (S := budget) w' = get w1
          | Returned k => held w' = false /\
              o = Returned (if over (Max cfg) (account k w1).1.1.1
                            then (r.1, Some (exceededError (Max cfg) (account k w1).1.1.1)) else r)
          | Blocked => o = Blocked
          end
      end
  end /\
  (forall c' fn' w'', held w'' = true ->
     Budget_Execute c' fn' w'' = (Blocked, w'') /\ Budget_Reset w'' = (Blocked, w'')).
Proof.
  intros RA Hw Qf Qe. unfold Budget_Execute, Budget_Reset. destruct (Z.gtb_spec (ResetAfter cfg) 0) as [_|]; [|lia].
  assert (B : forall c' fn' w'', held w'' = true ->
    Budget_executeWindowed c' fn' w'' = (Blocked, w'') /\
    critical (lift (Budget.update (Budget.Reset (ResetAfter cfg)))) w'' = (Blocked, w'')).
  { intros c' fn' w'' Hh. unfold Budget_executeWindowed, pbind. by rewrite !critical_blocked. }
  assert (F := precharge_held w). unfold Budget_executeWindowed. unfold pbind at 1. rewrite critical_lift by done.
  unfold lift at 1. destruct (precharge w) as [[[err m]|] w0]; cbn [fst snd] in *; rewrite Hw in F.
  { rewrite pbind_lift. unfold pret, ret. cbn [fst snd]. split; [split; [done|]|done]. by rewrite fire_held. }
  pose proof (Qf c w0) as L. unfold pbind at 1. destruct (fn c w0) as [[r|v|] w1]; cbn [fst snd] in *; rewrite F in L;
    [|by split|by split].
  unfold pbind at 1. unfold settle, critical. rewrite L. unfold pbind at 1. cbn.
  destruct (charged c r) as [k|v|].
  - assert (A := account_held k w1). assert (O := account_over k w1). rewrite L in A. unfold lift at 1.
    destruct (account k w1) as [[[consumed ov] m] w2]. cbn [fst snd] in *. subst ov.
    unfold pbind, lift, pret, ret. cbn [fst snd].
    destruct (over _ _); (split; [split; [exact (eq_trans (fire_held m w2 Qe) A)|done]|exact B]).
  - split; [|exact B]. cbn. unfold held. by rewrite !get_put.
  - by split.
Qed.
End Budget.

(** The windowed path as its two sections and what lies between. *)
Lemma windowed_sections {W T} `{HW : World W} {HG : Has W (budget * bool)} (zero : T) (cfg : Budget.Config W T) c fn w :
  Budget.executeWindowed (H0 := Has_fst) zero cfg c fn w =
  (let! refused := precharge cfg in
   match refused with
   | Some (err, m) => fire cfg m ;;; ret (zero, Some err)
   | None =>
       let! r := fn c in
       let! s := account cfg (match Charge cfg with Some f => Some (f c r.1 r.2) | None => None end) in
       fire cfg s.2 ;;;
       if s.1.2 then ret (r.1, Some (exceededError (Max cfg) s.1.1)) else ret r
   end) w.
Proof.
  unfold Budget.executeWindowed, precharge, account, fire, Budget.charge, bind, ret, read. cbn [fst snd].
  destruct (Budget.breached _); cbn [fst snd]; [done|].
  destruct (over_calls _ _); cbn [fst snd]; [done|].
  destruct (Charge cfg); cbn [fst snd add_cost]; unfold ret; cbn [fst snd]; destruct (over _ _); done.
Qed.

(** With a [Charge] that returns and the mutex free, this is [Budget.Execute]. *)
Lemma Budget_agrees {W T} `{HW : World W} {HG : Has W (budget * bool)} (zero : T) (cfg : Budget.Config W T) c fn w :
  held w = false -> (forall c, leaves held (fn c)) ->
  Budget_Execute zero cfg ((fun f c v e => Returned (f c v e)) <$> Charge cfg) c (lifted fn) w =
  lift (Budget.Execute (H0 := Has_fst) zero cfg c fn) w.
Proof.
  intros Hw Q. unfold Budget_Execute, Budget.Execute. destruct (ResetAfter cfg >? 0).
  - rewrite (lift_ext _ _ _ (windowed_sections zero cfg c fn w)), lift_bind.
    unfold Budget_executeWindowed, pbind at 1. rewrite critical_lift by done.
    assert (F := precharge_held cfg w). rewrite Hw in F. unfold lift at 1.
    destruct (precharge cfg w) as [[[err m]|] w0]; cbn [fst snd] in *; [done|].
    unfold lifted. rewrite pbind_lift, lift_bind. pose proof (Q c w0) as L. rewrite F in L.
    destruct (fn c w0) as [r w1]. cbn [fst snd] in *. rewrite lift_bind.
    set (k := match Charge cfg with Some f => Some (f c r.1 r.2) | None => None end).
    assert (E : settle cfg ((fun f c v e => Returned (f c v e)) <$> Charge cfg) c r = lift (account cfg k)).
    { unfold settle, charged, k. by destruct (Charge cfg). }
    unfold pbind at 1. rewrite E, critical_lift by done. unfold lift at 1.
    destruct (account cfg k w1) as [[[consumed o] m] w2]. cbn [fst snd]. rewrite pbind_lift, lift_bind. by destruct o.
  - unfold Budget_executeLockFree, Budget.executeLockFree. agree.
    unfold charged, Budget.charge. destruct (Charge cfg); cbn [fmap option_fmap option_map]; unfold pbind at 1, ret at 1; agree.
Qed.

Lemma charge_panic_locks_budget_witness :
  let cfg := {| Max := {| Errors.Tokens := 100; USDMicros := 0; Calls := 0 |}; Charge := None; OnExceeded := None;
                ResetAfter := Hour |} : Budget.Config (sim (budget * bool)) Z in
  let usage : option (ctx -> Z -> option error -> outcome Cost) := Some (fun _ _ _ => Panicked (AnyString "no usage")) in
  let fn : PFn (sim (budget * bool)) Z := fun _ => pret (1, None) in
  let w := (Budget_Execute 0 cfg usage Background fn (Sim 0 (Budget.fresh, false))).2 in
  held w = true /\ Budget_Execute 0 cfg usage Background fn w = (Blocked, w).
Proof.
  intros cfg usage fn w. pose proof (charge_panic_locks_budget (HG := sim_Has (budget * bool)) 0 cfg usage Background fn
    (Sim 0 (Budget.fresh, false)) eq_refl eq_refl (fun _ _ => eq_refl) (fun f k E => ltac:(discriminate E))) as X.
  assert (Hw : held w = true) by (vm_compute; reflexivity). split; [exact Hw|].
  destruct (Budget_Execute 0 cfg usage Background fn (Sim 0 (Budget.fresh, false))) as [o w']. apply X. exact Hw.
Defined.
