(* ===== verification/Predicates.v ===== *)
(** Predicates of a circuit breaker that panic ([circuitbreaker/breaker.go]).

    [safeCallback] guards [OnStateChange] only.  [IsSuccessful] runs after the
    protected function, without the lock; [ReadyToTrip] runs inside
    [afterRequest], under the lock that a deferred call releases.  Here both
    can panic ([Panic.outcome]); with predicates that return, the functions are
    those of [Breaker]. *)

From S2P Require Import Prelude Float64 Errors ErrorText Runtime Window Breaker BreakerSpec Panic.

#[local] Open Scope go_scope.

Section Predicates.
Context (trip : Counts -> outcome bool).

(** [onFailure]: what [ReadyToTrip] does, and the breaker it leaves. *)
Definition onFailure_P (st : State) (now : Z) (cb : breaker) : outcome unit * breaker :=
  match st, window cb with
  | StateClosed, None =>
      let cb := set_counts (Counts_onFailure (counts cb)) cb in
      match trip (counts cb) with
      | Returned true => (Returned tt, setState StateOpen now cb)
      | Returned false => (Returned tt, cb)
      | Panicked v => (Panicked v, cb)
      | Blocked => (Blocked, cb)
      end
  | _, _ => (Returned tt, onFailure st now cb)
  end.

(** [afterRequest]; the lock is released however it ends. *)
Definition afterRequest_P (gen : Z) (success : bool) (now : Z) (cb : breaker) : outcome unit * breaker :=
  let cb := currentState now cb in
  if negb (gen =? generation cb) then (Returned tt, cb)
  else if success then (Returned tt, onSuccess (state cb) now cb)
  else onFailure_P (state cb) now cb.

Section Execute.
Context {W T : Type} `{HW : World W} {HB : Has W breaker} (zero : T) (judge : option error -> outcome bool).

Definition after_M (gen : Z) (success : bool) : P W unit := locked (afterRequest_P gen success).

Definition finish_P (gen : Z) (r : result T) : P W (result T) :=
  let? success := ret (judge r.2) in
  let? _ := after_M gen success in
  pret r.

Definition Execute_P (c : ctx) (fn : PFn W T) : P W (result T) :=
  let? e := lift (err_of c) in
  match e with
  | Some err => pret (zero, Some err)
  | None =>
      let? admitted := lift fastAdmit_M in
      match admitted with
      | Some gen => let? r := fn c in finish_P gen r
      | None =>
          let? p := lift (locked beforeRequest) in
          match p with
          | (_, Some err) => pret (zero, Some err)
          | (gen, None) => let? r := fn c in finish_P gen r
          end
      end
  end.
End Execute.

(** With predicates that return, [afterRequest] is the one of [Breaker]. *)
Lemma afterRequest_agrees gen success now cb :
  (forall c, trip c = Returned (ready_to_trip (config cb) c)) ->
  afterRequest_P gen success now cb = (Returned tt, afterRequest gen success now cb).
Proof.
  intros A. unfold afterRequest_P, afterRequest. destruct (negb _); [done|]. destruct success; [done|].
  assert (K : config (currentState now cb) = config cb).
  { unfold currentState, setState, emitStateChange. repeat case_match; done. }
  set (b := currentState now cb) in *. unfold onFailure_P. destruct (state b) eqn:S, (window b) eqn:Wd; try done.
  unfold onFailure. cbn [window set_counts]. rewrite Wd, A. cbn [config set_counts]. rewrite K. by destruct (ready_to_trip _ _).
Qed.
End Predicates.

(** [IsSuccessful] panics: the outcome is not recorded, and the caller gets the
    panic instead of the result. *)
Lemma judge_panics {W T} `{HW : World W} {HB : Has W breaker} trip (judge : option error -> outcome bool) gen (r : result T) v w :
  judge r.2 = Panicked v -> finish_P trip judge gen r w = (Panicked v, w).
Proof. intros J. unfold finish_P, pbind, ret. by rewrite J. Qed.

(** One failure under a [ReadyToTrip] that panics. *)
Lemma trip_panics trip v now cb :
  (forall c, trip c = Panicked v) -> state cb = StateClosed -> window cb = None -> Interval (config cb) = 0 ->
  afterRequest_P trip (generation cb) false now cb = (Panicked v, set_counts (Counts_onFailure (counts cb)) cb).
Proof.
  intros A S Wd I. unfold afterRequest_P. assert (K : currentState now cb = cb) by (unfold currentState; by rewrite S, I).
  rewrite K, Z.eqb_refl. cbn [negb]. unfold onFailure_P. by rewrite S, Wd, A.
Qed.

(** A [ReadyToTrip] that panics keeps a breaker closed whatever fails.  Every
    failure is counted and ends in the panic, with the lock released: the next
    request is admitted, and however many failures there are, at whatever times,
    the breaker is still closed, in the same generation. *)
Theorem panicking_predicate_never_trips trip v cb times :
  (forall c, trip c = Panicked v) -> state cb = StateClosed -> window cb = None -> Interval (config cb) = 0 ->
  let after cb now := (afterRequest_P trip (generation cb) false now cb).2 in
  let cb' := foldl after cb times in
  cb' = set_counts (Nat.iter (length times) Counts_onFailure (counts cb)) cb /\
  (forall now, beforeRequest now cb' = ((generation cb, None), cb')).
Proof.
  intros A S Wd I after cb'.
  assert (E : cb' = set_counts (Nat.iter (length times) Counts_onFailure (counts cb)) cb).
  { unfold cb'. clear cb'. induction times as [|t times IH] using rev_ind; [by destruct cb|].
    rewrite foldl_app, length_app, Nat.add_1_r. cbn [foldl]. rewrite IH. unfold after. cbn [generation set_counts].
    set (b := set_counts _ cb). change (generation cb) with (generation b). rewrite (trip_panics trip v) by done. done. }
  split; [exact E|]. intros now. rewrite E. set (b := set_counts _ cb).
  assert (K : currentState now b = b) by (unfold currentState; cbn; by rewrite S, I).
  unfold beforeRequest. rewrite K. cbn [state generation set_counts b]. by rewrite S.
Qed.

Lemma panicking_predicate_never_trips_witness :
  let v := AnyString "nil metrics" in
  let cb := Breaker.New (example_config 1) 0 [] in
  let cb' := foldl (fun cb now => (afterRequest_P (fun _ => Panicked v) (generation cb) false now cb).2) cb [1; 2; 3] in
  TotalFailures (counts cb') = 3 /\ state cb' = StateClosed /\ beforeRequest 4 cb' = ((0, None), cb').
Proof.
  intros v cb cb'. split; [vm_compute; reflexivity|].
  destruct (panicking_predicate_never_trips (fun _ => Panicked v) v cb [1; 2; 3] (fun _ => eq_refl) eq_refl eq_refl eq_refl) as [E B].
  split; [unfold cb'; rewrite E; reflexivity|apply B].
Defined.
