(* ===== verification/Guard.v ===== *)
(** What the adapters rely on of a pattern's [Execute]: the interface between
    the HTTP and gRPC middleware and the patterns they wrap.

    [view] is the part of the world the adapter cares about (what was sent, its
    recorders); the pattern's own state is not in it.  A [Guard] either
    refuses a call, for a reason that is a function of the context and the
    world (the end of the context, or an open circuit), or runs the function once, under the caller's context, and
    returns its result; a [Deadline] runs the function once, under a derived
    context, and returns its result or an error of its own. *)

From S2P Require Import Prelude Errors Runtime Breaker BreakerSpec Timeout.

#[local] Open Scope go_scope.

Class Guard {W T V : Type} `{World W} (zero : T) (view : W -> V) (exec : ctx -> Fn W T -> M W (result T)) := {
  rejects : ctx -> W -> option error;
  guard_law : forall c fn w, exists w1, view w1 = view w /\
    match rejects c w with
    | Some e => exec c fn w = ((zero, Some e), w1)
    | None => (exec c fn w).1 = (fn c w1).1 /\ view (exec c fn w).2 = view (fn c w1).2
    end;
  guard_reason : forall c w e, rejects c w = Some e ->
    (exists t, ctx_Err c t = Some e) \/ exists x, e = ECircuitOpen x
}.

Class Deadline {W T V : Type} `{World W} (zero : T) (view : W -> V)
    (exec : ctx -> Z -> Fn W T -> M W (result T)) := {
  deadline_law : forall c d fn w, exists c' w1, view w1 = view w /\
    view (exec c d fn w).2 = view (fn c' w1).2 /\
    ((exec c d fn w).1 = (fn c' w1).1 \/
     exists e, (exec c d fn w).1 = (zero, Some e) /\
       ((exists t, e = ETimeout t) \/ exists t, ctx_Err c t = Some e))
}.

Arguments rejects {W T V _ zero view exec _}.

(** ** The circuit breaker is a guard *)

Section Breaker.
Context {W T V : Type} {WW : World W} {HB : Has W breaker} (zero : T) (view : W -> V).
Context (view_put : forall (b : breaker) w, view (put b w) = view w) (view_tick : forall w, view (tick w) = view w).

(** The error of a call that is not admitted. *)
Definition breaker_rejects (c : ctx) (w : W) : option error :=
  match ctx_Err c (clock (tick w)) with
  | Some e => Some e
  | None =>
      match fastAdmit (clock (tick (tick w))) (get w) with
      | Some _ => None
      | None => (beforeRequest (clock (tick (tick (tick w)))) (get w)).1.2
      end
  end.

Lemma execute_run c fn w :
  Breaker.Execute zero c fn w =
    match ctx_Err c (clock (tick w)) with
    | Some e => ((zero, Some e), tick w)
    | None =>
        match fastAdmit (clock (tick (tick w))) (get w) with
        | Some gen => let r := fn c (tick (tick w)) in finish gen r.1 r.2
        | None =>
            let b := beforeRequest (clock (tick (tick (tick w)))) (get w) in
            let w1 := put b.2 (tick (tick (tick w))) in
            match b.1 with
            | (_, Some err) => ((zero, Some err), w1)
            | (gen, None) => let r := fn c w1 in finish gen r.1 r.2
            end
        end
    end.
Proof.
  unfold Breaker.Execute, bind at 1 2, err_of. cbn [fst snd].
  destruct (ctx_Err c (clock (tick w))) as [e|]; [done|].
  rewrite fastAdmit_M_run. cbn [fst snd]. rewrite get_tick.
  destruct (fastAdmit _ (get w)) as [gen|]; [done|].
  unfold bind at 1, locked at 1 2. cbn [fst snd]. rewrite !get_tick.
  by destruct (beforeRequest _ _) as [[gen [e|]] cb].
Qed.

Lemma finish_run gen (r : result T) w : (finish gen r w).1 = r /\ view (finish gen r w).2 = view w.
Proof. unfold finish, bind, isSuccessful_M, locked, ret. cbn. by rewrite view_put, view_tick. Qed.

#[export, refine] Instance breaker_guard : Guard zero view (Breaker.Execute zero) := {|
  rejects := breaker_rejects
|}.
Proof.
  { intros c fn w.
    unfold breaker_rejects. rewrite execute_run. destruct (ctx_Err c (clock (tick w))) as [e|]; [exists (tick w); by split|].
    destruct (fastAdmit _ (get w)) as [gen|].
    - exists (tick (tick w)). rewrite !view_tick. split; [done|]. apply finish_run.
    - exists (put (beforeRequest (clock (tick (tick (tick w)))) (get w)).2 (tick (tick (tick w)))).
      split; [by rewrite view_put, !view_tick|].
      destruct (beforeRequest _ _) as [[gen [e|]] cb]; cbn [fst snd]; [done|]. apply finish_run. }
  intros c w e. unfold breaker_rejects. destruct (ctx_Err c (clock (tick w))) as [p|] eqn:P.
  - intros [= <-]. left. by eexists.
  - destruct (fastAdmit _ _); [done|]. unfold beforeRequest.
    destruct (bool_decide _); [intros [= <-]; right; by eexists|].
    destruct (_ && _); [intros [= <-]; right; by eexists|done].
Defined.
End Breaker.

(** ** The timeout is a deadline *)

Section Timeout.
Context {W T V : Type} {WW : World W} (zero : T) (view : W -> V) (cfg : Timeout.Config W).
Context (view_tick : forall w, view (tick w) = view w) (view_callback : leaves view (callOnTimeout cfg)).

#[export] Instance timeout_deadline : Deadline zero view (Timeout.Execute zero cfg).
Proof.
  constructor. intros c d fn w. unfold Timeout.Execute, bind, time_Now, err_of, ret. cbn [fst snd].
  set (c' := WithTimeout _ _ _). exists c', (tick w). split; [apply view_tick|].
  destruct (fn c' (tick w)) as [r w1]. cbn [fst snd].
  destruct (ctx_Err c' (clock (tick w1))) as [e|] eqn:E; cbn [fst snd]; [|split; [apply view_tick|by left]].
  destruct (ctx_Err c (clock (tick (tick w1)))) as [p|] eqn:P; cbn [fst snd].
  { rewrite !view_tick. split; [done|]. right. exists p. split; [done|]. right. by eexists. }
  destruct (same e DeadlineExceeded) eqn:S; cbn [fst snd].
  - rewrite view_callback, !view_tick. split; [done|]. right. eexists. split; [done|]. left. by eexists.
  - exfalso. assert (P1 : ctx_Err c (clock (tick w1)) = None).
    { destruct (ctx_Err c (clock (tick w1))) as [p|] eqn:P1; [|done].
      by rewrite (ctx_Err_mono c _ _ _ (clock_tick (tick w1)) P1) in P. }
    unfold c' in E. rewrite (WithTimeout_own c _ _ _ P1) in E. zcases_in E; try done; by injection E as <-.
Qed.
End Timeout.
