(* ===== verification/Http.v ===== *)
(** HTTP middleware ([http/middleware.go]): the response recorder and the
    wrappers [CircuitBreaker], [RateLimit] and [Timeout].

    A [ResponseWriter] is a record of operations.  [LawfulWriter] is what is
    relied on of the server's: it keeps a log of the calls it received.  The
    recorders live in a heap in the world, one per request and wrapper.  A
    handler is any computation whose effect on its recorder and on the wire
    is a sequence of the recorder's methods ([handler_step]); goroutines of
    a handler that outlive it are left out. *)

From S2P Require Import Prelude Errors Runtime Utf8 HttpKeys Breaker BreakerSpec Timeout Guard.

#[local] Open Scope go_scope.

(** ** [net/http] *)

Definition StatusOK : Z := 200.
Definition StatusTooManyRequests : Z := 429.
Definition StatusInternalServerError : Z := 500.
Definition StatusServiceUnavailable : Z := 503.
Definition StatusGatewayTimeout : Z := 504.

(** A call the server's writer received. *)
Inductive event := EHeader (code : Z) | EWrite (body : string) | EFlush.

(** [Flush], [Hijack] and [Push] are the optional interfaces. *)
Record ResponseWriter (W : Type) := {
  WriteHeader : Z -> M W unit;
  Write : string -> M W (Z * option error);
  Flush : option (M W unit);
  Hijack : option (M W (option error));
  Push : option (string -> M W (option error))
}.

Arguments WriteHeader {W}.
Arguments Write {W}.
Arguments Flush {W}.
Arguments Hijack {W}.
Arguments Push {W}.

Record Request := { r_ctx : ctx; RemoteAddr : string; r_header : Header }.

Definition WithContext (r : Request) (c : ctx) : Request :=
  {| r_ctx := c; RemoteAddr := RemoteAddr r; r_header := r_header r |}.

Definition Handler (W : Type) : Type := ResponseWriter W -> Request -> M W unit.

Definition newline : string := String (Ascii.ascii_of_nat 10) EmptyString.

(** [http.Error]. *)
Definition http_Error {W} (w : ResponseWriter W) (error : string) (code : Z) : M W unit :=
  WriteHeader w code ;;;
  Write w (error +:+ newline) ;;;
  ret tt.

(** The status the client of the server gets: informational headers are not
    final, and a body or a flush sends 200. *)
Fixpoint client_status (l : list event) : Z :=
  match l with
  | [] => StatusOK
  | EHeader c :: l => if (c <? 200) && negb (c =? 101) then client_status l else c
  | _ :: _ => StatusOK
  end.

(** ** [responseRecorder] *)

Record recorder := { statusCode : Z; written : bool }.

Section Recorder.
Context {W : Type} `{Has W (list recorder)}.

(** [&responseRecorder{ResponseWriter: w, statusCode: http.StatusOK}]. *)
Definition new_recorder : M W nat := fun w =>
  (length (get w), put (get w ++ [{| statusCode := StatusOK; written := false |}]) w).

Definition load (i : nat) : M W recorder := fun w =>
  (default {| statusCode := StatusOK; written := false |} (get w !! i), w).

Definition store (i : nat) (r : recorder) : M W unit := fun w => (tt, put (<[i := r]> (get w)) w).

Definition rec_WriteHeader (i : nat) (under : ResponseWriter W) (code : Z) : M W unit :=
  let! r := load i in
  if negb (written r) then
    store i {| statusCode := code; written := true |} ;;;
    WriteHeader under code
  else ret tt.

Definition rec_Write (i : nat) (under : ResponseWriter W) (b : string) : M W (Z * option error) :=
  let! r := load i in
  (if negb (written r) then
     store i {| statusCode := StatusOK; written := true |} ;;;
     WriteHeader under StatusOK
   else ret tt) ;;;
  Write under b.

Definition rec_Flush (under : ResponseWriter W) : M W unit :=
  match Flush under with Some f => f | None => ret tt end.

Definition rec_Hijack (under : ResponseWriter W) : M W (option error) :=
  match Hijack under with
  | Some h => h
  | None => ret (Some (ESentinel (ErrNew "http.ErrNotSupported")))
  end.

Definition responseRecorder (i : nat) (under : ResponseWriter W) : ResponseWriter W := {|
  WriteHeader := rec_WriteHeader i under;
  Write := rec_Write i under;
  Flush := Some (rec_Flush under);
  Hijack := Some (rec_Hijack under);
  Push := None
|}.

(** ** The middleware *)

Definition Executor : Type := ctx -> Fn W (option Z) -> M W (result (option Z)).

(** The function protected by the breaker; the response is its status. *)
Definition served (i : nat) (next : Handler W) (w : ResponseWriter W) (r : Request) : Fn W (option Z) := fun c =>
  next (responseRecorder i w) (WithContext r c) ;;;
  let! rec := load i in
  ret (if statusCode rec >=? 500 then (Some (statusCode rec), Some (ESentinel ErrCircuitOpen))
       else (Some (statusCode rec), None)).

Definition CircuitBreaker (cb : Executor) (next : Handler W) : Handler W := fun w r =>
  let! i := new_recorder in
  let! res := cb (r_ctx r) (served i next w r) in
  match res.2 with
  | None => ret tt
  | Some _ =>
      let! rec := load i in
      if negb (written rec) then http_Error w "Service Unavailable" StatusServiceUnavailable else ret tt
  end.

(** [Allow] of the rate limiter. *)
Definition RateLimit (allow : ctx -> string -> M W bool) (keyExtractor : Request -> string) (next : Handler W) :
    Handler W := fun w r =>
  let! ok := allow (r_ctx r) (keyExtractor r) in
  if negb ok then http_Error w "Too Many Requests" StatusTooManyRequests else next w r.

(** The function under the timeout. *)
Definition timed (i : nat) (next : Handler W) (w : ResponseWriter W) (r : Request) : Fn W (option Z) := fun c =>
  next (responseRecorder i w) (WithContext r c) ;;;
  let! e := err_of c in
  match e with
  | Some _ => let! e := err_of c in ret (None, e)
  | None => let! rec := load i in ret (Some (statusCode rec), None)
  end.

Definition Timeout (tm : ctx -> Z -> Fn W (option Z) -> M W (result (option Z))) (duration : Z) (next : Handler W) :
    Handler W := fun w r =>
  let! i := new_recorder in
  let! res := tm (r_ctx r) duration (timed i next w r) in
  match res.2 with
  | None => ret tt
  | Some _ =>
      let! rec := load i in
      if negb (written rec) || (statusCode rec =? StatusOK) then
        rec_WriteHeader i w StatusGatewayTimeout ;;;
        rec_Write i w "Gateway Timeout" ;;;
        ret tt
      else ret tt
  end.

End Recorder.

(** ** What is relied on of the server's writer

    [R] is the type of the wrappers' writers that live in the heap. *)

Class LawfulWriter {W R : Type} `{Has W (list R)} (rw : ResponseWriter W) := {
  sent : W -> list event;
  sent_tick : forall w, sent (tick w) = sent w;
  sent_put : forall h w, sent (put (h : list R) w) = sent w;
  sent_WriteHeader : forall c w, sent (WriteHeader rw c w).2 = sent w ++ [EHeader c];
  heap_WriteHeader : forall c w, get (WriteHeader rw c w).2 = get w;
  sent_Write : forall b w, sent (Write rw b w).2 = sent w ++ [EWrite b];
  heap_Write : forall b w, get (Write rw b w).2 = get w;
  sent_Flush : forall f w, Flush rw = Some f -> sent (f w).2 = sent w ++ [EFlush];
  heap_Flush : forall f w, Flush rw = Some f -> get (f w).2 = get w
}.

(** A reply on the server's own writer. *)
Lemma http_Error_sent {W R : Type} {WW : World W} {HH : Has W (list R)} (rw : ResponseWriter W) {LW : LawfulWriter rw}
    msg code w : sent (http_Error rw msg code w).2 = sent w ++ [EHeader code; EWrite (msg +:+ newline)].
Proof. unfold http_Error, bind, ret. cbn [fst snd]. by rewrite sent_Write, sent_WriteHeader, <- app_assoc. Qed.

(** ** The wire protocol

    What every wrapping writer promises: a pure transition system over what
    was sent and the recorder.  A header is sent at most once, before any body,
    and is recorded; a flush is forwarded without being recorded. *)

Section Wire.
Definition is_flush (e : event) : bool := match e with EFlush => true | _ => false end.

Definition fresh : recorder := {| statusCode := StatusOK; written := false |}.

Inductive wire_step : list event * recorder -> list event * recorder -> Prop :=
| wire_header l r c : written r = false ->
    wire_step (l, r) (l ++ [EHeader c], {| statusCode := c; written := true |})
| wire_body l r b : written r = true -> wire_step (l, r) (l ++ [EWrite b], r)
| wire_flush l r : wire_step (l, r) (l ++ [EFlush], r).

(** The status codes sent. *)
Fixpoint headers (l : list event) : list Z :=
  match l with
  | [] => []
  | EHeader c :: l => c :: headers l
  | _ :: l => headers l
  end.

Lemma headers_app l k : headers (l ++ k) = headers l ++ headers k.
Proof. induction l as [|[] l IH]; cbn; by rewrite ?IH. Qed.

(** What a recorder that was fresh knows of what was sent since. *)
Record records (tr : list event) (r : recorder) : Prop := {
  rs_headers : headers tr = if written r then [statusCode r] else [];
  rs_silent : written r = false -> r = fresh /\ forallb is_flush tr = true
}.

Lemma wire_records_step l0 tr r s :
  records tr r -> wire_step (l0 ++ tr, r) s -> exists tr', s.1 = l0 ++ tr ++ tr' /\ records (tr ++ tr') s.2.
Proof.
  intros R S. inversion S as [l r0 c Wr|l r0 b Wr|l r0]; subst; cbn [fst snd].
  - exists [EHeader c]. rewrite <- app_assoc. split; [done|]. split; [|done].
    by rewrite headers_app, (rs_headers _ _ R), Wr.
  - exists [EWrite b]. rewrite <- app_assoc. split; [done|]. split; [|by rewrite Wr].
    rewrite headers_app, (rs_headers _ _ R). cbn. by rewrite app_nil_r.
  - exists [EFlush]. rewrite <- app_assoc. split; [done|].
    split; [rewrite headers_app, (rs_headers _ _ R); cbn; by rewrite app_nil_r|].
    intros Wr. destruct (rs_silent _ _ R Wr) as [-> Fl]. split; [done|]. by rewrite forallb_app, Fl.
Qed.

(** The protocol's invariant. *)
Lemma wire_records l0 s : rtc wire_step (l0, fresh) s -> exists tr, s.1 = l0 ++ tr /\ records tr s.2.
Proof.
  intros S. enough (X : forall s0 tr, records tr s0.2 -> s0.1 = l0 ++ tr -> rtc wire_step s0 s ->
                         exists tr', s.1 = l0 ++ tr' /\ records tr' s.2).
  { apply (X (l0, fresh) []); [by split|by rewrite app_nil_r|done]. }
  clear S. intros s0 tr R E S. revert tr R E.
  induction S as [s|s1 s2 s3 S1 S2 IH]; intros tr R E; [by exists tr|].
  destruct s1 as [l r]. cbn in E, R. subst l. destruct (wire_records_step _ _ _ _ R S1) as (tr' & E2 & R2).
  by apply (IH _ R2).
Qed.

(** If a header that is not informational is sent first, or nothing, the
    recorded status is the client's. *)
Lemma recorded_status tr r :
  records tr r -> match tr with [] => True | EHeader c :: _ => 200 <= c | _ => False end ->
  statusCode r = client_status tr.
Proof.
  intros [Hh Hs] F. destruct tr as [|[c| |] tr]; try done.
  - cbn in Hh. destruct (written r) eqn:Wr; [done|]. by destruct (Hs eq_refl) as [-> _].
  - cbn in Hh |- *. destruct (written r); [|done]. injection Hh as ->. destruct (Z.ltb_spec (statusCode r) 200); [lia|done].
Qed.
End Wire.

Section Trace.
Context {W : Type} {WW : World W} {HH : Has W (list recorder)} (rw : ResponseWriter W) {LW : LawfulWriter rw}.

(** The effect of a method of recorder [i], or of anything that touches neither
    the recorder nor the wire. *)
Inductive handler_step (i : nat) : W -> W -> Prop :=
| hs_other w w' : sent w' = sent w -> get w' !! i = get w !! i -> handler_step i w w'
| hs_WriteHeader c w : handler_step i w (rec_WriteHeader i rw c w).2
| hs_Write b w : handler_step i w (rec_Write i rw b w).2
| hs_Flush w : handler_step i w (rec_Flush rw w).2.

(** A handler uses its writer through its methods only. *)
Definition uses_writer (next : Handler W) : Prop :=
  forall i r w, rtc (handler_step i) w (next (responseRecorder i rw) r w).2.

(** The methods of the recorder follow the wire protocol. *)
Definition on_wire (i : nat) (w : W) (s : list event * recorder) : Prop := sent w = s.1 /\ get w !! i = Some s.2.

Lemma recorder_refines_wire i w w' s :
  handler_step i w w' -> on_wire i w s -> exists s', on_wire i w' s' /\ rtc wire_step s s'.
Proof.
  destruct s as [l r]. intros S [E G]. cbn in E, G. destruct S as [w w' E1 E2|c w|b w|w].
  - exists (l, r). split; [|done]. split; [by rewrite E1|by rewrite E2].
  - unfold rec_WriteHeader, bind, load. rewrite G. cbn [default from_option id fst snd].
    destruct (written r) eqn:Wr; cbn [negb]; [by exists (l, r)|].
    eexists (_, _). split; [|by apply rtc_once, wire_header]. split; cbn [fst snd store].
    + by rewrite sent_WriteHeader, sent_put, E.
    + rewrite heap_WriteHeader, get_put. apply list_lookup_insert_eq. by eapply lookup_lt_Some.
  - unfold rec_Write, bind, load. rewrite G. cbn [default from_option id fst snd].
    destruct (written r) eqn:Wr; cbn [negb ret fst snd].
    + exists (l ++ [EWrite b], r). split; [|by apply rtc_once, wire_body]. split; cbn [fst snd].
      * by rewrite sent_Write, E.
      * by rewrite heap_Write.
    + exists ((l ++ [EHeader StatusOK]) ++ [EWrite b], {| statusCode := StatusOK; written := true |}).
      split; [|eapply rtc_l; [by apply wire_header|by apply rtc_once, wire_body]]. split; cbn [fst snd store].
      * by rewrite sent_Write, sent_WriteHeader, sent_put, E.
      * rewrite heap_Write, heap_WriteHeader, get_put. apply list_lookup_insert_eq. by eapply lookup_lt_Some.
  - unfold rec_Flush. destruct (Flush rw) as [f|] eqn:F; [|by exists (l, r)].
    exists (l ++ [EFlush], r). split; [|apply rtc_once, wire_flush]. split; cbn [fst snd].
    + by rewrite (sent_Flush _ _ F), E.
    + by rewrite (heap_Flush _ _ F).
Qed.

(** What a handler sent, and what its recorder knows of it. *)
Lemma handler_records i w w' :
  rtc (handler_step i) w w' -> get w !! i = Some fresh ->
  exists r tr, get w' !! i = Some r /\ sent w' = sent w ++ tr /\ records tr r.
Proof.
  intros S G. enough (exists s', on_wire i w' s' /\ rtc wire_step (sent w, fresh) s') as (s & [E G'] & R).
  { destruct (wire_records _ _ R) as (tr & E2 & X). exists s.2, tr. by rewrite E. }
  eapply rtc_simulates; [by apply recorder_refines_wire|exact S|by split].
Qed.
End Trace.

(** ** The wrappers *)

Section Middleware.
Context {W : Type} {WW : World W} {HH : Has W (list recorder)} (rw : ResponseWriter W) {LW : LawfulWriter rw}.

(** What the wrappers see of the world. *)
Definition view (w : W) : list event * list recorder := (sent w, get w).

Lemma view_eq w w' : view w = view w' <-> sent w = sent w' /\ get w = get w'.
Proof. unfold view. split; [by intros [= -> ->]|by intros [-> ->]]. Qed.

(** The world in which a wrapped handler starts. *)
Definition starts (w w1 : W) : Prop := sent w1 = sent w /\ get w1 = get w ++ [fresh].

Lemma new_recorder_starts w : (new_recorder w).1 = length (get w) /\ starts w (new_recorder w).2.
Proof. unfold new_recorder, starts. cbn. by rewrite get_put, sent_put. Qed.

Lemma starts_view w w1 w2 : view w2 = view w1 -> starts w w1 -> starts w w2.
Proof. unfold starts. intros [-> ->]%view_eq. done. Qed.

Lemma handler_run next r w w1 :
  uses_writer rw next -> starts w w1 ->
  let w2 := (next (responseRecorder (length (get w)) rw) r w1).2 in
  exists rec tr, get w2 !! length (get w) = Some rec /\ sent w2 = sent w ++ tr /\ records tr rec.
Proof.
  intros U [S H]. destruct (handler_records rw _ _ _ (U (length (get w)) r w1)) as (rec & tr & X).
  - rewrite H. apply list_lookup_middle. done.
  - rewrite S in X. by exists rec, tr.
Qed.

(** C15: The HTTP circuit breaker, around any handler and any breaker that keeps
    the contract.  A call the breaker refuses is answered with exactly one
    503 and the handler does not run.  Otherwise the client gets what
    the handler sent and nothing else, at most one header was sent through
    the recorder, and the outcome the breaker records is a failure exactly
    when the recorded status is 500 or more. *)
Theorem http_breaker_spec cb {G : Guard None view cb} next r w :
  uses_writer rw next ->
  let i := length (get w) in
  let w' := (CircuitBreaker cb next rw r w).2 in
  match rejects (r_ctx r) (new_recorder w).2 with
  | Some _ => sent w' = sent w ++ [EHeader StatusServiceUnavailable; EWrite ("Service Unavailable" +:+ newline)]
  | None =>
      exists w1 rec tr, starts w w1 /\
        sent (next (responseRecorder i rw) (WithContext r (r_ctx r)) w1).2 = sent w ++ tr /\
        sent w' = sent w ++ tr /\ records tr rec /\ (length (headers tr) <= 1)%nat /\
        (served i next rw r (r_ctx r) w1).1 =
          (Some (statusCode rec), if statusCode rec >=? 500 then Some (ESentinel ErrCircuitOpen) else None)
  end.
Proof.
  intros U i w'. destruct (new_recorder_starts w) as [_ St]. set (w0 := (new_recorder w).2) in *.
  assert (Run : let res := cb (r_ctx r) (served i next rw r) w0 in
            w' = (match res.1.2 with
                  | None => ret tt
                  | Some _ => let! rec := load i in
                      if negb (written rec) then http_Error rw "Service Unavailable" StatusServiceUnavailable else ret tt
                  end res.2).2) by reflexivity.
  cbv zeta in Run. rewrite Run. clear Run. clearbody w0.
  destruct (guard_law (r_ctx r) (served i next rw r) w0) as (w1 & V & L).
  apply (starts_view _ _ _ V) in St as S1.
  destruct (rejects (r_ctx r) w0) as [e|].
  - rewrite L. cbn [fst snd]. unfold bind, load. cbn [fst snd]. destruct S1 as [E1 H1]. rewrite H1.
    unfold i. rewrite list_lookup_middle by done. cbn [default from_option id written negb fresh].
    by rewrite http_Error_sent, E1.
  - destruct L as [L1 L2]. apply view_eq in L2 as [L2 L3].
    destruct (handler_run next (WithContext r (r_ctx r)) w w1 U S1) as (rec & tr & Gr & Sr & Rr). fold i in Gr, Sr.
    assert (X : served i next rw r (r_ctx r) w1 =
      ((Some (statusCode rec), if statusCode rec >=? 500 then Some (ESentinel ErrCircuitOpen) else None),
       (next (responseRecorder i rw) (WithContext r (r_ctx r)) w1).2)).
    { unfold served, bind, load, ret. cbn [fst snd]. rewrite Gr. cbn. by destruct (statusCode rec >=? 500). }
    exists w1, rec, tr. split; [done|]. split; [done|]. split; [|split; [done|split; [|by rewrite X]]].
    + rewrite L1, X. cbn [fst snd]. rewrite X in L2, L3. cbn [snd] in L2, L3. destruct (Z.geb_spec (statusCode rec) 500); cbn.
      * unfold bind, load. cbn [fst snd]. rewrite L3, Gr. cbn. destruct (written rec) eqn:Wr; cbn; [by rewrite L2|].
        destruct (rs_silent _ _ Rr Wr) as [-> _]. cbn in *. unfold StatusOK in *. lia.
      * by rewrite L2.
    + rewrite (rs_headers _ _ Rr). destruct (written rec); cbn; lia.
Qed.

(** The HTTP timeout, around any handler.  The handler runs once; when the
    timeout returns no error the client gets what the handler sent; when it
    returns one, a 504 is sent if the handler sent no header, nothing is
    added to a response with another status than 200, and "Gateway Timeout" is
    appended to the body of a response that was already sent as 200. *)
Theorem http_timeout_spec tm {D : Deadline None view tm} d next r w :
  uses_writer rw next ->
  let i := length (get w) in
  let w' := (Timeout tm d next rw r w).2 in
  exists c1 w1 rec tr, starts w w1 /\ records tr rec /\
    sent (next (responseRecorder i rw) (WithContext r c1) w1).2 = sent w ++ tr /\
    sent w' = sent w ++ tr ++
      match (tm (r_ctx r) d (timed i next rw r) (new_recorder w).2).1.2 with
      | None => []
      | Some _ =>
          if negb (written rec) then [EHeader StatusGatewayTimeout; EWrite "Gateway Timeout"]
          else if statusCode rec =? StatusOK then [EWrite "Gateway Timeout"] else []
      end.
Proof.
  intros U i w'. destruct (new_recorder_starts w) as [_ St]. set (w0 := (new_recorder w).2) in *.
  assert (Run : let res := tm (r_ctx r) d (timed i next rw r) w0 in
            w' = (match res.1.2 with
                  | None => ret tt
                  | Some _ => let! rec := load i in
                      if negb (written rec) || (statusCode rec =? StatusOK)
                      then rec_WriteHeader i rw StatusGatewayTimeout ;;; rec_Write i rw "Gateway Timeout" ;;; ret tt
                      else ret tt
                  end res.2).2) by reflexivity.
  cbv zeta in Run. rewrite Run. clear Run. clearbody w0.
  destruct (deadline_law (r_ctx r) d (timed i next rw r) w0) as (c1 & w1 & V & L & _).
  apply (starts_view _ _ _ V) in St as S1. apply view_eq in L as [L2 L3].
  destruct (handler_run next (WithContext r c1) w w1 U S1) as (rec & tr & Gr & Sr & Rr). fold i in Gr, Sr.
  assert (X : view (timed i next rw r c1 w1).2 = view (next (responseRecorder i rw) (WithContext r c1) w1).2).
  { unfold timed, bind, err_of, load, ret. cbn [fst snd]. set (w2 := (next _ _ _).2).
    apply view_eq. destruct (ctx_Err _ _); cbn [fst snd]; by rewrite ?sent_tick, ?get_tick. }
  apply view_eq in X as [X2 X3]. rewrite X2 in L2. rewrite X3 in L3.
  exists c1, w1, rec, tr. split; [done|]. split; [done|]. split; [done|].
  set (x := tm (r_ctx r) d (timed i next rw r) w0) in *. clearbody x. rewrite Sr in L2.
  destruct x.1.2 as [e|]; [|rewrite app_nil_r; exact L2].
  unfold bind at 1, load. cbn [fst snd]. rewrite L3, Gr. cbn [default from_option id].
  destruct (written rec) eqn:Wr; cbn [negb orb].
  - destruct (statusCode rec =? StatusOK); [|rewrite app_nil_r; exact L2].
    unfold rec_WriteHeader, rec_Write, bind, load, ret. cbn [fst snd]. rewrite L3, Gr. cbn [default from_option id].
    rewrite Wr. cbn [negb fst snd]. rewrite L3, Gr. cbn [default from_option id]. rewrite Wr. cbn [negb fst snd].
    rewrite sent_Write, L2. by rewrite <- app_assoc.
  - unfold rec_WriteHeader, rec_Write, bind, load, ret. cbn [fst snd]. rewrite L3, Gr. cbn [default from_option id].
    rewrite Wr. cbn [negb fst snd]. rewrite heap_WriteHeader. unfold store. cbn [fst snd]. rewrite !get_put.
    rewrite list_lookup_insert_eq by (rewrite L3; by eapply lookup_lt_Some). cbn [default from_option id written negb fst snd].
    rewrite sent_Write, sent_WriteHeader, sent_put, L2. by rewrite <- !app_assoc.
Qed.
End Middleware.

(** ** A concrete server

    A server whose world has the log of the calls it received. *)

Section Server.
Context {W : Type} `{Has W (list event)}.

Definition append (e : event) : M W unit := fun w => (tt, put (get w ++ [e]) w).

Definition server : ResponseWriter W := {|
  WriteHeader c := append (EHeader c);
  Write b := append (EWrite b) ;;; ret (Z.of_nat (String.length b), None);
  Flush := Some (append EFlush);
  Hijack := None;
  Push := None
|}.

End Server.

Definition request : Request := {| r_ctx := Background; RemoteAddr := "10.0.0.1:80"; r_header := ∅ |}.

(** A handler that takes [d] more. *)
Definition slow {S} (d : Z) (next : Handler (sim S)) : Handler (sim S) := fun w r =>
  next w r ;;; (fun w => (tt, Sim (sim_clock w + d) (sim_state w))).

Module Demo.
Definition world : Type := sim (breaker * (list recorder * list event)).

#[export] Instance has_breaker : Has world breaker := Has_fst.
Definition has_writer : Has world (list recorder * list event) := Has_snd.
#[export] Instance has_heap : Has world (list recorder) := Has_fst (Hp := has_writer).
#[export] Instance has_log : Has world (list event) := Has_snd (Hp := has_writer).

#[export, refine] Instance server_lawful : LawfulWriter (R := recorder) server := {| sent w := get w |}.
Proof. all: try done. all: by intros f w [= <-]. Defined.


(** A breaker that opens after five failures, at time 0. *)
Definition start : world := Sim 0 (New (BreakerSpec.example_config 5) 0 [], ([], [])).

Definition cb : Executor := Breaker.Execute None.

Definition timeout : ctx -> Z -> Fn world (option Z) -> M world (result (option Z)) :=
  Timeout.Execute None {| OnTimeout := None; DefaultTimeout := Second |}.

Definition failing : Handler world := fun w r => http_Error w "boom" 500.

(** Early hints, then the failure. *)
Definition hinting : Handler world := fun w r => WriteHeader w 103 ;;; http_Error w "boom" 500.

Definition replying : Handler world := fun w r => Write w "hello" ;;; ret tt.

Lemma uses_failing : uses_writer server failing.
Proof.
  intros i r w. eapply rtc_l; [apply (hs_WriteHeader server i 500)|]. apply rtc_once. apply (hs_Write server i).
Qed.

Lemma uses_slow d next : uses_writer server next -> uses_writer server (slow d next).
Proof. intros U i r w. eapply rtc_r; [apply U|]. by apply hs_other. Qed.

Lemma uses_replying : uses_writer server replying.
Proof. intros i r w. apply rtc_once. apply (hs_Write server i). Qed.

#[export] Instance cb_guard : Guard None (view server) cb.
Proof. by apply breaker_guard. Defined.

#[export] Instance timeout_deadline : Deadline None (view server) timeout.
Proof. by apply Guard.timeout_deadline. Defined.

Lemma http_breaker_spec_witness :
  sent (CircuitBreaker cb failing server request start).2 = [EHeader 500; EWrite ("boom" +:+ newline)].
Proof.
  destruct (http_breaker_spec server cb failing request start uses_failing) as (w1 & rec & tr & _ & _ & S & _).
  vm_compute. reflexivity.
Defined.

Lemma http_timeout_spec_witness :
  sent (Timeout timeout 5 (slow 10 failing) server request start).2 = [EHeader 500; EWrite ("boom" +:+ newline)].
Proof.
  destruct (http_timeout_spec server timeout 5 (slow 10 failing) request start (uses_slow _ _ uses_failing))
    as (c1 & w1 & rec & tr & _). vm_compute. reflexivity.
Defined.

(** An informational header is taken for the final one: the recorder drops
    the status that follows, the breaker counts a success and the client sees
    200 for a request that failed. *)
Theorem early_hints_hide_failure :
  let w' := (CircuitBreaker cb hinting server request start).2 in
  client_status (sent (hinting server request start).2) = 500 /\
  client_status (sent w') = 200 /\
  TotalSuccesses (counts (get w')) = 1 /\ TotalFailures (counts (get w')) = 0.
Proof. vm_compute. done. Qed.

(** A complete response that was sent as 200 within a request that timed out
    gets the error text appended to its body. *)
Theorem timeout_appends_to_response :
  sent (Timeout timeout 5 (slow 10 replying) server request start).2 =
    [EHeader 200; EWrite "hello"; EWrite "Gateway Timeout"].
Proof. vm_compute. reflexivity. Qed.
End Demo.
