(* ===== verification/HttpStream.v ===== *)
(** HTTP streaming middleware ([http/streaming.go]): [CircuitBreakerStream]
    and its writer.

    The writer follows the wire protocol of [Http] and calls the stream
    timeout's mark; a mark is a handle that [call] runs.  The stream timeout is
    met through the class [Stream], which is what [StreamTimeout]'s
    [stream_timeout_contract] says of one call, seen from outside; the circuit
    breaker through the class [Guard]. *)

From S2P Require Import Prelude Errors Runtime Breaker BreakerSpec StreamTimeout Guard Http.

#[local] Open Scope go_scope.

(** ** Errors *)

(** [errors.As] at [*StreamTimeoutError]: is there one in the tree of the
    error? *)
Fixpoint as_StreamTimeoutError (e : error) : bool :=
  match e with
  | EStreamTimeout _ => true
  | ERetryable (Some e) => as_StreamTimeoutError e
  | EWrap _ es | EUserRetryable _ es => existsb as_StreamTimeoutError es
  | _ => false
  end.

(** ** [streamingResponseWriter] *)

Definition Mark : Type := nat.

Record stream_writer := { sw_statusCode : Z; sw_written : bool; sw_mark : option Mark }.

Definition as_recorder (s : stream_writer) : recorder := {| statusCode := sw_statusCode s; written := sw_written s |}.

Definition ErrNotSupported : error := ESentinel (ErrNew "http.ErrNotSupported").

Section Writer.
Context {W : Type} `{Has W (list stream_writer)} (call : Mark -> M W unit).

(** [&streamingResponseWriter{ResponseWriter: w, statusCode: http.StatusOK}]. *)
Definition new_writer : M W nat := fun w =>
  (length (get w), put (get w ++ [{| sw_statusCode := StatusOK; sw_written := false; sw_mark := None |}]) w).

Definition sw_load (i : nat) : M W stream_writer := fun w =>
  (default {| sw_statusCode := StatusOK; sw_written := false; sw_mark := None |} (get w !! i), w).

Definition sw_store (i : nat) (s : stream_writer) : M W unit := fun w => (tt, put (<[i := s]> (get w)) w).

Definition setMark (i : nat) (m : Mark) : M W unit :=
  let! s := sw_load i in
  sw_store i {| sw_statusCode := sw_statusCode s; sw_written := sw_written s; sw_mark := Some m |}.

Definition status (i : nat) : M W Z := let! s := sw_load i in ret (sw_statusCode s).

Definition wroteHeader (i : nat) : M W bool := let! s := sw_load i in ret (sw_written s).

Definition sw_WriteHeader (i : nat) (under : ResponseWriter W) (code : Z) : M W unit :=
  let! s := sw_load i in
  if negb (sw_written s) then
    sw_store i {| sw_statusCode := code; sw_written := true; sw_mark := sw_mark s |} ;;;
    WriteHeader under code
  else ret tt.

Definition sw_Write (i : nat) (under : ResponseWriter W) (b : string) : M W (Z * option error) :=
  let! s := sw_load i in
  (if negb (sw_written s) then
     sw_store i {| sw_statusCode := StatusOK; sw_written := true; sw_mark := sw_mark s |} ;;;
     WriteHeader under StatusOK
   else ret tt) ;;;
  let! r := Write under b in
  match sw_mark s with
  | Some m => if r.1 >? 0 then call m ;;; ret r else ret r
  | None => ret r
  end.

Definition sw_Flush (i : nat) (under : ResponseWriter W) : M W unit :=
  let! s := sw_load i in
  match Flush under with Some f => f | None => ret tt end ;;;
  match sw_mark s with Some m => call m | None => ret tt end.

Definition sw_Hijack (under : ResponseWriter W) : M W (option error) :=
  match Hijack under with Some h => h | None => ret (Some ErrNotSupported) end.

Definition sw_Push (under : ResponseWriter W) (target : string) : M W (option error) :=
  match Push under with Some p => p target | None => ret (Some ErrNotSupported) end.

Definition streamingResponseWriter (i : nat) (under : ResponseWriter W) : ResponseWriter W := {|
  WriteHeader := sw_WriteHeader i under;
  Write := sw_Write i under;
  Flush := Some (sw_Flush i under);
  Hijack := Some (sw_Hijack under);
  Push := Some (sw_Push under)
|}.

(** ** [CircuitBreakerStream] *)

(** [Execute] of a stream timeout. *)
Definition StreamExecutor : Type := ctx -> (ctx -> Mark -> M W (result (option Z))) -> M W (result (option Z)).

Definition streamed (i : nat) (next : Handler W) (w : ResponseWriter W) (r : Request) (ictx : ctx) (mark : Mark) :
    M W (result (option Z)) :=
  setMark i mark ;;;
  next (streamingResponseWriter i w) (WithContext r ictx) ;;;
  let! sc := status i in
  ret (Some sc, None).

Definition guarded (st : StreamExecutor) (i : nat) (next : Handler W) (w : ResponseWriter W) (r : Request) :
    Fn W (option Z) := fun c =>
  let! res := st c (streamed i next w r) in
  match res.2 with
  | Some tErr => ret (Some StatusGatewayTimeout, Some tErr)
  | None =>
      let! sc := status i in
      if sc >=? 500 then ret (Some sc, Some (ESentinel ErrCircuitOpen))
      else let! sc := status i in ret (Some sc, None)
  end.

Definition stream_handler (cb : Executor) (st : StreamExecutor) (next : Handler W) : Handler W := fun w r =>
  let! i := new_writer in
  let! res := cb (r_ctx r) (guarded st i next w r) in
  match res.2 with
  | None => ret tt
  | Some cbErr =>
      let! wrote := wroteHeader i in
      if wrote then ret tt
      else if as_StreamTimeoutError cbErr then http_Error w "Gateway Timeout" StatusGatewayTimeout
      else if errors_is cbErr ErrCircuitOpen then http_Error w "Service Unavailable" StatusServiceUnavailable
      else if errors_is cbErr Canceled || errors_is cbErr DeadlineExceeded then ret tt
      else http_Error w "Service Unavailable" StatusServiceUnavailable
  end.

(** [execute] is [Execute] of the stream timeout built from a configuration. *)
Definition CircuitBreakerStream (execute : StreamTimeout.Config -> StreamExecutor) (cb : option Executor)
    (cfg : StreamTimeout.Config) : (Handler W -> Handler W) + error :=
  match StreamTimeout.New cfg with
  | inr err => inr err
  | inl cfg =>
      match cb with
      | None => inr (ESentinel (ErrNew "fortify/http: CircuitBreakerStream requires a non-nil CircuitBreaker"))
      | Some cb => inl (stream_handler cb (execute cfg))
      end
  end.
End Writer.

Arguments StreamExecutor W : clear implicits.

(** ** What is relied on of the stream timeout *)

Class Stream {W V : Type} `{World W} (view : W -> V) (call : Mark -> M W unit) (st : StreamExecutor W) := {
  stream_mark : forall m, leaves view (call m);
  stream_law : forall c fn w, exists c' m w1, view w1 = view w /\
    view (st c fn w).2 = view (fn c' m w1).2 /\
    ((st c fn w).1 = (fn c' m w1).1 \/
     exists e, (st c fn w).1 = (None, Some e) /\
       ((exists x, e = EStreamTimeout x) \/ exists t, ctx_Err c t = Some e))
}.

(** ** The writer keeps the wire protocol *)

Section Trace.
Context {W : Type} {WW : World W} {HH : Has W (list stream_writer)} (rw : ResponseWriter W) {LW : LawfulWriter rw}.
Context (call : Mark -> M W unit) (call_leaves : forall m w, sent (call m w).2 = sent w /\ get (call m w).2 = get w).

Inductive stream_step (i : nat) : W -> W -> Prop :=
| ss_other w w' : sent w' = sent w -> get w' !! i = get w !! i -> stream_step i w w'
| ss_WriteHeader c w : stream_step i w (sw_WriteHeader i rw c w).2
| ss_Write b w : stream_step i w (sw_Write call i rw b w).2
| ss_Flush w : stream_step i w (sw_Flush call i rw w).2.

(** A handler uses its writer through its methods only. *)
Definition uses_stream (next : Handler W) : Prop :=
  forall i r w, rtc (stream_step i) w (next (streamingResponseWriter call i rw) r w).2.

Definition on_stream (i : nat) (w : W) (s : list event * recorder) : Prop :=
  sent w = s.1 /\ as_recorder <$> get w !! i = Some s.2.

(** The optional call of the mark. *)
Lemma marked_on_stream {A} i (m : option Mark) (a : A) w s :
  on_stream i w s -> on_stream i ((match m with Some m => call m ;;; ret a | None => ret a end)%go w).2 s.
Proof. unfold on_stream. destruct m as [m|]; cbn; [|done]. by destruct (call_leaves m w) as [-> ->]. Qed.

Lemma sw_header_on_stream i c s w l r :
  on_stream i w (l, r) -> get w !! i = Some s -> written r = false ->
  on_stream i (WriteHeader rw c (sw_store i {| sw_statusCode := c; sw_written := true; sw_mark := sw_mark s |} w).2).2
    (l ++ [EHeader c], {| statusCode := c; written := true |}).
Proof.
  intros [E _] G Wr. split; cbn [fst snd sw_store].
  - by rewrite sent_WriteHeader, sent_put, E.
  - rewrite heap_WriteHeader, get_put, list_lookup_insert_eq; [done|]. by eapply lookup_lt_Some.
Qed.

Lemma Write_on_stream i b w l r : on_stream i w (l, r) -> on_stream i (Write rw b w).2 (l ++ [EWrite b], r).
Proof. intros [E G]. split; cbn [fst snd] in *; [by rewrite sent_Write, E|by rewrite heap_Write]. Qed.

Lemma stream_refines_wire i w w' s :
  stream_step i w w' -> on_stream i w s -> exists s', on_stream i w' s' /\ rtc wire_step s s'.
Proof.
  destruct s as [l r]. intros S O. pose proof O as [E G]. cbn in E, G.
  destruct S as [w w' E1 E2|c w|b w|w].
  { exists (l, r). split; [|done]. split; [by rewrite E1|by rewrite E2]. }
  all: apply fmap_Some in G as (x & G & X).
  - unfold sw_WriteHeader, bind, sw_load. rewrite G. cbn [default from_option id fst snd].
    destruct (sw_written x) eqn:Wr; cbn [negb]; [by exists (l, r)|].
    eexists. split; [|by apply rtc_once, wire_header; subst r]. apply sw_header_on_stream with r; by subst r.
  - unfold sw_Write, bind at 1, sw_load. rewrite G. cbn [default from_option id fst snd].
    destruct (sw_written x) eqn:Wr; cbn [negb].
    + exists (l ++ [EWrite b], r). split; [|by apply rtc_once, wire_body; subst r].
      apply (Write_on_stream i b) in O. unfold bind at 1 2, ret at 1. cbn [fst snd].
      destruct (sw_mark x) as [m|]; [|exact O]. destruct (_ >? 0); [|exact O]. by apply (marked_on_stream i (Some m)).
    + eexists ((l ++ [EHeader StatusOK]) ++ [EWrite b], {| statusCode := StatusOK; written := true |}).
      split; [|eapply rtc_l; [by apply wire_header; subst r|by apply rtc_once, wire_body]].
      apply (sw_header_on_stream i StatusOK x) in O; [|done|by subst r]. apply (Write_on_stream i b) in O.
      unfold bind at 1 2 3. cbn [fst snd].
      destruct (sw_mark x) as [m|]; [|exact O]. destruct (_ >? 0); [|exact O]. by apply (marked_on_stream i (Some m)).
  - unfold sw_Flush, bind at 1 2, sw_load. rewrite G. cbn [default from_option id fst snd].
    destruct (Flush rw) as [f|] eqn:F.
    + exists (l ++ [EFlush], r). split; [|apply rtc_once, wire_flush]. 
      assert (O' : on_stream i (f w).2 (l ++ [EFlush], r)).
      { split; cbn [fst snd]; [by rewrite (sent_Flush _ _ F), E|rewrite (heap_Flush _ _ F); apply O]. }
      destruct (sw_mark x) as [m|]; [|exact O']. by apply (marked_on_stream i (Some m) tt).
    + exists (l, r). split; [|done]. destruct (sw_mark x) as [m|]; [|exact O]. by apply (marked_on_stream i (Some m) tt).
Qed.

Lemma stream_records i w w' s0 :
  rtc (stream_step i) w w' -> get w !! i = Some s0 -> as_recorder s0 = fresh ->
  exists s tr, get w' !! i = Some s /\ sent w' = sent w ++ tr /\ records tr (as_recorder s).
Proof.
  intros S G F. enough (exists s', on_stream i w' s' /\ rtc wire_step (sent w, fresh) s') as (s & [E G'] & R).
  { destruct (wire_records _ _ R) as (tr & E2 & X). apply fmap_Some in G' as (x & G' & E3).
    exists x, tr. rewrite <- E3. by rewrite E. }
  eapply rtc_simulates; [by apply stream_refines_wire|exact S|]. split; cbn; by rewrite ?G, <- ?F.
Qed.
End Trace.

(** ** The reply *)

Section Middleware.
Context {W : Type} {WW : World W} {HH : Has W (list stream_writer)} (rw : ResponseWriter W) {LW : LawfulWriter rw}.

(** What the middleware sees of the world. *)
Definition sview (w : W) : list event * list stream_writer := (sent w, get w).

Context (call : Mark -> M W unit) (cb : Executor (W := W)) (st : StreamExecutor W).
Context {G : Guard None sview cb} {ST : Stream sview call st}.

Lemma sview_eq w w' : sview w = sview w' <-> sent w = sent w' /\ get w = get w'.
Proof. unfold sview. split; [by intros [= -> ->]|by intros [-> ->]]. Qed.

Lemma mark_leaves m w : sent (call m w).2 = sent w /\ get (call m w).2 = get w.
Proof. apply sview_eq. exact (stream_mark (view := sview) (st := st) m w). Qed.

(** A standard context ends with one of these two errors. *)
Definition standard (c : ctx) : Prop := forall t e, ctx_Err c t = Some e ->
  e = ESentinel Canceled \/ e = ESentinel DeadlineExceeded.

Definition new_stream : stream_writer := {| sw_statusCode := StatusOK; sw_written := false; sw_mark := None |}.

(** The world in which a wrapped handler starts. *)
Definition stream_starts (w w1 : W) : Prop := sent w1 = sent w /\ get w1 = get w ++ [new_stream].

(** The world in which the handler itself starts, with the mark installed. *)
Definition marked (w : W) (m : Mark) (w1 : W) : Prop :=
  sent w1 = sent w /\ get w1 = get w ++ [{| sw_statusCode := StatusOK; sw_written := false; sw_mark := Some m |}].

(** The world the handler [next] leaves, called once in [w1] on the wrapped
    writer [i]. *)
Definition handled (next : Handler W) (i : nat) (r : Request) (c : ctx) (w1 : W) : W :=
  (next (streamingResponseWriter call i rw) (WithContext r c) w1).2.

(** The handler runs once, with the mark installed. *)
Lemma streamed_run next r w w1 c m :
  uses_stream rw call next -> stream_starts w w1 ->
  exists w2 s tr, marked w m w2 /\ (streamed call (length (get w)) next rw r c m w1).2 = handled next (length (get w)) r c w2 /\
    get (handled next (length (get w)) r c w2) !! length (get w) = Some s /\
    sent (handled next (length (get w)) r c w2) = sent w ++ tr /\ records tr (as_recorder s) /\
    (streamed call (length (get w)) next rw r c m w1).1 = (Some (sw_statusCode s), None).
Proof.
  intros U [S H]. set (i := length (get w)). set (w2 := (setMark i m w1).2).
  assert (E2 : marked w m w2).
  { subst w2. unfold setMark, bind, sw_load, sw_store. rewrite H. unfold i. rewrite list_lookup_middle by done. cbn.
    split; [by rewrite sent_put|]. rewrite get_put, H. unfold i. by rewrite insert_app_r_alt, Nat.sub_diag by lia. }
  assert (L2 : get w2 !! i = Some {| sw_statusCode := StatusOK; sw_written := false; sw_mark := Some m |})
    by (rewrite (proj2 E2); by apply list_lookup_middle).
  destruct (stream_records rw call mark_leaves i w2 (handled next i r c w2) _ (U i (WithContext r c) w2) L2 eq_refl)
    as (s & tr & Gs & Ss & Rs).
  exists w2, s, tr. split; [done|]. rewrite <- (proj1 E2). unfold streamed, bind, status, bind, sw_load, ret. cbn [fst snd]. fold w2.
  change (next _ _ w2).2 with (handled next i r c w2). rewrite Gs. done.
Qed.

(** What the stream timeout and the handler decide. *)
Definition outcome (r : Request) (s : stream_writer) (err : option error) : Prop :=
  match err with
  | None => sw_statusCode s < 500
  | Some e =>
      (500 <= sw_statusCode s /\ e = ESentinel ErrCircuitOpen) \/ (exists x, e = EStreamTimeout x) \/
      (exists t, ctx_Err (r_ctx r) t = Some e)
  end.

Lemma guarded_run next r w w1 :
  uses_stream rw call next -> stream_starts w w1 ->
  let i := length (get w) in
  let run := guarded call st i next rw r (r_ctx r) w1 in
  exists c m w2 s tr err, marked w m w2 /\ sview run.2 = sview (handled next i r c w2) /\
    get (handled next i r c w2) !! i = Some s /\ sent (handled next i r c w2) = sent w ++ tr /\
    records tr (as_recorder s) /\ run.1.2 = err /\ outcome r s err.
Proof.
  intros U St i run. destruct (stream_law (r_ctx r) (streamed call i next rw r) w1) as (c1 & m & w2 & V & V2 & R).
  assert (St2 : stream_starts w w2) by (apply sview_eq in V as [V V']; unfold stream_starts; by rewrite V, V').
  destruct (streamed_run next r w w2 c1 m U St2) as (w3 & s & tr & Mk & H & Gs & Ss & Rs & X). fold i in H, Gs, Ss, X.
  rewrite H in V2. rewrite X in R. exists c1, m, w3, s, tr, run.1.2. split; [done|].
  unfold run, guarded, bind. destruct (st (r_ctx r) _ w1) as [res w4]. cbn [fst snd] in V2, R |- *.
  assert (E4 : get w4 !! i = Some s) by (apply sview_eq in V2 as [_ ->]; exact Gs).
  destruct R as [->|(e & -> & E)]; cbn [fst snd].
  2: { cbn [ret fst snd]. split_and!; try done. destruct E; cbn [outcome]; auto 7. }
  unfold status, bind, sw_load, ret. cbn [fst snd]. rewrite E4. cbn [default from_option id].
  destruct (Z.geb_spec (sw_statusCode s) 500); cbn [fst snd]; split_and!; try done; cbn; auto 7.
Qed.

(** The end of the handler, which answers the breaker's error. *)
Definition replied (i : nat) (err : option error) : M W unit :=
  match err with
  | None => ret tt
  | Some cbErr =>
      let! wrote := wroteHeader i in
      if wrote then ret tt
      else if as_StreamTimeoutError cbErr then http_Error rw "Gateway Timeout" StatusGatewayTimeout
      else if errors_is cbErr ErrCircuitOpen then http_Error rw "Service Unavailable" StatusServiceUnavailable
      else if errors_is cbErr Canceled || errors_is cbErr DeadlineExceeded then ret tt
      else http_Error rw "Service Unavailable" StatusServiceUnavailable
  end.

Lemma reply_spec i s (err : option error) w :
  get w !! i = Some s ->
  sent (replied i err w).2 =
  sent w ++ match err with
            | None => []
            | Some e =>
                if sw_written s then []
                else if as_StreamTimeoutError e then [EHeader StatusGatewayTimeout; EWrite ("Gateway Timeout" +:+ newline)]
                else if negb (errors_is e ErrCircuitOpen) && (errors_is e Canceled || errors_is e DeadlineExceeded) then []
                else [EHeader StatusServiceUnavailable; EWrite ("Service Unavailable" +:+ newline)]
            end.
Proof.
  intros L. unfold replied. destruct err as [e|]; [|by rewrite app_nil_r]. unfold bind at 1, wroteHeader, bind, sw_load, ret at 1 2 3. cbn [fst snd].
  rewrite L. cbn [default from_option id]. destruct (sw_written s); [by rewrite app_nil_r|].
  destruct (as_StreamTimeoutError e); [by rewrite http_Error_sent|].
  destruct (errors_is e ErrCircuitOpen); cbn [negb andb]; [by rewrite http_Error_sent|].
  destruct (_ || _); cbn [ret snd]; [by rewrite app_nil_r|by rewrite http_Error_sent].
Qed.

(** C16: A protected stream, around any handler, with any breaker and stream
    timeout that keep their contracts, under a standard context.  A call
    refused by an open circuit is answered with one 503; one refused because
    the client's context has ended is not answered.  Otherwise the handler runs,
    once, on a new writer that marks progress, and what it sends reaches the
    client unchanged, with at most one header through the writer, and: a handler that ends with a status below 500
    is a success for the breaker and nothing is added; one that ends with 500
    or more is a failure and nothing is added; a fired watchdog is a failure,
    answered with 504 when the handler has sent no header, although its error
    also matches [DeadlineExceeded]; the end of the client's context is the
    context's error for the breaker and nothing is added. *)
Theorem stream_spec next r w :
  uses_stream rw call next -> standard (r_ctx r) ->
  let i := length (get w) in
  let w' := (stream_handler call cb st next rw r w).2 in
  match rejects (r_ctx r) (new_writer w).2 with
  | Some (ECircuitOpen _) =>
      sent w' = sent w ++ [EHeader StatusServiceUnavailable; EWrite ("Service Unavailable" +:+ newline)]
  | Some _ => sent w' = sent w
  | None =>
      exists w1 c m w2 s tr err, stream_starts w w1 /\ marked w m w2 /\
        sent (handled next i r c w2) = sent w ++ tr /\ get (handled next i r c w2) !! i = Some s /\
        (guarded call st i next rw r (r_ctx r) w1).1.2 = err /\
        records tr (as_recorder s) /\ (length (headers tr) <= 1)%nat /\ outcome r s err /\
        sent w' = sent w ++ tr ++
          match err with
          | Some (EStreamTimeout _) =>
              if sw_written s then [] else [EHeader StatusGatewayTimeout; EWrite ("Gateway Timeout" +:+ newline)]
          | _ => []
          end
  end.
Proof.
  intros U Std i w'.
  assert (St : stream_starts w (new_writer w).2) by (unfold new_writer, stream_starts; cbn; by rewrite get_put, sent_put).
  set (w0 := (new_writer w).2) in *.
  assert (Run : w' = (replied i (cb (r_ctx r) (guarded call st i next rw r) w0).1.2
                        (cb (r_ctx r) (guarded call st i next rw r) w0).2).2) by reflexivity.
  rewrite Run. clear Run. clearbody w0.
  destruct (guard_law (r_ctx r) (guarded call st i next rw r) w0) as (w1 & V & L).
  assert (St1 : stream_starts w w1) by (apply sview_eq in V as [V V']; unfold stream_starts; by rewrite V, V').
  destruct (rejects (r_ctx r) w0) as [e|] eqn:Rj.
  - rewrite L. cbn [fst snd]. destruct St1 as [E1 H1].
    rewrite (reply_spec _ new_stream) by (rewrite H1; by apply list_lookup_middle). rewrite E1. cbn [new_stream sw_written].
    destruct (guard_reason _ _ _ Rj) as [[t E]|[x ->]]; [|done].
    destruct (Std _ _ E) as [-> | ->]; cbn; by rewrite app_nil_r.
  - destruct L as [L1 L2]. apply sview_eq in L2 as [L2 L3].
    destruct (guarded_run next r w w1 U St1) as (c & m & w2 & s & tr & err & Mk & Sv & Gs & Ss & Rs & X & O).
    fold i in Sv, Gs, Ss, X. apply sview_eq in Sv as [S1 S2].
    exists w1, c, m, w2, s, tr, err. split; [done|]. split; [done|]. split; [done|]. split; [done|]. split; [done|]. split; [done|].
    split; [rewrite (rs_headers _ _ Rs); destruct (written _); cbn; lia|]. split; [done|].
    rewrite (reply_spec _ s) by (by rewrite L3, S2). rewrite L1, X, L2, S1, Ss, <- app_assoc. do 2 f_equal.
    destruct err as [e|]; [|done]. destruct (sw_written s) eqn:Wr; [by destruct e|].
    destruct O as [[O _]|[[x ->]|[t E]]]; [|done|by destruct (Std _ _ E) as [-> | ->]].
    exfalso. destruct (rs_silent _ _ Rs Wr) as [Fr _]. injection Fr as Fr _. unfold StatusOK in Fr. lia.
Qed.
End Middleware.

(** ** A concrete stream *)

Module Demo.
Definition world : Type := sim (breaker * (list stream_writer * list event)).

#[export] Instance has_breaker : Has world breaker := Has_fst.
Definition has_writer : Has world (list stream_writer * list event) := Has_snd.
#[export] Instance has_heap : Has world (list stream_writer) := Has_fst (Hp := has_writer).
#[export] Instance has_log : Has world (list event) := Has_snd (Hp := has_writer).

#[export, refine] Instance server_lawful : LawfulWriter (R := stream_writer) server := {| sent w := get w |}.
Proof. all: try done. all: by intros f w [= <-]. Defined.

Definition start : world := Sim 0 (Breaker.New (BreakerSpec.example_config 5) 0 [], ([], [])).

Definition cb : Executor (W := world) := Breaker.Execute None.

Definition call (m : Mark) : M world unit := ret tt.

(** A stream timeout whose total deadline of [d] alone is set. *)
Definition total (d : Z) : StreamExecutor world := fun c fn w =>
  let r := fn c 0%nat w in
  if sim_clock w + d <=? sim_clock r.2 then
    ((None, Some (EStreamTimeout {| ste_Stage := StageTotal; ste_FirstByteTimeout := 0; ste_IdleTimeout := 0;
        ste_TotalTimeout := d; ste_Elapsed := sim_clock r.2 - sim_clock w |})), r.2)
  else r.

#[export] Instance cb_guard : Guard None (sview server) cb.
Proof. by apply breaker_guard. Defined.

#[export] Instance total_stream d : Stream (sview server) call (total d).
Proof.
  split; [done|]. intros c fn w. exists c, 0%nat, w. split; [done|]. unfold total.
  destruct (_ <=? _); (split; [done|]); [right|by left]. eexists. split; [done|]. left. by eexists.
Defined.

(** A stream of two chunks. *)
Definition chunks : Handler world := fun w r =>
  Write w "one" ;;; rec_Flush w ;;; Write w "two" ;;; ret tt.

(** A handler that flushes its headers and then waits for its source. *)
Definition waiting : Handler world := fun w r => rec_Flush w.

Lemma uses_chunks : uses_stream server call chunks.
Proof.
  intros i r w. eapply rtc_l; [apply (ss_Write server call i "one")|]. eapply rtc_l; [apply (ss_Flush server call i)|].
  apply rtc_once. apply (ss_Write server call i "two").
Qed.

Lemma stream_spec_witness :
  sent (stream_handler call cb (total 5) chunks server request start).2 =
    [EHeader 200; EWrite "one"; EFlush; EWrite "two"].
Proof.
  destruct (stream_spec server call cb (total 5) chunks request start uses_chunks) as (w1 & c & m & w2 & s & tr & err & _);
    [by intros t e|]. vm_compute. reflexivity.
Defined.

(** A flush sends the headers, but is not recorded: when a watchdog ends a
    stream whose handler has only flushed so far, the middleware takes the
    response for unsent, and sends a second header and an error text into it. *)
Theorem flushed_stream_gets_error_text :
  let w' := (stream_handler call cb (total 5) (slow 10 waiting) server request start).2 in
  sent w' = [EFlush; EHeader 504; EWrite ("Gateway Timeout" +:+ newline)] /\ client_status (sent w') = 200.
Proof. vm_compute. done. Qed.
End Demo.
