(* ===== verification/HttpHandler.v ===== *)
(** The HTTP presets: [HTTPHandler] ([middleware/http_handler.go]), the
    server-side stack of rate limit, circuit breaker and timeout around a
    handler, and [HTTPRoundTripper] ([middleware/http.go]), a chain around a
    transport.

    The breaker and the timeout are met through the classes [Guard] and
    [Deadline]; [HTTPHandler] builds the stack from [Breaker] and [Timeout],
    which keep them ([preset_guard], [preset_deadline]). *)

From S2P Require Import Prelude Float64 Errors Runtime Breaker BreakerSpec Timeout Guard Http HttpStream Chain Presets.

#[local] Open Scope go_scope.

(** ** [HTTPHandlerConfig] *)

(** [RateLimit] is the limiter's [Allow], [None] when nil. *)
Record HTTPHandlerConfig (W : Type) := {
  hh_Timeout : Z;
  hh_RateLimit : option (ctx -> string -> M W bool);
  hh_RateLimitKeyFn : option (Request -> string);
  hh_CBFailureThreshold : Z; (* uint32 *)
  hh_CBOpenTimeout : Z
}.

Arguments hh_Timeout {W}.
Arguments hh_RateLimit {W}.
Arguments hh_RateLimitKeyFn {W}.
Arguments hh_CBFailureThreshold {W}.
Arguments hh_CBOpenTimeout {W}.

Definition hh_setDefaults {W} (c : HTTPHandlerConfig W) : HTTPHandlerConfig W := {|
  hh_Timeout := hh_Timeout c;
  hh_RateLimit := hh_RateLimit c;
  hh_RateLimitKeyFn := hh_RateLimitKeyFn c;
  hh_CBFailureThreshold := if hh_CBFailureThreshold c =? 0 then 10 else hh_CBFailureThreshold c;
  hh_CBOpenTimeout := if hh_CBOpenTimeout c <=? 0 then 30 * Second else hh_CBOpenTimeout c
|}.

(** ** [serverRecorder] *)

Section Recorder.
Context {W : Type} `{Has W (list recorder)}.

Definition newServerRecorder : M W nat := fun w =>
  (length (get w), put (get w ++ [{| statusCode := StatusOK; written := false |}]) w).

Definition srv_WriteHeader (i : nat) (under : ResponseWriter W) (code : Z) : M W unit :=
  let! r := load i in
  if written r then ret tt
  else
    store i {| statusCode := code; written := true |} ;;;
    WriteHeader under code.

Definition srv_Write (i : nat) (under : ResponseWriter W) (b : string) : M W (Z * option error) :=
  let! r := load i in
  (if negb (written r) then
     store i {| statusCode := StatusOK; written := true |} ;;;
     WriteHeader under StatusOK
   else ret tt) ;;;
  Write under b.

Definition code (i : nat) : M W Z := let! r := load i in ret (statusCode r).

(** [Flush], [Hijack] and [Push] of the underlying writer are hidden. *)
Definition serverRecorder (i : nat) (under : ResponseWriter W) : ResponseWriter W := {|
  WriteHeader := srv_WriteHeader i under;
  Write := srv_Write i under;
  Flush := None;
  Hijack := None;
  Push := None
|}.

(** ** [httpHandler] *)

Record httpHandler := {
  inner : Handler W;
  h_cb : Chain.Executor W Z;
  h_tm : ctx -> Z -> Fn W Z -> M W (result Z);
  h_timeout : Z;
  h_rl : option (ctx -> string -> M W bool);
  h_keyFn : option (Request -> string)
}.

(** The function under the timeout, and the one under the breaker. *)
Definition served_inner (h : httpHandler) (i : nat) (w : ResponseWriter W) (r : Request) : Fn W Z := fun tctx =>
  inner h (serverRecorder i w) (WithContext r tctx) ;;;
  let! sc := code i in
  ret (if sc >=? 500 then (sc, Some (ESentinel ErrCircuitOpen)) else (sc, None)).

Definition served_timed (h : httpHandler) (i : nat) (w : ResponseWriter W) (r : Request) : Fn W Z := fun c =>
  let! res := h_tm h c (h_timeout h) (served_inner h i w r) in
  let! sc := code i in
  ret (sc, res.2).

(** A nil key function is only called when there is no limiter. *)
Definition rate_limited (h : httpHandler) (r : Request) : M W bool :=
  match h_rl h with
  | Some allow =>
      let! ok := allow (r_ctx r) (match h_keyFn h with Some f => f r | None => ""%string end) in
      ret (negb ok)
  | None => ret false
  end.

Definition ServeHTTP (h : httpHandler) : Handler W := fun w r =>
  let! limited := rate_limited h r in
  if limited then http_Error w "Too Many Requests" StatusTooManyRequests
  else
    let! i := newServerRecorder in
    let! res := h_cb h (r_ctx r) (served_timed h i w r) in
    match res.2 with
    | None => ret tt
    | Some err =>
        let! rec := load i in
        if written rec then ret tt
        else if errors_is err ErrCircuitOpen then http_Error w "Service Unavailable" StatusServiceUnavailable
        else if errors_is err DeadlineExceeded then http_Error w "Gateway Timeout" StatusGatewayTimeout
        else http_Error w "Internal Server Error" StatusInternalServerError
    end.
End Recorder.

Arguments httpHandler W : clear implicits.

(** ** [HTTPHandler] *)

Section Preset.
Context {W : Type} {WW : World W} {HB : Has W breaker} {HH : Has W (list recorder)}.

(** The breaker's configuration, its state at the time of the call, and the
    handler; or an error. *)
Definition HTTPHandler (next : Handler W) (cfg : HTTPHandlerConfig W) : (Breaker.Config * httpHandler W) + error :=
  if hh_Timeout cfg <=? 0 then inr (ESentinel (ErrNew "middleware.HTTPHandler: Timeout must be positive"))
  else
    match hh_RateLimit cfg, hh_RateLimitKeyFn cfg with
    | Some _, None => inr (ESentinel (ErrNew "middleware.HTTPHandler: RateLimitKeyFn required when RateLimit set"))
    | _, _ =>
        let cfg := hh_setDefaults cfg in
        inl (preset_breaker 3 (hh_CBOpenTimeout cfg) (hh_CBFailureThreshold cfg),
             {| inner := next;
                h_cb := Breaker.Execute 0;
                h_tm := Timeout.Execute 0 (Timeout.setDefaults (preset_timeout (hh_Timeout cfg)));
                h_timeout := hh_Timeout cfg;
                h_rl := hh_RateLimit cfg;
                h_keyFn := hh_RateLimitKeyFn cfg |})
    end.

(** ** [HTTPRoundTripper]

    A [RoundTripper] is its method; the response is its status.
    [DefaultTransport] is [net/http]'s. *)

Definition RoundTripper : Type := Request -> M W (result (option Z)).

Record httpRoundTripper := { rt_inner : RoundTripper; rt_chain : Chain W (option Z) }.

Definition RoundTrip (h : httpRoundTripper) : RoundTripper := fun req =>
  Chain.Execute (rt_chain h) (r_ctx req) (fun c => rt_inner h (WithContext req c)).

Definition HTTPRoundTripperFromChain (DefaultTransport : RoundTripper) (inner : option RoundTripper)
    (chain : Chain W (option Z)) : httpRoundTripper :=
  {| rt_inner := match inner with Some i => i | None => DefaultTransport end; rt_chain := chain |}.

Definition HTTPRoundTripper (Pow : f64 -> f64 -> f64) (rand : M W f64) (DefaultTransport : RoundTripper)
    (inner : option RoundTripper) (cfg : HTTPClientConfig) : error + (Breaker.Config * httpRoundTripper) :=
  let inner := match inner with Some i => i | None => DefaultTransport end in
  match HTTPClient None Pow rand cfg with
  | inl err => inl err
  | inr (cb, chain) => inr (cb, {| rt_inner := inner; rt_chain := chain |})
  end.
End Preset.

(** ** The reply of the handler *)

Section Spec.
Context {W : Type} {WW : World W} {HH : Has W (list recorder)} (rw : ResponseWriter W) {LW : LawfulWriter rw}.
Context (h : httpHandler W) {G : Guard 0 (view rw) (h_cb h)} {D : Deadline 0 (view rw) (h_tm h)}.
Context (limiter_leaves : forall allow c k, h_rl h = Some allow -> leaves (view rw) (allow c k)).

(** The handler uses the recorder through its methods, which are those of
    [Http]'s recorder. *)
Definition uses_server_writer (next : Handler W) : Prop :=
  forall i r w, rtc (handler_step rw i) w (next (serverRecorder i rw) r w).2.

Lemma srv_WriteHeader_eq i c w : srv_WriteHeader i rw c w = rec_WriteHeader i rw c w.
Proof. unfold srv_WriteHeader, rec_WriteHeader, bind. by destruct (written _). Qed.

Lemma rate_limited_view r w : view rw (rate_limited h r w).2 = view rw w.
Proof.
  unfold rate_limited. destruct (h_rl h) as [allow|]; [|done].
  exact (limiter_leaves allow (r_ctx r) _ eq_refl w).
Qed.

Definition error_reply (msg : string) (status : Z) : list event := [EHeader status; EWrite (msg +:+ newline)].

(** The reply to an error of the stack when nothing was sent. *)
Definition reply (e : error) : list event :=
  match e with
  | ECircuitOpen _ => error_reply "Service Unavailable" 503
  | ETimeout _ | ESentinel DeadlineExceeded => error_reply "Gateway Timeout" 504
  | _ => error_reply "Internal Server Error" 500
  end.

(** The errors the stack makes: a refusal, a timeout, the context's end, and
    the mark of a 5xx response. *)
Definition served_outcome (r : Request) (rec : recorder) (err : option error) : Prop :=
  match err with
  | None => statusCode rec < 500
  | Some e =>
      (500 <= statusCode rec /\ e = ESentinel ErrCircuitOpen) \/ (exists t, e = ETimeout t) \/
      (exists t, ctx_Err (r_ctx r) t = Some e)
  end.

(** The end of [ServeHTTP]. *)
Definition answered (i : nat) (err : option error) : M W unit :=
  match err with
  | None => ret tt
  | Some err =>
      let! rec := load i in
      if written rec then ret tt
      else if errors_is err ErrCircuitOpen then http_Error rw "Service Unavailable" StatusServiceUnavailable
      else if errors_is err DeadlineExceeded then http_Error rw "Gateway Timeout" StatusGatewayTimeout
      else http_Error rw "Internal Server Error" StatusInternalServerError
  end.

Lemma answered_sent i rec e w :
  get w !! i = Some rec ->
  (exists t, e = ETimeout t) \/ (exists x, e = ECircuitOpen x) \/ e = ESentinel Canceled \/ e = ESentinel DeadlineExceeded ->
  sent (answered i (Some e) w).2 = sent w ++ if written rec then [] else reply e.
Proof.
  intros L C. unfold answered, bind at 1, load. cbn [fst snd]. rewrite L. cbn [default from_option id].
  destruct (written rec); [by rewrite app_nil_r|].
  destruct C as [[t ->]|[[x ->]|[-> | ->]]]; exact (http_Error_sent rw _ _ w).
Qed.

Lemma served_run r w w1 :
  uses_server_writer (inner h) -> starts rw w w1 ->
  exists c1 w2 rec tr err, starts rw w w2 /\
    sent (inner h (serverRecorder (length (get w)) rw) (WithContext r c1) w2).2 = sent w ++ tr /\ records tr rec /\
    served_outcome r rec err /\
    (served_timed h (length (get w)) rw r (r_ctx r) w1).1 = (statusCode rec, err) /\
    sent (served_timed h (length (get w)) rw r (r_ctx r) w1).2 = sent w ++ tr /\
    get (served_timed h (length (get w)) rw r (r_ctx r) w1).2 !! length (get w) = Some rec.
Proof.
  intros U St. set (i := length (get w)).
  destruct (deadline_law (r_ctx r) (h_timeout h) (served_inner h i rw r) w1) as (c1 & w2 & V & L & R).
  apply (starts_view _ _ _ _ V) in St as [E2 H2].
  destruct (handler_records rw i w2 _ (U i (WithContext r c1) w2)) as (rec & tr & Gr & Sr & Rr).
  { rewrite H2. by apply list_lookup_middle. }
  rewrite E2 in Sr.
  assert (X : served_inner h i rw r c1 w2 =
    ((if statusCode rec >=? 500 then (statusCode rec, Some (ESentinel ErrCircuitOpen)) else (statusCode rec, None)),
     (inner h (serverRecorder i rw) (WithContext r c1) w2).2)).
  { unfold served_inner, bind, code, bind, load, ret. cbn [fst snd]. by rewrite Gr. }
  rewrite X in L, R. apply view_eq in L as [L1 L2]. cbn [fst snd] in L1, L2, R.
  exists c1, w2, rec, tr, (h_tm h (r_ctx r) (h_timeout h) (served_inner h i rw r) w1).1.2.
  split; [done|]. split; [done|]. split; [done|].
  unfold served_timed, bind, code, bind, load, ret. cbn [fst snd]. rewrite L2, Gr, L1, Sr. cbn [default from_option id].
  split; [|done]. destruct R as [-> |(e & -> & E)]; [|cbn; tauto].
  destruct (Z.geb_spec (statusCode rec) 500); cbn; [|lia]. left. split; [lia|done].
Qed.

(** C17: The server stack, around any handler, with a breaker and a timeout
    that keep their contracts, under a standard context.  A request refused
    by the limiter is answered with one 429, and that reply is all that happens
    in the world after the limiter's answer: neither breaker nor handler is
    touched.  A request refused by the breaker is answered with 503 when the
    circuit is open.  Otherwise the handler runs once and its output
    reaches the client unchanged; the breaker is given the recorded status and
    an error exactly for a status of 500 or more, a timeout or the end of the
    client's context; and something is added only if
    the handler sent no header: 504 for a timeout or a deadline, 500 for a
    cancelled request. *)
Theorem http_handler_spec r w :
  uses_server_writer (inner h) -> standard (r_ctx r) ->
  let lim := rate_limited h r w in
  let w' := (ServeHTTP h rw r w).2 in
  if lim.1 then
    w' = (http_Error rw "Too Many Requests" StatusTooManyRequests lim.2).2 /\
    sent w' = sent w ++ error_reply "Too Many Requests" 429
  else
    match rejects (r_ctx r) (newServerRecorder lim.2).2 with
    | Some e => sent w' = sent w ++ reply e
    | None =>
        exists c1 w1 w2 rec tr err, starts rw w w1 /\ starts rw w w2 /\
          sent (inner h (serverRecorder (length (get w)) rw) (WithContext r c1) w2).2 = sent w ++ tr /\
          records tr rec /\ (length (headers tr) <= 1)%nat /\
          (served_timed h (length (get w)) rw r (r_ctx r) w1).1 = (statusCode rec, err) /\
          served_outcome r rec err /\
          sent w' = sent w ++ tr ++
            match err with
            | Some e => if written rec then [] else reply e
            | None => []
            end
    end.
Proof.
  intros U Std lim w'. pose proof (rate_limited_view r w) as V. fold lim in V. apply view_eq in V as [V1 V2].
  destruct (new_recorder_starts rw lim.2) as [_ [N1 N2]].
  assert (St : starts rw w (newServerRecorder lim.2).2) by (split; [by rewrite <- V1|by rewrite <- V2]).
  assert (Run : w' = (if lim.1 then http_Error rw "Too Many Requests" StatusTooManyRequests lim.2
      else let res := h_cb h (r_ctx r) (served_timed h (length (get lim.2)) rw r) (newServerRecorder lim.2).2 in
           answered (length (get lim.2)) res.1.2 res.2).2).
  { unfold w', ServeHTTP, bind at 1. fold lim. by destruct lim.1. }
  rewrite Run, V2. clear Run. destruct lim.1; [by rewrite http_Error_sent, V1|].
  set (w0 := (newServerRecorder lim.2).2) in *. clearbody w0. clear N1 N2.
  destruct (guard_law (r_ctx r) (served_timed h (length (get w)) rw r) w0) as (w1 & V & L).
  apply (starts_view _ _ _ _ V) in St as St1. destruct (rejects (r_ctx r) w0) as [e|] eqn:Rj.
  - cbv zeta. rewrite L. cbn [fst snd]. rewrite (answered_sent _ fresh).
    + by rewrite (proj1 St1).
    + rewrite (proj2 St1). by apply list_lookup_middle.
    + destruct (guard_reason _ _ _ Rj) as [[t E]|[x ->]]; [destruct (Std _ _ E); tauto|right; left; by eexists].
  - destruct L as [L1 L2]. apply view_eq in L2 as [L2 L3].
    destruct (served_run r w w1 U St1) as (c1 & w2 & rec & tr & err & St2 & Sr & Rr & O & X & S1 & Gr).
    exists c1, w1, w2, rec, tr, err. split; [done|]. split; [done|]. split; [done|]. split; [done|].
    split; [rewrite (rs_headers _ _ Rr); destruct (written _); cbn; lia|]. split; [done|]. split; [done|].
    cbv zeta. rewrite L1, X. cbn [fst snd]. rewrite S1 in L2. rewrite <- L3 in Gr.
    destruct err as [e|]; cbn [answered ret snd]; [|by rewrite app_nil_r].
    destruct O as [[O ->]|O].
    + destruct (written rec) eqn:Wr.
      * unfold bind, load. cbn [fst snd]. rewrite Gr. cbn [default from_option id]. rewrite Wr. cbn. by rewrite app_nil_r.
      * destruct (rs_silent _ _ Rr Wr) as [-> _]. cbn in O. unfold StatusOK in O. lia.
    + change (sent (answered (length (get w)) (Some e)
        (h_cb h (r_ctx r) (served_timed h (length (get w)) rw r) w0).2).2 = sent w ++ tr ++ (if written rec then [] else reply e)).
      rewrite (answered_sent _ rec), L2, <- app_assoc; [done|done|].
      destruct O as [O|[t E]]; [by left|destruct (Std _ _ E); tauto].
Qed.
End Spec.

(** ** What the presets build *)

Section Built.
Context {W : Type} {WW : World W} {HB : Has W breaker} {HH : Has W (list recorder)}.

(** [HTTPHandler] fails for a timeout that is not positive and for a limiter
    without a key; otherwise the stack is the given one, and the breaker of the
    result opens after the configured number of failures in a row, 10 by
    default. *)
Lemma HTTPHandler_config (next : Handler W) cfg :
  match HTTPHandler next cfg with
  | inr _ => hh_Timeout cfg <= 0 \/ (hh_RateLimit cfg <> None /\ hh_RateLimitKeyFn cfg = None)
  | inl (b, h) =>
      0 < hh_Timeout cfg /\ (hh_RateLimit cfg <> None -> hh_RateLimitKeyFn cfg <> None) /\
      h_timeout h = hh_Timeout cfg /\ inner h = next /\ h_rl h = hh_RateLimit cfg /\
      (forall n, 0 <= n -> let threshold := if hh_CBFailureThreshold cfg =? 0 then 10 else hh_CBFailureThreshold cfg in
         (exists trip, ReadyToTrip b = Some trip /\
            forall c, trip c = (ConsecutiveFailures c >=? threshold)) /\ MaxRequests b = 3)
  end.
Proof.
  unfold HTTPHandler. destruct (Z.leb_spec (hh_Timeout cfg) 0); [by left|].
  destruct (hh_RateLimit cfg) as [allow|] eqn:R, (hh_RateLimitKeyFn cfg) as [key|] eqn:K; try (by right); cbn;
    rewrite ?R; repeat split; try done; by eexists.
Qed.
End Built.

(** ** A concrete stack *)

Module Demo.
Import Http.Demo.

Definition config (allow : bool) : HTTPHandlerConfig world := {|
  hh_Timeout := 5; hh_RateLimit := Some (fun _ _ => ret allow); hh_RateLimitKeyFn := Some RemoteAddr;
  hh_CBFailureThreshold := 0; hh_CBOpenTimeout := 0 |}.

Definition stack (next : Handler world) (allow : bool) : httpHandler world := {|
  inner := next;
  h_cb := Breaker.Execute 0;
  h_tm := Timeout.Execute 0 (Timeout.setDefaults (preset_timeout 5));
  h_timeout := 5;
  h_rl := Some (fun _ _ => ret allow);
  h_keyFn := Some RemoteAddr |}.

Example stack_is_built next : exists b, HTTPHandler next (config true) = inl (b, stack next true).
Proof. by eexists. Qed.

#[export] Instance preset_guard : Guard 0 (view server) (Breaker.Execute (W := world) 0).
Proof. by apply breaker_guard. Defined.

#[export] Instance preset_deadline d : Deadline 0 (view server) (Timeout.Execute (W := world) 0 (Timeout.setDefaults (preset_timeout d))).
Proof. by apply Guard.timeout_deadline. Defined.

(** A handler that sends nothing in time. *)
Definition silent : Handler world := slow 10 (fun _ _ => ret tt).

Lemma http_handler_spec_witness :
  sent (ServeHTTP (stack silent true) server request start).2 = error_reply "Gateway Timeout" 504.
Proof.
  pose proof (http_handler_spec server (stack silent true) (G := preset_guard) (D := preset_deadline 5)) as H.
  specialize (H ltac:(by intros allow c k [= <-] w) request start).
  destruct H as (c1 & w1 & w2 & rec & tr & err & _);
    [intros i r w; apply rtc_once; by apply hs_other|by intros t e|]. vm_compute. reflexivity.
Defined.

(** *** A request body is read once

    The transport reads what is left of the request's body, which all the
    attempts share: the retry sends the rest, here nothing. *)
Definition net : Type := sim (breaker * (string * list string)).

#[local] Instance net_breaker : Has net breaker := Has_fst.

(** A transport that sends the body and fails the first time. *)
Definition transport : RoundTripper (W := net) := fun _ w =>
  let '(b, (body, bodies)) := sim_state w in
  ((Some 200, match bodies with [] => Some (ESentinel (ErrUser 1)) | _ => None end),
   Sim (sim_clock w) (b, (""%string, bodies ++ [body]))).

Definition client_config : HTTPClientConfig := {|
  hc_Timeout := Second; hc_MaxRetries := 3; hc_RetryInitialDelay := 0; hc_CBFailureThreshold := 0; hc_CBOpenTimeout := 0
|}.

Theorem retried_request_has_no_body :
  match HTTPRoundTripper (fun x _ => x) (ret (f_of_Z 0)) transport None client_config with
  | inl _ => False
  | inr (b, rt) =>
      let '((res, err), w) := RoundTrip rt request (Sim 0 (Breaker.New b 0 [], ("order"%string, []))) in
      res = Some 200 /\ err = None /\ (sim_state w).2.2 = ["order"%string; ""%string]
  end.
Proof. vm_compute. done. Qed.
End Demo.
