(* ===== verification/Grpc.v ===== *)
(** gRPC interceptors ([grpc/interceptor.go], [grpc/client.go]).

    Requests, responses, streams and call options are types of the caller; a
    nil response is [zero] or [None].  Metadata and [err.Error()] are arguments:
    the contents of [metadata.MD] belong to package grpc.  [status.Error] is
    the constructor [EStatus].  The patterns are met through the classes of
    [Guard]. *)

From S2P Require Import Prelude Errors Runtime Utf8 HttpKeys Breaker BreakerSpec Timeout Guard.

#[local] Open Scope go_scope.

(** ** Keys *)

Definition metadataKeyMaxLen : Z := 256.

Definition sanitizeMetadataKey (s : string) : string :=
  let s := if len s >? metadataKeyMaxLen then of_bytes (upto metadataKeyMaxLen (bytes s)) else s in
  let clean := negb (existsb (fun c => (c <? 32) || (c =? 127)) (bytes s)) in
  if clean then s else of_bytes (List.filter (fun c => (c >=? 32) && negb (c =? 127)) (bytes s)).

(** [codes]. *)
Definition codes_DeadlineExceeded : Z := 4.
Definition codes_ResourceExhausted : Z := 8.
Definition codes_Unavailable : Z := 14.

(** A stream of the server: its context and the rest. *)
Record ServerStream (S : Type) := { s_Context : ctx; s_stream : S }.

Arguments s_Context {S}.
Arguments s_stream {S}.
Arguments Build_ServerStream {S}.

Definition wrappedServerStream {S} (stream : ServerStream S) (c : ctx) : ServerStream S :=
  {| s_Context := c; s_stream := s_stream stream |}.

Section Keys.
(** [metadata.FromIncomingContext], [metadata.FromOutgoingContext] and
    [MD.Get]. *)
Context {MD : Type} (FromIncomingContext FromOutgoingContext : ctx -> option MD) (MD_Get : MD -> string -> list string).

Definition KeyFromMetadata {Req} (header : string) (c : ctx) (req : Req) : string :=
  match FromIncomingContext c with
  | None => ""
  | Some md => match MD_Get md header with [] => "" | v :: _ => sanitizeMetadataKey v end
  end.

Definition StreamKeyFromMetadata {Srv S} (header : string) (srv : Srv) (stream : ServerStream S) : string :=
  match FromIncomingContext (s_Context stream) with
  | None => ""
  | Some md => match MD_Get md header with [] => "" | v :: _ => sanitizeMetadataKey v end
  end.

Definition KeyFromOutgoingMetadata (header : string) (c : ctx) (method : string) : string :=
  match FromOutgoingContext c with
  | None => ""
  | Some md => match MD_Get md header with [] => "" | v :: _ => sanitizeMetadataKey v end
  end.

Definition StreamKeyFromOutgoingMetadata (header : string) (c : ctx) (method : string) : string :=
  match FromOutgoingContext c with
  | None => ""
  | Some md => match MD_Get md header with [] => "" | v :: _ => sanitizeMetadataKey v end
  end.

Definition KeyFromMethod (c : ctx) (method : string) : string := method.
Definition StreamKeyFromMethod (c : ctx) (method : string) : string := method.
End Keys.

(** ** Server interceptors *)

Section Server.
Context {W T : Type} `{World W} (zero : T) (Error : error -> string).
Context {Req Srv S : Type}.

Definition UnaryHandler : Type := ctx -> Req -> M W (result T).
Definition UnaryServerInterceptor : Type := ctx -> Req -> UnaryHandler -> M W (result T).
Definition StreamHandler : Type := Srv -> ServerStream S -> M W (option error).
Definition StreamServerInterceptor : Type := Srv -> ServerStream S -> StreamHandler -> M W (option error).

(** [Execute] of a breaker or timeout of interfaces, and [Allow]. *)
Definition GExecutor : Type := ctx -> Fn W T -> M W (result T).
Definition TExecutor : Type := ctx -> Z -> Fn W T -> M W (result T).
Definition Allower : Type := ctx -> string -> M W bool.

Definition UnaryCircuitBreakerInterceptor (cb : GExecutor) : UnaryServerInterceptor := fun c req handler =>
  let! res := cb c (fun c => handler c req) in
  match res.2 with
  | Some err =>
      if errors_is err ErrCircuitOpen then ret (zero, Some (EStatus codes_Unavailable (Error err)))
      else ret (zero, Some (EStatus codes_Unavailable (Error err)))
  | None => ret (res.1, None)
  end.

Definition UnaryRateLimitInterceptor (allow : Allower) (keyExtractor : ctx -> Req -> string) : UnaryServerInterceptor :=
  fun c req handler =>
  let! ok := allow c (keyExtractor c req) in
  if negb ok then ret (zero, Some (EStatus codes_ResourceExhausted "rate limit exceeded"))
  else handler c req.

Definition UnaryTimeoutInterceptor (tm : TExecutor) (duration : Z) : UnaryServerInterceptor := fun c req handler =>
  let! res := tm c duration (fun c => handler c req) in
  match res.2 with
  | Some err =>
      if errors_is err DeadlineExceeded then ret (zero, Some (EStatus codes_DeadlineExceeded (Error err)))
      else ret (zero, Some err)
  | None => ret (res.1, None)
  end.

(** A handler of streams under a pattern of unary calls. *)
Definition streaming (handler : M W (option error)) : M W (result T) :=
  let! err := handler in ret (zero, err).

Definition StreamCircuitBreakerInterceptor (cb : GExecutor) : StreamServerInterceptor := fun srv stream handler =>
  let! res := cb (s_Context stream) (fun c => streaming (handler srv stream)) in
  match res.2 with
  | Some err =>
      if errors_is err ErrCircuitOpen then ret (Some (EStatus codes_Unavailable (Error err)))
      else ret (Some (EStatus codes_Unavailable (Error err)))
  | None => ret None
  end.

Definition StreamRateLimitInterceptor (allow : Allower) (keyExtractor : Srv -> ServerStream S -> string) :
    StreamServerInterceptor := fun srv stream handler =>
  let! ok := allow (s_Context stream) (keyExtractor srv stream) in
  if negb ok then ret (Some (EStatus codes_ResourceExhausted "rate limit exceeded"))
  else handler srv stream.

Definition StreamTimeoutInterceptor (tm : TExecutor) (duration : Z) : StreamServerInterceptor := fun srv stream handler =>
  let! res := tm (s_Context stream) duration (fun c => streaming (handler srv (wrappedServerStream stream c))) in
  match res.2 with
  | Some err =>
      if errors_is err DeadlineExceeded then ret (Some (EStatus codes_DeadlineExceeded (Error err)))
      else ret (Some err)
  | None => ret None
  end.
End Server.

(** ** Client interceptors *)

Section Client.
Context {W T : Type} `{World W} (zero : T) (Error : error -> string).
(** Request, reply, connection and options of a call. *)
Context {Args : Type}.

Definition UnaryInvoker : Type := ctx -> string -> Args -> M W (option error).
Definition UnaryClientInterceptor : Type := ctx -> string -> Args -> UnaryInvoker -> M W (option error).

Definition UnaryClientCircuitBreakerInterceptor (cb : GExecutor (T := T)) : UnaryClientInterceptor :=
  fun c method args invoker =>
  let! res := cb c (fun c => streaming zero (invoker c method args)) in
  match res.2 with
  | None => ret None
  | Some err =>
      if errors_is err ErrCircuitOpen then ret (Some (EStatus codes_Unavailable (Error err)))
      else ret (Some err)
  end.

Definition UnaryClientRateLimitInterceptor (allow : Allower) (keyExtractor : ctx -> string -> string) :
    UnaryClientInterceptor := fun c method args invoker =>
  let! ok := allow c (keyExtractor c method) in
  if negb ok then ret (Some (EStatus codes_ResourceExhausted "rate limit exceeded"))
  else invoker c method args.

Definition UnaryClientTimeoutInterceptor (tm : TExecutor (T := T)) (duration : Z) : UnaryClientInterceptor :=
  fun c method args invoker =>
  let! res := tm c duration (fun c => streaming zero (invoker c method args)) in
  match res.2 with
  | None => ret None
  | Some err =>
      if errors_is err DeadlineExceeded then ret (Some (EStatus codes_DeadlineExceeded (Error err)))
      else ret (Some err)
  end.

(** The variables that closures assign live in a heap of streams; nil is
    [None]. *)
Context {CS : Type} {HS : Has W (list (option CS))}.

Definition new_var : M W nat := fun w => (length (get w), put (get w ++ [None]) w).
Definition load_var (i : nat) : M W (option CS) := fun w => (default None (get w !! i), w).
Definition store_var (i : nat) (s : option CS) : M W unit := fun w => (tt, put (<[i := s]> (get w)) w).

Definition Streamer : Type := ctx -> string -> Args -> M W (result (option CS)).
Definition StreamClientInterceptor : Type := ctx -> string -> Args -> Streamer -> M W (result (option CS)).

Definition StreamClientCircuitBreakerInterceptor (cb : GExecutor (T := T)) : StreamClientInterceptor :=
  fun c method args streamer =>
  let! stream := new_var in
  let! res := cb c (fun c =>
    let! s := streamer c method args in
    match s.2 with
    | Some e => ret (zero, Some e)
    | None => store_var stream s.1 ;;; ret (zero, None)
    end) in
  match res.2 with
  | None => let! s := load_var stream in ret (s, None)
  | Some err =>
      if errors_is err ErrCircuitOpen then ret (None, Some (EStatus codes_Unavailable (Error err)))
      else ret (None, Some err)
  end.

Definition StreamClientRateLimitInterceptor (allow : Allower) (keyExtractor : ctx -> string -> string) :
    StreamClientInterceptor := fun c method args streamer =>
  let! ok := allow c (keyExtractor c method) in
  if negb ok then ret (None, Some (EStatus codes_ResourceExhausted "rate limit exceeded"))
  else streamer c method args.
End Client.

(** ** Keys are bounded and harmless *)

Definition safe_byte (c : Z) : bool := (c >=? 32) && negb (c =? 127).

Lemma safe_byte_eq c : negb ((c <? 32) || (c =? 127)) = safe_byte c.
Proof. unfold safe_byte. destruct (c =? 127), (Z.ltb_spec c 32); zcases; try done; lia. Qed.

Lemma all_safe l : forallb safe_byte l = negb (existsb (fun c => (c <? 32) || (c =? 127)) l).
Proof. induction l as [|c l IH]; cbn; [done|]. by rewrite IH, negb_orb, safe_byte_eq. Qed.

Lemma sanitizeMetadataKey_bytes s :
  bytes (sanitizeMetadataKey s) = List.filter safe_byte (upto metadataKeyMaxLen (bytes s)).
Proof.
  unfold sanitizeMetadataKey. set (s' := if len s >? _ then _ else s).
  assert (E : bytes s' = upto metadataKeyMaxLen (bytes s)).
  { subst s'. unfold len. zcases; [|by rewrite upto_all]. apply bytes_of_bytes, upto_sub, bytes_range. }
  destruct (existsb _ (bytes s')) eqn:B; cbn [negb].
  - rewrite bytes_of_bytes by apply filter_sub, bytes_range. by rewrite E.
  - rewrite E in *. symmetry. apply filter_all. by rewrite all_safe, B.
Qed.

(** A key from metadata is the first 256 bytes of the value without its
    control characters: at most 256 bytes, none of them a control
    character, unchanged by sanitising again.  For an ASCII value of at most
    256 bytes it is the key that the HTTP middleware makes of the same value;
    and every key extractor returns such a key, the empty one when there is no
    metadata or no value. *)
Theorem sanitizeMetadataKey_spec {MD : Type} (From : ctx -> option MD) (MD_Get : MD -> string -> list string)
    NFC PrintRanges s header c (method : string) :
  let k := sanitizeMetadataKey s in
  bytes k = List.filter safe_byte (upto metadataKeyMaxLen (bytes s)) /\
  Z.of_nat (length (bytes k)) <= metadataKeyMaxLen /\
  Forall (fun b => 32 <= b < 256 /\ b <> 127) (bytes k) /\
  sanitizeMetadataKey k = k /\
  (isASCII s = true -> len s <= 256 -> k = SanitizeKey NFC PrintRanges s 256) /\
  KeyFromOutgoingMetadata From MD_Get header c method =
    sanitizeMetadataKey (default ""%string (md ← From c; head (MD_Get md header))) /\
  KeyFromMetadata From MD_Get header c tt = KeyFromOutgoingMetadata From MD_Get header c method.
Proof.
  intros k. pose proof (sanitizeMetadataKey_bytes s) as E. fold k in E.
  assert (L : Z.of_nat (length (bytes k)) <= metadataKeyMaxLen).
  { rewrite E. pose proof (List.filter_length_le safe_byte (upto metadataKeyMaxLen (bytes s))) as F. revert F.
    unfold upto, metadataKeyMaxLen. rewrite length_take. lia. }
  assert (S : forallb safe_byte (bytes k) = true).
  { rewrite E. apply forallb_forall. intros b I. by apply filter_In in I as [_ I]. }
  split; [done|]. split; [done|]. split; [|split; [|split]].
  - rewrite Forall_forall. intros b I. pose proof (bytes_range k) as B. rewrite Forall_forall in B. specialize (B b I).
    unfold is_byte in B. apply list_elem_of_In in I.
    apply (proj1 (forallb_forall _ _) S) in I. unfold safe_byte in I. zcases_in I; try done; lia.
  - rewrite <- (of_bytes_bytes (sanitizeMetadataKey k)), sanitizeMetadataKey_bytes, upto_all, filter_all by done.
    apply of_bytes_bytes.
  - intros A N. rewrite (SanitizeKey_sanitized NFC PrintRanges). unfold sanitized. rewrite A.
    apply isASCII_spec in A. rewrite (decode_ascii _ A), (encode_ascii _).
    + rewrite <- (of_bytes_bytes k), E. f_equal. change (if 256 <=? 0 then DefaultMaxKeyLength else 256) with 256.
      rewrite upto_all by done. rewrite upto_all.
      * apply filter_ext_in. intros b I. unfold ascii_only in A. rewrite Forall_forall in A. symmetry. by apply keeps_ascii, A.
      * unfold len in N. pose proof (List.filter_length_le (keeps PrintRanges) (bytes s)). lia.
    + unfold ascii_only in *. by apply upto_sub, filter_sub.
  - unfold KeyFromMetadata, KeyFromOutgoingMetadata. destruct (From c) as [md|]; [|done]. cbn. by destruct (MD_Get md header).
Qed.

(** The limit is applied before the control characters are removed, unlike in
    package http: a key behind 256 of them is lost, and every such client
    shares the bucket of the empty key. *)
Theorem metadata_key_lost_behind_controls :
  let padding := of_bytes (repeat 1 256) in
  sanitizeMetadataKey (padding +:+ "client-a") = ""%string /\ sanitizeMetadataKey (padding +:+ "client-b") = ""%string /\
  SanitizeKey id (fun _ => true) (padding +:+ "client-a") 256 = "client-a"%string.
Proof. vm_compute. done. Qed.

(** ** The interceptors *)

Section Spec.
Context {W T V : Type} {WW : World W} (zero : T) (Error : error -> string) (view : W -> V).
Context {Req Srv S Args : Type}.

(** C20: The breaker interceptors, with any breaker that keeps its contract.  A
    refused call runs neither handler nor RPC and is answered with Unavailable.  Otherwise
    the handler runs exactly once, under the caller's context, and a success is
    returned unchanged; on the server every error of the handler, unary or
    stream, becomes Unavailable, whatever its status was, on the client only an
    error that matches [ErrCircuitOpen] does. *)
Theorem breaker_interceptors cb {G : Guard zero view cb} c (req : Req) (handler : UnaryHandler)
    (srv : Srv) (stream : ServerStream S) (shandler : StreamHandler) method (args : Args) (invoker : UnaryInvoker) w :
  let unavailable e := EStatus codes_Unavailable (Error e) in
  (exists w1, view w1 = view w /\
   let out := UnaryCircuitBreakerInterceptor zero Error cb c req handler w in
   match rejects c w with
   | Some e => out = ((zero, Some (unavailable e)), w1)
   | None =>
       let r := handler c req w1 in view out.2 = view r.2 /\
       out.1 = match r.1 with (v, None) => (v, None) | (_, Some e) => (zero, Some (unavailable e)) end
   end) /\
  (exists w1, view w1 = view w /\
   let out := StreamCircuitBreakerInterceptor zero Error cb srv stream shandler w in
   match rejects (s_Context stream) w with
   | Some e => out = (Some (unavailable e), w1)
   | None => let r := shandler srv stream w1 in view out.2 = view r.2 /\ out.1 = unavailable <$> r.1
   end) /\
  (exists w1, view w1 = view w /\
   let out := UnaryClientCircuitBreakerInterceptor zero Error cb c method args invoker w in
   match rejects c w with
   | Some e => out = (Some (if errors_is e ErrCircuitOpen then unavailable e else e), w1)
   | None =>
       let r := invoker c method args w1 in view out.2 = view r.2 /\
       out.1 = (fun e => if errors_is e ErrCircuitOpen then unavailable e else e) <$> r.1
   end).
Proof.
  intros unavailable. split; [|split].
  - destruct (guard_law c (fun c => handler c req) w) as (w1 & V1 & L). exists w1. split; [done|].
    unfold UnaryCircuitBreakerInterceptor, bind. destruct (rejects c w) as [e|].
    + rewrite L. cbn [fst snd]. by destruct (errors_is e ErrCircuitOpen).
    + destruct L as [-> L2]. destruct (handler c req w1) as [[v [e|]] w2]; cbn [fst snd] in *; [|done].
      by destruct (errors_is e ErrCircuitOpen).
  - destruct (guard_law (s_Context stream) (fun c => streaming zero (shandler srv stream)) w) as (w1 & V1 & L).
    exists w1. split; [done|]. unfold StreamCircuitBreakerInterceptor, bind. destruct (rejects _ w) as [e|].
    + rewrite L. cbn [fst snd]. by destruct (errors_is e ErrCircuitOpen).
    + destruct L as [-> L2]. unfold streaming, bind, ret in *. destruct (shandler srv stream w1) as [[e|] w2]; cbn [fst snd] in *; [|done].
      by destruct (errors_is e ErrCircuitOpen).
  - destruct (guard_law c (fun c => streaming zero (invoker c method args)) w) as (w1 & V1 & L).
    exists w1. split; [done|]. unfold UnaryClientCircuitBreakerInterceptor, bind. destruct (rejects c w) as [e|].
    + rewrite L. cbn [fst snd]. by destruct (errors_is e ErrCircuitOpen).
    + destruct L as [-> L2]. unfold streaming, bind, ret in *. destruct (invoker c method args w1) as [[e|] w2]; cbn [fst snd] in *; [|done].
      cbn [fmap option_fmap option_map]. by destruct (errors_is e ErrCircuitOpen).
Qed.

(** What a timeout adds to the errors of the function. *)
Definition timed_error (c : ctx) (own err : option error) : Prop :=
  err = own \/ exists e, err = Some e /\ ((exists t, e = ETimeout t) \/ exists t, ctx_Err c t = Some e).

(** The status of an error that matches [DeadlineExceeded]. *)
Definition deadline_status (e : error) : error :=
  if errors_is e DeadlineExceeded then EStatus codes_DeadlineExceeded (Error e) else e.

(** The timeout interceptors, with any timeout that keeps its contract.  The
    handler or RPC runs exactly once, under a derived context, which a stream
    handler sees as the context of its stream.  The outcome is the
    handler's own, or the error of the timeout or of the caller's context; an error
    that matches [DeadlineExceeded], so every timeout, becomes the status
    DeadlineExceeded, and any other is returned as it is. *)
Theorem timeout_interceptors tm {D : Deadline zero view tm} d c (req : Req) (handler : UnaryHandler)
    (srv : Srv) (stream : ServerStream S) (shandler : StreamHandler) method (args : Args) (invoker : UnaryInvoker) w :
  (exists c' w1 err, view w1 = view w /\
   let out := UnaryTimeoutInterceptor zero Error tm d c req handler w in
   let r := handler c' req w1 in view out.2 = view r.2 /\ timed_error c r.1.2 err /\
   out.1 = match err with None => r.1 | Some e => (zero, Some (deadline_status e)) end) /\
  (exists c' w1 err, view w1 = view w /\
   let out := StreamTimeoutInterceptor zero Error tm d srv stream shandler w in
   let r := shandler srv (wrappedServerStream stream c') w1 in view out.2 = view r.2 /\
   timed_error (s_Context stream) r.1 err /\ out.1 = deadline_status <$> err) /\
  (exists c' w1 err, view w1 = view w /\
   let out := UnaryClientTimeoutInterceptor zero Error tm d c method args invoker w in
   let r := invoker c' method args w1 in view out.2 = view r.2 /\
   timed_error c r.1 err /\ out.1 = deadline_status <$> err) /\
  (forall t, deadline_status (ETimeout t) = EStatus codes_DeadlineExceeded (Error (ETimeout t))).
Proof.
  unfold deadline_status. split; [|split; [|split; [|done]]].
  - destruct (deadline_law c d (fun c => handler c req) w) as (c' & w1 & V1 & L & R).
    unfold UnaryTimeoutInterceptor, bind. destruct (tm c d _ w) as [res w2]. cbn [fst snd] in *.
    exists c', w1, res.2. split; [done|]. split; [by destruct res.2 as [e|]; [destruct (errors_is e _)|]|].
    destruct R as [-> |(e & -> & E)]; cbn [fst snd]; (split; [|try by destruct (errors_is e _)]).
    + by left.
    + destruct (handler c' req w1).1 as [v [e|]]; [by cbn; destruct (errors_is e _)|done].
    + right. by exists e.
  - destruct (deadline_law (s_Context stream) d (fun c => streaming zero (shandler srv (wrappedServerStream stream c))) w)
      as (c' & w1 & V1 & L & R).
    unfold StreamTimeoutInterceptor, bind. destruct (tm _ d _ w) as [res w2]. cbn [fst snd] in *.
    exists c', w1, res.2. split; [done|].
    split; [by destruct res.2 as [e|]; [destruct (errors_is e _)|]|].
    split; [|destruct res.2 as [e|]; cbn; [by destruct (errors_is e _)|done]].
    destruct R as [-> |(e & -> & E)]; [by left|right; by exists e].
  - destruct (deadline_law c d (fun c => streaming zero (invoker c method args)) w) as (c' & w1 & V1 & L & R).
    unfold UnaryClientTimeoutInterceptor, bind. destruct (tm _ d _ w) as [res w2]. cbn [fst snd] in *.
    exists c', w1, res.2. split; [done|].
    split; [by destruct res.2 as [e|]; [destruct (errors_is e _)|]|].
    split; [|destruct res.2 as [e|]; cbn; [by destruct (errors_is e _)|done]].
    destruct R as [-> |(e & -> & E)]; [by left|right; by exists e].
Qed.

(** The limiter interceptors: a refused call is ResourceExhausted and runs
    nothing, an allowed one is the handler's or the RPC's. *)
Lemma rate_limit_interceptors (allow : Allower (W := W)) key skey ckey c (req : Req) (handler : UnaryHandler)
    (srv : Srv) (stream : ServerStream S) (shandler : StreamHandler) method (args : Args) (invoker : UnaryInvoker) w :
  let exhausted := EStatus codes_ResourceExhausted "rate limit exceeded" in
  (let r := allow c (key c req) w in
   UnaryRateLimitInterceptor zero allow key c req handler w = if r.1 then handler c req r.2 else ((zero, Some exhausted), r.2)) /\
  (let r := allow (s_Context stream) (skey srv stream) w in
   StreamRateLimitInterceptor allow skey srv stream shandler w = if r.1 then shandler srv stream r.2 else (Some exhausted, r.2)) /\
  (let r := allow c (ckey c method) w in
   UnaryClientRateLimitInterceptor allow ckey c method args invoker w =
     if r.1 then invoker c method args r.2 else (Some exhausted, r.2)).
Proof.
  unfold UnaryRateLimitInterceptor, StreamRateLimitInterceptor, UnaryClientRateLimitInterceptor, bind.
  repeat split; by destruct (allow _ _ w) as [[] w'].
Qed.
End Spec.

(** ** Streams of the client *)

Section Streams.
Context {W T CS : Type} {WW : World W} {HS : Has W (list (option CS))} (zero : T) (Error : error -> string) {Args : Type}.

(** The variable that the closure assigns holds the stream the streamer
    opened, unless opening failed or the breaker refused: then the result is
    nil and an error, Unavailable when the error matches [ErrCircuitOpen]. *)
Lemma stream_client_breaker cb {G : Guard zero (get (W := W) (S := list (option CS))) cb}
    c method (args : Args) (streamer : Streamer) w :
  (forall c w, get (streamer c method args w).2 = get w) ->
  let status e := if errors_is e ErrCircuitOpen then EStatus codes_Unavailable (Error e) else e in
  let out := StreamClientCircuitBreakerInterceptor zero Error cb c method args streamer w in
  match rejects c (new_var w).2 with
  | Some e => out.1 = (None, Some (status e))
  | None => exists w1, get w1 = get w ++ [None] /\
      out.1 = match (streamer c method args w1).1 with (s, None) => (s, None) | (_, Some e) => (None, Some (status e)) end
  end.
Proof.
  intros Q status. set (fn := fun c => (let! s := streamer c method args in
      match s.2 with Some e => ret (zero, Some e) | None => store_var (length (get w)) s.1 ;;; ret (zero, None) end)%go).
  set (w0 := (new_var w).2). assert (E0 : get w0 = get w ++ [None]) by (unfold w0, new_var; apply get_put).
  assert (Run : StreamClientCircuitBreakerInterceptor zero Error cb c method args streamer w =
    (match (cb c fn w0).1.2 with
     | None => let! s := load_var (length (get w)) in ret (s, None)
     | Some err => if errors_is err ErrCircuitOpen then ret (None, Some (EStatus codes_Unavailable (Error err)))
                   else ret (None, Some err)
     end)%go (cb c fn w0).2) by reflexivity.
  cbv zeta. rewrite Run. clear Run. clearbody w0. destruct (guard_law c fn w0) as (w1 & V & L). destruct (rejects c w0) as [e|].
  - rewrite L. unfold status. cbn [fst snd]. by destruct (errors_is e ErrCircuitOpen).
  - destruct L as [-> L2]. exists w1. rewrite V. split; [done|]. pose proof (Q c w1) as Q1. revert L2.
    unfold fn at 2 3, bind. destruct (streamer c method args w1) as [[s [e|]] w2]; cbn [fst snd ret] in *; intros L2.
    + unfold status. by destruct (errors_is e ErrCircuitOpen).
    + unfold bind, load_var, ret. cbn [fst snd]. rewrite L2. unfold store_var. cbn [fst snd]. rewrite get_put, Q1, V, E0.
      by rewrite list_lookup_insert_eq by (rewrite length_app; cbn; lia).
Qed.
End Streams.

(** ** A concrete service *)

Module Demo.
Definition world : Type := sim breaker.

Definition text (e : error) : string := match e with EStatus _ m => m | _ => "error" end.

Definition start : world := Sim 0 (Breaker.New (BreakerSpec.example_config 5) 0 []).

Definition cb : GExecutor (W := world) (T := option Z) := Breaker.Execute None.

Definition timeout : TExecutor (W := world) (T := option Z) :=
  Timeout.Execute None {| OnTimeout := None; DefaultTimeout := Second |}.

Definition nothing (w : world) : unit := tt.

#[export] Instance cb_guard : Guard None nothing cb.
Proof. by apply breaker_guard. Defined.

#[export] Instance timeout_deadline : Deadline None nothing timeout.
Proof. by apply Guard.timeout_deadline. Defined.

(** The application's answer: there is no such object. *)
Definition NotFound : error := EStatus 5 "no such user".

Definition lookup : UnaryHandler (W := world) (T := option Z) (Req := string) := fun _ _ => ret (None, Some NotFound).
Definition slow_stream : StreamHandler (W := world) (Srv := unit) (S := unit) := fun _ _ w =>
  (None, Sim (sim_clock w + 10) (sim_state w)).
Definition call : UnaryInvoker (W := world) (Args := unit) := fun _ _ _ => ret (Some NotFound).

Definition stream : ServerStream unit := {| s_Context := Background; s_stream := tt |}.

(** The same failure, on the client and on the server: the server's
    interceptor hides the application's status. *)
Lemma breaker_interceptors_witness :
  (UnaryClientCircuitBreakerInterceptor None text cb Background "/user/Get" tt call start).1 = Some NotFound /\
  (UnaryCircuitBreakerInterceptor None text cb Background "u1"%string lookup start).1 =
    (None, Some (EStatus codes_Unavailable "no such user")).
Proof.
  destruct (breaker_interceptors None text nothing cb Background "u1"%string lookup tt stream slow_stream
    "/user/Get" tt call start) as ((w1 & _ & _ & A) & _ & (w2 & _ & _ & B)).
  split; [exact B|exact A].
Defined.

Lemma timeout_interceptors_witness :
  (StreamTimeoutInterceptor None text timeout 5 tt stream slow_stream start).1 =
    Some (EStatus codes_DeadlineExceeded "error").
Proof.
  destruct (timeout_interceptors None text nothing timeout 5 Background "u1"%string lookup tt stream slow_stream
    "/user/Get" tt call start) as (_ & (c & w & err & _) & _). vm_compute. reflexivity.
Defined.

(** The end of the caller's own context is reported by the client interceptor
    as if its timeout had expired. *)
Theorem parent_deadline_is_converted :
  let parent := {| done_at := Some (3, ESentinel DeadlineExceeded); ctx_values := [] |} in
  let slow : UnaryInvoker (W := world) (Args := unit) := fun _ _ _ w => (None, Sim 4 (sim_state w)) in
  (UnaryClientTimeoutInterceptor None text timeout 1000 parent "/user/Get" tt slow start).1 =
    Some (EStatus codes_DeadlineExceeded "error").
Proof. vm_compute. reflexivity. Qed.
End Demo.
