(* ===== verification/Chaos.v ===== *)
(** Chaos testing helpers ([testing/chaos.go]): the injectors of errors and
    latency, the timeout simulator and the flakey service that is built from
    them.

    The random source is an argument ([Float64], [Int63n]); the injectors are
    components of the world.  Atomic counters are int64 and do not overflow
    here.  [ChaosConc] has the interleavings of an [ErrorInjector]. *)

From S2P Require Import Prelude Float64 Errors Runtime.

#[local] Open Scope go_scope.

(** A component that is a field of another. *)
#[refine] Definition Has_field {W S A} {HW : World W} {HS : Has W S} (proj : S -> A) (upd : A -> S -> S)
    (pu : forall a s, proj (upd a s) = a) (uu : forall a b s, upd a (upd b s) = upd a s)
    (up : forall s, upd (proj s) s = s) : Has W A := {|
  get w := proj (get w);
  put a w := put (upd a (get w)) w
|}.
Proof.
  - intros. by rewrite get_put, pu.
  - intros. by rewrite put_put, get_put, uu.
  - intros. by rewrite up, put_get.
  - intros. by rewrite get_tick.
  - intros. by rewrite get_await.
  - intros. apply clock_put.
Defined.

(** A probability: negative is 0 and above 1 is 1. *)
Definition clamp_probability (p : f64) : f64 :=
  let p := if fltb p (f_of_Z 0) then f_of_Z 0 else p in
  if fltb (f_of_Z 1) p then f_of_Z 1 else p.

Definition clamp_range (lo hi : Z) : Z * Z :=
  let lo := if lo <? 0 then 0 else lo in
  let hi := if hi <? lo then lo else hi in
  (lo, hi).

(** The rate of two counters. *)
Definition rate_of (part calls : Z) : f64 :=
  if calls >? 0 then fdiv (f_of_Z part) (f_of_Z calls) else f_of_Z 0.

(** ** [ErrorInjector] *)

Record ErrorInjector := { ei_err : error; ei_calls : Z; failures : Z; ei_probability : f64 }.

Definition NewErrorInjector (probability : f64) (err : option error) : ErrorInjector := {|
  ei_probability := clamp_probability probability;
  ei_err := match err with Some e => e | None => ESentinel (ErrNew "injected error") end;
  ei_calls := 0; failures := 0 |}.

Section ErrorInjector.
Context {W : Type} `{HE : Has W ErrorInjector} (Float64 : M W f64).

Definition count_call : M W unit := fun w =>
  let e := get w in
  (tt, put {| ei_err := ei_err e; ei_calls := ei_calls e + 1; failures := failures e; ei_probability := ei_probability e |} w).

Definition count_failure : M W unit := fun w =>
  let e := get w in
  (tt, put {| ei_err := ei_err e; ei_calls := ei_calls e; failures := failures e + 1; ei_probability := ei_probability e |} w).

Definition probability_load : M W f64 := fun w => (ei_probability (get w), w).

Definition ShouldFail : M W bool :=
  count_call ;;;
  let! prob := probability_load in
  let! x := Float64 in
  if fltb x prob then count_failure ;;; ret true else ret false.

Definition Error : M W error := fun w => (ei_err (get w), w).

Definition Execute (fn : M W (option error)) : M W (option error) :=
  let! fail := ShouldFail in
  if fail then let! e := Error in ret (Some e) else fn.

Definition SetProbability (p : f64) : M W unit := fun w =>
  let e := get w in
  (tt, put {| ei_err := ei_err e; ei_calls := ei_calls e; failures := failures e;
              ei_probability := clamp_probability p |} w).

Definition ei_Stats : M W (Z * Z * f64) := fun w =>
  let e := get w in ((ei_calls e, failures e, rate_of (failures e) (ei_calls e)), w).

Definition ei_Reset : M W unit := fun w =>
  let e := get w in (tt, put {| ei_err := ei_err e; ei_calls := 0; failures := 0; ei_probability := ei_probability e |} w).
End ErrorInjector.

(** ** [LatencyInjector] *)

Record LatencyInjector := { l_min : Z; l_max : Z; l_calls : Z; totalDelay : Z }.

Definition NewLatencyInjector (minLatency maxLatency : Z) : LatencyInjector :=
  let '(lo, hi) := clamp_range minLatency maxLatency in {| l_min := lo; l_max := hi; l_calls := 0; totalDelay := 0 |}.

Section LatencyInjector.
Context {W : Type} `{HL : Has W LatencyInjector} (Int63n : Z -> M W Z).

Definition latency : M W (Z * Z) := fun w =>
  let l := get w in
  ((l_min l, l_max l), put {| l_min := l_min l; l_max := l_max l; l_calls := l_calls l + 1; totalDelay := totalDelay l |} w).

Definition add_delay (d : Z) : M W unit := fun w =>
  let l := get w in
  (tt, put {| l_min := l_min l; l_max := l_max l; l_calls := l_calls l; totalDelay := totalDelay l + d |} w).

(** The delay that is drawn. *)
Definition draw (minDelay maxDelay : Z) : M W Z :=
  if maxDelay >? minDelay then let! x := Int63n (maxDelay - minDelay) in ret (minDelay + x) else ret minDelay.

Definition Delay (c : ctx) : M W (option error) :=
  let! range := latency in
  let! delay := draw range.1 range.2 in
  add_delay delay ;;;
  select_timer delay c.

Definition SetLatency (minLatency maxLatency : Z) : M W unit := fun w =>
  let l := get w in
  let '(lo, hi) := clamp_range minLatency maxLatency in
  (tt, put {| l_min := lo; l_max := hi; l_calls := l_calls l; totalDelay := totalDelay l |} w).

Definition l_Stats : M W (Z * Z) := fun w =>
  let l := get w in ((l_calls l, if l_calls l >? 0 then totalDelay l `quot` l_calls l else 0), w).

Definition l_Reset : M W unit := fun w =>
  let l := get w in (tt, put {| l_min := l_min l; l_max := l_max l; l_calls := 0; totalDelay := 0 |} w).
End LatencyInjector.

(** ** [TimeoutSimulator] *)

Record TimeoutSimulator := { t_timeout : Z; t_probability : f64; timeouts : Z; t_calls : Z }.

Definition NewTimeoutSimulator (timeout : Z) (probability : f64) : TimeoutSimulator := {|
  t_timeout := if timeout <? 0 then 0 else timeout;
  t_probability := clamp_probability probability; timeouts := 0; t_calls := 0 |}.

Section TimeoutSimulator.
Context {W : Type} `{HT : Has W TimeoutSimulator} (Float64 : M W f64).

(** The derived context; its cancel function is not used here. *)
Definition Context_method (parent : ctx) : M W ctx :=
  let! t := (fun w => let t := get w in
    (t, put {| t_timeout := t_timeout t; t_probability := t_probability t; timeouts := timeouts t; t_calls := t_calls t + 1 |} w)) in
  let! x := Float64 in
  if fltb x (t_probability t) then
    (fun w => let t := get w in
      (tt, put {| t_timeout := t_timeout t; t_probability := t_probability t; timeouts := timeouts t + 1; t_calls := t_calls t |} w)) ;;;
    let! now := time_Now in
    ret (WithTimeout parent (t_timeout t) now)
  else ret parent.

Definition t_Stats : M W (Z * Z * f64) := fun w =>
  let t := get w in ((t_calls t, timeouts t, rate_of (timeouts t) (t_calls t)), w).

Definition t_Reset : M W unit := fun w =>
  let t := get w in
  (tt, put {| t_timeout := t_timeout t; t_probability := t_probability t; timeouts := 0; t_calls := 0 |} w).
End TimeoutSimulator.

(** ** [FlakeyService] *)

Record FlakeyService := {
  errorInjector : ErrorInjector;
  latencyInjector : LatencyInjector;
  timeoutSim : TimeoutSimulator
}.

Definition NewFlakeyService (errorProb : f64) (minLatency maxLatency : Z) : FlakeyService := {|
  errorInjector := NewErrorInjector errorProb (Some (ESentinel (ErrNew "service error")));
  latencyInjector := NewLatencyInjector minLatency maxLatency;
  timeoutSim := NewTimeoutSimulator (i64 (maxLatency * 2)) (f_ratio 1 10)
|}.

Section FlakeyService.
Context {W : Type} `{HS : Has W FlakeyService} (Float64 : M W f64) (Int63n : Z -> M W Z).

#[local] Instance has_errors : Has W ErrorInjector :=
  Has_field errorInjector (fun a s => {| errorInjector := a; latencyInjector := latencyInjector s; timeoutSim := timeoutSim s |})
    (fun _ _ => eq_refl) (fun _ _ _ => eq_refl) (fun s => match s with Build_FlakeyService _ _ _ => eq_refl end).
#[local] Instance has_latency : Has W LatencyInjector :=
  Has_field latencyInjector (fun a s => {| errorInjector := errorInjector s; latencyInjector := a; timeoutSim := timeoutSim s |})
    (fun _ _ => eq_refl) (fun _ _ _ => eq_refl) (fun s => match s with Build_FlakeyService _ _ _ => eq_refl end).
#[local] Instance has_timeouts : Has W TimeoutSimulator :=
  Has_field timeoutSim (fun a s => {| errorInjector := errorInjector s; latencyInjector := latencyInjector s; timeoutSim := a |})
    (fun _ _ => eq_refl) (fun _ _ _ => eq_refl) (fun s => match s with Build_FlakeyService _ _ _ => eq_refl end).

Definition Call (c : ctx) (fn : M W (option error)) : M W (option error) :=
  let! err := Delay Int63n c in
  match err with
  | Some err => ret (Some err)
  | None =>
      let! fail := ShouldFail Float64 in
      if fail then let! e := Error in ret (Some e) else fn
  end.

(** The eight entries of the map. *)
Definition Stats : M W ((Z * Z * f64) * (Z * Z) * (Z * Z * f64)) :=
  let! e := ei_Stats in
  let! l := l_Stats in
  let! t := t_Stats in
  ret (e, l, t).

Definition Reset : M W unit := ei_Reset ;;; l_Reset ;;; t_Reset.
End FlakeyService.

(** ** What a call does *)

(** The counters of the injectors agree, and the latency range is one. *)
Record sound (s : FlakeyService) : Prop := {
  so_failures : 0 <= failures (errorInjector s) <= ei_calls (errorInjector s);
  so_range : 0 <= l_min (latencyInjector s) <= l_max (latencyInjector s);
  so_delay : l_calls (latencyInjector s) * l_min (latencyInjector s) <= totalDelay (latencyInjector s)
             <= l_calls (latencyInjector s) * l_max (latencyInjector s)
}.

Definition after_delay (d : Z) (s : FlakeyService) : FlakeyService := {|
  errorInjector := errorInjector s;
  latencyInjector := {| l_min := l_min (latencyInjector s); l_max := l_max (latencyInjector s);
    l_calls := l_calls (latencyInjector s) + 1; totalDelay := totalDelay (latencyInjector s) + d |};
  timeoutSim := timeoutSim s |}.

Definition after_error (fail : bool) (s : FlakeyService) : FlakeyService := {|
  errorInjector := {| ei_err := ei_err (errorInjector s); ei_calls := ei_calls (errorInjector s) + 1;
    failures := failures (errorInjector s) + (if fail then 1 else 0); ei_probability := ei_probability (errorInjector s) |};
  latencyInjector := latencyInjector s; timeoutSim := timeoutSim s |}.

Lemma clamp_range_ordered lo hi : 0 <= (clamp_range lo hi).1 <= (clamp_range lo hi).2.
Proof. unfold clamp_range. zcases; cbn; lia. Qed.

Section Spec.
Context {W : Type} `{HS : Has W FlakeyService} (Float64 : M W f64) (Int63n : Z -> M W Z).

(** The random source: a float in [0, 1), an integer below the bound; it is
    not part of the service. *)
Record random_source : Prop := {
  rs_float : forall w, fleb (f_of_Z 0) (Float64 w).1 = true /\ fltb (Float64 w).1 (f_of_Z 1) = true;
  rs_int : forall n w, 0 < n -> 0 <= (Int63n n w).1 < n;
  rs_get : forall w, get (Float64 w).2 = get w;
  rs_get_int : forall n w, get (Int63n n w).2 = get w;
  rs_clock_int : forall n w, clock w <= clock (Int63n n w).2
}.

Lemma Delay_run (RS : random_source) c w :
  l_min (latencyInjector (get w)) <= l_max (latencyInjector (get w)) ->
  exists d, let r := Delay (HL := has_latency) Int63n c w in
    l_min (latencyInjector (get w)) <= d <= l_max (latencyInjector (get w)) /\
    (l_min (latencyInjector (get w)) < l_max (latencyInjector (get w)) -> d < l_max (latencyInjector (get w))) /\
    get r.2 = after_delay d (get w) /\
    match r.1 with
    | None => clock w + d <= clock r.2
    | Some e => ctx_Err c (clock r.2) = Some e
    end.
Proof.
  intros O. unfold Delay, bind. set (w1 := (latency w).2). cbn [latency fst snd].
  assert (E1 : get w1 = {| errorInjector := errorInjector (get w); latencyInjector :=
      {| l_min := l_min (latencyInjector (get w)); l_max := l_max (latencyInjector (get w));
         l_calls := l_calls (latencyInjector (get w)) + 1; totalDelay := totalDelay (latencyInjector (get w)) |};
      timeoutSim := timeoutSim (get w) |}) by (unfold w1, latency; cbn; by rewrite get_put).
  assert (C1 : clock w1 = clock w) by (unfold w1, latency; cbn; by rewrite clock_put).
  clearbody w1. change (l_min (get (Has := has_latency) w)) with (l_min (latencyInjector (get w))).
  change (l_max (get (Has := has_latency) w)) with (l_max (latencyInjector (get w))).
  set (lo := l_min _) in *. set (hi := l_max _) in *. set (dr := draw Int63n lo hi w1).
  assert (Dr : lo <= dr.1 <= hi /\ (lo < hi -> dr.1 < hi) /\ get dr.2 = get w1 /\ clock w1 <= clock dr.2).
  { unfold dr, draw. destruct (Z.gtb_spec hi lo); cbn.
    - pose proof (rs_int RS (hi - lo) w1 ltac:(lia)). rewrite (rs_get_int RS). pose proof (rs_clock_int RS (hi - lo) w1).
      repeat split; try done; lia.
    - repeat split; try done; lia. }
  clearbody dr. destruct Dr as (D1 & D2 & D3 & D4). exists dr.1. split; [done|]. split; [done|].
  set (w2 := (add_delay dr.1 dr.2).2).
  assert (E2 : get w2 = after_delay dr.1 (get w)).
  { unfold w2, add_delay. cbn. rewrite get_put, D3, E1. done. }
  assert (C2 : clock w2 = clock dr.2) by (unfold w2, add_delay; cbn; by rewrite clock_put).
  clearbody w2. split; [unfold select_timer; cbn; by rewrite get_await|].
  pose proof (select_timer_not_stuck dr.1 c w2) as NS. unfold select_timer in *. cbn [fst snd] in *.
  destruct (await dr.1 (fst <$> done_at c) w2) as [fired w3] eqn:A. cbn [fst snd] in *.
  pose proof (await_timer dr.1 (fst <$> done_at c) w2) as AT. rewrite A in AT. cbn in AT.
  destruct fired; [specialize (AT eq_refl); lia|]. destruct (ctx_Err c (clock w3)) as [e|] eqn:E; [done|]. by destruct (NS eq_refl).
Qed.

Lemma ShouldFail_run (RS : random_source) w :
  let r := ShouldFail (HE := has_errors) Float64 w in
  get r.2 = after_error r.1 (get w) /\
  (ei_probability (errorInjector (get w)) = f_of_Z 0 -> r.1 = false) /\
  (ei_probability (errorInjector (get w)) = f_of_Z 1 -> r.1 = true).
Proof.
  unfold ShouldFail, bind. set (w1 := (count_call w).2). cbn [probability_load fst snd].
  assert (E1 : get w1 = {| errorInjector := {| ei_err := ei_err (errorInjector (get w));
      ei_calls := ei_calls (errorInjector (get w)) + 1; failures := failures (errorInjector (get w));
      ei_probability := ei_probability (errorInjector (get w)) |};
      latencyInjector := latencyInjector (get w); timeoutSim := timeoutSim (get w) |})
    by (unfold w1, count_call; cbn; by rewrite get_put).
  change (get (Has := has_errors) w1) with (errorInjector (get w1)). rewrite E1. cbn [errorInjector ei_probability].
  destruct (rs_float RS w1) as [F0 F1]. pose proof (rs_get RS w1) as G. destruct (Float64 w1) as [x w2]. cbn [fst snd] in *.
  assert (P : (ei_probability (errorInjector (get w)) = f_of_Z 0 -> fltb x (ei_probability (errorInjector (get w))) = false) /\
              (ei_probability (errorInjector (get w)) = f_of_Z 1 -> fltb x (ei_probability (errorInjector (get w))) = true)).
  { split; intros ->; [by apply fleb_fltb_false|done]. }
  destruct (fltb x (ei_probability (errorInjector (get w)))); cbn [fst snd ret]; (split; [|exact P]).
  - unfold count_failure. cbn. rewrite get_put, G, E1. done.
  - rewrite G, E1. unfold after_error. by rewrite Z.add_0_r.
Qed.

(** A call of a flakey service, for any random source.  It waits for a delay
    that is at least the minimum and below the maximum (or the minimum, when
    they are equal), unless the context ends first, which is the result.  Then
    it returns the injected error without running the function, or the
    function's own outcome: never the injected error at probability 0, always
    at 1.  The counters count exactly that, and stay sound; the timeout
    simulator is never asked. *)
Theorem flaky_call_spec c (fn : M W (option error)) w :
  random_source -> sound (get w) ->
  exists d w1,
    l_min (latencyInjector (get w)) <= d <= l_max (latencyInjector (get w)) /\
    (l_min (latencyInjector (get w)) < l_max (latencyInjector (get w)) -> d < l_max (latencyInjector (get w))) /\
    get w1 = after_delay d (get w) /\ sound (get w1) /\
    ((exists e, ctx_Err c (clock w1) = Some e /\ Call Float64 Int63n c fn w = (Some e, w1)) \/
     (clock w + d <= clock w1 /\ exists fail w2, get w2 = after_error fail (get w1) /\ sound (get w2) /\
        (ei_probability (errorInjector (get w)) = f_of_Z 0 -> fail = false) /\
        (ei_probability (errorInjector (get w)) = f_of_Z 1 -> fail = true) /\
        timeoutSim (get w2) = timeoutSim (get w) /\
        Call Float64 Int63n c fn w = if fail then (Some (ei_err (errorInjector (get w))), w2) else fn w2)).
Proof.
  intros RS S. destruct (Delay_run RS c w (proj2 (so_range _ S))) as (d & D1 & D2 & D3 & D4).
  unfold Call, bind. destruct (Delay Int63n c w) as [r w1]. cbn [fst snd] in *.
  assert (S1 : sound (get w1)).
  { rewrite D3. destruct S as [A B C]. split; [exact A|exact B|]. cbn. split; nia. }
  exists d, w1. split; [done|]. split; [done|]. split; [done|]. split; [done|].
  destruct r as [e|]; [left; by exists e|right]. split; [done|].
  destruct (ShouldFail_run RS w1) as (E & P0 & P1). destruct (ShouldFail Float64 w1) as [fail w2]. cbn [fst snd] in *.
  exists fail, w2. rewrite D3 in P0, P1. cbn in P0, P1. split; [done|]. split; [|split; [done|split; [done|split]]].
  - rewrite E. destruct S1 as [A B C]. split; [|exact B|exact C]. cbn. destruct fail; lia.
  - by rewrite E, D3.
  - destruct fail; [|done]. unfold Error. cbn. change (get (Has := has_errors) w2) with (errorInjector (get w2)).
    by rewrite E, D3.
Qed.

(** A new service is sound, whatever its arguments. *)
Lemma NewFlakeyService_sound p lo hi : sound (NewFlakeyService p lo hi).
Proof.
  unfold NewFlakeyService, NewLatencyInjector. destruct (clamp_range lo hi) as [a b] eqn:E.
  pose proof (clamp_range_ordered lo hi) as O. rewrite E in O. cbn in O. split; cbn; lia.
Qed.
End Spec.

(** ** A run *)

Module Demo.
Definition world : Type := sim FlakeyService.

Definition half : M world f64 := ret (f_ratio 1 2).
Definition zero (n : Z) : M world Z := ret 0.

Definition start : world := Sim 0 (NewFlakeyService (f_of_Z 1) 5 10).

Lemma half_source : random_source half zero.
Proof. split; try done; intros; cbn; lia. Qed.

Lemma flaky_call_spec_witness :
  exists w2, Call half zero Background (ret None) start = (Some (ei_err (errorInjector (sim_state start))), w2) /\
    timeoutSim (sim_state w2) = timeoutSim (sim_state start).
Proof.
  destruct (flaky_call_spec half zero Background (ret None) start half_source (NewFlakeyService_sound _ _ _))
    as (d & w1 & _ & _ & _ & _ & [(e & E & _)|(_ & fail & w2 & _ & _ & _ & P1 & T & R)]); [done|].
  rewrite P1 in R by done. exists w2. split; [exact R|exact T].
Defined.

End Demo.
