(* ===== verification/ChaosConc.v ===== *)
(** An error injector shared by goroutines ([testing/chaos.go]).

    [Chaos] runs one call at a time.  Here calls of [ShouldFail],
    [SetProbability], [Stats] and [Reset] interleave, one step per atomic
    operation or locked read; the numbers drawn are the scheduler's. *)

From S2P Require Import Prelude Float64 Errors Runtime Chaos.

Inductive call := CShouldFail | CSetProbability (p : f64) | CStats | CReset.

Inductive pc :=
| Entering (c : call)
| Counted                    (* [calls.Add(1)] *)
| Drawing (prob : f64)       (* the probability is read *)
| Failing                    (* the number drawn is below it *)
| Decided (fail : bool)
| StatsLoading (calls : Z)   (* [calls.Load()] *)
| StatsDone (calls failures : Z)
| ResetCalls                 (* [calls.Store(0)] *)
| Finished.

Definition counters (c f : Z) (e : ErrorInjector) : ErrorInjector :=
  {| ei_err := ei_err e; ei_calls := c; failures := f; ei_probability := ei_probability e |}.

(** The next operation of a goroutine; [x] is what [rand.Float64] gives. *)
Definition act (x : f64) (e : ErrorInjector) (p : pc) : option (ErrorInjector * pc) :=
  match p with
  | Entering CShouldFail => Some (counters (ei_calls e + 1) (failures e) e, Counted)
  | Counted => Some (e, Drawing (ei_probability e))
  | Drawing prob => Some (e, if fltb x prob then Failing else Decided false)
  | Failing => Some (counters (ei_calls e) (failures e + 1) e, Decided true)
  | Entering (CSetProbability p) =>
      Some ({| ei_err := ei_err e; ei_calls := ei_calls e; failures := failures e; ei_probability := clamp_probability p |}, Finished)
  | Entering CStats => Some (e, StatsLoading (ei_calls e))
  | StatsLoading n => Some (e, StatsDone n (failures e))
  | Entering CReset => Some (counters 0 (failures e) e, ResetCalls)
  | ResetCalls => Some (counters (ei_calls e) 0 e, Finished)
  | Decided _ | StatsDone _ _ | Finished => None
  end.

(** What [Stats] returns. *)
Definition stats_rate (calls failures : Z) : f64 := rate_of failures calls.

Record system := { injector : ErrorInjector; threads : list pc }.

Inductive step : system -> system -> Prop :=
| step_act x i p e ps e' p' : ps !! i = Some p -> act x e p = Some (e', p') ->
    step {| injector := e; threads := ps |} {| injector := e'; threads := <[i := p']> ps |}.

Definition init (probability : f64) (err : option error) (cs : list call) (s : system) : Prop :=
  s = {| injector := NewErrorInjector probability err; threads := Entering <$> cs |}.

(** ** Exact counts *)

Definition begun (p : pc) : Z := match p with Counted | Drawing _ | Failing | Decided _ => 1 | _ => 0 end.
Definition failed (p : pc) : Z := match p with Decided true => 1 | _ => 0 end.
Definition resets (p : pc) : Z := match p with Entering CReset | ResetCalls => 1 | _ => 0 end.

Record inv (s : system) : Prop := {
  no_reset : total resets (threads s) = 0;
  calls_exact : ei_calls (injector s) = total begun (threads s);
  failures_exact : failures (injector s) = total failed (threads s);
  stats_old : forall i p, threads s !! i = Some p ->
    match p with
    | StatsLoading n => n <= ei_calls (injector s)
    | StatsDone n f => n <= ei_calls (injector s) /\ f <= failures (injector s)
    | _ => True
    end
}.

Lemma chaos_inv_step s t : inv s -> step s t -> inv t.
Proof.
  intros [R C Fl St] Sp. destruct Sp as [x i p e ps e' p' L A]. cbn [injector threads] in *.
  assert (Rn : forall q, 0 <= resets q) by (intros [[]| | | | | | | |]; done).
  pose proof (total_lookup resets ps i p Rn L) as Ri.
  pose proof (total_insert resets ps i p p' L) as TR. pose proof (total_insert begun ps i p p' L) as TB.
  pose proof (total_insert failed ps i p p' L) as TF. pose proof (St i p L) as Old.
  assert (G : ei_calls e <= ei_calls e' /\ failures e <= failures e').
  { destruct p as [[]| | | | | | | |]; cbn in A; simplify_eq; cbn in *; lia. }
  split; cbn [injector threads].
  - destruct p as [[]| | | | | | | |]; cbn in A; simplify_eq; cbn in *; try lia. destruct (fltb x prob); cbn in *; lia.
  - destruct p as [[]| | | | | | | |]; cbn in A; simplify_eq; cbn in *; try lia. destruct (fltb x prob); cbn in *; lia.
  - destruct p as [[]| | | | | | | |]; cbn in A; simplify_eq; cbn in *; try lia. destruct (fltb x prob); cbn in *; lia.
  - intros j q. rewrite list_lookup_insert. case_decide as D.
    + intros [= <-]. destruct p as [[]| | | | | | | |]; cbn in A; simplify_eq; cbn in *; try done; try lia. by destruct (fltb x prob).
    + intros Hq. pose proof (St j q Hq) as Q. destruct q; try done; lia.
Qed.

(** The statistics of a shared injector are exact.  However many goroutines
    ask it, configure it and read its statistics at once, if nobody resets
    it: [calls] is the number of calls of [ShouldFail] that have begun,
    [failures] the number of those that answered true, so that a rate read at
    rest lies between 0 and 1; and statistics read in the meantime count no
    call and no failure that did not happen. *)
Theorem injector_counts probability err cs s :
  CReset ∉ cs -> reachable (init probability err cs) step s ->
  ei_calls (injector s) = total begun (threads s) /\
  failures (injector s) = total failed (threads s) /\
  0 <= failures (injector s) <= ei_calls (injector s) /\
  (forall i n f, threads s !! i = Some (StatsDone n f) -> n <= ei_calls (injector s) /\ f <= failures (injector s)).
Proof.
  intros NR R. assert (I : inv s).
  { revert s R. apply invariant_reachable; [|apply chaos_inv_step]. intros s ->.
    assert (Z : forall g, (forall c, c <> CReset -> g (Entering c) = 0) -> total g (Entering <$> cs) = 0).
    { intros g G. clear -NR G. induction cs as [|c cs IH]; [done|]. rewrite not_elem_of_cons in NR. destruct NR as [N NR].
      cbn. rewrite (G c), (IH NR); [done|]. by intros ->. }
    split; cbn [injector threads NewErrorInjector ei_calls failures].
    - apply Z. by intros [].
    - symmetry. by apply Z.
    - symmetry. by apply Z.
    - intros i p Hi. rewrite list_lookup_fmap in Hi. destruct (cs !! i); [|done]. by injection Hi as <-. }
  destruct I as [_ C Fl St]. split_and!; try done.
  - rewrite Fl. apply total_nonneg. by intros [| | | |[]| | | |].
  - rewrite C, Fl. clear. induction (threads s) as [|p l IH]; [done|]. cbn. destruct p as [| | | |[]| | | |]; cbn; lia.
  - intros i n f Hi. exact (St i _ Hi).
Qed.

(** ** What statistics read on the way, and resets, can show *)

Fixpoint run (s : system) (sched : list (nat * f64)) : option system :=
  match sched with
  | [] => Some s
  | (i, x) :: sched =>
      match threads s !! i with
      | None => None
      | Some p =>
          match act x (injector s) p with
          | None => None
          | Some (e, p') => run {| injector := e; threads := <[i := p']> (threads s) |} sched
          end
      end
  end.

Lemma chaos_run_reaches I s sched t : reachable I step s -> run s sched = Some t -> reachable I step t.
Proof.
  revert s. induction sched as [|[i x] sched IH]; cbn; intros s R E; [by injection E as <-|].
  destruct (threads s !! i) as [p|] eqn:L; [|done]. destruct (act x (injector s) p) as [[e p']|] eqn:A; [|done].
  refine (IH _ _ E). apply (reach_step _ _ _ _ R). destruct s. by eapply step_act.
Qed.

Definition begin (cs : list call) : system :=
  {| injector := NewErrorInjector (f_of_Z 1) None; threads := Entering <$> cs |}.

Definition turns (i n : nat) : list (nat * f64) := replicate n (i, f_of_Z 0).

Definition play (cs : list call) (sched : list (nat * f64)) : system := default (begin cs) (run (begin cs) sched).

(** [Stats] loads the calls, two calls fail, and it loads the failures: it
    reports a rate of 2. *)
Lemma stats_rate_above_one :
  let cs := [CShouldFail; CStats; CShouldFail] in let sched := turns 0 4 ++ turns 1 1 ++ turns 2 4 ++ turns 1 1 in
  run (begin cs) sched = Some (play cs sched) /\
  threads (play cs sched) = [Decided true; StatsDone 1 2; Decided true] /\ stats_rate 1 2 = f_of_Z 2.
Proof. vm_compute. repeat split. Qed.

(** A [Reset] in the middle of a call that fails leaves more failures than
    calls, also at rest. *)
Lemma reset_leaves_failures :
  let cs := [CShouldFail; CReset] in let sched := turns 0 3 ++ turns 1 2 ++ turns 0 1 in
  run (begin cs) sched = Some (play cs sched) /\
  threads (play cs sched) = [Decided true; Finished] /\
  ei_calls (injector (play cs sched)) = 0 /\ failures (injector (play cs sched)) = 1.
Proof. vm_compute. repeat split. Qed.

Lemma injector_counts_witness :
  let cs := [CShouldFail; CStats; CShouldFail] in let sched := turns 0 4 ++ turns 1 1 ++ turns 2 3 in
  let s := play cs sched in
  threads s = [Decided true; StatsLoading 1; Failing] /\ ei_calls (injector s) = 2 /\
  0 <= failures (injector s) <= ei_calls (injector s).
Proof.
  intros cs sched s. split; [vm_compute; reflexivity|]. split; [vm_compute; reflexivity|].
  apply (injector_counts (f_of_Z 1) None cs s).
  - unfold cs. rewrite !not_elem_of_cons. split_and!; try done. apply not_elem_of_nil.
  - eapply (chaos_run_reaches _ (begin cs) sched); [by apply reach_init|vm_compute; reflexivity].
Defined.
