(* ===== verification/Performance.v ===== *)
(** The tracker of benchmark results ([testing/performance.go]).

    Arguments: the JSON codec, of which the round trip assumes what
    encoding/json documents ([decodes]: strings come back with U+FFFD for their
    invalid bytes), and the file system, whose operations may fail ([os]); the order in which a map is ranged over; the texts of times
    ([Format]); [uint64] of an out-of-range float. *)

From Stdlib Require Import QArith Lqa Ascii.
From S2P Require Import Prelude Float64 Errors Runtime Utf8.

#[local] Open Scope Z_scope.
#[local] Open Scope go_scope.

(** ** Data *)

Record BenchmarkResult := {
  Name : string;
  GitCommit : string;
  GitBranch : string;
  GoVersion : string;
  OS : string;
  Arch : string;
  CPUModel : string;
  r_Timestamp : Z;
  NsPerOp : f64;
  AllocsPerOp : Z; (* uint64, as the next two *)
  BytesPerOp : Z;
  MemoryTotal : Z;
  IterationCount : Z
}.

Record BenchmarkReport := {
  Results : list BenchmarkResult;
  Metadata : gmap string string;
  br_Timestamp : Z
}.

Record PerformanceBaseline := {
  b_Name : string;
  Description : string;
  MaxNsPerOp : f64;
  MaxAllocs : Z;
  MaxBytes : Z
}.

Record RegressionThresholds := {
  TimeIncrease : f64;
  AllocIncrease : f64;
  BytesIncrease : f64;
  AbsoluteMaxNsPerOp : f64
}.

Definition DefaultRegressionThresholds : RegressionThresholds := {|
  TimeIncrease := f_ratio 110 100;
  AllocIncrease := f_ratio 120 100;
  BytesIncrease := f_ratio 115 100;
  AbsoluteMaxNsPerOp := f_of_Z 0
|}.

Record PerformanceRegression := {
  BenchmarkName : string;
  Metric : string;
  Severity : string;
  BaselineValue : f64;
  CurrentValue : f64;
  Increase : f64;
  Threshold : f64
}.

Record RegressionReport := {
  Regressions : list PerformanceRegression;
  rr_Timestamp : Z;
  TotalChecks : Z;
  Passed : Z;
  Failed : Z
}.

Record PerformanceTracker := {
  resultsDir : string;
  baselines : gmap string PerformanceBaseline;
  thresholds : RegressionThresholds
}.

Definition NewPerformanceTracker (dir : string) : PerformanceTracker :=
  {| resultsDir := dir; baselines := ∅; thresholds := DefaultRegressionThresholds |}.

Definition SetThresholds (t : RegressionThresholds) (pt : PerformanceTracker) : PerformanceTracker :=
  {| resultsDir := resultsDir pt; baselines := baselines pt; thresholds := t |}.

Definition AddBaseline (b : PerformanceBaseline) (pt : PerformanceTracker) : PerformanceTracker :=
  {| resultsDir := resultsDir pt; baselines := <[b_Name b := b]> (baselines pt); thresholds := thresholds pt |}.

(** ** Checking *)

Section Check.
Context (oob : Z).

Definition f_one : f64 := f_of_Z 1.
Definition hundred : f64 := f_of_Z 100.

Definition regression (name metric severity : string) (base current threshold : f64) : PerformanceRegression := {|
  BenchmarkName := name; Metric := metric; Severity := severity; BaselineValue := base; CurrentValue := current;
  Increase := fmul (fsub (fdiv current base) f_one) hundred; Threshold := fmul (fsub threshold f_one) hundred |}.

(** The body of the loop of [CheckRegressions], up to its first [continue]:
    the regression it appends. *)
Definition check_time (t : RegressionThresholds) (b : PerformanceBaseline) (r : BenchmarkResult) : option PerformanceRegression :=
  if fltb (f_of_Z 0) (MaxNsPerOp b) && fltb (fmul (MaxNsPerOp b) (TimeIncrease t)) (NsPerOp r) then
    let severity := if fltb (f_of_Z 0) (AbsoluteMaxNsPerOp t) && fltb (AbsoluteMaxNsPerOp t) (NsPerOp r)
                    then "critical"%string else "warning"%string in
    Some (regression (Name r) "time" severity (MaxNsPerOp b) (NsPerOp r) (TimeIncrease t))
  else None.

Definition check_allocs (t : RegressionThresholds) (b : PerformanceBaseline) (r : BenchmarkResult) : option PerformanceRegression :=
  if (MaxAllocs b >? 0) && (AllocsPerOp r >? f_to_uint64 oob (fmul (f_of_Z (MaxAllocs b)) (AllocIncrease t)))
  then Some (regression (Name r) "allocs" "warning" (f_of_Z (MaxAllocs b)) (f_of_Z (AllocsPerOp r)) (AllocIncrease t))
  else None.

Definition check_bytes (t : RegressionThresholds) (b : PerformanceBaseline) (r : BenchmarkResult) : option PerformanceRegression :=
  if (MaxBytes b >? 0) && (BytesPerOp r >? f_to_uint64 oob (fmul (f_of_Z (MaxBytes b)) (BytesIncrease t)))
  then Some (regression (Name r) "bytes" "warning" (f_of_Z (MaxBytes b)) (f_of_Z (BytesPerOp r)) (BytesIncrease t))
  else None.

Definition failed (g : PerformanceRegression) (rep : RegressionReport) : RegressionReport := {|
  Regressions := Regressions rep ++ [g]; rr_Timestamp := rr_Timestamp rep; TotalChecks := TotalChecks rep;
  Passed := Passed rep; Failed := Failed rep + 1 |}.

Definition passed (rep : RegressionReport) : RegressionReport := {|
  Regressions := Regressions rep; rr_Timestamp := rr_Timestamp rep; TotalChecks := TotalChecks rep;
  Passed := Passed rep + 1; Failed := Failed rep |}.

Definition check_one (pt : PerformanceTracker) (rep : RegressionReport) (r : BenchmarkResult) : RegressionReport :=
  match baselines pt !! Name r with
  | None => rep
  | Some b =>
      match check_time (thresholds pt) b r with
      | Some g => failed g rep
      | None =>
          match check_allocs (thresholds pt) b r with
          | Some g => failed g rep
          | None =>
              match check_bytes (thresholds pt) b r with
              | Some g => failed g rep
              | None => passed rep
              end
          end
      end
  end.

Definition CheckRegressions (now : Z) (results : list BenchmarkResult) (pt : PerformanceTracker) : RegressionReport :=
  foldl (check_one pt)
    {| Regressions := []; rr_Timestamp := now; TotalChecks := Z.of_nat (length results); Passed := 0; Failed := 0 |} results.

(** [Sprintf] of the time of the run. *)
Context (Format : Z -> string).

Definition generated (r : BenchmarkResult) (safetyFactor : f64) : PerformanceBaseline := {|
  b_Name := Name r;
  MaxNsPerOp := fmul (NsPerOp r) safetyFactor;
  MaxAllocs := f_to_uint64 oob (fmul (f_of_Z (AllocsPerOp r)) safetyFactor);
  MaxBytes := f_to_uint64 oob (fmul (f_of_Z (BytesPerOp r)) safetyFactor);
  Description := "Generated from benchmark run at " +:+ Format (r_Timestamp r)
|}.

Definition GenerateBaselineFromResults (results : list BenchmarkResult) (safetyFactor : f64) (pt : PerformanceTracker) :
    PerformanceTracker :=
  let safetyFactor := if fltb safetyFactor f_one then f_one else safetyFactor in
  foldl (fun pt r => AddBaseline (generated r safetyFactor) pt) pt results.
End Check.

(** ** Comparing *)

Definition change (base current : f64) : f64 := fmul (fsub (fdiv current base) f_one) hundred.

(** The changes of one benchmark. *)
Definition bench_changes (base cur : BenchmarkResult) : gmap string f64 :=
  let m := ∅ in
  let m := if fltb (f_of_Z 0) (NsPerOp base) then <["time_change"%string := change (NsPerOp base) (NsPerOp cur)]> m else m in
  let m := if AllocsPerOp base >? 0
           then <["allocs_change"%string := change (f_of_Z (AllocsPerOp base)) (f_of_Z (AllocsPerOp cur))]> m else m in
  if BytesPerOp base >? 0
  then <["bytes_change"%string := change (f_of_Z (BytesPerOp base)) (f_of_Z (BytesPerOp cur))]> m else m.

Definition CompareReports (baseline current : BenchmarkReport) : gmap string (gmap string f64) :=
  let baselineMap : gmap string BenchmarkResult := foldl (fun m r => <[Name r := r]> m) ∅ (Results baseline) in
  foldl (fun changes cur =>
      match baselineMap !! Name cur with
      | None => changes
      | Some base => <[Name cur := bench_changes base cur]> changes
      end) ∅ (Results current).

(** ** Files *)

Record entry := { e_Name : string; IsDir : bool; ModTime : option Z (* [Info] may fail *) }.

(** The calls of package os; a [None] is success. *)
Record os (W : Type) := {
  ReadFile : string -> M W (string + error);
  WriteFile : string -> string -> M W (option error);
  MkdirAll : string -> M W (option error);
  ReadDir : string -> M W (list entry + error)
}.

Arguments ReadFile {W}.
Arguments WriteFile {W}.
Arguments MkdirAll {W}.
Arguments ReadDir {W}.

(** [json.MarshalIndent] and [json.Unmarshal] at a type. *)
Record codec (A : Type) := { Marshal : A -> string + error; Unmarshal : string -> A + error }.

Arguments Marshal {A}.
Arguments Unmarshal {A}.

Section Files.
Context {W : Type} (fs : os W) (baselines_json : codec (list PerformanceBaseline)) (report_json : codec BenchmarkReport).
(** [for ... range] over the map of baselines; [filepath.Join]; the time in
    the name of a report. *)
Context (range : gmap string PerformanceBaseline -> list PerformanceBaseline).
Context (Join : string -> string -> string) (stamp : Z -> string).

Definition LoadBaselines (path : string) (pt : PerformanceTracker) : M W (option error * PerformanceTracker) :=
  let! data := ReadFile fs path in
  ret match data with
      | inr err => (Some (EWrap "failed to read baselines: %w" [err]), pt)
      | inl data =>
          match Unmarshal baselines_json data with
          | inr err => (Some (EWrap "failed to parse baselines: %w" [err]), pt)
          | inl l => (None, foldl (fun pt b => AddBaseline b pt) pt l)
          end
      end.

Definition SaveBaselines (path : string) (pt : PerformanceTracker) : M W (option error) :=
  match Marshal baselines_json (range (baselines pt)) with
  | inr err => ret (Some (EWrap "failed to marshal baselines: %w" [err]))
  | inl data =>
      let! err := WriteFile fs path data in
      ret match err with Some err => Some (EWrap "failed to write baselines: %w" [err]) | None => None end
  end.

Definition SaveReport (report : BenchmarkReport) (pt : PerformanceTracker) : M W (option error) :=
  let! err := MkdirAll fs (resultsDir pt) in
  match err with
  | Some err => ret (Some (EWrap "failed to create results directory: %w" [err]))
  | None =>
      let filename := Join (resultsDir pt) ("benchmark-" +:+ stamp (br_Timestamp report) +:+ ".json") in
      match Marshal report_json report with
      | inr err => ret (Some (EWrap "failed to marshal report: %w" [err]))
      | inl data =>
          let! err := WriteFile fs filename data in
          ret match err with Some err => Some (EWrap "failed to write report: %w" [err]) | None => None end
      end
  end.

(** One turn of the loop over the directory: path and time of the latest file
    so far. *)
Definition later (dir : string) (latest : string * Z) (e : entry) : string * Z :=
  if IsDir e then latest
  else match ModTime e with
       | Some t => if t >? latest.2 then (Join dir (e_Name e), t) else latest
       | None => latest
       end.

Definition LoadLatestReport (pt : PerformanceTracker) : M W (BenchmarkReport + error) :=
  let! entries := ReadDir fs (resultsDir pt) in
  match entries with
  | inr err => ret (inr (EWrap "failed to read results directory: %w" [err]))
  | inl entries =>
      let '(latestFile, _) := foldl (later (resultsDir pt)) (""%string, zero_time) entries in
      if String.eqb latestFile "" then ret (inr (ESentinel (ErrNew "no benchmark reports found")))
      else
        let! data := ReadFile fs latestFile in
        ret match data with
            | inr err => inr (EWrap "failed to read report: %w" [err])
            | inl data =>
                match Unmarshal report_json data with
                | inr err => inr (EWrap "failed to parse report: %w" [err])
                | inl report => inl report
                end
            end
  end.
End Files.

(** ** Baselines survive a save and a load *)

(** The key of a baseline is its name. *)
Definition keyed (m : gmap string PerformanceBaseline) : Prop := forall k b, m !! k = Some b -> b_Name b = k.

Definition add_all (l : list PerformanceBaseline) (m : gmap string PerformanceBaseline) : gmap string PerformanceBaseline :=
  foldl (fun m b => <[b_Name b := b]> m) m l.

Lemma keyed_insert b m : keyed m -> keyed (<[b_Name b := b]> m).
Proof. intros K k b'. rewrite lookup_insert_Some. intros [[<- <-]|[_ H]]; [done|by apply K]. Qed.

Lemma keyed_add_all l m : keyed m -> keyed (add_all l m).
Proof. revert m. induction l as [|b l IH]; intros m K; [done|]. apply IH, keyed_insert, K. Qed.

Lemma baselines_foldl l pt : baselines (foldl (fun pt b => AddBaseline b pt) pt l) = add_all l (baselines pt).
Proof. revert pt. induction l as [|b l IH]; intros pt; [done|]. cbn. by rewrite IH. Qed.

(** Adding baselines with distinct names, in any order. *)
Lemma add_all_lookup l m k :
  NoDup (map b_Name l) ->
  add_all l m !! k = match List.find (fun b => String.eqb (b_Name b) k) l with Some b => Some b | None => m !! k end.
Proof.
  revert m. induction l as [|b l IH]; intros m N; [done|]. inversion N as [|x y N1 N2]; subst.
  change (add_all (b :: l) m) with (add_all l (<[b_Name b := b]> m)). rewrite IH by done. cbn [List.find].
  destruct (String.eqb_spec (b_Name b) k) as [<-|Ne].
  - destruct (List.find _ l) as [b'|] eqn:F.
    + apply find_some in F as [I E]. apply String.eqb_eq in E. exfalso. apply N1. rewrite <- E.
      apply list_elem_of_In. by apply in_map.
    + by rewrite lookup_insert_eq.
  - destruct (List.find _ l) as [b'|]; [done|]. by rewrite lookup_insert_ne.
Qed.

(** The values of a keyed map, in any order. *)
Lemma add_all_values l m m0 :
  keyed m -> l ≡ₚ (map_to_list m).*2 -> add_all l m0 = m ∪ m0.
Proof.
  intros K P. assert (Names : map b_Name l ≡ₚ (map_to_list m).*1).
  { rewrite P. assert (E : forall kl : list (string * PerformanceBaseline), Forall (fun kb => b_Name kb.2 = kb.1) kl ->
      map b_Name kl.*2 = kl.*1) by (induction 1 as [|x kl' E _ IH]; cbn; by f_equal).
    rewrite E; [done|]. rewrite Forall_forall. intros [k b] H. apply elem_of_map_to_list in H. by apply K. }
  assert (N : NoDup (map b_Name l)) by (rewrite Names; apply NoDup_fst_map_to_list).
  assert (In_l : forall b, b ∈ l <-> m !! b_Name b = Some b).
  { intros b. rewrite P. rewrite list_elem_of_fmap. split.
    - intros ([k b'] & -> & H). apply elem_of_map_to_list in H. cbn. by rewrite (K _ _ H).
    - intros H. exists (b_Name b, b). split; [done|]. by apply elem_of_map_to_list. }
  apply map_eq. intros k. rewrite add_all_lookup by done. rewrite lookup_union.
  destruct (List.find _ l) as [b|] eqn:F.
  - apply find_some in F as [I E]. apply String.eqb_eq in E as <-. apply list_elem_of_In, In_l in I. rewrite I.
    by destruct (m0 !! b_Name b).
  - destruct (m !! k) as [b|] eqn:E; [|by destruct (m0 !! k)]. exfalso.
    pose proof (K _ _ E) as <-. apply In_l, list_elem_of_In in E. apply (find_none _ _ F) in E.
    by rewrite String.eqb_refl in E.
Qed.

Lemma added_frame l pt :
  resultsDir (foldl (fun pt b => AddBaseline b pt) pt l) = resultsDir pt /\
  thresholds (foldl (fun pt b => AddBaseline b pt) pt l) = thresholds pt.
Proof. revert pt. induction l as [|b l IH]; intros pt; [done|]. cbn. by destruct (IH (AddBaseline b pt)) as [-> ->]. Qed.

Lemma ranged_all (P : PerformanceBaseline -> Prop) l (m : gmap string PerformanceBaseline) :
  l ≡ₚ (map_to_list m).*2 -> (forall k b, m !! k = Some b -> P b) -> Forall P l.
Proof.
  intros Pm H. rewrite Pm. rewrite Forall_forall. intros b I. apply list_elem_of_fmap in I as ([k b'] & -> & I).
  apply elem_of_map_to_list in I. by apply (H k).
Qed.

Lemma generated_baselines oob Format l s pt :
  exists s', baselines (GenerateBaselineFromResults oob Format l s pt) =
    add_all (map (fun r => generated oob Format r s') l) (baselines pt) /\ s' = (if fltb s f_one then f_one else s) /\
    thresholds (GenerateBaselineFromResults oob Format l s pt) = thresholds pt.
Proof.
  exists (if fltb s f_one then f_one else s). unfold GenerateBaselineFromResults.
  set (s' := if fltb s f_one then f_one else s). split; [|split; [done|]]; clearbody s'.
  - revert pt. induction l as [|r l IH]; intros pt; [done|]. cbn. by rewrite IH.
  - revert pt. induction l as [|r l IH]; intros pt; [done|]. cbn. by rewrite IH.
Qed.

(** What JSON keeps of a string: every invalid byte is U+FFFD. *)
Definition json_string (s : string) : string := of_bytes (encode (decode (bytes s))).

Definition as_json (b : PerformanceBaseline) : PerformanceBaseline := {|
  b_Name := json_string (b_Name b); Description := json_string (Description b);
  MaxNsPerOp := MaxNsPerOp b; MaxAllocs := MaxAllocs b; MaxBytes := MaxBytes b |}.

(** The strings of a baseline are valid UTF-8. *)
Definition valid_text (b : PerformanceBaseline) : Prop :=
  json_string (b_Name b) = b_Name b /\ json_string (Description b) = Description b.

(** The fields have the values of their Go types: float64 and uint64. *)
Definition go_value (b : PerformanceBaseline) : Prop :=
  match MaxNsPerOp b with FFin q => rnd q = FFin q | _ => True end /\
  0 <= MaxAllocs b < 2 ^ 64 /\ 0 <= MaxBytes b < 2 ^ 64.

Lemma as_json_valid l : Forall valid_text l -> as_json <$> l = l.
Proof. induction 1 as [|[n d m a b] l [N D] F IH]; [done|]. cbn in *. unfold as_json at 1. cbn. by rewrite N, D, IH. Qed.

Section Files.
Context {W : Type} (fs : os W) (baselines_json : codec (list PerformanceBaseline)).
Context (range : gmap string PerformanceBaseline -> list PerformanceBaseline).

(** A file that was written has what was written. *)
Definition reads_back : Prop := forall path data w,
  (WriteFile fs path data w).1 = None -> (ReadFile fs path (WriteFile fs path data w).2).1 = inl data.

(** What package [encoding/json] documents: [Marshal] replaces invalid UTF-8 in
    strings by U+FFFD (and fails for a float that is not finite), and of the rest
    [Unmarshal] restores every field of a Go value. *)
Definition decodes : Prop := forall l d, Forall go_value l ->
  Marshal baselines_json l = inl d -> Unmarshal baselines_json d = inl (as_json <$> l).

(** A map is ranged over in some order. *)
Definition ranges : Prop := forall m, range m ≡ₚ (map_to_list m).*2.

(** C22: Baselines survive a save and a load.  When [SaveBaselines] succeeds,
    [LoadBaselines] of the same file into any tracker succeeds; its directory and
    thresholds stay, and the baselines it has then are its own, overwritten by
    those the file has, which are the saved ones as JSON keeps them.  When names
    and descriptions are valid UTF-8 these are exactly the saved ones,
    whatever the order in which the map was written.  Every tracker that was
    built by the operations of the package files its baselines under their
    names, as this needs. *)
Theorem baselines_roundtrip path pt pt' w :
  reads_back -> decodes -> ranges -> keyed (baselines pt) -> (forall k b, baselines pt !! k = Some b -> go_value b) ->
  (SaveBaselines fs baselines_json range path pt w).1 = None ->
  exists pt'', (LoadBaselines fs baselines_json path pt' (SaveBaselines fs baselines_json range path pt w).2).1 = (None, pt'') /\
    resultsDir pt'' = resultsDir pt' /\ thresholds pt'' = thresholds pt' /\
    baselines pt'' = add_all (as_json <$> range (baselines pt)) (baselines pt') /\
    ((forall k b, baselines pt !! k = Some b -> valid_text b) ->
       baselines pt'' = baselines pt ∪ baselines pt' /\
       (forall k, baselines pt' = ∅ -> baselines pt'' !! k = baselines pt !! k)) /\
    keyed (baselines (NewPerformanceTracker path)) /\
    (forall b, keyed (baselines (AddBaseline b pt))) /\
    (forall oob Format l s, keyed (baselines (GenerateBaselineFromResults oob Format l s pt))).
Proof.
  intros R D P K T. unfold SaveBaselines. destruct (Marshal baselines_json _) as [data|err] eqn:Mr; [|done].
  unfold bind, ret. cbn [fst snd]. destruct (WriteFile fs path data w).1 as [err|] eqn:E; [done|]. intros _.
  assert (Ft : Forall go_value (range (baselines pt))) by (apply (ranged_all go_value _ (baselines pt)); auto).
  unfold LoadBaselines, bind, ret. cbn [fst snd]. rewrite (R _ _ _ E), (D _ _ Ft Mr).
  eexists. split; [reflexivity|]. destruct (added_frame (as_json <$> range (baselines pt)) pt') as [-> ->].
  rewrite baselines_foldl. split; [done|]. split; [done|]. split; [done|]. split.
  { intros Vt. assert (Fv : Forall valid_text (range (baselines pt))) by (apply (ranged_all valid_text _ (baselines pt)); auto).
    rewrite as_json_valid, (add_all_values _ (baselines pt)) by auto.
    split; [done|]. intros k ->. by rewrite right_id_L by apply _. }
  split; [intros k b H; by destruct (lookup_empty_Some _ _ H)|].
  split; [intros b; by apply keyed_insert|]. intros oob Format l s.
  destruct (generated_baselines oob Format l s pt) as (s' & -> & _). by apply keyed_add_all.
Qed.
End Files.

(** ** The report *)

(** The first metric of a benchmark that regressed. *)
Definition first_regression (oob : Z) (pt : PerformanceTracker) (r : BenchmarkResult) : option PerformanceRegression :=
  b ← baselines pt !! Name r;
  match check_time (thresholds pt) b r with
  | Some g => Some g
  | None => match check_allocs oob (thresholds pt) b r with Some g => Some g | None => check_bytes oob (thresholds pt) b r end
  end.

Definition known (pt : PerformanceTracker) (r : BenchmarkResult) : bool :=
  match baselines pt !! Name r with Some _ => true | None => false end.

(** The report of [CheckRegressions] counts every result once: a result
    without a baseline is skipped, any other passes or fails; the regressions
    are those of the failed results, in order, one for each: the first of
    time, allocations and bytes that exceeds its baseline times its threshold. *)
Theorem check_report_exact oob now results pt :
  let rep := CheckRegressions oob now results pt in
  Regressions rep = omap (first_regression oob pt) results /\
  Failed rep = Z.of_nat (length (Regressions rep)) /\
  Passed rep + Failed rep = Z.of_nat (length (List.filter (known pt) results)) /\
  TotalChecks rep = Z.of_nat (length results) /\ Passed rep + Failed rep <= TotalChecks rep /\ rr_Timestamp rep = now.
Proof.
  cbv zeta. unfold CheckRegressions. set (n := Z.of_nat (length results)).
  assert (X : forall rep, let rep' := foldl (check_one oob pt) rep results in
    Regressions rep' = Regressions rep ++ omap (first_regression oob pt) results /\
    Failed rep' = Failed rep + Z.of_nat (length (omap (first_regression oob pt) results)) /\
    Passed rep' + Failed rep' = Passed rep + Failed rep + Z.of_nat (length (List.filter (known pt) results)) /\
    TotalChecks rep' = TotalChecks rep /\ rr_Timestamp rep' = rr_Timestamp rep).
  { clear n. induction results as [|r l IH]; intros rep; cbn [foldl omap list_omap List.filter length].
    - rewrite app_nil_r. repeat split; cbn; lia.
    - destruct (IH (check_one oob pt rep r)) as (I1 & I2 & I3 & I4 & I5). rewrite I1, I3, I2, I4, I5. clear IH I1 I2 I3 I4 I5.
      assert (Kn : known pt r = match baselines pt !! Name r with Some _ => true | None => false end) by done.
      assert (F : first_regression oob pt r = (b ← baselines pt !! Name r;
        match check_time (thresholds pt) b r with
        | Some g => Some g
        | None => match check_allocs oob (thresholds pt) b r with Some g => Some g | None => check_bytes oob (thresholds pt) b r end
        end)) by done.
      rewrite Kn, F. unfold check_one. clear Kn F. destruct (baselines pt !! Name r) as [b|]; cbn [mbind option_bind].
      2: by repeat split.
      destruct (check_time _ _ _); [|destruct (check_allocs _ _ _ _); [|destruct (check_bytes _ _ _ _)]];
        cbn [failed passed Regressions Failed Passed TotalChecks rr_Timestamp length];
        rewrite <- ?app_assoc; repeat split; try done; lia. }
  destruct (X {| Regressions := []; rr_Timestamp := now; TotalChecks := n; Passed := 0; Failed := 0 |}) as (X1 & X2 & X3 & X4 & X5).
  cbn [Regressions Failed Passed TotalChecks rr_Timestamp app] in *. rewrite X1, X4, X5, X3, X2.
  repeat split; try lia. pose proof (List.filter_length_le (known pt) results). unfold n. lia.
Qed.

(** ** Generated baselines *)

Definition factor (f : f64) : Prop := exists q, f = FFin q /\ (1 <= q)%Q /\ (q <= 1000)%Q.

(** A result of a benchmark: a finite time, counts below [2^32]. *)
Record measured (r : BenchmarkResult) : Prop := {
  ms_time : exists q, NsPerOp r = FFin q /\ rnd q = FFin q /\ (0 <= q)%Q;
  ms_allocs : 0 <= AllocsPerOp r < 2 ^ 32;
  ms_bytes : 0 <= BytesPerOp r < 2 ^ 32
}.

(** A product with factors of at least one. *)
Lemma fmul_grows a y t :
  rnd a = FFin a -> (0 <= a)%Q -> fleb (FFin a) y = true -> factor t -> fleb (FFin a) (fmul y t) = true.
Proof.
  intros Ra A L (q & -> & Q1 & _). destruct y as [|[]|v]; try done; cbn [fmul].
  - unfold qzero, qsign. destruct (Qcompare_spec q 0); [lra|lra|done].
  - rewrite <- Ra. apply rnd_mono. cbn in L. apply Qle_bool_iff in L. nra.
Qed.

Lemma f_to_uint64_between oob lo hi x :
  0 <= lo -> hi < 2 ^ 53 -> between lo hi x -> lo <= f_to_uint64 oob x <= hi.
Proof.
  intros H0 H1 (q & -> & L & U). pose proof (ftrunc_between lo hi q H0 L U) as B. unfold f_to_uint64, f_to_int.
  destruct (Z.leb_spec 0 (ftrunc q)), (Z.leb_spec (ftrunc q) (2 ^ 64 - 1)); cbn; lia.
Qed.

Lemma count_grows oob a t : 0 <= a < 2 ^ 43 -> factor t -> a <= f_to_uint64 oob (fmul (f_of_Z a) t) <= 1000 * a.
Proof.
  intros A (q & -> & Q1 & Q2). assert (A0 : (0 <= inject_Z a)%Q) by (change 0%Q with (inject_Z 0); rewrite <- Zle_Qle; lia).
  rewrite f_of_Z_exact by lia. cbn [fmul]. apply f_to_uint64_between; [lia|lia|].
  apply rnd_between; [lia|lia|nra|]. rewrite inject_Z_mult. change (inject_Z 1000) with 1000%Q. nra.
Qed.

(** A run is accepted by the baselines generated from it: for results with
    distinct names, any safety factor and thresholds between 1 and 1000 (a
    smaller factor counts as 1), [CheckRegressions] right after
    [GenerateBaselineFromResults] passes every result and reports nothing,
    whatever the rounding of the products and truncations. *)
Theorem generated_baseline_accepts oob Format now results sf pt :
  NoDup (map Name results) -> Forall measured results ->
  fltb sf f_one = true \/ factor sf ->
  factor (TimeIncrease (thresholds pt)) -> factor (AllocIncrease (thresholds pt)) -> factor (BytesIncrease (thresholds pt)) ->
  let rep := CheckRegressions oob now results (GenerateBaselineFromResults oob Format results sf pt) in
  Regressions rep = [] /\ Passed rep = Z.of_nat (length results) /\ Failed rep = 0.
Proof.
  intros N M S FT FA FB. destruct (generated_baselines oob Format results sf pt) as (s' & E & Es & Et).
  set (pt' := GenerateBaselineFromResults oob Format results sf pt) in *.
  assert (Fs : factor s').
  { rewrite Es. destruct S as [-> |F]; [|destruct (fltb sf f_one); [|done]]; exists 1%Q; (split; [reflexivity|split; lra]). }
  assert (L : forall r, r ∈ results -> baselines pt' !! Name r = Some (generated oob Format r s')).
  { intros r I. rewrite E, add_all_lookup by (by rewrite map_map).
    clear E. revert N I. clear. induction results as [|r0 l IH]; intros N I; [by apply not_elem_of_nil in I|].
    cbn [map List.find b_Name generated]. destruct (String.eqb_spec (Name r0) (Name r)) as [En|Ne].
    - apply elem_of_cons in I as [->|I]; [done|]. exfalso. inversion N as [|x y N1 N2]; subst. apply N1. rewrite En.
      apply list_elem_of_In, in_map. by apply list_elem_of_In.
    - apply elem_of_cons in I as [->|I]; [done|]. apply IH; [by inversion N|done]. }
  assert (None_regress : Forall (fun r => first_regression oob pt' r = None /\ known pt' r = true) results).
  { rewrite Forall_forall in M |- *. intros r I. unfold first_regression, known. rewrite (L r I). split; [|done]. cbn [mbind option_bind].
    destruct (M r I) as [(q & Eq & Rq & Q0) A B]. rewrite Et.
    unfold check_time, check_allocs, check_bytes. cbn [generated MaxNsPerOp MaxAllocs MaxBytes]. rewrite Eq.
    rewrite (fleb_fltb_false (FFin q) (fmul (fmul (FFin q) s') _)).
    2: { apply fmul_grows; try done. apply fmul_grows; try done. cbn. apply Qle_bool_iff. lra. }
    rewrite andb_false_r.
    assert (C : forall a t, 0 <= a < 2 ^ 32 -> factor t ->
      (a >? f_to_uint64 oob (fmul (f_of_Z (f_to_uint64 oob (fmul (f_of_Z a) s'))) t)) = false).
    { intros a t Ha Ht. pose proof (count_grows oob a s' ltac:(lia) Fs) as G1.
      set (M1 := f_to_uint64 oob (fmul (f_of_Z a) s')) in *. pose proof (count_grows oob M1 t ltac:(lia) Ht) as G2. zcases; [lia|done]. }
    rewrite (C (AllocsPerOp r)), (C (BytesPerOp r)) by done. by rewrite !andb_false_r. }
  pose proof (check_report_exact oob now results pt') as X. cbv zeta in X. cbv zeta.
  destruct X as (X1 & X2 & X3 & _).
  assert (O : omap (first_regression oob pt') results = [] /\ List.filter (known pt') results = results).
  { revert None_regress. generalize pt'. clear. intros pt' H. induction H as [|r l [R K] _ [IH1 IH2]]; [done|].
    cbn. by rewrite R, K, IH1, IH2. }
  destruct O as [O1 O2]. rewrite X1, O1 in *. rewrite O2 in X3. cbn in X2. split; [done|]. lia.
Qed.

(** ** The latest report *)

(** [LoadLatestReport] reads a file whose time no other file's exceeds. *)
Lemma later_latest Join dir es p0 :
  let p := foldl (later Join dir) p0 es in
  p0.2 <= p.2 /\ (forall e t, e ∈ es -> IsDir e = false -> ModTime e = Some t -> t <= p.2) /\
  (p = p0 \/ exists e t, e ∈ es /\ IsDir e = false /\ ModTime e = Some t /\ p = (Join dir (e_Name e), t)).
Proof.
  revert p0. induction es as [|e es IH]; intros p0; cbn [foldl].
  { split; [lia|]. split; [|by left]. intros e t I. by apply not_elem_of_nil in I. }
  destruct (IH (later Join dir p0 e)) as (A & B & C). clear IH.
  assert (D : p0.2 <= (later Join dir p0 e).2 /\ (forall t, IsDir e = false -> ModTime e = Some t -> t <= (later Join dir p0 e).2) /\
    (later Join dir p0 e = p0 \/ exists t, IsDir e = false /\ ModTime e = Some t /\ later Join dir p0 e = (Join dir (e_Name e), t))).
  { unfold later. destruct (IsDir e); [split; [lia|]; split; [done|by left]|].
    destruct (ModTime e) as [u|]; [|split; [lia|]; split; [done|by left]]. zcases; cbn [snd].
    - split; [lia|]. split; [intros t _ [= ->]; lia|]. right. by exists u.
    - split; [lia|]. split; [intros t _ [= ->]; lia|by left]. }
  destruct D as (D1 & D2 & D3). split; [lia|]. split.
  - intros e' t I Hd Ht. apply elem_of_cons in I as [->|I]; [specialize (D2 t Hd Ht); lia|by apply (B e')].
  - destruct C as [C|(e' & t & I & Hd & Ht & C)].
    + rewrite C. destruct D3 as [->|(t & Hd & Ht & ->)]; [by left|]. right. exists e, t. split; [left|done].
    + right. exists e', t. split; [by right|done].
Qed.

(** ** Examples *)

Module Demo.
Definition result (name : string) (ns allocs bytes : Z) : BenchmarkResult := {|
  Name := name; GitCommit := ""; GitBranch := ""; GoVersion := ""; OS := ""; Arch := ""; CPUModel := ""; r_Timestamp := 0;
  NsPerOp := f_of_Z ns; AllocsPerOp := allocs; BytesPerOp := bytes; MemoryTotal := 0; IterationCount := 1 |}.

Definition run : list BenchmarkResult := [result "Execute" 120 3 64; result "Chain" 450 7 512].

(** A codec: the list as JSON keeps it, as a number, in binary digits. *)
Definition f64_code (f : f64) : option bool + Z * positive :=
  match f with FNaN => inl None | FInf n => inl (Some n) | FFin q => inr (Qnum q, Qden q) end.
Definition f64_of (c : option bool + Z * positive) : f64 :=
  match c with inl None => FNaN | inl (Some n) => FInf n | inr (n, d) => FFin (n # d) end.

Lemma f64_of_code f : f64_of (f64_code f) = f.
Proof. by destruct f as [| |[n d]]. Qed.

Definition fields (b : PerformanceBaseline) : string * string * (option bool + Z * positive) * Z * Z :=
  (b_Name b, Description b, f64_code (MaxNsPerOp b), MaxAllocs b, MaxBytes b).
Definition of_fields (t : string * string * (option bool + Z * positive) * Z * Z) : PerformanceBaseline :=
  let '(n, d, m, a, b) := t in
  {| b_Name := n; Description := d; MaxNsPerOp := f64_of m; MaxAllocs := a; MaxBytes := b |}.

Lemma of_fields_fields b : of_fields (fields b) = b.
Proof. destruct b. cbn. by rewrite f64_of_code. Qed.

Fixpoint digits (p : positive) : string :=
  match p with xH => "" | xO p => String "0"%char (digits p) | xI p => String "1"%char (digits p) end.
Fixpoint of_digits (s : string) : option positive :=
  match s with
  | EmptyString => Some xH
  | String c s => p ← of_digits s; if Ascii.eqb c "0"%char then Some (xO p) else if Ascii.eqb c "1"%char then Some (xI p) else None
  end.

Lemma of_digits_digits p : of_digits (digits p) = Some p.
Proof. induction p as [p IH|p IH|]; cbn; [by rewrite IH..|done]. Qed.

Definition finite (b : PerformanceBaseline) : bool := match MaxNsPerOp b with FFin _ => true | _ => false end.

Definition json : codec (list PerformanceBaseline) := {|
  Marshal l := if forallb finite l then inl (digits (countable.encode (fields <$> (as_json <$> l)))) else inr (ESentinel (ErrUser 0));
  Unmarshal d :=
    match of_digits d ≫= countable.decode with
    | Some l => inl (of_fields <$> l)
    | None => inr (ESentinel (ErrUser 0))
    end |}.

Lemma json_decodes : decodes json.
Proof.
  intros l d _. cbn. destruct (forallb finite l); [|done]. intros [= <-]. rewrite of_digits_digits. cbn.
  rewrite countable.decode_encode, <- list_fmap_compose. f_equal. rewrite <- (list_fmap_id (as_json <$> l)) at 2.
  apply list_fmap_ext. intros i b _. apply of_fields_fields.
Qed.

(** A disk of files. *)
Definition disk : os (gmap string string) := {|
  ReadFile path w := (match w !! path with Some d => inl d | None => inr (ESentinel (ErrUser 1)) end, w);
  WriteFile path d w := (None, <[path := d]> w);
  MkdirAll _ := ret None;
  ReadDir _ := ret (inl []) |}.

Definition range (m : gmap string PerformanceBaseline) : list PerformanceBaseline := (map_to_list m).*2.

Definition baseline (name description : string) (ns allocs : Z) : PerformanceBaseline :=
  {| b_Name := name; Description := description; MaxNsPerOp := f_of_Z ns; MaxAllocs := allocs; MaxBytes := 64 |}.

Definition tracker : PerformanceTracker :=
  AddBaseline (baseline "Execute" "ns per call, on one core" 120 3) (AddBaseline (baseline "Größe" "" 450 7) (NewPerformanceTracker "results")).

(** The names of a tracker with these baselines. *)
Lemma tracker_baselines (P : PerformanceBaseline -> Prop) :
  P (baseline "Execute" "ns per call, on one core" 120 3) -> P (baseline "Größe" "" 450 7) ->
  forall k b, baselines tracker !! k = Some b -> P b.
Proof.
  intros P1 P2 k b. unfold tracker, AddBaseline. cbn [baselines NewPerformanceTracker b_Name baseline].
  rewrite !lookup_insert_Some. intros [[_ <-]|[_ [[_ <-]|[_ H]]]]; [done..|]. by rewrite lookup_empty in H.
Qed.

Lemma baselines_roundtrip_witness :
  exists pt, (LoadBaselines disk json "base.json" (NewPerformanceTracker "other")
      (SaveBaselines disk json range "base.json" tracker ∅).2).1 = (None, pt) /\
    baselines pt !! "Execute"%string = Some (baseline "Execute" "ns per call, on one core" 120 3) /\
    baselines pt !! "Größe"%string = Some (baseline "Größe" "" 450 7).
Proof.
  destruct (baselines_roundtrip disk json range "base.json" tracker (NewPerformanceTracker "other") ∅)
    as (pt & E & _ & _ & _ & V & _).
  - intros path data w _. cbn. by rewrite lookup_insert_eq.
  - exact json_decodes.
  - by intros m.
  - apply keyed_insert, keyed_insert. intros k b H. by destruct (lookup_empty_Some _ _ H).
  - apply tracker_baselines; vm_compute; by repeat split.
  - reflexivity.
  - exists pt. split; [exact E|].
    assert (T : forall k b, baselines tracker !! k = Some b -> valid_text b) by (clear; apply tracker_baselines; vm_compute; done).
    specialize (V T). pose proof (proj2 V) as L.
    rewrite (L "Execute"%string eq_refl), (L "Größe"%string eq_refl). split; reflexivity.
Defined.

Lemma generated_baseline_accepts_witness :
  Regressions (CheckRegressions 0 7 run (GenerateBaselineFromResults 0 (fun _ => ""%string) run (f_ratio 11 10)
    (NewPerformanceTracker "results"))) = [].
Proof.
  assert (F : forall f, fleb (FFin 1) f = true -> fleb f (FFin 2) = true -> factor f).
  { intros f A B. destruct f as [|[]|q]; try done. exists q. split; [done|]. apply Qle_bool_iff in A, B. split; [exact A|lra]. }
  apply (generated_baseline_accepts 0 (fun _ => ""%string) 7 run (f_ratio 11 10) (NewPerformanceTracker "results")).
  - exact (bool_decide_unpack (NoDup (map Name run)) I).
  - repeat constructor; cbn; try lia; (eexists; split; [vm_compute; reflexivity|split; [vm_compute; reflexivity|done]]).
  - right. by apply F.
  - by apply F.
  - by apply F.
  - by apply F.
Defined.

(** A benchmark that got both slower and hungrier is reported for its time
    alone; and one above the absolute limit, but within ten percent of its
    baseline, is not reported at all. *)
Theorem report_is_partial :
  let pt := GenerateBaselineFromResults 0 (fun _ => ""%string) [result "Execute" 100 10 100] f_one (NewPerformanceTracker "results") in
  map Metric (Regressions (CheckRegressions 0 0 [result "Execute" 200 50 900] pt)) = ["time"%string] /\
  Regressions (CheckRegressions 0 0 [result "Execute" 109 10 100]
    (SetThresholds {| TimeIncrease := f_ratio 110 100; AllocIncrease := f_ratio 120 100; BytesIncrease := f_ratio 115 100;
                      AbsoluteMaxNsPerOp := f_of_Z 101 |} pt)) = [].
Proof. vm_compute. done. Qed.
End Demo.
