(* ===== verification/RedisBreaker.v ===== *)
(** The distributed circuit breaker ([examples/circuitbreaker-redis/breaker.go]):
    two Lua scripts that run atomically on a hash in Redis, and the instance
    that calls them.

    Redis is the hash at the breaker's key (every write sets its five fields) and
    a network: a call of a script or command may fail before or after it took
    effect, or succeed.  The calls of any number of instances and goroutines
    are interleavings of scripts ([step]).  Lua's numbers are integers here;
    they stay exact below 2^53. *)

From S2P Require Import Prelude Errors Runtime Breaker.

#[local] Open Scope go_scope.

Inductive FailMode := FailOpen | FailClosed.

(** [Client] is the network below; [Key] selects the hash. *)
Record Config (W : Type) := {
  Client : bool; (* not nil *)
  Key : string;
  FailureThreshold : Z;
  OpenTimeout : Z;
  MaxTrials : Z; (* MaxRequests *)
  Mode : FailMode;
  OnStateChange : option (State -> State -> M W unit)
}.

Arguments Client {W}.
Arguments Key {W}.
Arguments FailureThreshold {W}.
Arguments OpenTimeout {W}.
Arguments MaxTrials {W}.
Arguments Mode {W}.
Arguments OnStateChange {W}.

Definition setDefaults {W} (c : Config W) : Config W := {|
  Client := Client c; Key := Key c;
  FailureThreshold := if FailureThreshold c <=? 0 then 5 else FailureThreshold c;
  OpenTimeout := if OpenTimeout c <=? 0 then 30 * Second else OpenTimeout c;
  MaxTrials := if MaxTrials c <=? 0 then 1 else MaxTrials c;
  Mode := Mode c; OnStateChange := OnStateChange c |}.

(** The configuration of the breaker and its [lastState]. *)
Definition New {W} (cfg : Config W) : (Config W * State) + error :=
  if negb (Client cfg) then inr (ESentinel (ErrNew "redisbreaker: Client is required"))
  else if String.eqb (Key cfg) "" then inr (ESentinel (ErrNew "redisbreaker: Key is required"))
  else inl (setDefaults cfg, StateClosed).

(** ** The scripts *)

Record hash := {
  h_state : string;
  h_generation : Z;
  h_expiry : Z;
  h_consecutive_failures : Z;
  h_half_open_admitted : Z
}.

(** The fields read by [HMGET], with the scripts' defaults. *)
Definition HMGET (key : option hash) : hash :=
  default {| h_state := "closed"; h_generation := 0; h_expiry := 0; h_consecutive_failures := 0;
             h_half_open_admitted := 0 |} key.

#[global] Arguments HMGET !key /.

(** A script's reply and the hash it leaves. *)
Definition admit_script (maxTrials now : Z) (key : option hash) : (string * Z * Z * Z) * option hash :=
  let h := HMGET key in
  let expiry := h_expiry h in
  let setHash s generation halfOpenAdmits exp :=
    Some {| h_state := s; h_generation := generation; h_expiry := exp;
            h_consecutive_failures := h_consecutive_failures h; h_half_open_admitted := halfOpenAdmits |} in
  let '(state, generation, halfOpenAdmits, key) :=
    if String.eqb (h_state h) "open" && (now >=? expiry)
    then ("half-open"%string, h_generation h + 1, 0, setHash "half-open"%string (h_generation h + 1) 0 0)
    else (h_state h, h_generation h, h_half_open_admitted h, key) in
  if String.eqb state "closed" then ((state, generation, 1, 0), key)
  else if String.eqb state "open" then
    let retryAfter := expiry - now in
    ((state, generation, 0, if retryAfter <? 0 then 0 else retryAfter), key)
  else if String.eqb state "half-open" then
    if halfOpenAdmits <? maxTrials then
      ((state, generation, 1, 0), setHash state generation (halfOpenAdmits + 1) expiry)
    else ((state, generation, 0, 0), key)
  else ((state, generation, 0, 0), key).

Definition record_script (admitGen success threshold openMs now : Z) (key : option hash) : (string * Z) * option hash :=
  let h := HMGET key in
  if negb (admitGen =? h_generation h) then ((h_state h, h_generation h), key)
  else
    let h :=
      if String.eqb (h_state h) "closed" then
        if success =? 1 then
          {| h_state := h_state h; h_generation := h_generation h; h_expiry := h_expiry h;
             h_consecutive_failures := 0; h_half_open_admitted := h_half_open_admitted h |}
        else
          let consecFails := h_consecutive_failures h + 1 in
          if consecFails >=? threshold then
            {| h_state := "open"; h_generation := h_generation h + 1; h_expiry := now + openMs;
               h_consecutive_failures := 0; h_half_open_admitted := h_half_open_admitted h |}
          else
            {| h_state := h_state h; h_generation := h_generation h; h_expiry := h_expiry h;
               h_consecutive_failures := consecFails; h_half_open_admitted := h_half_open_admitted h |}
      else if String.eqb (h_state h) "half-open" then
        if success =? 1 then
          let halfOpenAdmits := h_half_open_admitted h - 1 in
          if halfOpenAdmits <=? 0 then
            {| h_state := "closed"; h_generation := h_generation h + 1; h_expiry := h_expiry h;
               h_consecutive_failures := 0; h_half_open_admitted := 0 |}
          else
            {| h_state := h_state h; h_generation := h_generation h; h_expiry := h_expiry h;
               h_consecutive_failures := h_consecutive_failures h; h_half_open_admitted := halfOpenAdmits |}
        else
          {| h_state := "open"; h_generation := h_generation h + 1; h_expiry := now + openMs;
             h_consecutive_failures := 0; h_half_open_admitted := 0 |}
      else h in
    ((h_state h, h_generation h), Some h).

Definition parseState (s : string) : State :=
  if String.eqb s "open" then StateOpen
  else if String.eqb s "half-open" then StateHalfOpen
  else StateClosed.

(** ** The instance *)

(** What becomes of a request to Redis. *)
Inductive delivery := Delivered | NotSent (err : error) | NoReply (err : error).

Section Instance.
Context {W T : Type} {WW : World W} {HK : Has W (option hash)} {HL : Has W State} (zero : T).
(** The network, for a request made under a context. *)
Context (network : ctx -> M W delivery) (cfg : Config W).

(** A script or command, run atomically on the hash. *)
Definition request {A} (c : ctx) (script : option hash -> A * option hash) : M W (A + error) :=
  let! d := network c in
  match d with
  | NotSent err => ret (inr err)
  | Delivered => fun w => let r := script (get w) in (inl r.1, put r.2 w)
  | NoReply err => fun w => let r := script (get w) in (inr err, put r.2 w)
  end.

Definition UnixMilli (t : Z) : Z := t / Millisecond.

Definition openMs : Z := OpenTimeout cfg `quot` Millisecond.

(** [admit]: state, generation, allowed, retry-after; or an error. *)
Definition admit_call (c : ctx) : M W ((State * Z * bool * Z) + error) :=
  let! t := time_Now in
  let! res := request c (admit_script (MaxTrials cfg) (UnixMilli t)) in
  ret match res with
      | inr err => inr (EWrap "redisbreaker: admit: %w" [err])
      | inl (state, generation, allowed, retryMs) =>
          inl (parseState state, generation, allowed =? 1, i64 (retryMs * Millisecond))
      end.

Definition record (c : ctx) (generation : Z) (success : bool) : M W ((State * Z) + error) :=
  let! t := time_Now in
  let! res := request c (record_script generation (if success then 1 else 0) (FailureThreshold cfg) openMs (UnixMilli t)) in
  ret match res with
      | inr err => inr (EWrap "redisbreaker: record: %w" [err])
      | inl (state, gen) => inl (parseState state, gen)
      end.

(** A panic of the callback is recovered. *)
Definition fireStateChangeIfChanged (newState : State) : M W unit :=
  let! prev := (fun w => (get w, put newState w)) in
  if bool_decide (prev = newState) then ret tt
  else match OnStateChange cfg with Some f => f prev newState | None => ret tt end.

Definition open_error (state : string) (retryAfter : Z) : error :=
  ECircuitOpen {| coe_Name := ""; coe_State := state; coe_RetryAfter := retryAfter; coe_TotalRequests := 0;
    coe_TotalFailures := 0; coe_ConsecutiveFailures := 0; coe_ConsecutiveSuccesses := 0 |}.

Definition Execute (c : ctx) (fn : Fn W T) : M W (result T) :=
  let! e := err_of c in
  match e with
  | Some e => ret (zero, Some e)
  | None =>
      let! adm := admit_call c in
      match adm with
      | inr _ =>
          match Mode cfg with
          | FailClosed => ret (zero, Some (open_error "unknown" 0))
          | FailOpen => fn c
          end
      | inl (state, generation, allowed, retryAfter) =>
          fireStateChangeIfChanged state ;;;
          if negb allowed then ret (zero, Some (open_error (State_String state) retryAfter))
          else
            let! r := fn c in
            let! rec := record c generation (match r.2 with None => true | Some _ => false end) in
            match rec with
            | inl (newState, _) => fireStateChangeIfChanged newState
            | inr _ => ret tt
            end ;;;
            ret r
      end
  end.

Definition State_method : M W State :=
  let! adm := admit_call Background in
  match adm with
  | inr _ => fun w => (get w, w)
  | inl (state, _, _, _) => ret state
  end.

Definition Reset : M W unit :=
  let! _ := request Background (fun _ => (tt, None)) in
  fun w => (tt, put StateClosed w).
End Instance.

(** ** Sequential calls refine a two-state automaton *)

Section Sequential.
Context (threshold maxTrials openMs : Z).

(** Consecutive failures; or the time at which to try again. *)
Inductive rstate := RClosed (failures : Z) | ROpen (until : Z).

(** A call that asks at [asked], and ends at [ended] with an outcome. *)
Record attempt := { asked : Z; ended : Z; succeeds : bool }.

(** The reply is [None] for a call that ran, else the time to wait. *)
Definition spec_call (a : attempt) (s : rstate) : option Z * rstate :=
  let trip := ROpen (ended a + openMs) in
  match s with
  | RClosed n =>
      (None, if succeeds a then RClosed 0 else if n + 1 >=? threshold then trip else RClosed (n + 1))
  | ROpen until =>
      if asked a <? until then (Some (until - asked a), s)
      else (None, if succeeds a then RClosed 0 else trip)
  end.

(** The scripts of one call. *)
Definition script_call (a : attempt) (key : option hash) : option Z * option hash :=
  let '((_, generation, allowed, retryAfter), key) := admit_script maxTrials (asked a) key in
  if allowed =? 1 then
    (None, (record_script generation (if succeeds a then 1 else 0) threshold openMs (ended a) key).2)
  else (Some retryAfter, key).

Fixpoint run {S} (call : attempt -> S -> option Z * S) (l : list attempt) (s : S) : list (option Z) :=
  match l with
  | [] => []
  | a :: l => let r := call a s in r.1 :: run call l r.2
  end.

Definition implements (key : option hash) (s : rstate) : Prop :=
  let h := HMGET key in
  match s with
  | RClosed n => h_state h = "closed"%string /\ h_consecutive_failures h = n
  | ROpen until => h_state h = "open"%string /\ h_expiry h = until
  end.

Lemma call_implements a key s :
  1 <= maxTrials -> implements key s ->
  (script_call a key).1 = (spec_call a s).1 /\ implements (script_call a key).2 (spec_call a s).2.
Proof.
  intros M I. unfold script_call, admit_script, implements in *. set (h := HMGET key) in *.
  destruct s as [n|until]; destruct I as [E F]; rewrite E; cbn [String.eqb Ascii.eqb Bool.eqb andb].
  - cbn [Z.eqb Pos.eqb]. unfold record_script. fold h. rewrite Z.eqb_refl. cbn [negb]. rewrite E.
    cbn [String.eqb Ascii.eqb Bool.eqb spec_call fst snd]. rewrite F.
    destruct (succeeds a); cbn; [done|]. by destruct (n + 1 >=? threshold).
  - rewrite F. cbn [spec_call]. destruct (Z.ltb_spec (asked a) until), (Z.geb_spec (asked a) until); try lia;
      cbn [String.eqb Ascii.eqb Bool.eqb].
    + destruct (Z.ltb_spec (until - asked a) 0); [lia|]. done.
    + destruct (Z.ltb_spec 0 maxTrials); [|lia]. cbn [Z.eqb Pos.eqb]. unfold record_script. cbn [HMGET default from_option id h_generation
        h_state h_half_open_admitted]. rewrite Z.eqb_refl. cbn [negb String.eqb Ascii.eqb Bool.eqb].
      by destruct (succeeds a).
Qed.

(** C18: Calls that do not overlap see the documented breaker, for every
    configuration and every sequence of calls, by however many instances: the
    scripts answer, admission for admission and wait for wait, as an
    automaton that opens at [FailureThreshold] failures in a row, refuses for
    [OpenTimeout] after the failure that opened it, saying how long is left,
    and then decides by one call, whatever [MaxRequests] is. *)
Theorem redis_breaker_refines l :
  1 <= maxTrials -> run script_call l None = run spec_call l (RClosed 0).
Proof.
  intros M. assert (I : implements None (RClosed 0)) by done. revert I. generalize (None : option hash), (RClosed 0).
  induction l as [|a l IH]; intros key s I; [done|]. cbn.
  destruct (call_implements a key s M I) as [-> I']. f_equal. by apply IH.
Qed.
End Sequential.

Lemma redis_breaker_refines_witness :
  run (script_call 2 3 1000) [{| asked := 0; ended := 1; succeeds := false |}; {| asked := 5; ended := 9; succeeds := false |};
      {| asked := 10; ended := 11; succeeds := true |}; {| asked := 1009; ended := 1010; succeeds := true |}] None =
    [None; None; Some 999; None].
Proof. rewrite (redis_breaker_refines 2 3 1000) by done. reflexivity. Defined.

(** ** Concurrent trials *)

Section Trials.
Context (threshold maxTrials openMs : Z).

(** [held] has the generations of the calls that were admitted and have not
    recorded; [lost] those that never will: their call of Redis failed, or it
    was made by [State], which takes a slot and records nothing. *)
Record system := { key : option hash; held : list Z; lost : list Z }.

Definition allowed (r : (string * Z * Z * Z) * option hash) : bool := r.1.1.2 =? 1.
Definition generation_of (r : (string * Z * Z * Z) * option hash) : Z := r.1.1.1.2.

Inductive step : system -> system -> Prop :=
| st_admit now s : let r := admit_script maxTrials now (key s) in
    step s {| key := r.2; held := if allowed r then generation_of r :: held s else held s; lost := lost s |}
| st_query now s : let r := admit_script maxTrials now (key s) in
    step s {| key := r.2; held := held s; lost := if allowed r then generation_of r :: lost s else lost s |}
| st_record i g success now s : held s !! i = Some g ->
    step s {| key := (record_script g success threshold openMs now (key s)).2; held := delete i (held s); lost := lost s |}
| st_lose i g s : held s !! i = Some g ->
    step s {| key := key s; held := delete i (held s); lost := g :: lost s |}.

Definition of_generation (g x : Z) : Z := if x =? g then 1 else 0.

Definition trials (l : list Z) (s : system) : Z := total (of_generation (h_generation (HMGET (key s)))) l.

Definition half_open (s : system) : Prop := h_state (HMGET (key s)) = "half-open"%string.

Record trials_inv (s : system) : Prop := {
  ti_state : let st := h_state (HMGET (key s)) in st = "closed"%string \/ st = "open"%string \/ st = "half-open"%string;
  ti_held : Forall (fun g => g <= h_generation (HMGET (key s))) (held s);
  ti_lost : Forall (fun g => g <= h_generation (HMGET (key s))) (lost s);
  ti_half : half_open s ->
    h_half_open_admitted (HMGET (key s)) = trials (held s) s + trials (lost s) s /\
    h_half_open_admitted (HMGET (key s)) <= Z.max 0 maxTrials
}.

Lemma of_generation_nonneg g x : 0 <= of_generation g x.
Proof. unfold of_generation. destruct (_ =? _); lia. Qed.

(** No call is of a generation that has not begun. *)
Lemma no_trials g l : Forall (fun x => x < g) l -> total (of_generation g) l = 0.
Proof.
  induction 1 as [|x l H _ IH]; cbn; [done|]. unfold of_generation at 1. zcases; lia.
Qed.

Lemma Forall_older (g g' : Z) l : Forall (fun x => x <= g) l -> g <= g' -> Forall (fun x => x <= g') l.
Proof. intros H L. eapply Forall_impl; [exact H|]. intros x. cbn. lia. Qed.

(** What [admit_script] does to the hash. *)
Lemma admit_cases now k :
  let h := HMGET k in let r := admit_script maxTrials now k in let h' := HMGET r.2 in
  generation_of r = h_generation h' /\
  ((h_state h = "open"%string /\ h_state h' = "half-open"%string /\ h_generation h' = h_generation h + 1 /\
    h_half_open_admitted h' = (if allowed r then 1 else 0) /\ h_half_open_admitted h' <= Z.max 0 maxTrials) \/
   (h_state h = "half-open"%string /\ h_state h' = "half-open"%string /\ h_generation h' = h_generation h /\
    h_half_open_admitted h' = h_half_open_admitted h + (if allowed r then 1 else 0) /\
    (allowed r = true -> h_half_open_admitted h < maxTrials)) \/
   (r.2 = k /\ h_state h <> "half-open"%string) ).
Proof.
  cbv zeta. unfold admit_script, allowed, generation_of. set (h := HMGET k).
  destruct (String.eqb_spec (h_state h) "open") as [E|E]; cbn [andb].
  - destruct (now >=? h_expiry h); cbn.
    + destruct (Z.ltb_spec 0 maxTrials); cbn; (split; [done|]); left; rewrite E; repeat split; try done; cbn; lia.
    + rewrite E. cbn. split; [done|]. right. right. split; [done|first [done|congruence]].
  - destruct (String.eqb_spec (h_state h) "closed") as [E1|E1]; cbn.
    + split; [done|]. right. right. split; [done|first [done|congruence]].
    + destruct (String.eqb_spec (h_state h) "open"); [done|].
      destruct (String.eqb_spec (h_state h) "half-open") as [E2|E2]; cbn.
      * destruct (Z.ltb_spec (h_half_open_admitted h) maxTrials); cbn; (split; [done|]); right; left.
        { repeat split; try done; cbn; lia. }
        fold h. rewrite E2. repeat split; try done; cbn; lia.
      * split; [done|]. right. by right.
Qed.

(** What [record] does to it. *)
Lemma record_cases g success now k :
  let h := HMGET k in let k' := (record_script g success threshold openMs now k).2 in let h' := HMGET k' in
  (g <> h_generation h /\ k' = k) \/
  (g = h_generation h /\ h_state h <> "half-open"%string /\ h_generation h <= h_generation h' /\
   (h_state h' = h_state h \/ h_state h' = "open"%string)) \/
  (g = h_generation h /\ h_state h = "half-open"%string /\
   ((h_generation h' = h_generation h + 1 /\ (h_state h' = "closed"%string \/ h_state h' = "open"%string)) \/
    (h_generation h' = h_generation h /\ h_state h' = "half-open"%string /\
     h_half_open_admitted h' = h_half_open_admitted h - 1))).
Proof.
  cbv zeta. unfold record_script. set (h := HMGET k). destruct (Z.eqb_spec g (h_generation h)) as [->|N]; cbn [negb]; [right|by left].
  destruct (String.eqb_spec (h_state h) "closed") as [E|E]; cbn.
  - left. split; [done|]. rewrite E. split; [done|]. destruct (success =? 1); cbn; [auto with lia|].
    destruct (_ >=? threshold); cbn; (split; [lia|]); auto.
  - destruct (String.eqb_spec (h_state h) "half-open") as [E1|E1]; cbn.
    + right. split; [done|]. split; [done|]. destruct (success =? 1); cbn; [|by left; auto].
      destruct (_ <=? 0); cbn; [left; auto|right; auto].
    + left. split; [done|]. split; [done|]. split; [lia|]. by left.
Qed.

Lemma trials_inv_init : trials_inv {| key := None; held := []; lost := [] |}.
Proof. split; cbn; try constructor; done. Qed.

(** A slot goes to one of the lists. *)
Lemma admit_inv now s held' lost' :
  let r := admit_script maxTrials now (key s) in
  (held' = (if allowed r then generation_of r :: held s else held s) /\ lost' = lost s) \/
  (held' = held s /\ lost' = if allowed r then generation_of r :: lost s else lost s) ->
  trials_inv s -> trials_inv {| key := r.2; held := held'; lost := lost' |}.
Proof.
  intros r L I. destruct (admit_cases now (key s)) as [G C]. fold r in G, C.
  assert (O : forall l l', Forall (fun g => g <= h_generation (HMGET (key s))) l ->
            l' = l \/ l' = (if allowed r then generation_of r :: l else l) ->
            Forall (fun g => g <= h_generation (HMGET r.2)) l').
  { intros l l' F E. assert (F' : Forall (fun g => g <= h_generation (HMGET r.2)) l).
    { apply (Forall_older _ _ _ F). destruct C as [C|[C|[-> _]]]; lia. }
    destruct E as [-> | ->]; [done|]. destruct (allowed r); [|done]. constructor; [lia|done]. }
  split; cbn [key held lost].
  - destruct C as [C|[C|[-> _]]]; [right; right; tauto|right; right; tauto|apply I].
  - apply (O (held s)); [apply I|]. destruct L as [[-> _]|[-> _]]; auto.
  - apply (O (lost s)); [apply I|]. destruct L as [[_ ->]|[_ ->]]; auto.
  - unfold half_open, trials. cbn [key held lost]. intros H.
    set (n := total (of_generation (h_generation (HMGET r.2)))).
    assert (Own : of_generation (h_generation (HMGET r.2)) (generation_of r) = 1) by (rewrite G; unfold of_generation; by rewrite Z.eqb_refl).
    assert (Sum : n held' + n lost' = n (held s) + n (lost s) + if allowed r then 1 else 0).
    { destruct L as [[-> ->]|[-> ->]]; destruct (allowed r); unfold n; cbn [total]; rewrite ?Own; lia. }
    rewrite Sum. unfold n. clear Sum n L.
    destruct C as [(_ & _ & E & A & B)|[(E1 & _ & E & A & B)|[E N]]].
    + rewrite !no_trials.
      * lia.
      * eapply Forall_impl; [exact (ti_lost s I)|]. intros x; cbn; lia.
      * eapply Forall_impl; [exact (ti_held s I)|]. intros x; cbn; lia.
    + destruct (ti_half s I E1) as [I1 I2]. unfold trials in I1. rewrite E, A. destruct (allowed r); [|lia]. specialize (B eq_refl). lia.
    + rewrite E in H. done.
Qed.

Lemma trials_step_inv s s' : trials_inv s -> step s s' -> trials_inv s'.
Proof.
  intros I S. destruct S as [now s r|now s r|i g success now s L|i g s L].
  - apply admit_inv; [by left|done].
  - apply admit_inv; [by right|done].
  - pose proof (ti_held s I) as Hh. rewrite Forall_forall in Hh. specialize (Hh g ltac:(by eapply list_elem_of_lookup_2)).
    pose proof (ti_state s I) as St. cbv zeta in St.
    pose proof (record_cases g success now (key s)) as C. cbv zeta in C.
    set (k' := (record_script g success threshold openMs now (key s)).2) in *.
    assert (Le : h_generation (HMGET (key s)) <= h_generation (HMGET k'))
      by (destruct C as [[_ ->]|[C|(_ & _ & [C|C])]]; lia).
    split; cbn [key held lost].
    + destruct C as [[_ ->]|[(_ & _ & _ & [-> | ->])|(_ & _ & [(_ & [-> | ->])|(_ & -> & _)])]]; auto.
    + apply (Forall_older (h_generation (HMGET (key s)))); [|done]. apply Forall_delete, I.
    + by apply (Forall_older (h_generation (HMGET (key s)))); [apply I|].
    + unfold half_open, trials. cbn [key held lost]. intros H.
      rewrite (total_delete _ _ _ _ L). destruct C as [[N E]|[(_ & N & _ & [E|E])|(E1 & E2 & [(_ & [E|E])|(E & _ & A)])]];
        try congruence.
      * rewrite E in *. destruct (ti_half s I H) as [I1 I2]. unfold trials in I1. unfold of_generation at 2. zcases; [done|lia].
      * destruct (ti_half s I E2) as [I1 I2]. unfold trials in I1. rewrite E, A. unfold of_generation at 2. zcases; [lia|done].
  - split; cbn [key held lost]; try apply I.
    + by apply Forall_delete, I.
    + constructor; [|apply I]. pose proof (ti_held s I) as Hh. rewrite Forall_forall in Hh. apply Hh. by eapply list_elem_of_lookup_2.
    + unfold half_open, trials. cbn [key held lost total]. rewrite (total_delete _ _ _ _ L). intros H.
      destruct (ti_half s I H). unfold trials in *. lia.
Qed.

Definition initially (s : system) : Prop := s = {| key := None; held := []; lost := [] |}.

Lemma trials_reachable s : reachable initially step s -> trials_inv s.
Proof. revert s. apply invariant_reachable; [intros s ->; apply trials_inv_init|intros; by eapply trials_step_inv]. Qed.

(** Under every interleaving of the scripts of any number of instances and
    goroutines, in half-open at most [MaxRequests] calls of the
    current period are in flight, together with the slots that were lost: the
    script counts the calls it admits, where the breaker of package circuitbreaker
    counts those that have ended.  A call admitted in an earlier period
    changes nothing when it records. *)
Theorem redis_trials_bounded s :
  reachable initially step s ->
  (half_open s -> trials (held s) s + trials (lost s) s <= Z.max 0 maxTrials) /\
  (forall g success now, g <> h_generation (HMGET (key s)) ->
     (record_script g success threshold openMs now (key s)).2 = key s) /\
  Forall (fun g => g <= h_generation (HMGET (key s))) (held s).
Proof.
  intros R. apply trials_reachable in R as I. split; [|split; [|apply I]].
  - intros H. destruct (ti_half s I H). lia.
  - intros g success now N. destruct (record_cases g success now (key s)) as [[_ E]|[[E _]|[E _]]]; done.
Qed.

(** C19: A half-open period whose slots are all lost never ends: the hash does not
    change and no call is admitted any more, by any instance, at any time,
    until someone calls [Reset].  There is no deadline on a trial, and what
    loses one is ordinary: [State] takes a slot, and a call whose context has
    ended when it records cannot reach Redis. *)
Theorem lost_trials_block_forever s s' now :
  reachable initially step s -> half_open s -> maxTrials <= trials (lost s) s -> rtc step s s' ->
  key s' = key s /\ allowed (admit_script maxTrials now (key s')) = false.
Proof.
  intros R H L S.
  assert (J : forall s, trials_inv s -> half_open s -> maxTrials <= trials (lost s) s -> trials (held s) s <= 0 /\
    forall now, (admit_script maxTrials now (key s)).2 = key s /\ allowed (admit_script maxTrials now (key s)) = false).
  { clear. intros s I H L. destruct (ti_half s I H) as [I1 I2].
    pose proof (total_nonneg (of_generation (h_generation (HMGET (key s)))) (held s) (of_generation_nonneg _)) as P1.
    pose proof (total_nonneg (of_generation (h_generation (HMGET (key s)))) (lost s) (of_generation_nonneg _)) as P2.
    unfold trials in I1, L. split; [unfold trials; lia|].
    intros now. unfold admit_script, allowed. unfold half_open in H. rewrite H. cbn [String.eqb Ascii.eqb Bool.eqb andb].
    destruct (Z.ltb_spec (h_half_open_admitted (HMGET (key s))) maxTrials); [lia|done]. }
  enough (E : key s' = key s /\ half_open s' /\ maxTrials <= trials (lost s') s' /\ trials_inv s').
  { destruct E as (E & H' & L' & I'). split; [done|]. by apply (J s' I' H' L'). }
  apply trials_reachable in R. rename R into I. clear now.
  induction S as [s|s1 s2 s3 S1 S2 IH]; [done|]. destruct (J s1 I H L) as [N A].
  assert (E : key s2 = key s1 /\ maxTrials <= trials (lost s2) s2).
  { destruct S1 as [now s r|now s r|i g success now s Lg|i g s Lg]; cbn [key lost].
    - destruct (A now) as [E1 E2]. fold r in E1, E2. split; [done|]. unfold trials in *. cbn [key lost]. by rewrite E1.
    - destruct (A now) as [E1 E2]. fold r in E1, E2. split; [done|]. unfold trials in *. cbn [key lost]. by rewrite E1, E2.
    - assert (Ng : g <> h_generation (HMGET (key s))).
      { intros ->. unfold trials in N. pose proof (total_lookup _ _ _ _ (of_generation_nonneg (h_generation (HMGET (key s)))) Lg) as T.
        unfold of_generation at 1 in T. rewrite Z.eqb_refl in T. lia. }
      destruct (record_cases g success now (key s)) as [[_ E]|[[E _]|[E _]]]; [|done..]. split; [done|]. unfold trials in *.
      cbn [key]. by rewrite E.
    - split; [done|]. unfold trials in *. cbn [key total]. pose proof (of_generation_nonneg (h_generation (HMGET (key s))) g). lia. }
  destruct E as [E L2]. destruct IH as (E3 & H3 & L3 & I3).
  - by eapply trials_step_inv.
  - unfold half_open. by rewrite E.
  - done.
  - by rewrite E3.
Qed.
End Trials.

(** A reachable period whose only slot went to [State]: two failures open the
    breaker, its time passes, [State] is asked. *)
Definition half_open_hash (g : Z) : option hash := Some {|
  h_state := "half-open"; h_generation := g; h_expiry := 1003; h_consecutive_failures := 0; h_half_open_admitted := 1 |}.

Ltac run_on R rule := let Q := fresh in assert (Q := reach_step _ _ _ _ R rule); cbn in Q; clear R; rename Q into R.

Lemma opened_reachable : reachable initially (step 2 1 1000)
  {| key := Some {| h_state := "open"; h_generation := 1; h_expiry := 1003; h_consecutive_failures := 0; h_half_open_admitted := 0 |};
     held := []; lost := [] |}.
Proof.
  pose proof (reach_init initially (step 2 1 1000) _ eq_refl) as R. 
  run_on R (st_admit 2 1 1000 0 {| key := None; held := []; lost := [] |}).
  run_on R (st_record 2 1 1000 0 0 0 1 {| key := None; held := [0]; lost := [] |} eq_refl).
  eapply (reach_step _ _ _ _ (reach_step _ _ _ _ R (st_admit 2 1 1000 2 _))).
  by apply (st_record 2 1 1000 0 0 0 3).
Qed.

Lemma lost_trials_block_forever_witness :
  let s := {| key := half_open_hash 2; held := []; lost := [2] |} in
  reachable initially (step 2 1 1000) s /\ half_open s /\ forall now, allowed (admit_script 1 now (key s)) = false.
Proof.
  pose proof opened_reachable as R. run_on R (st_query 2 1 1000 1003
    {| key := Some {| h_state := "open"; h_generation := 1; h_expiry := 1003; h_consecutive_failures := 0; h_half_open_admitted := 0 |};
       held := []; lost := [] |}).
  split; [exact R|]. split; [reflexivity|]. intros now.
  refine (proj2 (lost_trials_block_forever 2 1 1000 _ _ now R _ _ (rtc_refl _ _))); [reflexivity|vm_compute; discriminate].
Defined.

Lemma redis_trials_bounded_witness :
  let s := {| key := half_open_hash 2; held := [2]; lost := [] |} in
  reachable initially (step 2 1 1000) s /\ half_open s /\ trials (held s) s + trials (lost s) s <= Z.max 0 1.
Proof.
  pose proof opened_reachable as R. run_on R (st_admit 2 1 1000 1003
    {| key := Some {| h_state := "open"; h_generation := 1; h_expiry := 1003; h_consecutive_failures := 0; h_half_open_admitted := 0 |};
       held := []; lost := [] |}).
  split; [exact R|]. split; [reflexivity|]. by apply (proj1 (redis_trials_bounded 2 1 1000 _ R)).
Defined.

(** [Reset] deletes the hash, and generations start again at 0: the result of a
    call that was admitted before the reset, in the half-open period of
    generation 2, is taken for one of the new period of generation 2 and
    closes the breaker while its own trial is still running. *)
Theorem reset_reuses_generations :
  let trial now k := (admit_script 1 now k).2 in
  let failure g now k := (record_script g 0 1 1000 now k).2 in
  let before := trial 1002 (failure 0 1 (trial 0 None)) in
  let after := trial 4002 (failure 0 3001 (trial 3000 None)) in
  generation_of (admit_script 1 1002 (failure 0 1 (trial 0 None))) = 2 /\
  h_state (HMGET before) = "half-open"%string /\ h_state (HMGET after) = "half-open"%string /\
  h_state (HMGET (record_script 2 1 1 1000 4003 after).2) = "closed"%string.
Proof. vm_compute. done. Qed.

(** ** [Execute] *)

Section Execution.
Context {W T : Type} {WW : World W} {HK : Has W (option hash)} {HL : Has W State} (zero : T).
Context (network : ctx -> M W delivery) (cfg : Config W).

(** A script that is delivered runs on the hash. *)
Lemma admit_delivered c w :
  (network c (tick w)).1 = Delivered ->
  let w1 := (network c (tick w)).2 in
  let r := admit_script (MaxTrials cfg) (UnixMilli (clock (tick w))) (get w1) in
  admit_call network cfg c w =
    (inl (parseState r.1.1.1.1, generation_of r, allowed r, i64 (r.1.2 * Millisecond)), put r.2 w1).
Proof.
  intros D. cbv zeta. unfold admit_call, bind at 1, time_Now. cbn [fst snd]. unfold request, bind, ret. rewrite D. cbn [fst snd].
  unfold allowed, generation_of. by destruct (admit_script _ _ _) as [[[[st g] al] ra] k].
Qed.

(** Every branch of a call.  A context that has ended is reported and Redis is
    not asked.  When admission fails, the function runs unguarded in mode
    [FailOpen], and in mode [FailClosed] the call is refused with an error that matches
    [ErrCircuitOpen].  A refusal by the script does not run the function, and
    says how long to wait.  An admitted call runs it once, and its result is
    returned whatever becomes of the record. *)
Theorem redis_execute_spec c (fn : Fn W T) w :
  let w0 := tick w in
  let run := Execute zero network cfg c fn w in
  match ctx_Err c (clock w0) with
  | Some e => run = ((zero, Some e), w0)
  | None =>
      match admit_call network cfg c w0 with
      | (inr _, w1) =>
          match Mode cfg with
          | FailOpen => run = fn c w1
          | FailClosed => exists e, run = ((zero, Some e), w1) /\ errors_is e ErrCircuitOpen = true
          end
      | (inl (state, generation, al, retryAfter), w1) =>
          let w2 := (fireStateChangeIfChanged cfg state w1).2 in
          if al then run.1 = (fn c w2).1
          else run = ((zero, Some (open_error (State_String state) retryAfter)), w2)
      end
  end.
Proof.
  cbv zeta. unfold Execute, bind, err_of, ret. cbn [fst snd]. destruct (ctx_Err c (clock (tick w))) as [e|]; [done|].
  destruct (admit_call network cfg c (tick w)) as [[[[[st g] al] ra]|err] w1]; cbn [fst snd].
  - by destruct al.
  - destruct (Mode cfg); [done|]. by eexists.
Qed.
End Execution.

(** ** A trial whose context ends *)

Module Demo.
Definition world : Type := sim (option hash * State).

#[export] Instance has_hash : Has world (option hash) := Has_fst.
#[export] Instance has_last : Has world State := Has_snd.

(** The client of Redis does not send a request whose context has ended. *)
Definition network : ctx -> M world delivery := fun c w =>
  (match ctx_Err c (clock w) with Some e => NotSent e | None => Delivered end, w).

Definition config : Config world := setDefaults {|
  Client := true; Key := "downstream"; FailureThreshold := 1; OpenTimeout := Second; MaxTrials := 1;
  Mode := FailOpen; OnStateChange := None |}.

Definition work (d : Z) (err : option error) : Fn world Z := fun _ w => ((1, err), Sim (sim_clock w + d) (sim_state w)).

Definition failed : world := (Execute 0 network config Background (work 1 (Some (ESentinel (ErrUser 1)))) (Sim 0 (None, StateClosed))).2.

Definition later (t : Z) (w : world) : world := Sim (sim_clock w + t) (sim_state w).

(** A trial that succeeds, under a context that ends while it runs. *)
Definition abandoned : world :=
  (Execute 0 network config {| done_at := Some (3 * Second, ESentinel Canceled); ctx_values := [] |} (work (2 * Second) None)
     (later (2 * Second) failed)).2.

(** Its success is not recorded, and a year later calls are still refused;
    so they are after [State] has been asked at that time. *)
Theorem abandoned_trial_blocks :
  (Execute 0 network config Background (work 1 None) (later (2 * Second) failed)).1 = (1, None) /\
  (Execute 0 network config Background (work 1 None) (later (8760 * Hour) abandoned)).1 =
    (0, Some (open_error "half-open" 0)) /\
  let asked := (State_method network config (later (2 * Second) failed)).2 in
  (Execute 0 network config Background (work 1 None) (later (8760 * Hour) asked)).1 =
    (0, Some (open_error "half-open" 0)).
Proof. vm_compute. done. Qed.
End Demo.
