(* ===== verification/RedisStore.v ===== *)
(** The Redis store of the rate limiter ([examples/ratelimit-redis/store.go]),
    an implementation of the [Store] of [RateStore], and what the limiter
    makes of it.

    The Lua script runs atomically on the bucket's hash; its numbers are
    float64.  Arguments: what becomes of a request to Redis ([network]), the
    parameters a context carries, and the conversions of numbers to text and
    back that Lua's [tostring] and Redis make on the way. *)

From Stdlib Require Import QArith Lqa.
From S2P Require Import Prelude Float64 Errors Runtime RateStore RateLimiter RedisBreaker.

#[local] Open Scope Z_scope.
#[local] Open Scope go_scope.

(** ** The script *)

(** A hash; [b_expires] is the server's time in milliseconds at which it
    expires. *)
Record rbucket := { b_tokens : f64; b_last : f64; b_expires : Z }.

Definition million : f64 := f_of_Z 1000000.

(** Tokens left, time of the update, allowed; and the hash.  [micros] is the
    server's time. *)
Definition atomicScript (tokens burst rate interval ttl micros : Z) (existing : option rbucket) :
    (f64 * f64 * bool) * rbucket :=
  let now_ns := fadd (fmul (f_of_Z (micros / 1000000)) (f_of_Z 1000000000)) (fmul (f_of_Z (micros mod 1000000)) (f_of_Z 1000)) in
  let '(cur_tokens, last_refill) :=
    match existing with
    | None => (fmul (f_of_Z burst) million, now_ns)
    | Some b => (b_tokens b, b_last b)
    end in
  let elapsed := fsub now_ns last_refill in
  let elapsed := if fltb elapsed (f_of_Z 0) then f_of_Z 0 else elapsed in
  let elapsed := if fltb (f_of_Z 3600000000000) elapsed then f_of_Z 3600000000000 else elapsed in
  let refill := fmul (fmul (fdiv elapsed (f_of_Z interval)) (f_of_Z rate)) million in
  let cur_tokens := fadd cur_tokens refill in
  let cap := fmul (f_of_Z burst) million in
  let cur_tokens := if fltb cap cur_tokens then cap else cur_tokens in
  let need := fmul (f_of_Z tokens) million in
  let '(cur_tokens, allowed) := if fleb need cur_tokens then (fsub cur_tokens need, true) else (cur_tokens, false) in
  ((cur_tokens, now_ns, allowed), {| b_tokens := cur_tokens; b_last := now_ns; b_expires := micros / 1000 + ttl * 1000 |}).

(** ** The store *)

Record RStore := { s_prefix : string; s_ttl : Z }.

Inductive StoreOption := WithPrefix (prefix : string) | WithTTL (ttl : Z).

Definition apply_store_option (s : RStore) (o : StoreOption) : RStore :=
  match o with
  | WithPrefix prefix => {| s_prefix := prefix; s_ttl := s_ttl s |}
  | WithTTL ttl => if ttl >? 0 then {| s_prefix := s_prefix s; s_ttl := ttl |} else s
  end.

Definition NewStore (opts : list StoreOption) : RStore :=
  foldl apply_store_option {| s_prefix := "rl:"; s_ttl := Hour |} opts.

Section Store.
Context {W : Type} {WW : World W} {HR : Has W (gmap string rbucket)}.
Context (network : ctx -> M W delivery).
(** [ParseFloat(tostring(tokens))], [ParseInt(tostring(last))] and
    [ParseInt] of the stored [last]. *)
Context (reply_tokens : f64 -> f64) (reply_last stored_last : f64 -> Z).
(** The value of [paramsContextKey], [WithBucketParams] having set it. *)
Context (params : ctx -> option (Z * Z)).
(** [int64] of an out-of-range float. *)
Context (oob : Z).

Definition paramsFromContext (c : ctx) : Z * Z := default (0, 0) (params c).

(** The buckets at the server's time, in microseconds. *)
Definition live (micros : Z) (b : option rbucket) : option rbucket :=
  match b with
  | Some b => if b_expires b <=? micros / 1000 then None else Some b
  | None => None
  end.

Definition server_micros : M W Z := let! t := time_Now in ret (t / 1000).

(** A command or script, run atomically at the server's time. *)
Definition send {A} (c : ctx) (command : Z -> gmap string rbucket -> A * gmap string rbucket) : M W (A + error) :=
  let! d := network c in
  let! micros := server_micros in
  match d with
  | NotSent err => ret (inr err)
  | Delivered => fun w => let r := command micros (get w) in (inl r.1, put r.2 w)
  | NoReply err => fun w => let r := command micros (get w) in (inr err, put r.2 w)
  end.

Definition unavailable (err : error) : error := EWrap "%w: %w" [ESentinel ErrStorageUnavailable; err].

(** The bucket that the source returns is not part of [RateStore.Store], whose
    result is the variable that the function captured; it is
    [returned_state].  The function of a limiter never returns nil; the nil
    dereference of a second call that does is left out. *)
Definition returned_state (tokens last : f64) : BucketState :=
  {| Tokens := fdiv (reply_tokens tokens) million; LastRefill := reply_last last |}.

Definition store_AtomicUpdate (s : RStore) (c : ctx) (key : string) (updateFn : UpdateFn W) : M W (bool * option error) :=
  let! probe := updateFn None in
  match probe.2 with
  | None => ret (probe.1, Some (ESentinel (ErrNew "redisstore: updateFn returned nil for probe state; not a token-bucket update")))
  | Some probeState =>
      let burst := f_to_int64 oob (Tokens probeState) in
      let burst := if burst <=? 0 then 1 else burst in
      let! after := updateFn (Some probeState) in
      let probeAfter := default probeState after.2 in
      let consumed := f_to_int64 oob (fsub (Tokens probeState) (Tokens probeAfter)) in
      let consumed := if consumed <=? 0 then 1 else consumed in
      let '(rate, interval) := paramsFromContext c in
      let '(rate, interval) := if (rate <=? 0) || (interval <=? 0) then (burst, Second) else (rate, interval) in
      let! res := send c (fun micros m =>
        let r := atomicScript consumed burst rate interval (s_ttl s `quot` Second) micros (live micros (m !! (s_prefix s +:+ key))) in
        (r.1, <[s_prefix s +:+ key := r.2]> m)) in
      ret (after.1, match res with inr err => Some (unavailable err) | inl _ => None end)
  end.

Definition store_Get (s : RStore) (c : ctx) (key : string) : M W (option BucketState * option error) :=
  let! res := send c (fun micros m => (live micros (m !! (s_prefix s +:+ key)), m)) in
  ret match res with
      | inr err => (None, Some (unavailable err))
      | inl None => (None, None)
      | inl (Some b) => (Some {| Tokens := fdiv (b_tokens b) million; LastRefill := stored_last (b_last b) |}, None)
      end.

Definition store_Delete (s : RStore) (c : ctx) (key : string) : M W (option error) :=
  let! res := send c (fun _ m => (tt, delete (s_prefix s +:+ key) m)) in
  ret match res with inr err => Some (unavailable err) | inl _ => None end.

Definition store_HealthCheck (c : ctx) : M W (option error) :=
  let! res := send c (fun _ m => (tt, m)) in
  ret match res with inr err => Some (unavailable err) | inl _ => None end.

Definition redis_store (s : RStore) : Store W := {|
  RateStore.AtomicUpdate := store_AtomicUpdate s;
  RateStore.Get := store_Get s;
  RateStore.Delete := store_Delete s;
  RateStore.Close := ret None;
  RateStore.HealthCheck := Some store_HealthCheck;
  RateStore.Resetter := None;
  RateStore.BucketCounter := None
|}.
End Store.

(** ** What a limiter on this store does *)

Section Limiter.
Context {W : Type} {WW : World W} {HR : Has W (gmap string rbucket)} {HC : Has W Closed}.
Context (network : ctx -> M W delivery).
Context (reply_tokens : f64 -> f64) (reply_last stored_last : f64 -> Z) (params : ctx -> option (Z * Z)) (oob : Z).
Context (rl : rateLimiter W) (V : valid rl) (s : RStore).
Context (on_redis : store rl = redis_store network stored_last params oob s).

Lemma f_of_Z_le a b : a <= b -> fleb (f_of_Z a) (f_of_Z b) = true.
Proof. intros. unfold f_of_Z. apply rnd_mono. by rewrite <- Zle_Qle. Qed.

(** A refill never takes tokens away. *)
Lemma refill_keeps k last now :
  0 <= k <= Burst (config rl) ->
  fleb (f_of_Z k) (Tokens (refill rl {| Tokens := f_of_Z k; LastRefill := last |} now)) = true.
Proof.
  intros K. pose proof (valid_burst _ V) as B. unfold MaxBurst in B. assert (Self : fleb (f_of_Z k) (f_of_Z k) = true) by by apply f_of_Z_le.
  assert (Cap : fleb (f_of_Z k) (burstFloat rl) = true) by (rewrite (valid_burstFloat _ V); apply f_of_Z_le; lia).
  unfold refill. cbn [Tokens LastRefill]. set (e := time_Sub now last). destruct (Z.leb_spec e 0); [done|].
  set (e' := if e >? maxElapsed then maxElapsed else e).
  assert (E : 0 <= e' <= maxElapsed) by (unfold e', maxElapsed, Hour, Minute, Second; zcases; lia).
  destruct (tokensToAdd_nonneg rl V e' E) as (a & -> & A0 & _).
  destruct (fltb (FFin a) floatEpsilon); [done|].
  assert (New : fleb (f_of_Z k) (fadd (f_of_Z k) (FFin a)) = true).
  { rewrite f_of_Z_exact by lia. cbn [fadd]. rewrite <- (f_of_Z_exact k) by lia. unfold f_of_Z. apply rnd_mono. lra. }
  set (t := if fltb _ _ then _ else _). assert (T : fleb (f_of_Z k) t = true) by (unfold t; by destruct (fltb _ _)).
  by destruct (_ && _).
Qed.

Lemma consume_probe n now :
  1 <= n <= Burst (config rl) ->
  consume rl n now None = (true, {| Tokens := f_of_Z (Burst (config rl) - n); LastRefill := now |}).
Proof.
  intros N. pose proof (valid_burst _ V) as B. unfold MaxBurst in B. unfold consume.
  assert (R : refill rl {| Tokens := f_of_Z (Burst (config rl)); LastRefill := now |} now =
              {| Tokens := f_of_Z (Burst (config rl)); LastRefill := now |}).
  { unfold refill. cbn [LastRefill]. unfold time_Sub. rewrite Z.sub_diag. done. }
  rewrite R. cbn [Tokens LastRefill]. rewrite f_of_Z_le by lia. do 2 f_equal.
  rewrite (f_of_Z_exact n), (f_of_Z_exact (Burst (config rl))) by lia. cbn [fsub fneg fadd]. unfold f_of_Z. apply rnd_proper.
  rewrite Qred_correct, <- Z.add_opp_r, inject_Z_plus, inject_Z_opp. reflexivity.
Qed.

Lemma consume_again n k last now :
  n <= k -> 0 <= k <= Burst (config rl) -> (consume rl n now (Some {| Tokens := f_of_Z k; LastRefill := last |})).1 = true.
Proof.
  intros N K. unfold consume. rewrite (fleb_trans _ (f_of_Z k) _); [done|by apply f_of_Z_le|by apply refill_keeps].
Qed.

(** On the Redis store a limiter never refuses: whenever Redis is
    reachable, a request for at most half of the burst is granted, whatever
    is left in the key's bucket and however many were granted before, by this
    or another instance.  The store takes the limiter's closure for a probe,
    and the answer the limiter reads is the probe's on a full bucket, not the
    script's. *)
Theorem redis_store_never_refuses c key n w :
  (forall c w, (network c w).1 = Delivered) -> 1 <= n -> 2 * n <= Burst (config rl) ->
  (tryConsume rl c key n w).1 = (true, None).
Proof.
  intros D N H. unfold tryConsume. rewrite on_redis. cbn [RateStore.AtomicUpdate redis_store].
  unfold store_AtomicUpdate, send, bind, time_Now, ret. cbn [fst snd]. rewrite consume_probe by lia. cbn [fst snd].
  set (p := Some _). assert (A : forall now, (consume rl n now p).1 = true) by (intros; apply consume_again; lia).
  set (r := consume rl n _ p). assert (R : r.1 = true) by apply A. destruct r as [a st]. cbn in R. subst a. cbn [fst snd].
  destruct (paramsFromContext params c) as [rate interval]. destruct (_ || _); cbn [fst snd]; by rewrite D.
Qed.
End Limiter.

(** ** A concrete limiter *)

Module Demo.
Definition world : Type := sim (Closed * gmap string rbucket).
#[export] Instance has_closed : Has world Closed := Has_fst.
#[export] Instance has_redis : Has world (gmap string rbucket) := Has_snd.

Definition network : ctx -> M world delivery := fun _ => ret Delivered.

(** No parameters in the context, as the limiter leaves it. *)
Definition no_params : ctx -> option (Z * Z) := fun _ => None.

Definition limiter (burst : Z) : rateLimiter world :=
  RateLimiter.New (redis_store network (fun _ => 0) no_params 0 (NewStore [])) {|
    KeyFunc := None; OnAllow := None; OnLimit := None; cfg_Metrics := None;
    cfg_Store := Some (redis_store network (fun _ => 0) no_params 0 (NewStore []));
    Interval := Hour; Rate := 1; Burst := burst; MaxTokensPerRequest := 0; RateLimiter.FailOpen := false |}.

Definition start : world := Sim (1700000000 * Second) ({| is_closed := false |}, ∅).

(** [n] requests for one token, at the same instant. *)
Fixpoint requests (rl : rateLimiter world) (n : nat) (w : world) : list bool :=
  match n with
  | O => []
  | S n => let r := Take rl Background "client" 1 w in r.1 :: requests rl n r.2
  end.

Lemma redis_store_never_refuses_witness :
  (tryConsume (limiter 2) Background "client" 1 start).1 = (true, None).
Proof.
  apply (redis_store_never_refuses network (fun _ => 0) no_params 0 (limiter 2)) with (s := NewStore []);
    [apply New_lemma|done|done|done|vm_compute; discriminate].
Defined.

(** With a burst of two per hour, twenty requests in an instant are all
    granted; with a burst of one none ever is.  A TTL under a second is sent to
    Redis as 0, so the bucket expires at once and is always full. *)
Theorem redis_limiter_ignores_the_bucket :
  requests (limiter 2) 20 start = repeat true 20 /\ requests (limiter 1) 3 start = [false; false; false] /\
  let short := apply_store_option (NewStore []) (WithTTL (500 * Millisecond)) in
  let b := (atomicScript 1 1 1 Second (s_ttl short `quot` Second) 1000000 None).2 in
  b_tokens b = f_of_Z 0 /\ live 1000000 (Some b) = None.
Proof. vm_compute. done. Qed.
End Demo.
