(* ===== verification/Signals.v ===== *)
(** What the metrics packages are asked to record, and what they promise.

    [metrics/prometheus.go] and [metrics/otel/metrics.go] have the same 21
    methods, one per signal.  [event] is a call of one of them; [history] is
    the abstract specification both implement: the measurements of a
    series, in order.  [Backend] is what they rely on of the metric library
    behind them, which is not part of the repository. *)

From S2P Require Import Prelude Float64 Utf8.

(** ** Events

    A gauge is a float64 for Prometheus and an int64 for OpenTelemetry: [G]. *)

Inductive event (G : Type) :=
| CircuitBreakerState (name : string) (state : G)
| CircuitBreakerRequest (name state : string)
| CircuitBreakerFailure (name : string)
| CircuitBreakerSuccess (name : string)
| CircuitBreakerStateChange (name from to : string)
| RetryAttempts (name : string) (attempts : f64)
| RetrySuccess (name : string)
| RetryFailure (name : string)
| RetryDuration (name : string) (seconds : f64)
| RateLimitAllowed (name key : string)
| RateLimitDenied (name key : string)
| RateLimitWaitTime (name key : string) (seconds : f64)
| TimeoutExecution (name : string)
| TimeoutExceeded (name : string)
| TimeoutDuration (name : string) (exceeded : bool) (seconds : f64)
| BulkheadActive (name : string) (count : G)
| BulkheadQueued (name : string) (count : G)
| BulkheadRejected (name : string)
| BulkheadSuccess (name : string)
| BulkheadFailure (name : string)
| BulkheadDuration (name : string) (seconds : f64).

Arguments CircuitBreakerState {G}. Arguments CircuitBreakerRequest {G}. Arguments CircuitBreakerFailure {G}.
Arguments CircuitBreakerSuccess {G}. Arguments CircuitBreakerStateChange {G}. Arguments RetryAttempts {G}.
Arguments RetrySuccess {G}. Arguments RetryFailure {G}. Arguments RetryDuration {G}. Arguments RateLimitAllowed {G}.
Arguments RateLimitDenied {G}. Arguments RateLimitWaitTime {G}. Arguments TimeoutExecution {G}.
Arguments TimeoutExceeded {G}. Arguments TimeoutDuration {G}. Arguments BulkheadActive {G}. Arguments BulkheadQueued {G}.
Arguments BulkheadRejected {G}. Arguments BulkheadSuccess {G}. Arguments BulkheadFailure {G}. Arguments BulkheadDuration {G}.

(** The same event with its gauge converted. *)
Definition event_map {G H} (f : G -> H) (e : event G) : event H :=
  match e with
  | CircuitBreakerState n s => CircuitBreakerState n (f s)
  | CircuitBreakerRequest n s => CircuitBreakerRequest n s
  | CircuitBreakerFailure n => CircuitBreakerFailure n
  | CircuitBreakerSuccess n => CircuitBreakerSuccess n
  | CircuitBreakerStateChange n a b => CircuitBreakerStateChange n a b
  | RetryAttempts n a => RetryAttempts n a
  | RetrySuccess n => RetrySuccess n
  | RetryFailure n => RetryFailure n
  | RetryDuration n s => RetryDuration n s
  | RateLimitAllowed n k => RateLimitAllowed n k
  | RateLimitDenied n k => RateLimitDenied n k
  | RateLimitWaitTime n k s => RateLimitWaitTime n k s
  | TimeoutExecution n => TimeoutExecution n
  | TimeoutExceeded n => TimeoutExceeded n
  | TimeoutDuration n x s => TimeoutDuration n x s
  | BulkheadActive n c => BulkheadActive n (f c)
  | BulkheadQueued n c => BulkheadQueued n (f c)
  | BulkheadRejected n => BulkheadRejected n
  | BulkheadSuccess n => BulkheadSuccess n
  | BulkheadFailure n => BulkheadFailure n
  | BulkheadDuration n s => BulkheadDuration n s
  end.

(** ** Series: a signal and the labels that tell its readings apart *)

Inductive attr := AString (s : string) | ABool (b : bool).

#[export] Instance attr_eq_dec : EqDecision attr.
Proof. solve_decision. Defined.

(** A label of Prometheus is a string. *)
Definition render (a : attr) : string :=
  match a with AString s => s | ABool b => if b then "true" else "false" end.

Section Spec.
Context {G : Type}.

Definition signal (e : event G) : string :=
  match e with
  | CircuitBreakerState _ _ => "circuit_breaker.state"
  | CircuitBreakerRequest _ _ => "circuit_breaker.requests"
  | CircuitBreakerFailure _ => "circuit_breaker.failures"
  | CircuitBreakerSuccess _ => "circuit_breaker.successes"
  | CircuitBreakerStateChange _ _ _ => "circuit_breaker.state_changes"
  | RetryAttempts _ _ => "retry.attempts"
  | RetrySuccess _ => "retry.successes"
  | RetryFailure _ => "retry.failures"
  | RetryDuration _ _ => "retry.duration"
  | RateLimitAllowed _ _ => "rate_limit.allowed"
  | RateLimitDenied _ _ => "rate_limit.denied"
  | RateLimitWaitTime _ _ _ => "rate_limit.wait_duration"
  | TimeoutExecution _ => "timeout.executions"
  | TimeoutExceeded _ => "timeout.exceeded"
  | TimeoutDuration _ _ _ => "timeout.duration"
  | BulkheadActive _ _ => "bulkhead.active"
  | BulkheadQueued _ _ => "bulkhead.queued"
  | BulkheadRejected _ => "bulkhead.rejected"
  | BulkheadSuccess _ => "bulkhead.successes"
  | BulkheadFailure _ => "bulkhead.failures"
  | BulkheadDuration _ _ => "bulkhead.duration"
  end.

Definition attributes (e : event G) : list (string * attr) :=
  match e with
  | CircuitBreakerRequest n s => [("name", AString n); ("state", AString s)]
  | CircuitBreakerStateChange n a b => [("name", AString n); ("from", AString a); ("to", AString b)]
  | RateLimitAllowed n k | RateLimitDenied n k | RateLimitWaitTime n k _ => [("name", AString n); ("key", AString k)]
  | TimeoutDuration n x _ => [("name", AString n); ("exceeded", ABool x)]
  | CircuitBreakerState n _ | CircuitBreakerFailure n | CircuitBreakerSuccess n | RetryAttempts n _ | RetrySuccess n
  | RetryFailure n | RetryDuration n _ | TimeoutExecution n | TimeoutExceeded n | BulkheadActive n _
  | BulkheadQueued n _ | BulkheadRejected n | BulkheadSuccess n | BulkheadFailure n | BulkheadDuration n _ =>
      [("name", AString n)]
  end%string.

Definition labels (e : event G) : list (string * string) := prod_map id render <$> attributes e.

Inductive measure := Count | Level (g : G) | Sample (v : f64).

Definition measured (e : event G) : measure :=
  match e with
  | CircuitBreakerState _ g | BulkheadActive _ g | BulkheadQueued _ g => Level g
  | RetryAttempts _ v | RetryDuration _ v | RateLimitWaitTime _ _ v | TimeoutDuration _ _ v | BulkheadDuration _ v => Sample v
  | _ => Count
  end.

(** The position of the signal among the 21. *)
Definition index (e : event G) : nat :=
  match e with
  | CircuitBreakerState _ _ => 0 | CircuitBreakerRequest _ _ => 1 | CircuitBreakerFailure _ => 2
  | CircuitBreakerSuccess _ => 3 | CircuitBreakerStateChange _ _ _ => 4 | RetryAttempts _ _ => 5 | RetrySuccess _ => 6
  | RetryFailure _ => 7 | RetryDuration _ _ => 8 | RateLimitAllowed _ _ => 9 | RateLimitDenied _ _ => 10
  | RateLimitWaitTime _ _ _ => 11 | TimeoutExecution _ => 12 | TimeoutExceeded _ => 13 | TimeoutDuration _ _ _ => 14
  | BulkheadActive _ _ => 15 | BulkheadQueued _ _ => 16 | BulkheadRejected _ => 17 | BulkheadSuccess _ => 18
  | BulkheadFailure _ => 19 | BulkheadDuration _ _ => 20
  end.

Definition same_series (e e' : event G) : Prop := signal e = signal e' /\ labels e = labels e'.

#[export] Instance same_series_dec e e' : Decision (same_series e e').
Proof. unfold same_series. apply _. Defined.

(** The specification: the measurements of the series of [e0]. *)
Definition history (es : list (event G)) (e0 : event G) : list measure :=
  measured <$> filter (fun e => same_series e e0) es.
End Spec.

Arguments measure G : clear implicits.

Lemma signal_map {G H} (f : G -> H) e : signal (event_map f e) = signal e.
Proof. by destruct e. Qed.

Lemma attributes_map {G H} (f : G -> H) e : attributes (event_map f e) = attributes e.
Proof. by destruct e. Qed.

Lemma labels_map {G H} (f : G -> H) e : labels (event_map f e) = labels e.
Proof. unfold labels. by rewrite attributes_map. Qed.

Definition measure_map {G H} (f : G -> H) (m : measure G) : measure H :=
  match m with Count => Count | Level g => Level (f g) | Sample v => Sample v end.

Lemma history_map {G H} (f : G -> H) es e0 :
  history (event_map f <$> es) (event_map f e0) = measure_map f <$> history es e0.
Proof.
  unfold history. induction es as [|e es IH]; [done|]. rewrite fmap_cons, !filter_cons.
  assert (S : same_series (event_map f e) (event_map f e0) <-> same_series e e0)
    by (unfold same_series; by rewrite !signal_map, !labels_map).
  destruct (decide (same_series e e0)) as [X|X]; [rewrite decide_True by tauto|rewrite decide_False by tauto; exact IH].
  rewrite !fmap_cons, IH. f_equal. by destruct e.
Qed.

(** Within a signal the labels determine the attributes. *)
Lemma labels_attributes {G} (e e' : event G) : same_series e e' -> attributes e = attributes e'.
Proof.
  unfold same_series. intros [S L]. destruct e, e'; try discriminate S; injection L; intros; subst; try done.
  by destruct exceeded, exceeded0.
Qed.

(** One event of each signal. *)
Definition samples : list (event unit) :=
  [CircuitBreakerState "" (); CircuitBreakerRequest "" ""; CircuitBreakerFailure ""; CircuitBreakerSuccess "";
   CircuitBreakerStateChange "" "" ""; RetryAttempts "" FNaN; RetrySuccess ""; RetryFailure ""; RetryDuration "" FNaN;
   RateLimitAllowed "" ""; RateLimitDenied "" ""; RateLimitWaitTime "" "" FNaN; TimeoutExecution ""; TimeoutExceeded "";
   TimeoutDuration "" false FNaN; BulkheadActive "" (); BulkheadQueued "" (); BulkheadRejected ""; BulkheadSuccess "";
   BulkheadFailure ""; BulkheadDuration "" FNaN]%string.

(** What depends on the signal only. *)
Lemma sample_of {G} (e : event G) :
  exists s, samples !! index e = Some s /\ signal s = signal e /\ (labels s).*1 = (labels e).*1.
Proof. destruct e; eexists; split_and!; reflexivity. Qed.

Lemma signals_distinct : NoDup (signal <$> samples).
Proof. apply (bool_decide_unpack _). vm_compute. constructor. Qed.

Lemma index_signal {G} (e e' : event G) : index e = index e' <-> signal e = signal e'.
Proof.
  destruct (sample_of e) as (s & L & S & _), (sample_of e') as (s' & L' & S' & _). split.
  - intros E. rewrite E, L' in L. congruence.
  - intros E. apply (NoDup_lookup _ _ _ (signal e) signals_distinct).
    + by rewrite list_lookup_fmap, L, <- S.
    + by rewrite list_lookup_fmap, L', E, <- S'.
Qed.

Lemma index_keys {G} (e e' : event G) : index e = index e' -> (labels e).*1 = (labels e').*1.
Proof.
  destruct (sample_of e) as (s & L & _ & K), (sample_of e') as (s' & L' & _ & K').
  intros E. rewrite E, L' in L. congruence.
Qed.

Lemma pairs_eq {A B} (l k : list (A * B)) : l.*1 = k.*1 -> l.*2 = k.*2 -> l = k.
Proof.
  revert k. induction l as [|[a b] l IH]; intros [|[a' b'] k] H1 H2; try done.
  injection H1 as -> H1. injection H2 as -> H2. f_equal. auto.
Qed.

(** A series is a position and label values. *)
Lemma same_series_index {G} (e e' : event G) :
  same_series e e' <-> index e = index e' /\ (labels e).*2 = (labels e').*2.
Proof.
  unfold same_series. rewrite <- index_signal. split; [by intros [-> ->]|]. intros [I L]. split; [done|].
  apply pairs_eq; [by apply index_keys|done].
Qed.

(** ** The metric library

    An instrument (a vector of Prometheus) is known once it was created; its
    series [l] is the list of the updates it received.  The library turns that list
    into the value it exports; this is all the adapters decide. *)

Class Backend (W I L U : Type) := {
  known : W -> I -> Prop;
  applied : W -> I -> L -> list U;
  #[global] instrument_eq_dec :: EqDecision I;
  #[global] series_eq_dec :: EqDecision L
}.

Section Backend.
Context {W I L U : Type} {B : Backend W I L U}.

Definition created (w : W) (i : I) (w' : W) : Prop :=
  ~ known w i /\ (forall j, known w' j <-> j = i \/ known w j) /\
  (forall l, applied w' i l = []) /\ (forall j l, j <> i -> applied w' j l = applied w j l).

Definition updated (w : W) (i : I) (l : L) (u : U) (w' : W) : Prop :=
  (forall j, known w' j <-> known w j) /\
  applied w' i l = applied w i l ++ [u] /\
  (forall j k, (j, k) <> (i, l) -> applied w' j k = applied w j k).

(** Creations and updates in sequence. *)
Inductive creates : W -> list I -> W -> Prop :=
| creates_nil w : creates w [] w
| creates_cons w i w1 l w' : created w i w1 -> creates w1 l w' -> creates w (i :: l) w'.

Inductive updates : W -> list (I * L * U) -> W -> Prop :=
| updates_nil w : updates w [] w
| updates_cons w i l u w1 us w' : updated w i l u w1 -> updates w1 us w' -> updates w ((i, l, u) :: us) w'.

Lemma creates_facts w l w' : creates w l w' ->
  NoDup l /\ (forall j, known w' j <-> j ∈ l \/ known w j) /\ (forall j, j ∈ l -> ~ known w j) /\
  (forall j k, j ∈ l -> applied w' j k = []) /\ (forall j k, ~ j ∈ l -> applied w' j k = applied w j k).
Proof.
  induction 1 as [w|w i w1 l w' (N & K & E & O) C (D & K' & N' & E' & O')].
  { split; [constructor|]. set_solver. }
  split_and!.
  - constructor; [|done]. intros X. apply (N' _ X), K. by left.
  - intros j. rewrite K', K. set_solver.
  - intros j [->|X]%elem_of_cons; [done|]. intros Y. apply (N' _ X), K. by right.
  - intros j k X. destruct (decide (j ∈ l)); [by apply E'|]. rewrite O' by done.
    apply elem_of_cons in X as [->|X]; [apply E|done].
  - intros j k X. rewrite not_elem_of_cons in X. destruct X as [X1 X2]. rewrite O', O by done. done.
Qed.

Lemma updates_known w us w' : updates w us w' -> forall j, known w' j <-> known w j.
Proof. induction 1 as [|w i l u w1 us w' (K & _ & _) _ IH]; intros j; [done|]. by rewrite IH, K. Qed.

(** A series is the updates that were sent to it, in order. *)
Lemma updates_applied w us w' i l : updates w us w' ->
  applied w' i l = applied w i l ++ (snd <$> filter (fun x => fst x = (i, l)) us).
Proof.
  induction 1 as [w|w i' l' u w1 us w' (_ & E & O) _ IH]; [by rewrite app_nil_r|]. rewrite IH, filter_cons.
  destruct (decide ((i', l', u).1 = (i, l))) as [[= -> ->]|N].
  - rewrite E. by rewrite <- app_assoc.
  - rewrite O; [done|]. cbn in N. congruence.
Qed.

(** An adapter that sends each event to the place of its series keeps the
    histories. *)
Lemma updates_history {G} (place : event G -> I * L) (meas : measure G -> U) es w w' e0 :
  updates w ((fun e => (place e, meas (measured e))) <$> es) w' ->
  (forall e, place e = place e0 <-> same_series e e0) ->
  applied w' (place e0).1 (place e0).2 = applied w (place e0).1 (place e0).2 ++ (meas <$> history es e0).
Proof.
  intros H P. rewrite (updates_applied _ _ _ _ _ H), <- surjective_pairing. f_equal. unfold history.
  clear H. induction es as [|e es IH]; [done|]. rewrite fmap_cons, !filter_cons. cbn [fst].
  destruct (decide (place e = place e0)) as [E|E]; destruct (decide (same_series e e0)) as [S|S]; rewrite P in E; try done.
  cbn. by f_equal.
Qed.

(** What was recorded, of whatever series, came from an event. *)
Lemma updates_origin {G} (place : event G -> I * L) (meas : measure G -> U) es w w' i l :
  updates w ((fun e => (place e, meas (measured e))) <$> es) w' ->
  applied w i l = [] -> applied w' i l <> [] -> exists e, e ∈ es /\ place e = (i, l).
Proof.
  intros H N X. rewrite (updates_applied _ _ _ _ _ H), N in X. clear H N. induction es as [|e es IH]; [done|].
  rewrite fmap_cons, filter_cons in X. cbn [fst] in X.
  destruct (decide (place e = (i, l))) as [E|E]; [exists e; set_solver|]. destruct IH as (e' & I' & E'); [done|].
  exists e'. set_solver.
Qed.
End Backend.

(** ** A backend in memory

    Instruments are numbered descriptions; the world keeps those created and the
    log of updates. *)

Section Memory.
Context {D L U : Type} `{EqDecision D, EqDecision L}.

Definition Memory : Type := list (nat * D) * list (nat * D * L * U).

#[export] Instance MemoryBackend : Backend Memory (nat * D) L U := {|
  known w i := i ∈ w.1;
  applied w i l := snd <$> filter (fun x => x.1 = (i, l)) w.2
|}.

Definition fresh_id (w : Memory) : nat := S (list_max ((fst <$> w.1) ++ ((fun x => x.1.1.1) <$> w.2))).

Definition mem_create (d : D) (w : Memory) : (nat * D) * Memory :=
  ((fresh_id w, d), ((fresh_id w, d) :: w.1, w.2)).

Definition mem_update (i : nat * D) (l : L) (u : U) (w : Memory) : Memory := (w.1, w.2 ++ [(i, l, u)]).

Lemma fresh_id_spec (w : Memory) d : ~ (fresh_id w, d) ∈ w.1 /\ forall l u, ~ (fresh_id w, d, l, u) ∈ w.2.
Proof.
  set (ids := (fst <$> w.1) ++ ((fun x => x.1.1.1) <$> w.2)).
  assert (B : ~ fresh_id w ∈ ids).
  { intros X. pose proof (proj1 (list_max_le ids (list_max ids)) (le_n _)) as F.
    rewrite List.Forall_forall in F. apply list_elem_of_In, F in X. unfold fresh_id in X. fold ids in X. lia. }
  split; intros; intros X; apply B, elem_of_app; [left|right]; apply list_elem_of_fmap.
  - by eexists (_, _).
  - by eexists (_, _, _, _).
Qed.

Lemma mem_create_created d (w : Memory) : created w (mem_create d w).1 (mem_create d w).2.
Proof.
  destruct (fresh_id_spec w d) as [N A]. split_and!; [done|set_solver| |done].
  intros l. cbn. rewrite filter_none; [done|]. intros [[v k] u] X [= -> ->]. by eapply A.
Qed.

Lemma mem_update_updated i l u (w : Memory) : updated w i l u (mem_update i l u w).
Proof.
  split_and!; [done| |]; cbn.
  - by rewrite filter_app, filter_cons_True, fmap_app.
  - intros j k N. rewrite filter_app, filter_cons_False by (cbn; congruence). by rewrite app_nil_r.
Qed.
End Memory.

Arguments Memory D L U : clear implicits.

(** [utf8.ValidString]: reading a string rune by rune loses nothing. *)
Definition ValidString (s : string) : Prop := encode (decode (bytes s)) = bytes s.

#[export] Instance ValidString_dec s : Decision (ValidString s).
Proof. unfold ValidString. apply _. Defined.

Lemma ValidString_encode l : Forall (fun r => ValidRune r = true) l -> ValidString (of_bytes (encode l)).
Proof. intros V. unfold ValidString. by rewrite bytes_of_bytes, decode_encode by auto using encode_bytes. Qed.

Definition valid_labels {G} (e : event G) : Prop := Forall ValidString (labels e).*2.
