(* ===== verification/Metrics.v ===== *)
(** The Prometheus collector ([metrics/prometheus.go]).

    Package prometheus is not part of the repository: [PromClient] is what the
    collector calls of it, [LawfulProm] the documented behaviour it relies
    on.  [WithLabelValues] panics ([None]) unless it gets as many values as the
    vector declares labels; the values must be valid UTF-8.

    The mutex of [Collect] is only ever read-locked and protects nothing; the
    vectors of the library are safe for concurrent use. *)

From Stdlib Require Import Ascii.
From S2P Require Import Prelude Float64 Errors Runtime Utf8 HttpKeys Signals.

#[local] Open Scope go_scope.

(** ** Package prometheus *)

Inductive Buckets := LinearBuckets (start width : f64) (count : Z) | DefBuckets.
Inductive VecKind := Gauge | Counter | Histogram (Buckets : Buckets).

(** [prometheus.Desc]: options and label names of a vector. *)
Record Desc := { kind : VecKind; Name : string; Help : string; label_names : list string }.

#[export] Instance f64_eq_dec : EqDecision f64.
Proof. unfold EqDecision, Decision. repeat decide equality. Defined.

#[export] Instance Desc_eq_dec : EqDecision Desc.
Proof. unfold EqDecision, Decision. intros. decide equality; try apply (decide (_ = _)). repeat decide equality. Defined.

Inductive update := Inc | SetTo (v : f64) | Observe (v : f64).

(** The method exists on the children of the vector. *)
Definition fits (k : VecKind) (u : update) : bool :=
  match k, u with
  | Gauge, SetTo _ | Counter, Inc | Histogram _, Observe _ => true
  | _, _ => false
  end.

Class PromClient (W V : Type) := {
  #[global] prom_backend :: Backend W V (list string) update;
  Child : Type;
  NewVec : Desc -> M W V;
  desc : V -> Desc;
  WithLabelValues : V -> list string -> W -> option (Child * W);
  Update : Child -> update -> W -> W;
  (* the children of a vector, with their label values *)
  Collect_vec : V -> W -> list (list string * list update)
}.

Class LawfulProm (W V : Type) `{PromClient W V} := {
  NewVec_desc : forall d w, desc (NewVec d w).1 = d;
  NewVec_created : forall d w, created w (NewVec d w).1 (NewVec d w).2;
  WithLabelValues_ok : forall v ls w,
    known w v -> length ls = length (label_names (desc v)) -> Forall ValidString ls ->
    exists ch w', WithLabelValues v ls w = Some (ch, w') /\
      forall u, fits (kind (desc v)) u = true -> updated w v ls u (Update ch u w');
  Collect_complete : forall v w ls, applied w v ls <> [] -> (ls, applied w v ls) ∈ Collect_vec v w;
  Collect_sound : forall v w ls us, (ls, us) ∈ Collect_vec v w -> us = applied w v ls
}.

Section Client.
Context {W V : Type} {PC : PromClient W V}.

Definition NewGaugeVec (name help : string) (ls : list string) : M W V :=
  NewVec {| kind := Gauge; Name := name; Help := help; label_names := ls |}.
Definition NewCounterVec (name help : string) (ls : list string) : M W V :=
  NewVec {| kind := Counter; Name := name; Help := help; label_names := ls |}.
Definition NewHistogramVec (name help : string) (buckets : Buckets) (ls : list string) : M W V :=
  NewVec {| kind := Histogram buckets; Name := name; Help := help; label_names := ls |}.

(** [v.WithLabelValues(ls...).Inc()], and likewise [Set] and [Observe]. *)
Definition with_labels (v : V) (ls : list string) (u : update) : W -> option W := fun w =>
  match WithLabelValues v ls w with
  | Some (ch, w') => Some (Update ch u w')
  | None => None
  end.
End Client.

(** ** [Collector] *)

Record Collector (V : Type) := {
  circuitBreakerState : V;
  circuitBreakerRequests : V;
  circuitBreakerFailures : V;
  circuitBreakerSuccesses : V;
  circuitBreakerStateTotal : V;
  retryAttempts : V;
  retrySuccesses : V;
  retryFailures : V;
  retryDuration : V;
  rateLimitAllowed : V;
  rateLimitDenied : V;
  rateLimitWaitTime : V;
  timeoutExecutions : V;
  timeoutExceeded : V;
  timeoutDuration : V;
  bulkheadActive : V;
  bulkheadQueued : V;
  bulkheadRejected : V;
  bulkheadSuccesses : V;
  bulkheadFailures : V;
  bulkheadDuration : V
}.

Arguments circuitBreakerState {V}.
Arguments circuitBreakerRequests {V}.
Arguments circuitBreakerFailures {V}.
Arguments circuitBreakerSuccesses {V}.
Arguments circuitBreakerStateTotal {V}.
Arguments retryAttempts {V}.
Arguments retrySuccesses {V}.
Arguments retryFailures {V}.
Arguments retryDuration {V}.
Arguments rateLimitAllowed {V}.
Arguments rateLimitDenied {V}.
Arguments rateLimitWaitTime {V}.
Arguments timeoutExecutions {V}.
Arguments timeoutExceeded {V}.
Arguments timeoutDuration {V}.
Arguments bulkheadActive {V}.
Arguments bulkheadQueued {V}.
Arguments bulkheadRejected {V}.
Arguments bulkheadSuccesses {V}.
Arguments bulkheadFailures {V}.
Arguments bulkheadDuration {V}.

Section Collector.
Context {W V : Type} {PC : PromClient W V}.

Definition NewCollector : M W (Collector V) :=
  let! v_circuitBreakerState := NewGaugeVec "fortify_circuit_breaker_state" "Current state of circuit breaker (0=closed, 1=open, 2=half-open)" ["name"] in
  let! v_circuitBreakerRequests := NewCounterVec "fortify_circuit_breaker_requests_total" "Total number of requests through circuit breaker" ["name"; "state"] in
  let! v_circuitBreakerFailures := NewCounterVec "fortify_circuit_breaker_failures_total" "Total number of failed requests" ["name"] in
  let! v_circuitBreakerSuccesses := NewCounterVec "fortify_circuit_breaker_successes_total" "Total number of successful requests" ["name"] in
  let! v_circuitBreakerStateTotal := NewCounterVec "fortify_circuit_breaker_state_changes_total" "Total number of state changes" ["name"; "from"; "to"] in
  let! v_retryAttempts := NewHistogramVec "fortify_retry_attempts" "Number of retry attempts made" (LinearBuckets (f_of_Z 1) (f_of_Z 1) 10) ["name"] in
  let! v_retrySuccesses := NewCounterVec "fortify_retry_successes_total" "Total number of successful retries" ["name"] in
  let! v_retryFailures := NewCounterVec "fortify_retry_failures_total" "Total number of failed retries" ["name"] in
  let! v_retryDuration := NewHistogramVec "fortify_retry_duration_seconds" "Duration of retry operations" DefBuckets ["name"] in
  let! v_rateLimitAllowed := NewCounterVec "fortify_rate_limit_allowed_total" "Total number of allowed requests" ["name"; "key"] in
  let! v_rateLimitDenied := NewCounterVec "fortify_rate_limit_denied_total" "Total number of denied requests" ["name"; "key"] in
  let! v_rateLimitWaitTime := NewHistogramVec "fortify_rate_limit_wait_seconds" "Time spent waiting for rate limit" DefBuckets ["name"; "key"] in
  let! v_timeoutExecutions := NewCounterVec "fortify_timeout_executions_total" "Total number of timeout executions" ["name"] in
  let! v_timeoutExceeded := NewCounterVec "fortify_timeout_exceeded_total" "Total number of exceeded timeouts" ["name"] in
  let! v_timeoutDuration := NewHistogramVec "fortify_timeout_duration_seconds" "Duration of timeout operations" DefBuckets ["name"; "exceeded"] in
  let! v_bulkheadActive := NewGaugeVec "fortify_bulkhead_active" "Current number of active requests" ["name"] in
  let! v_bulkheadQueued := NewGaugeVec "fortify_bulkhead_queued" "Current number of queued requests" ["name"] in
  let! v_bulkheadRejected := NewCounterVec "fortify_bulkhead_rejected_total" "Total number of rejected requests" ["name"] in
  let! v_bulkheadSuccesses := NewCounterVec "fortify_bulkhead_successes_total" "Total number of successful requests" ["name"] in
  let! v_bulkheadFailures := NewCounterVec "fortify_bulkhead_failures_total" "Total number of failed requests" ["name"] in
  let! v_bulkheadDuration := NewHistogramVec "fortify_bulkhead_duration_seconds" "Duration of bulkhead operations" DefBuckets ["name"] in
  ret {|
    circuitBreakerState := v_circuitBreakerState;
    circuitBreakerRequests := v_circuitBreakerRequests;
    circuitBreakerFailures := v_circuitBreakerFailures;
    circuitBreakerSuccesses := v_circuitBreakerSuccesses;
    circuitBreakerStateTotal := v_circuitBreakerStateTotal;
    retryAttempts := v_retryAttempts;
    retrySuccesses := v_retrySuccesses;
    retryFailures := v_retryFailures;
    retryDuration := v_retryDuration;
    rateLimitAllowed := v_rateLimitAllowed;
    rateLimitDenied := v_rateLimitDenied;
    rateLimitWaitTime := v_rateLimitWaitTime;
    timeoutExecutions := v_timeoutExecutions;
    timeoutExceeded := v_timeoutExceeded;
    timeoutDuration := v_timeoutDuration;
    bulkheadActive := v_bulkheadActive;
    bulkheadQueued := v_bulkheadQueued;
    bulkheadRejected := v_bulkheadRejected;
    bulkheadSuccesses := v_bulkheadSuccesses;
    bulkheadFailures := v_bulkheadFailures;
    bulkheadDuration := v_bulkheadDuration |}.

(** The vectors, in the order of [Describe] and [Collect]. *)
Definition vecs (c : Collector V) : list V :=
  [circuitBreakerState c; circuitBreakerRequests c; circuitBreakerFailures c; circuitBreakerSuccesses c;
   circuitBreakerStateTotal c;
   retryAttempts c; retrySuccesses c; retryFailures c; retryDuration c;
   rateLimitAllowed c; rateLimitDenied c; rateLimitWaitTime c;
   timeoutExecutions c; timeoutExceeded c; timeoutDuration c;
   bulkheadActive c; bulkheadQueued c; bulkheadRejected c; bulkheadSuccesses c; bulkheadFailures c; bulkheadDuration c].

Definition Describe (c : Collector V) : list Desc := desc <$> vecs c.

(** What a scrape gets: description, label values and content of a child. *)
Definition Collect (c : Collector V) (w : W) : list (Desc * list string * list update) :=
  concat ((fun v => prod_map (pair (desc v)) id <$> Collect_vec v w) <$> vecs c).

Definition RecordCircuitBreakerState (c : Collector V) (name : string) (state : f64) : W -> option W :=
  with_labels (circuitBreakerState c) [name] (SetTo state).

Definition RecordCircuitBreakerRequest (c : Collector V) (name state : string) : W -> option W :=
  with_labels (circuitBreakerRequests c) [name; state] Inc.

Definition RecordCircuitBreakerFailure (c : Collector V) (name : string) : W -> option W :=
  with_labels (circuitBreakerFailures c) [name] Inc.

Definition RecordCircuitBreakerSuccess (c : Collector V) (name : string) : W -> option W :=
  with_labels (circuitBreakerSuccesses c) [name] Inc.

Definition RecordCircuitBreakerStateChange (c : Collector V) (name from to : string) : W -> option W :=
  with_labels (circuitBreakerStateTotal c) [name; from; to] Inc.

Definition RecordRetryAttempts (c : Collector V) (name : string) (attempts : f64) : W -> option W :=
  with_labels (retryAttempts c) [name] (Observe attempts).

Definition RecordRetrySuccess (c : Collector V) (name : string) : W -> option W :=
  with_labels (retrySuccesses c) [name] Inc.

Definition RecordRetryFailure (c : Collector V) (name : string) : W -> option W :=
  with_labels (retryFailures c) [name] Inc.

Definition RecordRetryDuration (c : Collector V) (name : string) (seconds : f64) : W -> option W :=
  with_labels (retryDuration c) [name] (Observe seconds).

Definition RecordRateLimitAllowed (c : Collector V) (name key : string) : W -> option W :=
  with_labels (rateLimitAllowed c) [name; key] Inc.

Definition RecordRateLimitDenied (c : Collector V) (name key : string) : W -> option W :=
  with_labels (rateLimitDenied c) [name; key] Inc.

Definition RecordRateLimitWaitTime (c : Collector V) (name key : string) (seconds : f64) : W -> option W :=
  with_labels (rateLimitWaitTime c) [name; key] (Observe seconds).

Definition RecordTimeoutExecution (c : Collector V) (name : string) : W -> option W :=
  with_labels (timeoutExecutions c) [name] Inc.

Definition RecordTimeoutExceeded (c : Collector V) (name : string) : W -> option W :=
  with_labels (timeoutExceeded c) [name] Inc.

Definition RecordTimeoutDuration (c : Collector V) (name : string) (exceeded : bool) (seconds : f64) : W -> option W :=
  let exceededStr := if exceeded then "true" else "false" in
  with_labels (timeoutDuration c) [name; exceededStr] (Observe seconds).

Definition RecordBulkheadActive (c : Collector V) (name : string) (count : f64) : W -> option W :=
  with_labels (bulkheadActive c) [name] (SetTo count).

Definition RecordBulkheadQueued (c : Collector V) (name : string) (count : f64) : W -> option W :=
  with_labels (bulkheadQueued c) [name] (SetTo count).

Definition RecordBulkheadRejected (c : Collector V) (name : string) : W -> option W :=
  with_labels (bulkheadRejected c) [name] Inc.

Definition RecordBulkheadSuccess (c : Collector V) (name : string) : W -> option W :=
  with_labels (bulkheadSuccesses c) [name] Inc.

Definition RecordBulkheadFailure (c : Collector V) (name : string) : W -> option W :=
  with_labels (bulkheadFailures c) [name] Inc.

Definition RecordBulkheadDuration (c : Collector V) (name : string) (seconds : f64) : W -> option W :=
  with_labels (bulkheadDuration c) [name] (Observe seconds).

(** A call of one of the methods. *)
Definition record (c : Collector V) (e : event f64) : W -> option W :=
  match e with
  | CircuitBreakerState name state => RecordCircuitBreakerState c name state
  | CircuitBreakerRequest name state => RecordCircuitBreakerRequest c name state
  | CircuitBreakerFailure name => RecordCircuitBreakerFailure c name
  | CircuitBreakerSuccess name => RecordCircuitBreakerSuccess c name
  | CircuitBreakerStateChange name from to => RecordCircuitBreakerStateChange c name from to
  | RetryAttempts name attempts => RecordRetryAttempts c name attempts
  | RetrySuccess name => RecordRetrySuccess c name
  | RetryFailure name => RecordRetryFailure c name
  | RetryDuration name seconds => RecordRetryDuration c name seconds
  | RateLimitAllowed name key => RecordRateLimitAllowed c name key
  | RateLimitDenied name key => RecordRateLimitDenied c name key
  | RateLimitWaitTime name key seconds => RecordRateLimitWaitTime c name key seconds
  | TimeoutExecution name => RecordTimeoutExecution c name
  | TimeoutExceeded name => RecordTimeoutExceeded c name
  | TimeoutDuration name exceeded seconds => RecordTimeoutDuration c name exceeded seconds
  | BulkheadActive name count => RecordBulkheadActive c name count
  | BulkheadQueued name count => RecordBulkheadQueued c name count
  | BulkheadRejected name => RecordBulkheadRejected c name
  | BulkheadSuccess name => RecordBulkheadSuccess c name
  | BulkheadFailure name => RecordBulkheadFailure c name
  | BulkheadDuration name seconds => RecordBulkheadDuration c name seconds
  end.

(** A history of calls; [None] when one of them panicked. *)
Fixpoint run (c : Collector V) (es : list (event f64)) (w : W) : option W :=
  match es with
  | [] => Some w
  | e :: es => match record c e w with Some w' => run c es w' | None => None end
  end.

(** The package's [defaultCollector] and its [sync.Once]. *)
Record Globals := { once : bool; defaultCollector : option (Collector V) }.

Definition DefaultCollector (g : Globals) : M W (option (Collector V) * Globals) :=
  if once g then ret (defaultCollector g, g)
  else
    let! c := NewCollector in
    ret (Some c, {| once := true; defaultCollector := Some c |}).

(** [registerer.MustRegister] panics when it refuses the collector. *)
Definition MustRegister (register : Collector V -> W -> option W) (g : Globals) : W -> option (Globals * W) := fun w =>
  let '((c, g'), w') := DefaultCollector g w in
  match c with
  | Some c => pair g' <$> register c w'
  | None => None
  end.
End Collector.

Arguments Collector V : clear implicits.
(** ** What each event becomes *)

Definition prom_update (m : measure f64) : update :=
  match m with Count => Inc | Level g => SetTo g | Sample v => Observe v end.

(** Dots are underscores. *)
Fixpoint snake (s : string) : string :=
  match s with
  | EmptyString => EmptyString
  | String c s => String (if bool_decide (c = ".")%char then "_"%char else c) (snake s)
  end.

(** The naming scheme: counters end in total, durations in seconds. *)
Definition prom_name {G} (e : event G) : string :=
  match e with
  | RateLimitWaitTime _ _ _ => "fortify_rate_limit_wait_seconds"
  | RetryAttempts _ _ => "fortify_retry_attempts"
  | _ => "fortify_" +:+ snake (signal e) +:+
      match measured e with Count => "_total" | Level _ => "" | Sample _ => "_seconds" end
  end.

Section Facts.
Context {W V : Type} {PC : PromClient W V} {LP : LawfulProm W V}.

(** The vector of an event. *)
Definition vec (c : Collector V) (e : event f64) : V :=
  match e with
  | CircuitBreakerState _ _ => circuitBreakerState c
  | CircuitBreakerRequest _ _ => circuitBreakerRequests c
  | CircuitBreakerFailure _ => circuitBreakerFailures c
  | CircuitBreakerSuccess _ => circuitBreakerSuccesses c
  | CircuitBreakerStateChange _ _ _ => circuitBreakerStateTotal c
  | RetryAttempts _ _ => retryAttempts c
  | RetrySuccess _ => retrySuccesses c
  | RetryFailure _ => retryFailures c
  | RetryDuration _ _ => retryDuration c
  | RateLimitAllowed _ _ => rateLimitAllowed c
  | RateLimitDenied _ _ => rateLimitDenied c
  | RateLimitWaitTime _ _ _ => rateLimitWaitTime c
  | TimeoutExecution _ => timeoutExecutions c
  | TimeoutExceeded _ => timeoutExceeded c
  | TimeoutDuration _ _ _ => timeoutDuration c
  | BulkheadActive _ _ => bulkheadActive c
  | BulkheadQueued _ _ => bulkheadQueued c
  | BulkheadRejected _ => bulkheadRejected c
  | BulkheadSuccess _ => bulkheadSuccesses c
  | BulkheadFailure _ => bulkheadFailures c
  | BulkheadDuration _ _ => bulkheadDuration c
  end.

Definition place (c : Collector V) (e : event f64) : V * list string := (vec c e, (labels e).*2).

Lemma record_place c e w :
  record c e w = with_labels (place c e).1 (place c e).2 (prom_update (measured e)) w.
Proof. by destruct e. Qed.

Lemma vec_index c e : vecs c !! index e = Some (vec c e).
Proof. by destruct e. Qed.

(** Creating vectors one after the other. *)
Fixpoint alloc (ds : list Desc) : M W (list V) :=
  match ds with
  | [] => ret []
  | d :: ds => let! v := NewVec d in let! vs := alloc ds in ret (v :: vs)
  end.

Lemma alloc_creates ds w : creates w (alloc ds w).1 (alloc ds w).2 /\ desc <$> (alloc ds w).1 = ds.
Proof.
  revert w. induction ds as [|d ds IH]; intros w; [split; [constructor|done]|].
  destruct (IH (NewVec d w).2) as [C E]. split.
  - econstructor; [apply NewVec_created|exact C].
  - cbn. f_equal; [apply NewVec_desc|exact E].
Qed.
End Facts.

(** ** A client in memory *)

Definition MemWorld : Type := Memory Desc (list string) update.

#[export] Instance MemClient : PromClient MemWorld (nat * Desc) := {|
  prom_backend := MemoryBackend;
  Child := nat * Desc * list string;
  NewVec := mem_create;
  desc := snd;
  WithLabelValues v ls w :=
    if decide (length ls = length (label_names v.2) /\ Forall ValidString ls) then Some ((v, ls), w) else None;
  Update ch u w := mem_update ch.1 ch.2 u w;
  Collect_vec v w :=
    (fun ls => (ls, applied w v ls)) <$> remove_dups ((fun x => x.1.2) <$> filter (fun x => x.1.1 = v) w.2)
|}.

#[export] Instance MemLawful : LawfulProm MemWorld (nat * Desc).
Proof.
  constructor.
  - done.
  - intros d w. apply mem_create_created.
  - intros v ls w K L F. exists (v, ls), w. cbn [WithLabelValues MemClient]. rewrite decide_True by done.
    split; [done|]. intros u _. apply mem_update_updated.
  - intros v w ls N. apply list_elem_of_fmap. exists ls. split; [done|]. apply elem_of_remove_dups, list_elem_of_fmap.
    cbn in N. destruct (filter (fun x => x.1 = (v, ls)) w.2) as [|x l] eqn:E; [done|].
    assert (I : x ∈ filter (fun x => x.1 = (v, ls)) w.2) by (rewrite E; left).
    apply list_elem_of_filter in I as [X I]. destruct x as [[v' ls'] u]. injection X as -> ->.
    exists (v, ls, u). split; [done|]. by apply list_elem_of_filter.
  - intros v w ls us I. apply list_elem_of_fmap in I as (k & [= -> ->] & _). done.
Qed.

(** The descriptions, read off the code by running it. *)
Definition descs : list Desc := Describe (NewCollector (([], []) : MemWorld)).1.

(** ** What a new collector is *)

Section Collector_facts.
Context {W V : Type} {PC : PromClient W V} {LP : LawfulProm W V}.

Lemma NewCollector_alloc (w : W) :
  vecs (NewCollector w).1 = (alloc descs w).1 /\ (NewCollector w).2 = (alloc descs w).2.
Proof. split; reflexivity. Qed.

(** The vectors are distinct, empty, and described by [descs]; whatever else
    the client holds is untouched. *)
Record made (c : Collector V) (w : W) : Prop := {
  made_NoDup : NoDup (vecs c);
  made_desc : Describe c = descs;
  made_known : forall v, v ∈ vecs c -> known w v;
  made_empty : forall v ls, v ∈ vecs c -> applied w v ls = []
}.

Lemma NewCollector_made w : made (NewCollector w).1 (NewCollector w).2.
Proof.
  destruct (NewCollector_alloc w) as [E1 E2]. destruct (alloc_creates descs w) as [C D].
  destruct (creates_facts _ _ _ C) as (N & K & _ & Em & _).
  constructor; unfold Describe; rewrite ?E1, ?E2; [done..| |done]. intros v I. apply K. by left.
Qed.

(** The names and labels declared agree with the scheme. *)
Lemma descs_spec (e : event f64) : exists d, descs !! index e = Some d /\
  Name d = prom_name e /\ label_names d = (labels e).*1 /\ fits (kind d) (prom_update (measured e)) = true.
Proof. destruct e; eexists; (split; [reflexivity|]); split_and!; reflexivity. Qed.

Lemma descs_names_distinct : NoDup (Name <$> descs).
Proof. apply (bool_decide_unpack _). vm_compute. constructor. Qed.

Context (c : Collector V) (w0 : W) (Made : made c w0).

Lemma desc_vec e : desc (vec c e) = default (desc (vec c e)) (descs !! index e).
Proof. rewrite <- (made_desc _ _ Made). unfold Describe. by rewrite list_lookup_fmap, vec_index. Qed.

Lemma vec_spec e :
  Name (desc (vec c e)) = prom_name e /\ label_names (desc (vec c e)) = (labels e).*1 /\
  fits (kind (desc (vec c e))) (prom_update (measured e)) = true.
Proof. rewrite desc_vec. destruct (descs_spec e) as (d & -> & N & L & F). done. Qed.

Lemma vec_elem e : vec c e ∈ vecs c.
Proof. apply list_elem_of_lookup. eexists. apply vec_index. Qed.

Lemma same_place e e' : place c e = place c e' <-> same_series e e'.
Proof.
  unfold place. rewrite same_series_index. split.
  - intros [= E L]. split; [|done]. eapply NoDup_lookup; [apply (made_NoDup _ _ Made)|apply vec_index|]. rewrite E. apply vec_index.
  - intros [E L]. rewrite L. f_equal. pose proof (vec_index c e) as V1. rewrite E, vec_index in V1. congruence.
Qed.

(** One call: no panic, and the right child is updated. *)
Lemma record_ok e w : (forall v, v ∈ vecs c -> known w v) -> valid_labels e ->
  exists w', record c e w = Some w' /\ updated w (place c e).1 (place c e).2 (prom_update (measured e)) w'.
Proof.
  intros K F. rewrite record_place. unfold with_labels, place. cbn [fst snd].
  destruct (vec_spec e) as (_ & L & Fi).
  destruct (WithLabelValues_ok (vec c e) (labels e).*2 w) as (ch & w' & E & U); [apply K, vec_elem| |done|].
  - by rewrite L, !length_fmap.
  - rewrite E. eauto.
Qed.

Lemma run_ok es w : (forall v, v ∈ vecs c -> known w v) -> Forall valid_labels es ->
  exists w', run c es w = Some w' /\ updates w ((fun e => (place c e, prom_update (measured e))) <$> es) w'.
Proof.
  intros K F. revert w K. induction F as [|e es Fe F IH]; intros w K; [eexists; split; [done|constructor]|].
  destruct (record_ok e w K Fe) as (w1 & E1 & U1). cbn. rewrite E1.
  destruct (IH w1) as (w2 & E2 & U2). { intros v I. apply U1. auto. }
  exists w2. split; [done|]. destruct (place c e). econstructor; eassumption.
Qed.

(** A scrape. *)
Lemma Collect_elem w d ls us :
  (d, ls, us) ∈ Collect c w <-> exists v, v ∈ vecs c /\ d = desc v /\ (ls, us) ∈ Collect_vec v w.
Proof.
  unfold Collect. rewrite list_elem_of_In, in_concat. setoid_rewrite <- list_elem_of_In. split.
  - intros (l & I1 & I2). apply list_elem_of_fmap in I1 as (v & -> & I). apply list_elem_of_fmap in I2 as ([ls' us'] & [= -> -> ->] & I2).
    by exists v.
  - intros (v & I & -> & J). exists (prod_map (pair (desc v)) id <$> Collect_vec v w). split; apply list_elem_of_fmap.
    + by exists v.
    + by exists (ls, us).
Qed.

(** After the calls [es] from a new collector. *)
Context (es : list (event f64)) (w' : W).
Context (U : updates w0 ((fun e => (place c e, prom_update (measured e))) <$> es) w').

Lemma applied_history e : applied w' (vec c e) (labels e).*2 = prom_update <$> history es e.
Proof.
  pose proof (updates_history (place c) prom_update es _ w' e U) as X. cbn [place fst snd] in X. unfold place in X.
  rewrite X; [|intros; by apply same_place]. by rewrite (made_empty _ _ Made) by apply vec_elem.
Qed.

Lemma labels_zip e : zip (label_names (desc (vec c e))) (labels e).*2 = labels e.
Proof. destruct (vec_spec e) as (_ & -> & _). by apply zip_fst_snd. Qed.

Lemma exports_complete e : history es e <> [] ->
  exists d ls, (d, ls, prom_update <$> history es e) ∈ Collect c w' /\
    Name d = prom_name e /\ zip (label_names d) ls = labels e.
Proof.
  intros N. exists (desc (vec c e)), (labels e).*2. split_and!; [|apply vec_spec|apply labels_zip].
  apply Collect_elem. exists (vec c e). split_and!; [apply vec_elem|done|]. rewrite <- applied_history.
  apply Collect_complete. rewrite applied_history. by intros X%fmap_nil_inv.
Qed.

Lemma exports_sound d ls us : (d, ls, us) ∈ Collect c w' -> us <> [] ->
  exists e, e ∈ es /\ Name d = prom_name e /\ zip (label_names d) ls = labels e /\ us = prom_update <$> history es e.
Proof.
  intros I N. apply Collect_elem in I as (v & Iv & -> & I). apply Collect_sound in I as ->.
  destruct (updates_origin _ _ _ _ _ _ _ U (made_empty _ _ Made v ls Iv) N) as (e & Ie & [= <- <-]).
  exists e. split_and!; [done|apply vec_spec|apply labels_zip|apply applied_history].
Qed.
End Collector_facts.

(** ** Theorems *)

Section Theorems.
Context {W V : Type} {PC : PromClient W V} {LP : LawfulProm W V}.

(** C28: Recording on a new collector never panics when the labels are valid
    UTF-8, and a scrape then shows, under the documented name and labels of
    every series that was used, exactly the updates of that series in order,
    and nothing else. *)
Theorem prometheus_exports (w : W) es :
  Forall valid_labels es ->
  let c := (NewCollector w).1 in
  exists w', run c es (NewCollector w).2 = Some w' /\
    (forall e, history es e <> [] ->
       exists d ls, (d, ls, prom_update <$> history es e) ∈ Collect c w' /\
         Name d = prom_name e /\ zip (label_names d) ls = labels e) /\
    (forall d ls us, (d, ls, us) ∈ Collect c w' -> us <> [] ->
       exists e, e ∈ es /\ Name d = prom_name e /\ zip (label_names d) ls = labels e /\ us = prom_update <$> history es e).
Proof.
  intros F c. pose proof (NewCollector_made w) as Made. fold c in Made.
  destruct (run_ok _ _ Made es _ (made_known _ _ Made) F) as (w' & E & U). exists w'. split; [exact E|]. split.
  - intros e. by apply (exports_complete _ _ Made).
  - intros d ls us. by apply (exports_sound _ _ Made).
Qed.

(** The keys of the HTTP middleware can be recorded. *)
Lemma sanitised_key_recorded NFC PrintRanges key maxLen name w c :
  made c w -> ValidString name -> exists w', RecordRateLimitDenied c name (SanitizeKey NFC PrintRanges key maxLen) w = Some w'.
Proof.
  intros Made N. destruct (record_ok _ _ Made (RateLimitDenied name (SanitizeKey NFC PrintRanges key maxLen)) w) as (w' & E & _).
  - apply (made_known _ _ Made).
  - repeat constructor; [done|]. rewrite SanitizeKey_sanitized. apply ValidString_encode, sanitized_valid.
  - by exists w'.
Qed.

(** [DefaultCollector] makes one collector and hands it out ever after. *)
Lemma DefaultCollector_once g w :
  let r := DefaultCollector g w in
  once (r.1.2) = true /\ (once g = false -> r.1.1 = Some (NewCollector w).1) /\
  forall w', DefaultCollector r.1.2 w' = ((defaultCollector r.1.2, r.1.2), w') /\
    (once g = false -> defaultCollector r.1.2 = r.1.1).
Proof. unfold DefaultCollector. destruct (once g) eqn:O; cbn; rewrite ?O; done. Qed.
End Theorems.

(** The names a registry sees are distinct and in Prometheus's grammar, and
    no histogram claims the reserved label. *)
Definition name_char (b : Z) : bool :=
  ((97 <=? b) && (b <=? 122)) || ((65 <=? b) && (b <=? 90)) || ((48 <=? b) && (b <=? 57)) || (b =? 95).

Lemma descriptors_registrable :
  NoDup (Name <$> descs) /\ Forall (fun d => forallb name_char (bytes (Name d)) = true /\
    NoDup (label_names d) /\ ~ "le"%string ∈ label_names d) descs.
Proof.
  split; [apply descs_names_distinct|]. apply (bool_decide_unpack _). vm_compute. constructor.
Qed.

(** ** A run *)

Module Demo.

Definition start : MemWorld := ([], []).
Definition collector : Collector (nat * Desc) := (NewCollector start).1.

Definition calls : list (event f64) :=
  [CircuitBreakerStateChange "api" "closed" "open"; TimeoutDuration "api" true (f_ratio 3 2);
   CircuitBreakerState "api" (f_of_Z 1); CircuitBreakerStateChange "api" "closed" "open"; CircuitBreakerState "api" (f_of_Z 2)].

Lemma prometheus_exports_witness :
  Forall valid_labels calls /\
  exists w' d ls, run collector calls (NewCollector start).2 = Some w' /\
    (d, ls, [SetTo (f_of_Z 1); SetTo (f_of_Z 2)]) ∈ Collect collector w' /\
    Name d = "fortify_circuit_breaker_state"%string /\ zip (label_names d) ls = [("name", "api")]%string.
Proof.
  assert (F : Forall (valid_labels (G := f64)) calls) by (apply (bool_decide_unpack _); vm_compute; constructor).
  split; [exact F|]. destruct (prometheus_exports start calls F) as (w' & R & C & _).
  destruct (C (CircuitBreakerState "api" (f_of_Z 0))) as (d & ls & I & N & Z); [vm_compute; discriminate|].
  exists w', d, ls. split_and!; [exact R|exact I|exact N|exact Z].
Defined.

(** A key that is not UTF-8 panics. *)
Example invalid_key_panics :
  run collector [RateLimitDenied "api" (of_bytes [255])] (NewCollector start).2 = None.
Proof. vm_compute. reflexivity. Qed.
End Demo.
