(* ===== verification/OtelMetrics.v ===== *)
(** The OpenTelemetry meter ([metrics/otel/metrics.go]), and its agreement with
    the Prometheus collector.

    The metric API is not part of the repository: [OtelClient] is what the
    meter calls of it, [LawfulOtel] the documented behaviour it relies on:
    an instrument that was created keeps, for every attribute set, the
    measurements it is given; recording cannot fail.  The attribute sets of this
    package list distinct keys in a fixed order, so a set is that list. *)

From S2P Require Import Prelude Float64 Errors Runtime Utf8 Signals Metrics.

#[local] Open Scope go_scope.

(** ** Package metric *)

Inductive InstrumentKind := Int64Gauge | Int64Counter | Float64Histogram.

(** Name, [WithDescription] and [WithUnit]. *)
Record InstrumentOpts := { i_kind : InstrumentKind; i_name : string; i_desc : string; i_unit : string }.

Definition attribute_set : Type := list (string * attr).

Inductive measurement := Add (incr : Z) | RecordInt (value : Z) | RecordFloat (value : f64).

Definition i_fits (k : InstrumentKind) (u : measurement) : bool :=
  match k, u with
  | Int64Gauge, RecordInt _ | Int64Counter, Add _ | Float64Histogram, RecordFloat _ => true
  | _, _ => false
  end.

Class OtelClient (W I : Type) := {
  #[global] otel_backend :: Backend W I attribute_set measurement;
  (* an instrument is returned also with an error *)
  NewInstrument : InstrumentOpts -> M W (I * option error);
  i_opts : I -> InstrumentOpts;
  Measure : I -> attribute_set -> measurement -> W -> W
}.

Class LawfulOtel (W I : Type) `{OtelClient W I} := {
  NewInstrument_created : forall o w i w', NewInstrument o w = ((i, None), w') -> created w i w' /\ i_opts i = o;
  Measure_updated : forall i l u w, known w i -> i_fits (i_kind (i_opts i)) u = true -> updated w i l u (Measure i l u w)
}.

(** ** [Meter] *)

Record Meter (I : Type) := {
  cbState : I;
  cbRequests : I;
  cbFailures : I;
  cbSuccesses : I;
  cbStateChanges : I;
  retryAttempts : I;
  retrySuccesses : I;
  retryFailures : I;
  retryDuration : I;
  rlAllowed : I;
  rlDenied : I;
  rlWaitTime : I;
  timeoutExecutions : I;
  timeoutExceeded : I;
  timeoutDuration : I;
  bulkheadActive : I;
  bulkheadQueued : I;
  bulkheadRejected : I;
  bulkheadSuccesses : I;
  bulkheadFailures : I;
  bulkheadDuration : I
}.

Arguments cbState {I}.
Arguments cbRequests {I}.
Arguments cbFailures {I}.
Arguments cbSuccesses {I}.
Arguments cbStateChanges {I}.
Arguments retryAttempts {I}.
Arguments retrySuccesses {I}.
Arguments retryFailures {I}.
Arguments retryDuration {I}.
Arguments rlAllowed {I}.
Arguments rlDenied {I}.
Arguments rlWaitTime {I}.
Arguments timeoutExecutions {I}.
Arguments timeoutExceeded {I}.
Arguments timeoutDuration {I}.
Arguments bulkheadActive {I}.
Arguments bulkheadQueued {I}.
Arguments bulkheadRejected {I}.
Arguments bulkheadSuccesses {I}.
Arguments bulkheadFailures {I}.
Arguments bulkheadDuration {I}.

(** A provider: [provider.Meter(name)] gives the client of a scope. *)
Definition instrumentationName : string := "go.klarlabs.de/fortify/metrics/otel".

Section Meter.
Context {W I : Type}.

(** The closures [c], [g] and [h]: the first error is kept. *)
Definition keep_first (err e : option error) : option error :=
  match err with None => e | Some _ => err end.

Section NewMeter.
Context {OC : OtelClient W I}.

(** One assignment of the constructor, with the variable [err]. *)
Definition make (k : InstrumentKind) (name description unit : string) (err : option error) : M W (I * option error) :=
  let! r := NewInstrument {| i_kind := k; i_name := name; i_desc := description; i_unit := unit |} in
  ret (r.1, keep_first err r.2).

Definition build : M W (Meter I * option error) :=
  let! (m_cbState, e0) := make Int64Gauge "fortify.circuit_breaker.state" "Current circuit breaker state (0=closed, 1=open, 2=half-open)" "" None in
  let! (m_cbRequests, e1) := make Int64Counter "fortify.circuit_breaker.requests" "Total circuit breaker requests" "" e0 in
  let! (m_cbFailures, e2) := make Int64Counter "fortify.circuit_breaker.failures" "Total failed circuit breaker requests" "" e1 in
  let! (m_cbSuccesses, e3) := make Int64Counter "fortify.circuit_breaker.successes" "Total successful circuit breaker requests" "" e2 in
  let! (m_cbStateChanges, e4) := make Int64Counter "fortify.circuit_breaker.state_changes" "Total circuit breaker state changes" "" e3 in
  let! (m_retryAttempts, e5) := make Float64Histogram "fortify.retry.attempts" "Number of retry attempts made" "" e4 in
  let! (m_retrySuccesses, e6) := make Int64Counter "fortify.retry.successes" "Total successful retries" "" e5 in
  let! (m_retryFailures, e7) := make Int64Counter "fortify.retry.failures" "Total failed retries" "" e6 in
  let! (m_retryDuration, e8) := make Float64Histogram "fortify.retry.duration" "Duration of retry operations" "s" e7 in
  let! (m_rlAllowed, e9) := make Int64Counter "fortify.rate_limit.allowed" "Total allowed rate-limited requests" "" e8 in
  let! (m_rlDenied, e10) := make Int64Counter "fortify.rate_limit.denied" "Total denied rate-limited requests" "" e9 in
  let! (m_rlWaitTime, e11) := make Float64Histogram "fortify.rate_limit.wait_duration" "Time spent waiting for a rate-limit token" "s" e10 in
  let! (m_timeoutExecutions, e12) := make Int64Counter "fortify.timeout.executions" "Total timeout-guarded executions" "" e11 in
  let! (m_timeoutExceeded, e13) := make Int64Counter "fortify.timeout.exceeded" "Total executions that exceeded their timeout" "" e12 in
  let! (m_timeoutDuration, e14) := make Float64Histogram "fortify.timeout.duration" "Duration of timeout-guarded operations" "s" e13 in
  let! (m_bulkheadActive, e15) := make Int64Gauge "fortify.bulkhead.active" "Current number of active bulkhead requests" "" e14 in
  let! (m_bulkheadQueued, e16) := make Int64Gauge "fortify.bulkhead.queued" "Current number of queued bulkhead requests" "" e15 in
  let! (m_bulkheadRejected, e17) := make Int64Counter "fortify.bulkhead.rejected" "Total rejected bulkhead requests" "" e16 in
  let! (m_bulkheadSuccesses, e18) := make Int64Counter "fortify.bulkhead.successes" "Total successful bulkhead requests" "" e17 in
  let! (m_bulkheadFailures, e19) := make Int64Counter "fortify.bulkhead.failures" "Total failed bulkhead requests" "" e18 in
  let! (m_bulkheadDuration, e20) := make Float64Histogram "fortify.bulkhead.duration" "Duration of bulkhead operations" "s" e19 in
  ret ({|
    cbState := m_cbState;
    cbRequests := m_cbRequests;
    cbFailures := m_cbFailures;
    cbSuccesses := m_cbSuccesses;
    cbStateChanges := m_cbStateChanges;
    retryAttempts := m_retryAttempts;
    retrySuccesses := m_retrySuccesses;
    retryFailures := m_retryFailures;
    retryDuration := m_retryDuration;
    rlAllowed := m_rlAllowed;
    rlDenied := m_rlDenied;
    rlWaitTime := m_rlWaitTime;
    timeoutExecutions := m_timeoutExecutions;
    timeoutExceeded := m_timeoutExceeded;
    timeoutDuration := m_timeoutDuration;
    bulkheadActive := m_bulkheadActive;
    bulkheadQueued := m_bulkheadQueued;
    bulkheadRejected := m_bulkheadRejected;
    bulkheadSuccesses := m_bulkheadSuccesses;
    bulkheadFailures := m_bulkheadFailures;
    bulkheadDuration := m_bulkheadDuration |}, e20).
End NewMeter.

(** A nil provider is the global one. *)
Definition NewMeter (GetMeterProvider : string -> OtelClient W I) (provider : option (string -> OtelClient W I))
    : M W (option (Meter I) * option error) :=
  let provider := match provider with None => GetMeterProvider | Some p => p end in
  let meter := provider instrumentationName in
  let! (m, err) := build (OC := meter) in
  ret (match err with Some _ => (None, err) | None => (Some m, None) end).

Definition nameAttr (name : string) : attribute_set := [("name", AString name)]%string.

Definition keyAttr (name key : string) : attribute_set := [("name", AString name); ("key", AString key)]%string.

Context {OC : OtelClient W I}.

Definition RecordCircuitBreakerState (m : Meter I) (name : string) (state : Z) : W -> W :=
  Measure (cbState m) (nameAttr name) (RecordInt state).

Definition RecordCircuitBreakerRequest (m : Meter I) (name state : string) : W -> W :=
  Measure (cbRequests m) [("name", AString name); ("state", AString state)]%string (Add 1).

Definition RecordCircuitBreakerFailure (m : Meter I) (name : string) : W -> W :=
  Measure (cbFailures m) (nameAttr name) (Add 1).

Definition RecordCircuitBreakerSuccess (m : Meter I) (name : string) : W -> W :=
  Measure (cbSuccesses m) (nameAttr name) (Add 1).

Definition RecordCircuitBreakerStateChange (m : Meter I) (name from to : string) : W -> W :=
  Measure (cbStateChanges m) [("name", AString name); ("from", AString from); ("to", AString to)]%string (Add 1).

Definition RecordRetryAttempts (m : Meter I) (name : string) (attempts : f64) : W -> W :=
  Measure (retryAttempts m) (nameAttr name) (RecordFloat attempts).

Definition RecordRetrySuccess (m : Meter I) (name : string) : W -> W :=
  Measure (retrySuccesses m) (nameAttr name) (Add 1).

Definition RecordRetryFailure (m : Meter I) (name : string) : W -> W :=
  Measure (retryFailures m) (nameAttr name) (Add 1).

Definition RecordRetryDuration (m : Meter I) (name : string) (seconds : f64) : W -> W :=
  Measure (retryDuration m) (nameAttr name) (RecordFloat seconds).

Definition RecordRateLimitAllowed (m : Meter I) (name key : string) : W -> W :=
  Measure (rlAllowed m) (keyAttr name key) (Add 1).

Definition RecordRateLimitDenied (m : Meter I) (name key : string) : W -> W :=
  Measure (rlDenied m) (keyAttr name key) (Add 1).

Definition RecordRateLimitWaitTime (m : Meter I) (name key : string) (seconds : f64) : W -> W :=
  Measure (rlWaitTime m) (keyAttr name key) (RecordFloat seconds).

Definition RecordTimeoutExecution (m : Meter I) (name : string) : W -> W :=
  Measure (timeoutExecutions m) (nameAttr name) (Add 1).

Definition RecordTimeoutExceeded (m : Meter I) (name : string) : W -> W :=
  Measure (timeoutExceeded m) (nameAttr name) (Add 1).

Definition RecordTimeoutDuration (m : Meter I) (name : string) (exceeded : bool) (seconds : f64) : W -> W :=
  Measure (timeoutDuration m) [("name", AString name); ("exceeded", ABool exceeded)]%string (RecordFloat seconds).

Definition RecordBulkheadActive (m : Meter I) (name : string) (count : Z) : W -> W :=
  Measure (bulkheadActive m) (nameAttr name) (RecordInt count).

Definition RecordBulkheadQueued (m : Meter I) (name : string) (count : Z) : W -> W :=
  Measure (bulkheadQueued m) (nameAttr name) (RecordInt count).

Definition RecordBulkheadRejected (m : Meter I) (name : string) : W -> W :=
  Measure (bulkheadRejected m) (nameAttr name) (Add 1).

Definition RecordBulkheadSuccess (m : Meter I) (name : string) : W -> W :=
  Measure (bulkheadSuccesses m) (nameAttr name) (Add 1).

Definition RecordBulkheadFailure (m : Meter I) (name : string) : W -> W :=
  Measure (bulkheadFailures m) (nameAttr name) (Add 1).

Definition RecordBulkheadDuration (m : Meter I) (name : string) (seconds : f64) : W -> W :=
  Measure (bulkheadDuration m) (nameAttr name) (RecordFloat seconds).

(** A call of one of the methods, and a history of calls. *)
Definition record (m : Meter I) (e : event Z) : W -> W :=
  match e with
  | CircuitBreakerState name state => RecordCircuitBreakerState m name state
  | CircuitBreakerRequest name state => RecordCircuitBreakerRequest m name state
  | CircuitBreakerFailure name => RecordCircuitBreakerFailure m name
  | CircuitBreakerSuccess name => RecordCircuitBreakerSuccess m name
  | CircuitBreakerStateChange name from to => RecordCircuitBreakerStateChange m name from to
  | RetryAttempts name attempts => RecordRetryAttempts m name attempts
  | RetrySuccess name => RecordRetrySuccess m name
  | RetryFailure name => RecordRetryFailure m name
  | RetryDuration name seconds => RecordRetryDuration m name seconds
  | RateLimitAllowed name key => RecordRateLimitAllowed m name key
  | RateLimitDenied name key => RecordRateLimitDenied m name key
  | RateLimitWaitTime name key seconds => RecordRateLimitWaitTime m name key seconds
  | TimeoutExecution name => RecordTimeoutExecution m name
  | TimeoutExceeded name => RecordTimeoutExceeded m name
  | TimeoutDuration name exceeded seconds => RecordTimeoutDuration m name exceeded seconds
  | BulkheadActive name count => RecordBulkheadActive m name count
  | BulkheadQueued name count => RecordBulkheadQueued m name count
  | BulkheadRejected name => RecordBulkheadRejected m name
  | BulkheadSuccess name => RecordBulkheadSuccess m name
  | BulkheadFailure name => RecordBulkheadFailure m name
  | BulkheadDuration name seconds => RecordBulkheadDuration m name seconds
  end.

Fixpoint run (m : Meter I) (es : list (event Z)) (w : W) : W :=
  match es with
  | [] => w
  | e :: es => run m es (record m e w)
  end.

(** The instruments, in the order of their creation. *)
Definition instruments (m : Meter I) : list I :=
  [cbState m; cbRequests m; cbFailures m; cbSuccesses m; cbStateChanges m;
   retryAttempts m; retrySuccesses m; retryFailures m; retryDuration m;
   rlAllowed m; rlDenied m; rlWaitTime m;
   timeoutExecutions m; timeoutExceeded m; timeoutDuration m;
   bulkheadActive m; bulkheadQueued m; bulkheadRejected m; bulkheadSuccesses m; bulkheadFailures m; bulkheadDuration m].
End Meter.
(** ** The constructor *)

Section Construction.
Context {W I : Type} {OC : OtelClient W I}.

(** Creations one after the other. *)
Fixpoint make_all (os : list InstrumentOpts) (err : option error) : M W (list I * option error) :=
  match os with
  | [] => ret ([], err)
  | o :: os =>
      let! (i, err) := make (i_kind o) (i_name o) (i_desc o) (i_unit o) err in
      let! (rest, err) := make_all os err in
      ret (i :: rest, err)
  end.

(** What the library answered, creation by creation. *)
Fixpoint creation_errors (os : list InstrumentOpts) (w : W) : list (option error) :=
  match os with
  | [] => []
  | o :: os => (NewInstrument o w).1.2 :: creation_errors os (NewInstrument o w).2
  end.

Definition first_error (l : list (option error)) : option error := head (omap id l).

Lemma make_all_error os : forall err w,
  (make_all os err w).1.2 = match err with Some _ => err | None => first_error (creation_errors os w) end.
Proof.
  induction os as [|o os IH]; intros err w; [by destruct err|]. destruct o as [k n d u].
  cbn -[first_error creation_errors]. unfold bind, ret. cbn -[first_error creation_errors].
  destruct (make_all os _ _) as [[rest e] w'] eqn:E. cbn -[first_error creation_errors].
  pose proof (IH (keep_first err (NewInstrument {| i_kind := k; i_name := n; i_desc := d; i_unit := u |} w).1.2)
    (NewInstrument {| i_kind := k; i_name := n; i_desc := d; i_unit := u |} w).2) as X.
  rewrite E in X. cbn -[first_error creation_errors] in X. rewrite X. destruct err; [done|]. cbn.
  by destruct (NewInstrument _ w).1.2.
Qed.

Lemma make_all_creates {LO : LawfulOtel W I} os : forall w,
  (make_all os None w).1.2 = None ->
  creates w (make_all os None w).1.1 (make_all os None w).2 /\ i_opts <$> (make_all os None w).1.1 = os.
Proof.
  induction os as [|o os IH]; intros w N; [split; [constructor|done]|].
  rewrite make_all_error in N. cbn in N. destruct o as [k n d u]. cbn in N |- *. unfold bind, ret. cbn.
  destruct (NewInstrument _ w) as [[i [e|]] w1] eqn:E; [discriminate N|]. cbn in N |- *.
  apply NewInstrument_created in E as [C O]. destruct (IH w1) as [C' O']; [by rewrite make_all_error|].
  destruct (make_all os None w1) as [[rest e'] w2]. cbn in *. split; [by econstructor|]. by f_equal.
Qed.

(** The same with the instruments in an accumulator. *)
Fixpoint make_onto (os : list InstrumentOpts) (acc : list I) (err : option error) : M W (list I * option error) :=
  match os with
  | [] => ret (acc, err)
  | o :: os => let! (i, err) := make (i_kind o) (i_name o) (i_desc o) (i_unit o) err in make_onto os (acc ++ [i]) err
  end.

Lemma make_onto_all os : forall acc err w,
  make_onto os acc err w = prod_map (prod_map (app acc) id) id (make_all os err w).
Proof.
  induction os as [|o os IH]; intros acc err w; cbn [make_onto make_all].
  - unfold ret. cbn. by rewrite app_nil_r.
  - unfold bind at 1 2. destruct (make _ _ _ _ err w) as [[i e] w1]. cbn [fst snd]. rewrite IH.
    unfold bind, ret. destruct (make_all os e w1) as [[rest e'] w2]. cbn. by rewrite <- app_assoc.
Qed.

Lemma prod_map_parts {A B C D} (f : A -> list B) (x : A * C * D) y :
  prod_map (prod_map f id) id x = prod_map (prod_map (app []) id) id y -> f x.1.1 = y.1.1 /\ x.1.2 = y.1.2 /\ x.2 = y.2.
Proof. destruct x as [[a c] d], y as [[b c'] d']. cbn. by intros [= -> -> ->]. Qed.

Lemma bind_map {A B C} (f : B -> C) (m : M W A) k k' w :
  (forall a w, prod_map f id (k a w) = k' a w) -> prod_map f id (bind m k w) = bind m k' w.
Proof. intros H. unfold bind. apply H. Qed.
End Construction.

(** ** A client in memory, and the instruments *)

#[export] Instance InstrumentOpts_eq_dec : EqDecision InstrumentOpts.
Proof. unfold EqDecision, Decision. repeat decide equality. Defined.

Definition OtelWorld : Type := Memory InstrumentOpts attribute_set measurement.

#[export] Instance MemOtel : OtelClient OtelWorld (nat * InstrumentOpts) := {|
  otel_backend := MemoryBackend;
  NewInstrument o w := (((mem_create o w).1, None), (mem_create o w).2);
  i_opts := snd;
  Measure := mem_update
|}.

#[export] Instance MemOtelLawful : LawfulOtel OtelWorld (nat * InstrumentOpts).
Proof.
  constructor.
  - intros o w i w' [= <- <-]. split; [apply mem_create_created|done].
  - intros i l u w _ _. apply mem_update_updated.
Qed.

(** What [NewMeter] creates, read off the code by running it. *)
Definition i_descs : list InstrumentOpts := i_opts <$> instruments (build (([], []) : OtelWorld)).1.1.

Definition otel_name {G} (e : event G) : string := "fortify." +:+ signal e.

Definition otel_measure (m : measure Z) : measurement :=
  match m with Count => Add 1 | Level z => RecordInt z | Sample v => RecordFloat v end.

Section Meter_facts.
Context {W I : Type} {OC : OtelClient W I}.

Lemma build_all (w : W) :
  instruments (build w).1.1 = (make_all i_descs None w).1.1 /\
  (build w).1.2 = (make_all i_descs None w).1.2 /\ (build w).2 = (make_all i_descs None w).2.
Proof.
  assert (E : prod_map (prod_map instruments id) id (build w) = make_onto i_descs [] None w).
  { let os := eval vm_compute in i_descs in change i_descs with os. unfold build. cbn [make_onto i_kind i_name i_desc i_unit].
    do 21 (apply bind_map; intros [? ?] ?). done. }
  rewrite make_onto_all in E. by apply prod_map_parts.
Qed.

Definition instrument (m : Meter I) (e : event Z) : I :=
  match e with
  | CircuitBreakerState _ _ => cbState m
  | CircuitBreakerRequest _ _ => cbRequests m
  | CircuitBreakerFailure _ => cbFailures m
  | CircuitBreakerSuccess _ => cbSuccesses m
  | CircuitBreakerStateChange _ _ _ => cbStateChanges m
  | RetryAttempts _ _ => retryAttempts m
  | RetrySuccess _ => retrySuccesses m
  | RetryFailure _ => retryFailures m
  | RetryDuration _ _ => retryDuration m
  | RateLimitAllowed _ _ => rlAllowed m
  | RateLimitDenied _ _ => rlDenied m
  | RateLimitWaitTime _ _ _ => rlWaitTime m
  | TimeoutExecution _ => timeoutExecutions m
  | TimeoutExceeded _ => timeoutExceeded m
  | TimeoutDuration _ _ _ => timeoutDuration m
  | BulkheadActive _ _ => bulkheadActive m
  | BulkheadQueued _ _ => bulkheadQueued m
  | BulkheadRejected _ => bulkheadRejected m
  | BulkheadSuccess _ => bulkheadSuccesses m
  | BulkheadFailure _ => bulkheadFailures m
  | BulkheadDuration _ _ => bulkheadDuration m
  end.

Definition i_place (m : Meter I) (e : event Z) : I * attribute_set := (instrument m e, attributes e).

Lemma record_i_place m e w : record m e w = Measure (i_place m e).1 (i_place m e).2 (otel_measure (measured e)) w.
Proof. by destruct e. Qed.

Lemma instrument_index m e : instruments m !! index e = Some (instrument m e).
Proof. by destruct e. Qed.

Lemma instrument_elem m e : instrument m e ∈ instruments m.
Proof. apply list_elem_of_lookup. eexists. apply instrument_index. Qed.

Lemma i_descs_spec (e : event Z) : exists o, i_descs !! index e = Some o /\
  i_name o = otel_name e /\ i_fits (i_kind o) (otel_measure (measured e)) = true.
Proof. destruct e; eexists; (split; [reflexivity|]); split; reflexivity. Qed.

(** A meter whose instruments were all created in [w]. *)
Record ready (m : Meter I) (w : W) : Prop := {
  ready_NoDup : NoDup (instruments m);
  ready_opts : i_opts <$> instruments m = i_descs;
  ready_known : forall i, i ∈ instruments m -> known w i;
  ready_empty : forall i l, i ∈ instruments m -> applied w i l = []
}.

Context {LO : LawfulOtel W I}.

Lemma build_ready w : (build w).1.2 = None -> ready (build w).1.1 (build w).2.
Proof.
  destruct (build_all w) as (E1 & E2 & E3). rewrite E2. intros N.
  destruct (make_all_creates i_descs w N) as [C O]. destruct (creates_facts _ _ _ C) as (D & K & _ & Em & _).
  constructor; rewrite ?E1, ?E3; [done..| |done]. intros i X. apply K. by left.
Qed.

Context (m : Meter I) (w0 : W) (Ready : ready m w0).

Lemma instrument_spec e :
  i_name (i_opts (instrument m e)) = otel_name e /\ i_fits (i_kind (i_opts (instrument m e))) (otel_measure (measured e)) = true.
Proof.
  assert (E : (i_opts <$> instruments m) !! index e = Some (i_opts (instrument m e)))
    by (by rewrite list_lookup_fmap, instrument_index).
  rewrite (ready_opts _ _ Ready) in E. destruct (i_descs_spec e) as (o & E' & N & F). rewrite E' in E. injection E as <-. done.
Qed.

Lemma same_i_place e e' : i_place m e = i_place m e' <-> same_series e e'.
Proof.
  unfold i_place. split.
  - intros [= E A]. apply same_series_index. split; [|unfold labels; by rewrite A].
    eapply NoDup_lookup; [apply (ready_NoDup _ _ Ready)|apply instrument_index|]. rewrite E. apply instrument_index.
  - intros S. rewrite (labels_attributes _ _ S). f_equal. apply same_series_index in S as [E _].
    pose proof (instrument_index m e) as L. rewrite E, instrument_index in L. congruence.
Qed.

Lemma otel_run_updates es w : (forall i, i ∈ instruments m -> known w i) ->
  updates w ((fun e => (i_place m e, otel_measure (measured e))) <$> es) (run m es w).
Proof.
  revert w. induction es as [|e es IH]; intros w K; [constructor|]. cbn. rewrite record_i_place.
  assert (U : updated w (i_place m e).1 (i_place m e).2 (otel_measure (measured e))
    (Measure (i_place m e).1 (i_place m e).2 (otel_measure (measured e)) w)).
  { apply Measure_updated; [apply K, instrument_elem|apply instrument_spec]. }
  econstructor; [exact U|]. apply IH. intros i X. apply U, K, X.
Qed.

(** The measurements of a series. *)
Lemma otel_history es e : applied (run m es w0) (instrument m e) (attributes e) = otel_measure <$> history es e.
Proof.
  change (applied (run m es w0) (i_place m e).1 (i_place m e).2 = otel_measure <$> history es e).
  rewrite (updates_history (i_place m) otel_measure es w0 _ e); [|apply otel_run_updates, (ready_known _ _ Ready)|intros; by apply same_i_place].
  by rewrite (ready_empty _ _ Ready) by apply instrument_elem.
Qed.
End Meter_facts.

(** ** Theorems *)

(** [NewMeter] makes all its instruments with the provider it was given,
    the global one for nil; it fails exactly when a creation failed, with
    the first error in the order of the source, and then returns no meter. *)
Theorem NewMeter_spec {W I} (GetMeterProvider : string -> OtelClient W I) provider w :
  let oc := (default GetMeterProvider provider) instrumentationName in
  let r := NewMeter GetMeterProvider provider w in
  r.2 = (make_all (OC := oc) i_descs None w).2 /\
  match first_error (creation_errors (OC := oc) i_descs w) with
  | Some e => r.1 = (None, Some e)
  | None => exists m, r.1 = (Some m, None) /\ instruments m = (make_all (OC := oc) i_descs None w).1.1
  end.
Proof.
  intros oc r. destruct (build_all (OC := oc) w) as (E1 & E2 & E3).
  rewrite (make_all_error (OC := oc)) in E2. rewrite <- E2, <- E1, <- E3.
  assert (R : r = bind (build (OC := oc)) (fun b => ret (match b.2 with Some _ => (None, b.2) | None => (Some b.1, None) end)) w).
  { unfold r, NewMeter, oc. destruct provider; unfold bind; by destruct (build w) as [[m [e|]] w1]. }
  rewrite R. clear. unfold bind, ret. generalize (build (OC := oc) w). intros [[m [e|]] w1]; cbn; eauto.
Qed.

(** The same reading in the two libraries. *)
Inductive agree : measurement -> update -> Prop :=
| agree_count : agree (Add 1) Inc
| agree_gauge z : agree (RecordInt z) (SetTo (f_of_Z z))
| agree_sample v : agree (RecordFloat v) (Observe v).

Lemma agree_histories (h : list (measure Z)) :
  Forall2 agree (otel_measure <$> h) (prom_update <$> (measure_map f_of_Z <$> h)).
Proof. induction h as [|[|z|v] h IH]; cbn; constructor; auto using agree. Qed.

Section Agreement.
Context {W V W' I : Type} {PC : PromClient W V} {LP : LawfulProm W V} {OC : OtelClient W' I} {LO : LawfulOtel W' I}.

(** C27: The two backends report the same signals.  Send the same calls to a
    new collector and to a new meter, with labels in UTF-8: nothing panics,
    every series that the meter holds is scraped from the collector under the
    corresponding name and labels with the same readings in the same order (a
    gauge as the float of the integer, a flag as its text), and what is scraped is
    such a series. *)
Theorem backends_agree (w : W) (w' : W') es :
  Forall valid_labels es -> (build w').1.2 = None ->
  let c := (NewCollector w).1 in let m := (build w').1.1 in
  let w2' := run m es (build w').2 in
  exists w2, Metrics.run c (event_map f_of_Z <$> es) (NewCollector w).2 = Some w2 /\
    (forall e : event Z, exists i, i ∈ instruments m /\ i_name (i_opts i) = otel_name e /\
       (applied w2' i (attributes e) <> [] ->
          exists d ls us, (d, ls, us) ∈ Collect c w2 /\ Name d = prom_name e /\ zip (label_names d) ls = labels e /\
            Forall2 agree (applied w2' i (attributes e)) us)) /\
    (forall d ls us, (d, ls, us) ∈ Collect c w2 -> us <> [] ->
       exists (e : event Z) i, Name d = prom_name e /\ zip (label_names d) ls = labels e /\
         i ∈ instruments m /\ i_name (i_opts i) = otel_name e /\ Forall2 agree (applied w2' i (attributes e)) us).
Proof.
  intros F B c m w2'. pose proof (NewCollector_made w) as Made. fold c in Made. pose proof (build_ready w' B) as Ready.
  change ((build w').1.1) with m in Ready.
  assert (F' : Forall valid_labels (event_map f_of_Z <$> es)).
  { apply Forall_fmap. eapply Forall_impl; [exact F|]. intros e. unfold valid_labels. cbn. by rewrite labels_map. }
  destruct (Metrics.run_ok _ _ Made _ _ (made_known _ _ Made) F') as (w2 & E & U). exists w2. split; [exact E|].
  assert (N : forall e : event Z, prom_name (event_map f_of_Z e) = prom_name e) by (by intros []).
  assert (H : forall e, applied w2' (instrument m e) (attributes e) = otel_measure <$> history es e)
    by (intros e; apply (otel_history _ _ Ready)).
  clearbody w2'. clear F F' E B. split.
  - intros e. exists (instrument m e). split_and!; [apply instrument_elem|apply (instrument_spec _ _ Ready)|].
    rewrite H. intros X. destruct (exports_complete _ _ Made _ _ U (event_map f_of_Z e)) as (d & ls & Y & Nd & Z).
    { rewrite history_map. intros Y%fmap_nil_inv. by rewrite Y in X. }
    rewrite N in Nd. rewrite labels_map in Z. rewrite history_map in Y. eexists d, ls, _. split_and!; [exact Y|done|done|].
    apply agree_histories.
  - intros d ls us Y X. destruct (exports_sound _ _ Made _ _ U _ _ _ Y X) as (e' & Ie & Nd & Z & ->).
    apply list_elem_of_fmap in Ie as (e & -> & _). exists e, (instrument m e). rewrite N in Nd. rewrite labels_map in Z.
    split_and!; [done|done|apply instrument_elem|apply (instrument_spec _ _ Ready)|]. rewrite H, history_map. apply agree_histories.
Qed.
End Agreement.

(** ** Runs *)

Module Demo.

Definition start : OtelWorld := ([], []).
Definition calls : list (event Z) :=
  [CircuitBreakerState "api" 1; TimeoutDuration "api" true (f_ratio 3 2); CircuitBreakerState "api" 2].

Lemma backends_agree_witness :
  Forall valid_labels calls /\ (build start).1.2 = None /\
  exists w2, Metrics.run Metrics.Demo.collector (event_map f_of_Z <$> calls) (NewCollector Metrics.Demo.start).2 = Some w2 /\
    forall d ls us, (d, ls, us) ∈ Collect Metrics.Demo.collector w2 -> us <> [] ->
      exists (e : event Z) i, Name d = prom_name e /\ zip (label_names d) ls = labels e /\
        i ∈ instruments (build start).1.1 /\ i_name (i_opts i) = otel_name e /\
        Forall2 agree (applied (run (build start).1.1 calls (build start).2) i (attributes e)) us.
Proof.
  assert (F : Forall (valid_labels (G := Z)) calls) by (apply (bool_decide_unpack _); vm_compute; constructor).
  assert (B : (build start).1.2 = None) by (vm_compute; reflexivity).
  split; [exact F|]. split; [exact B|].
  destruct (backends_agree Metrics.Demo.start start calls F B) as (w2 & R & _ & S). exists w2. split; [exact R|exact S].
Defined.

(** The two state readings, in the meter and in a scrape of the collector. *)
Example state_readings :
  (let m := (build start).1.1 in
   applied (run m calls (build start).2) (cbState m) (nameAttr "api")) = [RecordInt 1; RecordInt 2] /\
  match Metrics.run Metrics.Demo.collector (event_map f_of_Z <$> calls) (NewCollector Metrics.Demo.start).2 with
  | Some w => (fun x => (Name x.1.1, x.1.2, length x.2)) <$> Collect Metrics.Demo.collector w
  | None => []
  end = [("fortify_circuit_breaker_state", ["api"], 2%nat); ("fortify_timeout_duration_seconds", ["api"; "true"], 1%nat)]%string.
Proof. split; vm_compute; reflexivity. Qed.

(** A provider that refuses a second instrument. *)
Definition limited : OtelClient OtelWorld (nat * InstrumentOpts) := {|
  otel_backend := MemoryBackend;
  NewInstrument o w :=
    (((mem_create o w).1, if decide (length w.1 = 0)%nat then None else Some (ESentinel (ErrNew (i_name o)))), (mem_create o w).2);
  i_opts := snd;
  Measure := mem_update
|}.

Example limited_provider_fails :
  (NewMeter (fun _ => MemOtel) (Some (fun _ => limited)) start).1 =
    (None, Some (ESentinel (ErrNew "fortify.circuit_breaker.requests"))).
Proof. vm_compute. reflexivity. Qed.
End Demo.
