(* ===== verification/Tracing.v ===== *)
(** Tracing and logging helpers ([otel/tracing.go], [slog/logger.go]).

    The OpenTelemetry trace API and the logger's handlers are arguments: a
    class of the methods that the helpers call on a span, a tracer and a
    logger.  What is modelled is what the helpers add: names, attributes
    and the guards against nil. *)

From S2P Require Import Prelude Errors Runtime Signals OtelMetrics.

#[local] Open Scope go_scope.

(** ** [otel/tracing.go] *)

Inductive Pattern := PatternCircuitBreaker | PatternRetry | PatternRateLimit | PatternTimeout | PatternBulkhead.

Definition pattern_string (p : Pattern) : string :=
  match p with
  | PatternCircuitBreaker => "circuit_breaker"
  | PatternRetry => "retry"
  | PatternRateLimit => "rate_limit"
  | PatternTimeout => "timeout"
  | PatternBulkhead => "bulkhead"
  end.

(** [codes.Code] of OpenTelemetry. *)
Inductive Code := Unset | Error | Ok.

(** [trace.Tracer] and [trace.Span]. *)
Class TraceClient (W Tr Sp : Type) := {
  Start : Tr -> ctx -> string -> attribute_set -> M W (ctx * option Sp);
  span_RecordError : Sp -> error -> attribute_set -> M W unit;
  span_SetStatus : Sp -> Code -> string -> M W unit;
  span_AddEvent : Sp -> string -> attribute_set -> M W unit;
  span_SetAttributes : Sp -> attribute_set -> M W unit
}.

Record Tracer (Tr : Type) := { tracer : Tr; serviceName : string }.

Arguments tracer {Tr}.
Arguments serviceName {Tr}.
Arguments Build_Tracer {Tr}.

Section Tracer.
Context {W Tr Sp : Type} {TC : TraceClient W Tr Sp}.

(** A provider is its [Tracer] method; [noop] is [noop.NewTracerProvider()]. *)
Definition NewTracer (noop : string -> Tr) (provider : option (string -> Tr)) (service : string) : Tracer Tr :=
  let provider := match provider with None => noop | Some p => p end in
  {| tracer := provider service; serviceName := service |}.

Definition StartSpan (t : Tracer Tr) (c : ctx) (pattern : Pattern) (operation : string) : M W (ctx * option Sp) :=
  let spanName := pattern_string pattern +:+ "." +:+ operation in
  Start (tracer t) c spanName
    [("fortify.pattern", AString (pattern_string pattern)); ("service.name", AString (serviceName t))]%string.

Definition RecordError (t : Tracer Tr) (span : option Sp) (err : option error) (message : string) : M W unit :=
  match span, err with
  | Some span, Some err =>
      span_RecordError span err [("error.message", AString message)]%string ;;;
      span_SetStatus span Error message
  | _, _ => ret tt
  end.

Definition AddEvent (t : Tracer Tr) (span : option Sp) (name : string) (attrs : attribute_set) : M W unit :=
  match span with
  | None => ret tt
  | Some span => span_AddEvent span name attrs
  end.

Definition SetAttributes (t : Tracer Tr) (span : option Sp) (attrs : attribute_set) : M W unit :=
  match span with
  | None => ret tt
  | Some span => span_SetAttributes span attrs
  end.

Definition SetStatus (t : Tracer Tr) (span : option Sp) (code : Code) (description : string) : M W unit :=
  match span with
  | None => ret tt
  | Some span => span_SetStatus span code description
  end.

(** Without a span or without an error nothing is touched. *)
Lemma RecordError_marks t span err message w :
  (RecordError t span err message w).2 <> w -> span <> None /\ err <> None.
Proof. destruct span, err; [done|cbn; done..]. Qed.

(** A tracer made without a provider never reaches the global one, whatever
    that is. *)
Lemma nil_provider_is_noop noop service : tracer (NewTracer noop None service) = noop service.
Proof. reflexivity. Qed.
End Tracer.

(** ** [slog/logger.go] *)

Inductive log_pattern :=
| LogCircuitBreaker | LogRetry | LogRateLimit | LogTimeout | LogBulkhead | LogFallback | LogHedge | LogAdaptive.

Definition log_pattern_string (p : log_pattern) : string :=
  match p with
  | LogCircuitBreaker => "circuit_breaker"
  | LogRetry => "retry"
  | LogRateLimit => "rate_limit"
  | LogTimeout => "timeout"
  | LogBulkhead => "bulkhead"
  | LogFallback => "fallback"
  | LogHedge => "hedge"
  | LogAdaptive => "adaptive"
  end.

Section Logger.
(** A logger is the attributes it adds to every record ([With]) in front of a
    handler; [LogAttrs] hands the record over. *)
Context {W Level : Type}.

Record Logger := { handler : ctx -> Level -> string -> attribute_set -> M W unit; bound : attribute_set }.

Definition With (l : Logger) (a : attribute_set) : Logger := {| handler := handler l; bound := bound l ++ a |}.

Definition LogAttrs (l : Logger) (c : ctx) (level : Level) (message : string) (attrs : attribute_set) : M W unit :=
  handler l c level message (bound l ++ attrs).

Definition WithPattern (logger : option Logger) (p : log_pattern) : option Logger :=
  match logger with
  | None => None
  | Some l => Some (With l [("pattern", AString (log_pattern_string p))]%string)
  end.

Definition LogContext (c : ctx) (logger : option Logger) (level : Level) (message : string) (attrs : attribute_set) : M W unit :=
  match logger with
  | None => ret tt
  | Some l => LogAttrs l c level message attrs
  end.

(** A record of a scoped logger carries its pattern before its own
    attributes; without a logger nothing is logged. *)
Lemma scoped_log c logger p level message attrs :
  LogContext c (WithPattern logger p) level message attrs =
  LogContext c logger level message (("pattern", AString (log_pattern_string p))%string :: attrs).
Proof.
  destruct logger as [l|]; [|done]. unfold LogContext, WithPattern, LogAttrs, With. cbn. by rewrite <- app_assoc.
Qed.
End Logger.

(** The two packages name the patterns they share alike. *)
Lemma pattern_names_agree p : exists q, pattern_string p = log_pattern_string q.
Proof.
  destruct p; [exists LogCircuitBreaker|exists LogRetry|exists LogRateLimit|exists LogTimeout|exists LogBulkhead]; reflexivity.
Qed.
