(* ===== verification/Examples.v ===== *)
(** Four of the example programs ([examples/basic/], sequential), with what
    they print.

    A program is a computation in a world that holds the pattern's state and
    the console.  [main] is for every world; the runs are in [sim].  What a
    dispatcher's goroutine prints on its own ([OnStateChange]) is not on
    the console here. *)

From Stdlib Require Import Ascii.
From S2P Require Import Prelude Float64 Errors Utf8 ErrorText Runtime Retry Timeout RateStore RateLimiter Window Breaker.

#[local] Open Scope go_scope.

(** ** The console, and time *)

Definition nl : string := String "010" "".
Definition check_mark : string := of_bytes [226; 156; 147].
Definition cross_mark : string := of_bytes [226; 156; 151].

Section Programs.
Context {W : Type} `{World W}.

(** [time.Sleep]. *)
Definition Sleep (d : Z) : M W unit := fun w => (tt, (await d None w).2).

(** [for i := 0; i < n; i++]. *)
Fixpoint for_from (i : Z) (n : nat) (body : Z -> M W unit) : M W unit :=
  match n with
  | O => ret tt
  | S n => body i ;;; for_from (i + 1) n body
  end.

Definition for_ (n : nat) (body : Z -> M W unit) : M W unit := for_from 0 n body.

Context `{HC : !Has W (list string)}.

(** [fmt.Println] and [fmt.Printf] with a final newline, as a line. *)
Definition Println (s : string) : M W unit := fun w => (tt, put (get w ++ [s]) w).
End Programs.

Section Texts.
Context (PrintRanges : Z -> bool) (caller : error -> string).
#[local] Notation Text := (Error PrintRanges caller).

(** ** [examples/basic/circuit_breaker] *)

Section CircuitBreaker.
Context {W : Type} `{HW : World W} {HS : Has W (breaker * list string)}.
#[local] Instance demo_breaker : Has W breaker := Has_fst.
#[local] Instance demo_console : Has W (list string) := Has_snd.

Definition cb_config : Breaker.Config := {|
  MaxRequests := 3; Breaker.Interval := 10 * Second; Breaker.Timeout := 0;
  ReadyToTrip := Some (fun counts => ConsecutiveFailures counts >=? 3); OnStateChange := true; IsSuccessful := None;
  WindowType := SlidingWindowDisabled; SlidingWindowSize := 0; MinimumCalls := 0; FailureRateThreshold := f_of_Z 0
|}.

(** The failing service of request [i]. *)
Definition cb_service (i : Z) : Fn W string := fun _ =>
  if i <? 5 then ret (""%string, Some (ESentinel (ErrNew "service unavailable"))) else ret ("success"%string, None).

Definition cb_request (i : Z) : M W unit :=
  let! r := Breaker.Execute ""%string Background (cb_service i) in
  match r.2 with
  | Some err => Println ("Request " +:+ dec (i + 1) +:+ " failed: " +:+ Text err)
  | None => Println ("Request " +:+ dec (i + 1) +:+ " succeeded: " +:+ r.1)
  end ;;;
  Sleep (100 * Millisecond).

Definition cb_main : M W unit :=
  for_ 10 cb_request ;;;
  Println (nl +:+ "Waiting for circuit to enter half-open state...") ;;;
  Sleep (5 * Second) ;;;
  let! r := Breaker.Execute ""%string Background (fun _ => ret ("recovered"%string, None)) in
  match r.2 with
  | Some err => Println ("Recovery attempt failed: " +:+ Text err)
  | None => Println ("Service recovered: " +:+ r.1)
  end.
End CircuitBreaker.

(** The example waits for five seconds "for circuit to enter half-open state",
    but it does not set [Timeout], and the default is a minute: the recovery
    it means to show fails. *)
Lemma cb_demo_never_recovers :
  let w := (cb_main (HS := sim_Has (breaker * list string)) (Sim 0 (Breaker.New cb_config 0 [], []))).2 in
  (sim_state w).2 =
    ["Request 1 failed: service unavailable"; "Request 2 failed: service unavailable"; "Request 3 failed: service unavailable";
     "Request 4 failed: circuit breaker is open (state=open, retry_after=59.9s)";
     "Request 5 failed: circuit breaker is open (state=open, retry_after=59.8s)";
     "Request 6 failed: circuit breaker is open (state=open, retry_after=59.7s)";
     "Request 7 failed: circuit breaker is open (state=open, retry_after=59.6s)";
     "Request 8 failed: circuit breaker is open (state=open, retry_after=59.5s)";
     "Request 9 failed: circuit breaker is open (state=open, retry_after=59.4s)";
     "Request 10 failed: circuit breaker is open (state=open, retry_after=59.3s)";
     nl +:+ "Waiting for circuit to enter half-open state...";
     "Recovery attempt failed: circuit breaker is open (state=open, retry_after=54.2s)"]%string /\
  sim_clock w = 6 * Second.
Proof. vm_compute. split; reflexivity. Qed.

(** ** [examples/basic/retry] *)

Section Retry.
Context {W : Type} `{HW : World W} {HS : Has W (Z * list string)} (Pow : f64 -> f64 -> f64).
#[local] Instance demo_attempt : Has W Z := Has_fst.
#[local] Instance retry_console : Has W (list string) := Has_snd.

(** [attempt++], and what it became. *)
Definition next_attempt : M W Z := fun w => (get w + 1, put (get w + 1) w).

Definition retry_config : Retry.Config W := Retry.setDefaults {|
  RetryableErrors := []; NonRetryableErrors := []; IsRetryable_fn := None;
  OnRetry := Some (fun attempt err => Println ("Attempt " +:+ dec attempt +:+ " failed: " +:+ Text err));
  MaxAttempts := 5; InitialDelay := 100 * Millisecond; MaxDelay := 5 * Second; Policy := BackoffExponential;
  Multiplier := f_of_Z 2; Jitter := false
|}.

Definition retry_Execute : ctx -> Fn W Z -> M W (result Z) := Retry.Execute 0 Pow (ret (f_of_Z 0)) retry_config.

Definition fourth_time_lucky : Fn W Z := fun _ =>
  let! attempt := next_attempt in
  Println ("Executing attempt " +:+ dec attempt +:+ "...") ;;;
  if attempt <? 4 then ret (0, Some (ESentinel (ErrNew "temporary failure"))) else ret (42, None).

Definition always_failing : Fn W Z := fun _ =>
  let! attempt := next_attempt in
  Println ("Executing attempt " +:+ dec attempt +:+ "...") ;;;
  Sleep (200 * Millisecond) ;;;
  ret (0, Some (ESentinel (ErrNew "still failing"))).

Definition retry_main : M W unit :=
  let! r := retry_Execute Background fourth_time_lucky in
  match r.2 with
  | Some err => Println (nl +:+ "Final result: Failed after all retries: " +:+ Text err)
  | None => Println (nl +:+ "Final result: Success with value " +:+ dec r.1)
  end ;;;
  Println (nl +:+ "--- Context Cancellation Example ---") ;;;
  let! now := time_Now in
  (fun w => (tt, put 0 w)) ;;;
  let! r := retry_Execute (WithTimeout Background (500 * Millisecond) now) always_failing in
  match r.2 with
  | Some err => Println ("Operation cancelled: " +:+ Text err)
  | None => ret tt
  end.
End Retry.

(** [math.Pow] at 2. *)
Definition run_Pow (x y : f64) : f64 := f_of_Z (2 ^ f_to_int64 0 y).

(** [OnRetry] is told the number of the coming attempt, as [retry.Config]
    says; the example prints it as the number of the one that failed. *)
Lemma retry_demo_output :
  let w := (retry_main run_Pow (HS := sim_Has (Z * list string)) (Sim 0 (0, []))).2 in
  (sim_state w).2 =
    ["Executing attempt 1..."; "Attempt 2 failed: temporary failure"; "Executing attempt 2...";
     "Attempt 3 failed: temporary failure"; "Executing attempt 3..."; "Attempt 4 failed: temporary failure";
     "Executing attempt 4..."; nl +:+ "Final result: Success with value 42"; nl +:+ "--- Context Cancellation Example ---";
     "Executing attempt 1..."; "Attempt 2 failed: still failing"; "Executing attempt 2..."; "Attempt 3 failed: still failing";
     "Operation cancelled: context deadline exceeded"]%string /\
  sim_clock w = 1200 * Millisecond.
Proof. vm_compute. split; reflexivity. Qed.

(** ** [examples/basic/timeout] *)

Section Timeout.
Context {W : Type} `{HC : Has W (list string)}.

Definition tm_config : Timeout.Config W := Timeout.setDefaults {|
  OnTimeout := Some (Println "Operation timed out"); DefaultTimeout := 5 * Second
|}.

Definition tm_Execute : ctx -> Z -> Fn W string -> M W (result string) := Timeout.Execute ""%string tm_config.

Definition sleeper (d : Z) (answer : string) : Fn W string := fun _ => Sleep d ;;; ret (answer, None).

(** The loop of example 3: [n] steps are left. *)
Fixpoint working (c : ctx) (n : nat) (i : Z) : M W (result string) :=
  match n with
  | O => ret ("completed all steps"%string, None)
  | S n =>
      let! done := err_of c in
      match done with
      | Some e => ret (""%string, Some e)
      | None =>
          Println ("Working... step " +:+ dec (i + 1) +:+ "/10") ;;;
          Sleep (100 * Millisecond) ;;;
          working c n (i + 1)
      end
  end.

Definition tm_report (r : result string) : M W unit :=
  match r.2 with Some err => Println ("Error: " +:+ Text err) | None => Println ("Result: " +:+ r.1) end.

Definition tm_main : M W unit :=
  Println "--- Example 1: Operation completes within timeout ---" ;;;
  let! r := tm_Execute Background Second (sleeper (500 * Millisecond) "completed successfully") in
  tm_report r ;;;
  Println (nl +:+ "--- Example 2: Operation times out ---") ;;;
  let! r := tm_Execute Background (500 * Millisecond) (sleeper (2 * Second) "should not reach here") in
  match r.2 with Some err => Println ("Error: " +:+ Text err) | None => ret tt end ;;;
  Println (nl +:+ "--- Example 3: Respecting context cancellation ---") ;;;
  let! r := tm_Execute Background Second (fun c => working c 10 0) in
  tm_report r ;;;
  Println (nl +:+ "--- Example 4: Using default timeout ---") ;;;
  let! r := tm_Execute Background 0 (sleeper (100 * Millisecond) "using default timeout") in
  tm_report r.

Lemma Sleep_lasts d w : clock w + d <= clock (Sleep d w).2.
Proof.
  unfold Sleep. cbn. pose proof (await_timer d None w) as T. destruct (await d None w) as [[] w'] eqn:E; cbn in *; [auto|].
  pose proof (await_done d None w) as D. rewrite E in D. destruct (D eq_refl) as (t & ? & _). done.
Qed.

Lemma working_step c n i w :
  working c (S n) i w =
    match ctx_Err c (clock (tick w)) with
    | Some e => ((""%string, Some e), tick w)
    | None => working c n (i + 1) (Sleep (100 * Millisecond) (Println ("Working... step " +:+ dec (i + 1) +:+ "/10") (tick w)).2).2
    end.
Proof. cbn [working]. unfold bind at 1, err_of. cbn [fst snd]. by destruct (ctx_Err c _). Qed.

(** The loop sleeps through its steps, or has seen its context end. *)
Lemma working_lasts c n : forall i w,
  clock w + Z.of_nat n * (100 * Millisecond) <= clock (working c n i w).2 \/
  ctx_Err c (clock (working c n i w).2) <> None.
Proof.
  induction n as [|n IH]; intros i w; [left; cbn; lia|]. rewrite working_step.
  destruct (ctx_Err c (clock (tick w))) as [e|] eqn:E; [right; cbn [snd]; congruence|].
  set (w1 := (Println _ (tick w)).2). pose proof (Sleep_lasts (100 * Millisecond) w1) as S.
  destruct (IH (i + 1) (Sleep (100 * Millisecond) w1).2) as [L|R]; [left|by right].
  assert (C : clock w1 = clock (tick w)) by apply clock_put. pose proof (clock_tick w). lia.
Qed.

(** Example 3 asks for ten steps of at least 100ms within a second: in every
    world, whatever the scheduler does, the deadline has passed by the time it
    is done, and the call times out. *)
Lemma example3_always_times_out w :
  (tm_Execute Background Second (fun c => working c 10 0) w).1 = (""%string, Some (ETimeout Second)).
Proof.
  unfold tm_Execute, Timeout.Execute. change (Second =? 0) with false. cbv iota zeta.
  unfold bind at 1, time_Now. cbn [fst snd]. set (c := WithTimeout Background Second (clock (tick w))).
  unfold bind at 1. pose proof (working_lasts c 10 0 (tick w)) as L.
  destruct (working c 10 0 (tick w)) as [r w1]. cbn [fst snd] in *.
  unfold bind at 1, err_of. cbn [fst snd]. pose proof (clock_tick w1) as T.
  assert (E : ctx_Err c (clock (tick w1)) = Some (ESentinel DeadlineExceeded)).
  { unfold c in *. unfold ctx_Err, WithTimeout in *. cbn in *. zcases; [done|].
    destruct L as [L|L]; [unfold Second, Millisecond in *; lia|]. zcases_in L; [lia|done]. }
  rewrite E. unfold bind at 1. cbn. done.
Qed.
End Timeout.

Lemma timeout_demo_output :
  let w := (tm_main (HC := sim_Has (list string)) (Sim 0 [])).2 in
  filter (fun s => negb (String.prefix "Working" s)) (sim_state w) =
    ["--- Example 1: Operation completes within timeout ---"; "Result: completed successfully";
     nl +:+ "--- Example 2: Operation times out ---"; "Operation timed out"; "Error: operation timeout after 500ms";
     nl +:+ "--- Example 3: Respecting context cancellation ---"; "Operation timed out"; "Error: operation timeout after 1s";
     nl +:+ "--- Example 4: Using default timeout ---"; "Result: using default timeout"]%string /\
  length (sim_state w) = 20%nat.
Proof. vm_compute. split; reflexivity. Qed.

(** ** [examples/basic/rate_limit] *)

(** [Duration.Round]. *)
Definition Duration_Round (d m : Z) : Z :=
  let r := Z.rem d m in
  if d <? 0 then (if - r + - r <? m then d - r else d - (m + r))
  else if r + r <? m then d - r else d + m - r.

Section RateLimit.
Context {W : Type} `{HW : World W} {HS : Has W ((Closed * MemoryStore) * list string)}.
#[local] Instance limiter_state : Has W (Closed * MemoryStore) := Has_fst.
#[local] Instance limiter_closed : Has W Closed := Has_fst.
#[local] Instance limiter_memory : Has W MemoryStore := Has_snd.
#[local] Instance limiter_console : Has W (list string) := Has_snd.

Definition rl_config : RateLimiter.Config W := {|
  KeyFunc := None; OnAllow := None; OnLimit := None; cfg_Metrics := None; cfg_Store := None;
  RateLimiter.Interval := Second; Rate := 5; Burst := 10; MaxTokensPerRequest := 0; FailOpen := false
|}.

Definition rl : rateLimiter W := RateLimiter.New memory_store rl_config.

Definition rl_request (i : Z) : M W unit :=
  let! ok := Allow rl Background "user-123" in
  if (ok : bool) then Println ("Request " +:+ dec (i + 1) +:+ ": " +:+ check_mark +:+ " Allowed")
  else Println ("Request " +:+ dec (i + 1) +:+ ": " +:+ cross_mark +:+ " Rate limited").

Definition rl_wait (start i : Z) : M W unit :=
  Println ("Waiting for token " +:+ dec (i + 1) +:+ "...") ;;;
  let! err := RateLimiter.Wait 0 rl Background "user-456" in
  match err with
  | Some err => Println ("Error: " +:+ Text err)
  | None =>
      let! now := time_Now in
      Println ("Token " +:+ dec (i + 1) +:+ " acquired after " +:+ Duration_String (Duration_Round (time_Sub now start) (10 * Millisecond)))
  end.

Definition rl_main : M W unit :=
  Println "Attempting 15 rapid requests..." ;;;
  for_ 15 rl_request ;;;
  Println (nl +:+ "Waiting 1 second for token refill...") ;;;
  Sleep Second ;;;
  Println "Attempting 5 more requests..." ;;;
  for_ 5 rl_request ;;;
  Println (nl +:+ "--- Blocking Wait Example ---") ;;;
  let! start := time_Now in
  for_ 3 (rl_wait start).
End RateLimit.

(** The burst, then nothing, then a second's worth; and the last part waits
    for nothing, since the burst of a new key is there at once. *)
Lemma rate_limit_demo_output :
  let w := (rl_main (HS := sim_Has ((Closed * MemoryStore) * list string))
              (Sim 0 (({| is_closed := false |}, NewMemoryStoreWithOptions []), []))).2 in
  let line i (ok : bool) := ("Request " +:+ dec (Z.of_nat i) +:+ ": " +:+ (if ok then check_mark +:+ " Allowed" else cross_mark +:+ " Rate limited"))%string in
  (sim_state w).2 =
    (["Attempting 15 rapid requests..."]%string ++ ((fun i => line i true) <$> seq 1 10) ++ ((fun i => line i false) <$> seq 11 5) ++
     [nl +:+ "Waiting 1 second for token refill..."; "Attempting 5 more requests..."]%string ++ ((fun i => line i true) <$> seq 1 5) ++
     [nl +:+ "--- Blocking Wait Example ---"; "Waiting for token 1..."; "Token 1 acquired after 0s";
      "Waiting for token 2..."; "Token 2 acquired after 0s"; "Waiting for token 3..."; "Token 3 acquired after 0s"]%string).
Proof. vm_compute. reflexivity. Qed.
End Texts.
