(* ===== verification/HttpExample.v ===== *)
(** The example server of [examples/http/main.go]: its handlers and the
    middleware around each of its four routes.

    [http.ServeMux] is the choice by path; the text of the time, the random
    numbers and the limiter's [Allow] are arguments. *)

From S2P Require Import Prelude Float64 Errors ErrorText Runtime Utf8 HttpKeys Breaker BreakerSpec Timeout Guard Http.

#[local] Open Scope go_scope.

Section Server.
Context {W : Type} `{HW : World W} {HH : Has W (list recorder)}.
Context (IntN : Z -> M W Z) (RFC3339 : Z -> string).
Context (cb : Executor (W := W)) (allow : ctx -> string -> M W bool) (tm : ctx -> Z -> Fn W (option Z) -> M W (result (option Z))).
(** What the keys need of the standard library; see [HttpKeys]. *)
Context (NFC : string -> string) (PrintRanges : Z -> bool) (ParseIP : string -> option string).

(** [fmt.Fprintf] of a line. *)
Definition Fprintln (w : ResponseWriter W) (s : string) : M W unit := let! _ := Write w (s +:+ newline) in ret tt.

Definition protectedHandler : Handler W := fun w r =>
  let! n := IntN 10 in
  if n <? 2 then http_Error w "Internal Server Error" StatusInternalServerError
  else
    let! ms := IntN 100 in
    let! _ := select_timer (ms * Millisecond) Background in
    WriteHeader w StatusOK ;;;
    let! now := time_Now in
    Fprintln w ("Protected resource accessed at " +:+ RFC3339 now).

(** The server's header map is not part of its log: [Content-Type] is left out. *)
Definition apiHandler : Handler W := fun w r =>
  let apiKey := Header_Get (r_header r) "X-API-Key" in
  WriteHeader w StatusOK ;;;
  let! now := time_Now in
  Fprintln w ("API accessed with key: " +:+ apiKey +:+ " at " +:+ RFC3339 now).

Definition healthHandler : Handler W := fun w r => WriteHeader w StatusOK ;;; Fprintln w "OK".

Definition slowHandler : Handler W := fun w r =>
  let! stopped := select_timer (5 * Second) (r_ctx r) in
  match stopped with
  | Some _ => ret tt
  | None => WriteHeader w StatusOK ;;; Fprintln w "Slow operation completed"
  end.

Definition protectedWithMiddleware : Handler W :=
  RateLimit allow (fun r => KeyFromIP NFC PrintRanges ParseIP (RemoteAddr r)) (Http.Timeout tm (2 * Second) (CircuitBreaker cb protectedHandler)).

Definition apiWithRateLimit : Handler W :=
  RateLimit allow (fun r => match KeyFromHeader NFC PrintRanges "X-API-Key" with inl key => key (r_header r) | inr _ => "" end) apiHandler.

Definition slowWithTimeout : Handler W := Http.Timeout tm Second slowHandler.

(** [http.NotFound] is the server's own. *)
Definition mux (path : string) : option (Handler W) :=
  if bool_decide (path = "/protected"%string) then Some protectedWithMiddleware
  else if bool_decide (path = "/api"%string) then Some apiWithRateLimit
  else if bool_decide (path = "/health"%string) then Some healthHandler
  else if bool_decide (path = "/slow"%string) then Some slowWithTimeout
  else None.
End Server.

Definition ex_breaker : Breaker.Config := {|
  MaxRequests := 10; Breaker.Interval := 10 * Second; Breaker.Timeout := 0;
  ReadyToTrip := Some (fun counts => ConsecutiveFailures counts >=? 3); OnStateChange := true; IsSuccessful := None;
  WindowType := SlidingWindowDisabled; SlidingWindowSize := 0; MinimumCalls := 0; FailureRateThreshold := f_of_Z 0
|}.

(** ** Its routes, on the concrete server *)

Module Routes.
Import Http.Demo.

Definition ex_start : world := Sim 0 (Breaker.New ex_breaker 0 [], ([], [])).

Definition ex_timeout : ctx -> Z -> Fn world (option Z) -> M world (result (option Z)) :=
  Timeout.Execute None {| OnTimeout := None; DefaultTimeout := 30 * Second |}.

(** A limiter that grants, and random numbers that are all [n]. *)
Definition route (n : Z) (path : string) : option (Handler world) :=
  mux (fun _ => ret n) (fun _ => "now"%string) Http.Demo.cb (fun _ _ => ret true) ex_timeout id (fun _ => true) (fun s => Some s) path.

Definition serve (n : Z) (path : string) (w : world) : world :=
  match route n path with Some h => (h server request w).2 | None => w end.

(** The slow endpoint always answers 504 after a second; the healthy ones answer
    200. *)
Lemma routes_answer :
  sent (serve 5 "/slow" ex_start) = [EHeader 504; EWrite "Gateway Timeout"] /\ sim_clock (serve 5 "/slow" ex_start) = Second /\
  sent (serve 5 "/health" ex_start) = [EHeader 200; EWrite ("OK" +:+ newline)] /\
  sent (serve 5 "/protected" ex_start) = [EHeader 200; EWrite ("Protected resource accessed at now" +:+ newline)] /\
  sent (serve 5 "/api" ex_start) = [EHeader 200; EWrite ("API accessed with key:  at now" +:+ newline)].
Proof. vm_compute. split_and!; reflexivity. Qed.

(** Three failures of the protected endpoint open its breaker: the fourth
    request is answered by the middleware, and so it is for a minute. *)
Lemma protected_route_trips :
  let w3 := Nat.iter 3 (serve 1 "/protected") ex_start in
  client_status (sent w3) = 500 /\
  sent (serve 5 "/protected" w3) = sent w3 ++ [EHeader 503; EWrite ("Service Unavailable" +:+ newline)] /\
  sent (serve 5 "/protected" (Sim (59 * Second) (sim_state w3))) = sent w3 ++ [EHeader 503; EWrite ("Service Unavailable" +:+ newline)] /\
  sent (serve 5 "/protected" (Sim (61 * Second) (sim_state w3))) =
    sent w3 ++ [EHeader 200; EWrite ("Protected resource accessed at now" +:+ newline)].
Proof. vm_compute. split_and!; reflexivity. Qed.
End Routes.
