(* ===== verification/Applications.v ===== *)
(** Example programs that compose the patterns: the tool server of
    [examples/mcp-server], the chains of [examples/composition], the model
    calls of [examples/eino] and the load of [examples/observability-demo].

    The wiring, the predicates and the handling of the results are the
    programs'; transports, dashboards and random numbers are arguments. *)

From Stdlib Require Import Ascii.
From S2P Require Import Prelude Float64 Errors Utf8 ErrorText Runtime Http Examples Retry Timeout Budget.
From S2P Require Import Adaptive RateStore RateLimiter Window Breaker BreakerSpec Chain Presets Signals Logs.

#[local] Open Scope go_scope.

(** ** Sentinels that a layer does not introduce *)

(** The contexts, the calls and the layers that never yield an error matching
    [t]. *)
Section Quiet.
Context {W T : Type} `{World W} (t : sentinel).

Definition quiet_ctx (c : ctx) : Prop := forall now e, ctx_Err c now = Some e -> errors_is e t = false.
Definition quiet_fn (fn : Fn W T) : Prop := forall c w, quiet_ctx c -> Is (fn c w).1.2 t = false.
Definition quiet_layer (m : Middleware W T) : Prop := forall next, quiet_fn next -> quiet_fn (m next).

Lemma quiet_WithTimeout c d now : DeadlineExceeded <> t -> quiet_ctx c -> quiet_ctx (Runtime.WithTimeout c d now).
Proof.
  intros D Q u e. unfold ctx_Err, Runtime.WithTimeout. cbn.
  assert (Dl : errors_is DeadlineExceeded t = false) by (rewrite errors_is_sentinel; by apply bool_decide_eq_false_2).
  destruct (done_at c) as [[k e']|] eqn:E; cbn.
  - destruct (k <=? now + d); cbn; zcases; intros [= <-]; [|done]. apply (Q u). unfold ctx_Err. rewrite E. zcases; done || lia.
  - zcases; by intros [= <-].
Qed.

Lemma quiet_chain c fn : Forall quiet_layer c -> quiet_fn fn -> quiet_fn (fun x => Chain.Execute c x fn).
Proof.
  unfold Chain.Execute. rewrite wrap_foldr. intros F Q. induction F as [|m c M F IH]; [exact Q|]. cbn. by apply M.
Qed.

Lemma quiet_adaptive {HL : Has W limiter} (zero : T) oob cfg notify :
  t <> ErrAdaptiveLimitExceeded -> quiet_layer (fun next x => Adaptive.Execute zero oob cfg notify x next).
Proof.
  intros D next Q c w Qc. unfold Adaptive.Execute, bind, err_of, ret. cbn [fst snd].
  destruct (ctx_Err c _) as [e|] eqn:E; [by apply Qc in E|].
  destruct (negb _).
  - cbn [fst snd Is]. rewrite errors_is_sentinel. apply bool_decide_eq_false_2. congruence.
  - cbn [fst snd]. apply Q, Qc.
Qed.

Lemma quiet_timeout (zero : T) (cfg : Timeout.Config W) d :
  t <> ErrTimeout -> t <> DeadlineExceeded -> quiet_layer (fun next x => Timeout.Execute zero cfg x d next).
Proof.
  intros D1 D2 next Q c w Qc. unfold Timeout.Execute. unfold bind at 1, time_Now. cbn [fst snd].
  set (k := if d =? 0 then _ else _). pose proof (quiet_WithTimeout c k (clock (tick w)) ltac:(congruence) Qc) as Qt.
  set (x := Runtime.WithTimeout _ _ _) in *. unfold bind at 1. pose proof (Q x (tick w) Qt) as R.
  destruct (next x (tick w)) as [r w1]. cbn [fst snd] in *.
  unfold bind at 1, err_of. cbn [fst snd]. destruct (ctx_Err x _) as [e|] eqn:E; [|exact R].
  unfold bind at 1, err_of. cbn [fst snd]. destruct (ctx_Err c _) as [p|] eqn:Ep; [by apply Qc in Ep|].
  destruct (same e DeadlineExceeded); [|by apply Qt in E].
  unfold bind, ret. cbn. rewrite !bool_decide_eq_false_2 by congruence. done.
Qed.

Lemma wait_errors {HC : Has W Closed} oob (rl : rateLimiter W) c key w e :
  (RateLimiter.Wait oob rl c key w).1 = Some e ->
  e = ESentinel ErrRateLimiterClosed \/ e = ESentinel ErrWaitTimeout \/ exists now, ctx_Err c now = Some e.
Proof.
  unfold RateLimiter.Wait. unfold bind at 1, closed_load. cbn [fst snd].
  destruct (is_closed (get w)); [intros [= <-]; by left|]. unfold bind at 1, time_Now. cbn [fst snd].
  generalize (clock (tick w)) as start. generalize (tick w). intros w0 start X. right. revert w0 X.
  generalize (resolveKey rl c key) as k. intros k. induction defaultMaxWaitIterations as [|n IH]; intros w0.
  { intros [= <-]. by left. }
  cbn [wait_loop]. unfold bind at 1, time_Now. cbn [fst snd]. destruct (_ >? _); [intros [= <-]; by left|].
  unfold bind at 1, err_of. cbn [fst snd]. destruct (ctx_Err c _) as [x|] eqn:E; [intros [= <-]; eauto|].
  unfold bind at 1. destruct (tryConsume rl c k 1 _) as [r w1]. cbn [fst snd].
  unfold bind at 1. destruct (match r.2 with Some err => handleError rl c k err | None => ret false end w1) as [o w2].
  cbn [fst snd]. destruct (o || r.1); [done|].
  unfold bind at 1. destruct (calculateWaitTime oob rl c k w2) as [d w3]. cbn [fst snd].
  unfold bind at 1. destruct (select_timer (wait_duration d) c w3) as [[x|] w4] eqn:S; cbn [fst snd].
  - intros [= <-]. right. exists (clock w4). by apply (select_timer_done _ _ _ _ _ S).
  - apply IH.
Qed.

Lemma quiet_rate_limit {HC : Has W Closed} (zero : T) oob (rl : rateLimiter W) key :
  t <> ErrRateLimiterClosed -> t <> ErrWaitTimeout ->
  quiet_layer (fun next x => let! err := RateLimiter.Wait oob rl x key in
                             match err with Some e => ret (zero, Some e) | None => next x end).
Proof.
  intros D1 D2 next Q c w Qc. unfold bind. pose proof (wait_errors oob rl c key w) as Wt.
  destruct (RateLimiter.Wait oob rl c key w) as [[e|] w1]; cbn [fst snd] in *; [|by apply Q].
  change (errors_is e t = false). destruct (Wt e eq_refl) as [->|[->|[now E]]]; [..|by apply Qc in E];
    rewrite errors_is_sentinel; apply bool_decide_eq_false_2; congruence.
Qed.
End Quiet.

(** ** [examples/mcp-server] *)

Record ToolCall := { PeerID : string; Tool : string; Args : list (string * any) }.
Record ToolResult := { Content : string; IsError : bool }.

Definition no_result : ToolResult := {| Content := ""; IsError := false |}.

(** The patterns of a handler, by the methods its chain uses. *)
Record fortifyToolHandler (W : Type) `{World W} := {
  inner : ctx -> ToolCall -> M W (result ToolResult);
  h_rl : ctx -> string -> M W (option error);
  h_bh : Executor W ToolResult;
  h_tm : ctx -> Z -> Fn W ToolResult -> M W (result ToolResult);
  h_adaptive : Executor W ToolResult;
  callTimeout : Z
}.

Arguments inner {W _}.
Arguments h_rl {W _}.
Arguments h_bh {W _}.
Arguments h_tm {W _}.
Arguments h_adaptive {W _}.
Arguments callTimeout {W _}.

Definition Handle {W} `{World W} (h : fortifyToolHandler W) (c : ctx) (call : ToolCall) : M W (result ToolResult) :=
  let chain :=
    WithTimeout (h_tm h) (callTimeout h)
      (WithRateLimit no_result (h_rl h) ("peer:" +:+ PeerID call)
        (WithBulkhead (h_bh h)
          (WithAdaptive (h_adaptive h) Chain.New))) in
  Chain.Execute chain c (fun c => inner h c call).

Definition businessLogic {W} `{World W} (c : ctx) (call : ToolCall) : M W (result ToolResult) :=
  if bool_decide (Tool call = "ping"%string) then ret ({| Content := "pong"; IsError := false |}, None)
  else if bool_decide (Tool call = "slow"%string) then
    let! stopped := select_timer (5 * Second) c in
    match stopped with
    | Some e => ret (no_result, Some e)
    | None => ret ({| Content := "done"; IsError := false |}, None)
    end
  else ret ({| IsError := true; Content := "unknown tool" |}, Some (ESentinel (ErrNew "unknown tool"))).

(** [logResult]. *)
Definition logResult (peer : string) (r : result ToolResult) : log_record :=
  match r.2 with
  | None => {| level := LevelInfo; message := "tool call ok";
               attrs := [("peer", StringValue peer); ("content", StringValue (Content r.1))]%string |}
  | Some err =>
      let a := [("peer", StringValue peer); ("err", AnyValue (AnyError err))]%string in
      if errors_is err ErrRateLimitExceeded then {| level := LevelWarn; message := "tool call rate-limited"; attrs := a |}
      else if errors_is err ErrBulkheadFull then {| level := LevelWarn; message := "tool call rejected by bulkhead"; attrs := a |}
      else if errors_is err ErrTimeout then {| level := LevelWarn; message := "tool call timed out"; attrs := a |}
      else {| level := LevelError; message := "tool call failed"; attrs := a |}
  end.

Lemma logResult_rate_limited peer r :
  message (logResult peer r) = "tool call rate-limited"%string <-> Is r.2 ErrRateLimitExceeded = true.
Proof.
  unfold logResult. destruct r.2 as [err|]; cbn [Is]; [|by split].
  destruct (errors_is err ErrRateLimitExceeded); [by split|].
  destruct (errors_is err ErrBulkheadFull); [by split|]. by destruct (errors_is err ErrTimeout).
Qed.

Section ToolServer.
Context {W : Type} `{HW : World W} {HL : Has W limiter} {HC : Has W Closed}.
Context (oob : Z) (acfg : Adaptive.Config) (notify : option (Z -> Z -> M W unit)).
Context (rl : rateLimiter W) (tcfg : Timeout.Config W) (bh : Executor W ToolResult).
Context (logic : ctx -> ToolCall -> M W (result ToolResult)) (timeout : Z).

(** The handler of [main]: an adaptive limiter, a bulkhead, a rate limiter and a
    timeout around the logic. *)
Definition tool_server : fortifyToolHandler W := {|
  inner := logic;
  h_rl := RateLimiter.Wait oob rl;
  h_bh := bh;
  h_tm := Timeout.Execute no_result tcfg;
  h_adaptive := Adaptive.Execute no_result oob acfg notify;
  callTimeout := timeout
|}.

(** The branch of [logResult] for rate-limited calls is dead.  The rate
    limiter of the chain waits and reports its own errors, none of which matches
    [ferrors.ErrRateLimitExceeded]; neither do the refusals of the adaptive
    limiter or of the timeout.  So unless the tool's own logic (or the
    caller's context, or the bulkhead) produces one, no call is ever logged
    as rate-limited, whatever the limiter did: such a call is logged as failed or
    timed out. *)
Theorem rate_limited_branch_dead peer call c w :
  quiet_ctx ErrRateLimitExceeded c -> quiet_layer ErrRateLimitExceeded (fun next x => bh x next) ->
  quiet_fn ErrRateLimitExceeded (fun x => logic x call) ->
  message (logResult peer (Handle tool_server c call w).1) <> "tool call rate-limited"%string.
Proof.
  intros Qc Qb Ql X. apply logResult_rate_limited in X. unfold Handle in X.
  set (chain := WithTimeout _ _ _) in X.
  assert (Q : quiet_fn ErrRateLimitExceeded (fun x => Chain.Execute chain x (fun x => logic x call))).
  { apply quiet_chain; [|exact Ql]. repeat (apply Forall_cons; split).
    - by apply quiet_adaptive.
    - exact Qb.
    - by apply quiet_rate_limit.
    - by apply quiet_timeout.
    - apply Forall_nil. done. }
  specialize (Q c w Qc). cbn in Q, X. congruence.
Qed.
End ToolServer.

Lemma rate_limited_branch_dead_witness :
  let W := sim ((Closed * MemoryStore) * limiter) in
  let adaptive : Has W limiter := Has_snd (Hp := sim_Has _) in
  let limiter_state : Has W (Closed * MemoryStore) := Has_fst (Hp := sim_Has _) in
  let acfg := {| algorithm := AlgorithmAIMD; InitialLimit := 1; MinLimit := 1; MaxLimit := 1; SuccessThreshold := 0;
                 VegasAlpha := 0; VegasBeta := 0; VegasMinSamples := 0; GradientMinSamples := 0;
                 GradientSmoothing := f_of_Z 0 |} in
  let rl : rateLimiter W := RateLimiter.New (memory_store (H0 := Has_snd)) {|
    KeyFunc := None; OnAllow := None; OnLimit := None; cfg_Metrics := None; cfg_Store := None;
    RateLimiter.Interval := Second; Rate := 10; Burst := 20; MaxTokensPerRequest := 0; FailOpen := false |} in
  let server := tool_server (HC := Has_fst) 0 acfg None rl {| OnTimeout := None; DefaultTimeout := 2 * Second |}
    (fun c next => next c) businessLogic (2 * Second) in
  let w : W := Sim 0 (({| is_closed := true |}, NewMemoryStoreWithOptions []), Adaptive.New acfg) in
  let call := {| PeerID := "peer-a"; Tool := "ping"; Args := [] |} in
  (Handle server Background call w).1.2 = Some (ESentinel ErrRateLimiterClosed) /\
  message (logResult "peer-a" (Handle server Background call w).1) <> "tool call rate-limited"%string.
Proof.
  intros W adaptive limiter_state acfg rl server w call. split; [vm_compute; reflexivity|].
  apply (rate_limited_branch_dead (HC := Has_fst)).
  - intros now e. by rewrite ctx_Err_Background.
  - intros next Q. exact Q.
  - intros x w' _. reflexivity.
Defined.

(** [main]: the configurations, and a call per peer. *)
Section ToolMain.
Context {W : Type} `{HW : World W} (l : Logger W) (server : fortifyToolHandler W).

Definition mcp_rl_config : RateLimiter.Config W := {|
  KeyFunc := None; OnAllow := None; OnLimit := None; cfg_Metrics := None; cfg_Store := None;
  RateLimiter.Interval := Second; Rate := 10; Burst := 20; MaxTokensPerRequest := 0; FailOpen := false |}.

Definition mcp_adaptive_config : Adaptive.Config := {|
  algorithm := AlgorithmVegas; InitialLimit := 50; MinLimit := 10; MaxLimit := 500; SuccessThreshold := 0;
  VegasAlpha := 0; VegasBeta := 0; VegasMinSamples := 0; GradientMinSamples := 0; GradientSmoothing := f_of_Z 0 |}.

Definition mcp_timeout_config : Timeout.Config W := {| OnTimeout := None; DefaultTimeout := 2 * Second |}.

Definition mcp_call (peer : string) : M W unit :=
  let! r := Handle server Background {| PeerID := peer; Tool := "ping"; Args := [] |} in
  let rec := logResult peer r in
  log l Background (level rec) (message rec) (attrs rec).

Definition mcp_main : M W unit := mcp_call "peer-a" ;;; mcp_call "peer-b".
End ToolMain.

(** ** [examples/eino] *)

Record Message := { Role : string; msg_Content : string }.
Record Usage := { PromptTokens : Z; CompletionTokens : Z; TotalTokens : Z }.
Record Response := { resp_Message : Message; resp_Usage : Usage }.

Definition no_response : Response := {|
  resp_Message := {| Role := ""; msg_Content := "" |};
  resp_Usage := {| PromptTokens := 0; CompletionTokens := 0; TotalTokens := 0 |}
|}.

Record fakeChatModel := { fm_calls : Z; fm_fail : Z }.

Definition usdPer1KTokensMicros : Z := 5000.

Section Eino.
Context {W : Type} `{HW : World W} {HB : Has W breaker} {HG : Has W budget} {HM : Has W fakeChatModel}.
Context (Pow : f64 -> f64 -> f64) (rand : M W f64) (bulkhead : Z -> Executor W Response) (l : Logger W).

Definition Generate (c : ctx) (messages : list Message) : M W (result Response) := fun w =>
  let m := get w in
  let m := {| fm_calls := fm_calls m + 1; fm_fail := fm_fail m |} in
  let w := put m w in
  if fm_calls m <=? fm_fail m then ((no_response, Some (ESentinel (ErrNew "provider 503: transient"))), w)
  else (({| resp_Message := {| Role := "assistant"; msg_Content := "ok" |};
            resp_Usage := {| PromptTokens := 100; CompletionTokens := 50; TotalTokens := 150 |} |}, None), w).

Definition eino_charge (c : ctx) (r : Response) (err : option error) : Cost :=
  match err with
  | Some _ => zero_cost
  | None =>
      let n := TotalTokens (resp_Usage r) in
      {| Errors.Tokens := n; USDMicros := i64 (n * usdPer1KTokensMicros) ÷ 1000; Calls := 0 |}
  end.

Definition eino_config : LLMCallConfig W Response := {|
  lc_CallTimeout := 30 * Second; lc_MaxRetries := 3; lc_RetryInitialDelay := 0; lc_AssumeIdempotent := false;
  lc_CBFailureThreshold := 0; lc_CBOpenTimeout := 0; lc_MaxConcurrent := 0;
  lc_Budget_Max := {| Errors.Tokens := 50000; USDMicros := 250000; Calls := 0 |};
  lc_Budget_Charge := Some eino_charge;
  lc_Budget_OnExceeded := Some (fun c =>
    log l Background LevelWarn "budget breached"
      [("tokens", Int64Value (Errors.Tokens c)); ("usd_micros", Int64Value (USDMicros c)); ("calls", Int64Value (Calls c))]%string)
|}.

(** The loop of [main]; [n] calls are left. *)
Fixpoint eino_calls (chain : Chain W Response) (n : nat) (i : Z) : M W unit :=
  match n with
  | O => ret tt
  | S n =>
      let! r := Chain.Execute chain Background (fun c => Generate c [{| Role := "user"; msg_Content := "hi" |}]) in
      match r.2 with
      | None =>
          log l Background LevelInfo "ok"
            [("call", Int64Value i); ("content", StringValue (msg_Content (resp_Message r.1)));
             ("tokens", Int64Value (TotalTokens (resp_Usage r.1)))]%string ;;;
          eino_calls chain n (i + 1)
      | Some err =>
          if errors_is err ErrBudgetExceeded then
            log l Background LevelWarn "budget exceeded; stopping" [("err", AnyValue (AnyError err))]%string
          else
            log l Background LevelError "call failed" [("call", Int64Value i); ("err", AnyValue (AnyError err))]%string ;;;
            eino_calls chain n (i + 1)
      end
  end.

Definition eino_main : M W unit :=
  match LLMCall no_response Pow rand bulkhead eino_config with
  | inl err => log l Background LevelError "LLMCall constructor failed" [("err", AnyValue (AnyError err))]%string
  | inr (_, chain) => eino_calls chain 5 0
  end.
End Eino.

(** The run of [main], with a bulkhead that is never full: the first two calls
    fail and are not retried, the other three succeed and cost 450 tokens and
    0.00225 dollars of the 50000 tokens and 0.25 dollars that are allowed.
    The loop is there, its comment says, "so the budget fires"; it does not. *)
Lemma eino_budget_does_not_fire :
  let W := sim (((breaker * budget) * fakeChatModel) * list log_record) in
  let patterns : Has W ((breaker * budget) * fakeChatModel) := Has_fst (Hp := sim_Has _) in
  let bb : Has W (breaker * budget) := Has_fst in
  let console : Logger W := Some (fun _ r w => (tt, Sim (sim_clock w) ((sim_state w).1, (sim_state w).2 ++ [r]))) in
  let start : W := Sim 0 (((Breaker.New (preset_breaker 3 (30 * Second) 5) 0 [], Budget.fresh), {| fm_calls := 0; fm_fail := 2 |}), []) in
  let w := (eino_main (HB := Has_fst) (HG := Has_snd) (HM := Has_snd) (fun _ _ => f_of_Z 1) (ret (f_of_Z 0))
              (fun _ c next => next c) console start).2 in
  (message <$> (sim_state w).2) = ["call failed"; "call failed"; "ok"; "ok"; "ok"]%string /\
  snapshot (sim_state w).1.1.2 = {| Errors.Tokens := 450; USDMicros := 2250; Calls := 5 |} /\
  breached (sim_state w).1.1.2 = false /\ (sim_state w).1.2 = {| fm_calls := 5; fm_fail := 2 |}.
Proof. vm_compute. repeat split. Qed.

(** ** [examples/composition] *)

Record APIResponse := { Data : string; Timestamp : Z; RequestID : string }.

Section Composition.
Context {W : Type} `{HW : World W} {HB : Has W breaker} {HC : Has W Closed}.
Context (Pow : f64 -> f64 -> f64) (rand_Float64 : M W f64) (Error : error -> string) (oob : Z).
(** [fmt.Println] and [fmt.Printf] of a line, with [%.1f] and the text of a time;
    and the bulkhead by [MaxConcurrent], [MaxQueue] and [QueueTimeout]. *)
Context (print : string -> M W unit) (Format_time : Z -> string) (Format_1f : f64 -> string).
Context (bulkhead : Z -> Z -> Z -> Executor W (option APIResponse)).
(** [NewMemoryStore()] *)
Context (NewMemoryStore : Store W).

(** [ExternalAPIClient.Call]: a nil pointer is [None]. *)
Definition api_Call (failureRate : f64) (latency : Z) (requestID : string) : Fn W (option APIResponse) := fun c =>
  let! stopped := select_timer latency c in
  match stopped with
  | Some e => ret (None, Some e)
  | None =>
      let! u := rand_Float64 in
      if fltb u failureRate then ret (None, Some (ESentinel (ErrNew "external API error")))
      else
        let! now := time_Now in
        ret (Some {| Data := "Success response from external API"; Timestamp := now; RequestID := requestID |}, None)
  end.

Definition comp_ReadyToTrip (counts : Counts) : bool :=
  let failureRatio := fdiv (f_of_Z (TotalFailures counts)) (f_of_Z (Requests counts)) in
  (ConsecutiveFailures counts >=? 3) || ((Requests counts >=? 5) && fleb (f_ratio 1 2) failureRatio).

Definition comp_breaker (maxRequests interval timeout : Z) (trip : Counts -> bool) (watched : bool) : Breaker.Config := {|
  ReadyToTrip := Some trip; OnStateChange := watched; IsSuccessful := None;
  Breaker.Interval := interval; Breaker.Timeout := timeout; MaxRequests := maxRequests;
  WindowType := SlidingWindowDisabled; SlidingWindowSize := 0; MinimumCalls := 0; FailureRateThreshold := f_of_Z 0
|}.

Definition comp_retry (maxAttempts initialDelay maxDelay : Z) (isRetryable : option (error -> bool))
    (onRetry : option (Z -> error -> M W unit)) : Retry.Config W := Retry.setDefaults {|
  RetryableErrors := []; NonRetryableErrors := []; IsRetryable_fn := isRetryable; OnRetry := onRetry;
  MaxAttempts := maxAttempts; InitialDelay := initialDelay; MaxDelay := maxDelay; Policy := BackoffExponential;
  Multiplier := f_of_Z 2; Jitter := false
|}.

Definition comp_timeout (d : Z) (onTimeout : option (M W unit)) : Timeout.Config W :=
  Timeout.setDefaults {| OnTimeout := onTimeout; DefaultTimeout := d |}.

Definition comp_limiter : rateLimiter W := RateLimiter.New NewMemoryStore {|
  KeyFunc := None; OnAllow := None; OnLimit := None; cfg_Metrics := None; cfg_Store := None;
  RateLimiter.Interval := Second; Rate := 5; Burst := 10; MaxTokensPerRequest := 0; FailOpen := false |}.

(** The breaker's configuration and the chain; the state of the breaker is the
    world's. *)
Definition buildResilientChain : Breaker.Config * Chain W (option APIResponse) :=
  (comp_breaker 5 (10 * Second) (5 * Second) comp_ReadyToTrip true,
   WithRetry (Retry.Execute None Pow rand_Float64
     (comp_retry 3 (100 * Millisecond) (2 * Second) (Some (fun e => bool_decide (Error e = "external API error"%string)))
       (Some (fun attempt err => print ("   " +:+ of_bytes [226; 159; 179] +:+ " Retry attempt " +:+ dec attempt +:+ ": " +:+ Error err)))))
     (WithCircuitBreaker (Breaker.Execute None)
       (WithTimeout (Timeout.Execute None (comp_timeout (5 * Second) (Some (print ("   " +:+ of_bytes [226; 143; 177] +:+ " Timeout occurred"))))) (2 * Second)
         (WithRateLimit None (RateLimiter.Wait oob comp_limiter) "api-key"
           (WithBulkhead (bulkhead 3 5 (2 * Second)) Chain.New))))).

Definition buildFastFailChain : Breaker.Config * Chain W (option APIResponse) :=
  (comp_breaker 10 (5 * Second) 0 (fun counts => ConsecutiveFailures counts >=? 2) false,
   WithCircuitBreaker (Breaker.Execute None)
     (WithTimeout (Timeout.Execute None (comp_timeout (10 * Second) None)) (500 * Millisecond)
       (WithBulkhead (bulkhead 5 0 0) Chain.New))).

Definition buildBackgroundJobChain : Chain W (option APIResponse) :=
  WithRetry (Retry.Execute None Pow rand_Float64 (comp_retry 10 Second Minute None None))
    (WithTimeout (Timeout.Execute None (comp_timeout Minute None)) (30 * Second) Chain.New).

(** The layers, from the outside in. *)
Lemma composition_layers c fn w :
  Chain.Execute buildResilientChain.2 c fn w =
    bulkhead 3 5 (2 * Second) c (fun c =>
      let! err := RateLimiter.Wait oob comp_limiter c "api-key" in
      match err with
      | Some e => ret (None, Some e)
      | None =>
          Timeout.Execute None (comp_timeout (5 * Second) (Some (print ("   " +:+ of_bytes [226; 143; 177] +:+ " Timeout occurred")))) c (2 * Second) (fun c =>
            Breaker.Execute None c (fun c =>
              Retry.Execute None Pow rand_Float64
                (comp_retry 3 (100 * Millisecond) (2 * Second) (Some (fun e => bool_decide (Error e = "external API error"%string)))
                  (Some (fun attempt err => print ("   " +:+ of_bytes [226; 159; 179] +:+ " Retry attempt " +:+ dec attempt +:+ ": " +:+ Error err)))) c fn))
      end) w /\
  Chain.Execute buildBackgroundJobChain c fn w =
    Timeout.Execute None (comp_timeout Minute None) c (30 * Second) (fun c =>
      Retry.Execute None Pow rand_Float64 (comp_retry 10 Second Minute None None) c fn) w.
Proof. split; reflexivity. Qed.

(** The predicate is the one its comment states: three consecutive failures, or
    half of at least five requests. *)
Lemma comp_trip_policy counts :
  0 <= TotalFailures counts < 2 ^ 32 -> 0 <= Requests counts < 2 ^ 32 ->
  comp_ReadyToTrip counts =
    (3 <=? ConsecutiveFailures counts) || ((5 <=? Requests counts) && (Requests counts <=? 2 * TotalFailures counts)).
Proof.
  intros F R. unfold comp_ReadyToTrip. rewrite !Z.geb_leb. destruct (Z.leb_spec 5 (Requests counts)); [|done].
  by rewrite half_rate by lia.
Qed.

(** The loop of [main]: the successes and the failures. *)
Fixpoint comp_requests (chain : Chain W (option APIResponse)) (failureRate : f64) (latency : Z) (n : nat) (i ok failed : Z) :
    M W (Z * Z) :=
  match n with
  | O => ret (ok, failed)
  | S n =>
      let requestID := ("req-" +:+ dec (i + 1))%string in
      print (newline +:+ "[" +:+ requestID +:+ "] Starting...") ;;;
      let! r := Chain.Execute chain Background (api_Call failureRate latency requestID) in
      print ("[" +:+ requestID +:+ "] " +:+
        match r with
        | (_, Some err) => cross_mark +:+ " Failed: " +:+ Error err
        | (Some response, None) => check_mark +:+ " Success: " +:+ Data response +:+ " (at " +:+ Format_time (Timestamp response) +:+ ")"
        | (None, None) => "" (* a nil pointer would panic; [api_Call] returns none with a nil error *)
        end) ;;;
      let! _ := select_timer (200 * Millisecond) Background in
      match r.2 with
      | Some _ => comp_requests chain failureRate latency n (i + 1) ok (failed + 1)
      | None => comp_requests chain failureRate latency n (i + 1) (ok + 1) failed
      end
  end.

Definition percent (n : Z) : string := Format_1f (fmul (fdiv (f_of_Z n) (f_of_Z 20)) (f_of_Z 100)).

Definition comp_main (Intn : Z -> M W Z) : M W unit :=
  let! n := Intn 400 in
  print "Making 20 API calls through resilience chain..." ;;;
  let! counts := comp_requests buildResilientChain.2 (f_ratio 3 10) (Millisecond * (100 + n)) 20 0 0 0 in
  print (newline +:+ "=== Summary ===") ;;;
  print "Total requests: 20" ;;;
  print ("Successful: " +:+ dec counts.1 +:+ " (" +:+ percent counts.1 +:+ "%)") ;;;
  print ("Failed: " +:+ dec counts.2 +:+ " (" +:+ percent counts.2 +:+ "%)").

Lemma comp_requests_total chain rate latency n : forall i ok failed w,
  let '(a, b) := (comp_requests chain rate latency n i ok failed w).1 in a + b = ok + failed + Z.of_nat n.
Proof.
  induction n as [|n IH]; intros i ok failed w; [cbn; lia|]. cbn [comp_requests]. unfold bind.
  set (r := Chain.Execute _ _ _ _). destruct r.1.2;
    match goal with |- context [comp_requests _ _ _ n ?i ?a ?b ?w] => specialize (IH i a b w);
      destruct (comp_requests chain rate latency n i a b w) as [[x y] w3] end; cbn in *; lia.
Qed.
End Composition.

(** ** [examples/observability-demo] *)

Definition cbName : string := "downstream".

(** [Duration.Seconds]. *)
Definition Seconds (d : Z) : f64 :=
  fadd (f_of_Z (Z.quot d Second)) (fdiv (f_of_Z (Z.rem d Second)) (f_of_Z 1000000000)).

(** What [OnStateChange] records. *)
Definition state_number (s : State) : Z := match s with StateClosed => 0 | StateOpen => 1 | StateHalfOpen => 2 end.

Definition record_change (from to : State) : list (event f64) :=
  [CircuitBreakerStateChange cbName (State_String from) (State_String to); CircuitBreakerState cbName (f_of_Z (state_number to))].

(** What [driveLoad] records of a call that ended with [err] after [dur]. *)
Definition record_call (err : option error) (dur : f64) : list (event f64) :=
  [CircuitBreakerRequest cbName "closed"] ++
  match err with
  | None => [CircuitBreakerSuccess cbName; RetrySuccess cbName]
  | Some e => [CircuitBreakerFailure cbName; RetryFailure cbName] ++ (if errors_is e ErrTimeout then [TimeoutExceeded cbName] else [])
  end ++ [RetryDuration cbName dur].

(** The chain of [main]; the breaker is the world's. *)
Section Wiring.
Context {W : Type} `{HW : World W} {HB : Has W breaker} (Pow : f64 -> f64 -> f64) (rand_Float64 : M W f64).

Definition obs_breaker : Breaker.Config := {|
  MaxRequests := 3; Breaker.Interval := 30 * Second; Breaker.Timeout := 5 * Second;
  ReadyToTrip := Some (fun c => ConsecutiveFailures c >=? 4); OnStateChange := true; IsSuccessful := None;
  WindowType := SlidingWindowDisabled; SlidingWindowSize := 0; MinimumCalls := 0; FailureRateThreshold := f_of_Z 0
|}.

Definition obs_retry : Retry.Config W := Retry.setDefaults {|
  RetryableErrors := []; NonRetryableErrors := []; IsRetryable_fn := None; OnRetry := None;
  MaxAttempts := 3; InitialDelay := 50 * Millisecond; MaxDelay := 0; Policy := BackoffExponential;
  Multiplier := f_of_Z 2; Jitter := true
|}.

Definition obs_chain : Chain W string :=
  WithTimeout (Timeout.Execute ""%string (Timeout.setDefaults {| OnTimeout := None; DefaultTimeout := 250 * Millisecond |}))
    (250 * Millisecond)
    (WithRetry (Retry.Execute ""%string Pow rand_Float64 obs_retry)
      (WithCircuitBreaker (Breaker.Execute ""%string) Chain.New)).
End Wiring.

Section Load.
Context {W : Type} `{HW : World W} (IntN : Z -> M W Z) (record : event f64 -> M W unit) (chain : Chain W string).

Definition synthetic : Fn W string := fun c =>
  let! roll := IntN 10 in
  if roll <? 2 then ret (""%string, Some (ESentinel (ErrNew "simulated downstream 5xx")))
  else if roll <? 3 then
    let! stopped := select_timer Second c in
    match stopped with
    | Some e => ret (""%string, Some e)
    | None => ret ("ok"%string, None)
    end
  else ret ("ok"%string, None).

Fixpoint record_all (es : list (event f64)) : M W unit :=
  match es with [] => ret tt | e :: es => record e ;;; record_all es end.

(** One tick. *)
Definition drive_tick : M W unit :=
  let! start := time_Now in
  let! r := Chain.Execute chain Background synthetic in
  let! now := time_Now in
  record_all (record_call r.2 (Seconds (time_Sub now start))).
End Load.

(** Every call is one request, one outcome of the breaker, the same outcome of
    the retry and one duration; a call the open breaker refused is counted
    under the label of a closed one, as a failure of the breaker and of a retry
    that never ran. *)
Lemma record_call_counts err dur :
  let es := record_call err dur in
  CircuitBreakerRequest cbName "closed" ∈ es /\ RetryDuration cbName dur ∈ es /\
  (CircuitBreakerSuccess cbName ∈ es <-> err = None) /\ (CircuitBreakerFailure cbName ∈ es <-> err <> None) /\
  (RetryFailure cbName ∈ es <-> err <> None) /\ (TimeoutExceeded cbName ∈ es <-> Is err ErrTimeout = true) /\
  (forall e s, CircuitBreakerRequest e s ∈ es -> s = "closed"%string).
Proof.
  cbv zeta. unfold record_call. destruct err as [e|]; cbn [Is]; [destruct (errors_is e ErrTimeout)|];
    split_and!; rewrite ?elem_of_app; try set_solver.
Qed.
