(* ===== verification/RedisDemos.v ===== *)
(** The demos of the two Redis examples ([examples/circuitbreaker-redis/cmd/demo],
    [examples/ratelimit-redis/cmd/demo]), with what they print.

    A [main] that [log.Fatalf] ends returns the message of the exit.  Redis is
    the network and the state of [RedisBreaker] and [RedisStore]; the answer to
    [Ping] is an argument, and closing the client does nothing else. *)

From S2P Require Import Prelude Float64 Errors ErrorText Runtime RateStore RateLimiter Breaker RedisBreaker RedisStore Examples.

#[local] Open Scope go_scope.

(** How [main] ends. *)
Inductive exit := Done | Fatal (message : string).

Section Texts.
Context (PrintRanges : Z -> bool) (caller : error -> string).
#[local] Notation Text := (Error PrintRanges caller).

Definition ping_failed (err : error) : exit :=
  Fatal ("redis ping failed; is Redis running on :6379? " +:+ Text err).

(** [fmt.Println] of an error that may be nil. *)
Definition err_text (err : option error) : string :=
  match err with Some e => Text e | None => "<nil>" end.

(** ** The rate limiter's demo *)

Section RateLimit.
Context {W : Type} {WW : World W} {HR : Has W (gmap string rbucket)} {HC : Has W Closed} {HP : Has W (list string)}.
Context (network : ctx -> M W delivery) (ping : ctx -> M W (option error)).
Context (stored_last : f64 -> Z) (params : ctx -> option (Z * Z)) (oob : Z).

Definition demo_store : RStore := NewStore [WithPrefix "demo:"; WithTTL Hour].

Definition demo_config : RateLimiter.Config W := {|
  KeyFunc := None; OnAllow := None; OnLimit := None; cfg_Metrics := None;
  cfg_Store := Some (redis_store network stored_last params oob demo_store);
  RateLimiter.Interval := Second; Rate := 10; Burst := 20; MaxTokensPerRequest := 0; RateLimiter.FailOpen := true
|}.

Definition demo_limiter : rateLimiter W :=
  RateLimiter.New (redis_store network stored_last params oob demo_store) demo_config.

(** The loop, with [allowed] and [denied]; [bucketCtx] is the context whose
    parameters [params] gives. *)
Fixpoint demo_requests (bucketCtx : ctx) (n : nat) (allowed denied : Z) : M W (Z * Z) :=
  match n with
  | O => ret (allowed, denied)
  | S n =>
      let! ok := Allow demo_limiter bucketCtx "user-1" in
      if (ok : bool) then demo_requests bucketCtx n (allowed + 1) denied
      else demo_requests bucketCtx n allowed (denied + 1)
  end.

Definition demo_report (r : Z * Z) : string :=
  "allowed=" +:+ dec r.1 +:+ " denied=" +:+ dec r.2 +:+ " (rate=10/s burst=20)".

Definition ratelimit_demo (bucketCtx : ctx) : M W exit :=
  let! now := time_Now in
  let! err := ping (WithTimeout Background (5 * Second) now) in
  match err with
  | Some err => ret (ping_failed err)
  | None =>
      let! r := demo_requests bucketCtx 50 0 0 in
      Println (demo_report r) ;;;
      let! _ := RateLimiter.Close demo_limiter in
      ret Done
  end.

(** The network and the buckets are not the limiter's own state. *)
Context (apart : forall (m : gmap string rbucket) w, get (S := Closed) (put m w) = get w).
Context (quiet : forall c, leaves (get (S := Closed)) (network c)).

Lemma demo_consume c key w :
  (tryConsume demo_limiter c key 1 w).1.1 = true /\ get (S := Closed) (tryConsume demo_limiter c key 1 w).2 = get w.
Proof.
  assert (V : valid demo_limiter) by apply New_lemma.
  unfold tryConsume. change (store demo_limiter) with (redis_store network stored_last params oob demo_store).
  cbn [RateStore.AtomicUpdate redis_store].
  unfold store_AtomicUpdate, send, server_micros, bind, time_Now, ret. cbn [fst snd].
  rewrite (consume_probe _ V) by (vm_compute; split; discriminate). cbn [fst snd].
  set (p := Some _). assert (A : forall now, (consume demo_limiter 1 now p).1 = true)
    by (intros; apply (consume_again _ V); vm_compute; [discriminate|split; discriminate]).
  set (r := consume demo_limiter 1 _ p). assert (R : r.1 = true) by apply A. destruct r as [a q]. cbn in R. subst a. cbn [fst snd].
  destruct (paramsFromContext params c) as [rate interval].
  destruct (_ || _); cbn [fst snd]; pose proof (quiet c (tick (tick w))) as Q;
    destruct (network c _) as [[|e|e] w']; cbn [fst snd] in *; rewrite ?apart, ?get_tick, Q, !get_tick; done.
Qed.

(** Every request is allowed: the script's answer is not what the limiter
    reads, and a request that Redis does not answer is let through. *)
Lemma demo_allows c w : is_closed (get w) = false ->
  let r := Allow demo_limiter c "user-1" w in r.1 = true /\ is_closed (get r.2) = false.
Proof.
  intros C. cbv zeta. destruct (demo_consume c "user-1" w) as [G L].
  assert (E : Allow demo_limiter c "user-1" w = (true, (tryConsume demo_limiter c "user-1" 1 w).2)).
  { unfold Allow, bind at 1, closed_load. cbn [fst snd]. rewrite C. unfold bind at 1, timed_consume.
    change (cfg_Metrics (RateLimiter.config demo_limiter)) with (@None (RateLimiter.Metrics W)). cbv iota.
    change (resolveKey demo_limiter c "user-1") with "user-1"%string.
    destruct (tryConsume demo_limiter c "user-1" 1 w) as [[ok err] w']. cbn [fst snd] in *. subst ok. by destruct err. }
  rewrite E. split; [done|]. cbn [snd]. by rewrite L.
Qed.

Lemma demo_counts c n allowed denied w : is_closed (get w) = false ->
  (demo_requests c n allowed denied w).1 = (allowed + Z.of_nat n, denied).
Proof.
  revert allowed w. induction n as [|n IH]; intros allowed w C; cbn [demo_requests].
  - unfold ret. cbn [fst]. f_equal. lia.
  - unfold bind. destruct (demo_allows c w C) as [A C']. destruct (Allow _ _ _ w) as [ok w']. cbn [fst snd] in *. subst ok.
    rewrite IH by done. f_equal. lia.
Qed.

(** The demo "rate-limits 50 calls against a 10-token-per-second bucket", says
    its comment.  In every world, at any speed, whether or not Redis answers
    after the ping and whatever the parameters in the context, it counts 50
    allowed and none denied. *)
Lemma ratelimit_demo_limits_nothing c w : is_closed (get w) = false ->
  (demo_requests c 50 0 0 w).1 = (50, 0) /\
  demo_report (50, 0) = "allowed=50 denied=0 (rate=10/s burst=20)"%string.
Proof. intros C. split; [by rewrite demo_counts|reflexivity]. Qed.
End RateLimit.

(** ** The breaker's demo *)

Section CircuitBreaker.
Context {W : Type} {WW : World W} {HK : Has W (option hash)} {HL : Has W State} {HP : Has W (list string)}.
Context (network : ctx -> M W delivery) (ping : ctx -> M W (option error)).

Definition breaker_config : RedisBreaker.Config W := {|
  Client := true; Key := "demo:downstream-A"; FailureThreshold := 3; OpenTimeout := 2 * Second; MaxTrials := 1;
  Mode := RedisBreaker.FailOpen;
  RedisBreaker.OnStateChange := Some (fun from to =>
    Println ("[transition] " +:+ State_String from +:+ " -> " +:+ State_String to))
|}.

Definition down : Fn W Z := fun _ => ret (0, Some (ESentinel (ErrNew "downstream is down"))).
Definition answer : Fn W Z := fun _ => ret (42, None).

Definition breaker_demo : M W exit :=
  let! now := time_Now in
  let! err := ping (WithTimeout Background (5 * Second) now) in
  match err, RedisBreaker.New breaker_config with
  | Some err, _ => ret (ping_failed err)
  | None, inr err => ret (Fatal ("breaker: " +:+ Text err))
  | None, inl (cfg, last) =>
      (fun w => (tt, put last w)) ;;;
      RedisBreaker.Reset network ;;;
      for_ 3 (fun _ => let! _ := RedisBreaker.Execute 0 network cfg Background down in ret tt) ;;;
      let! st := State_method network cfg in
      Println ("state after 3 failures: " +:+ State_String st) ;;;
      let! r := RedisBreaker.Execute 0 network cfg Background answer in
      Println ("call while open: " +:+ err_text r.2) ;;;
      Sleep (2100 * Millisecond) ;;;
      let! r := RedisBreaker.Execute 0 network cfg Background answer in
      Println ("call after timeout: " +:+ dec r.1 +:+ " " +:+ err_text r.2) ;;;
      let! st := State_method network cfg in
      Println ("final state: " +:+ State_String st) ;;;
      ret Done
  end.
End CircuitBreaker.

(** The run of the demo on a Redis that answers. *)
Lemma breaker_demo_output :
  let W := sim ((option hash * State) * list string) in
  let instance : Has W (option hash * State) := Has_fst (Hp := sim_Has _) in
  let console : Has W (list string) := Has_snd (Hp := sim_Has _) in
  let r := breaker_demo (HK := Has_fst) (HL := Has_snd) (fun _ => ret Delivered) (fun _ => ret None)
             (Sim 0 ((None, StateClosed), [])) in
  r.1 = Done /\
  (sim_state r.2).2 =
    ["[transition] closed -> open"; "state after 3 failures: open";
     "call while open: circuit breaker is open (state=open, retry_after=2s)";
     "[transition] open -> half-open"; "[transition] half-open -> closed"; "call after timeout: 42 <nil>";
     "final state: closed"]%string.
Proof. vm_compute. split; reflexivity. Qed.

(** Against a Redis that stops answering after the ping the demo, whose mode is
    [FailOpen], trips nothing and still ends well. *)
Lemma breaker_demo_without_redis :
  let W := sim ((option hash * State) * list string) in
  let instance : Has W (option hash * State) := Has_fst (Hp := sim_Has _) in
  let console : Has W (list string) := Has_snd (Hp := sim_Has _) in
  let r := breaker_demo (HK := Has_fst) (HL := Has_snd) (fun _ => ret (NotSent (ESentinel (ErrNew "connection refused"))))
             (fun _ => ret None) (Sim 0 ((None, StateClosed), [])) in
  r.1 = Done /\
  (sim_state r.2).2 =
    ["state after 3 failures: closed"; "call while open: <nil>"; "call after timeout: 42 <nil>"; "final state: closed"]%string.
Proof. vm_compute. split; reflexivity. Qed.
End Texts.
