(* ===== verification/Servers.v ===== *)
(** The start and the end of the example servers ([examples/http/main.go],
    [examples/observability-demo/main.go]) and the rest of their wiring.

    [ListenAndServe] and [Shutdown] of [net/http] are arguments: the first
    returns when the server stops, and says why; the second gets the context
    that bounds it.  [log] writes lines to the console. *)

From S2P Require Import Prelude Float64 Errors ErrorText Runtime Timeout RateStore RateLimiter Bulkhead.
From S2P Require Import Chain Http Signals Examples RedisDemos Applications.

#[local] Open Scope go_scope.

(** Why [ListenAndServe] returned: [http.ErrServerClosed], or another error. *)
Inductive stop := ServerClosed | ServerFailed (err : error).

Section Servers.
Context {W : Type} `{HW : World W} {HC : Has W (list string)} (Text : error -> string).

(** ** [examples/http] *)

Definition http_limiter_config : RateLimiter.Config W := {|
  KeyFunc := None; OnAllow := None; OnLimit := None; cfg_Metrics := None; cfg_Store := None;
  RateLimiter.Interval := Second; Rate := 10; Burst := 20; MaxTokensPerRequest := 0; FailOpen := false |}.

Definition http_timeout_config : Timeout.Config W := {|
  OnTimeout := Some (Println "Request timed out"); DefaultTimeout := 30 * Second |}.

(** The timeouts of the [http.Server]. *)
Record ServerConfig := { Addr : string; ReadTimeout : Z; ReadHeaderTimeout : Z; WriteTimeout : Z; IdleTimeout : Z }.

Definition http_server : ServerConfig := {|
  Addr := ":8080"; ReadTimeout := 10 * Second; ReadHeaderTimeout := 0; WriteTimeout := 10 * Second; IdleTimeout := 60 * Second |}.

Definition announcement : list string :=
  ["Starting server on " +:+ Addr http_server; "Endpoints:";
   "  GET /protected  - Protected with circuit breaker, timeout, and rate limit";
   "  GET /api        - Rate limited by X-API-Key header";
   "  GET /health     - Health check (no middleware)";
   "  GET /slow       - Slow endpoint with 1s timeout";
   nl +:+ "Example requests:";
   "  curl http://localhost:8080/protected";
   "  curl -H 'X-API-Key: test-key' http://localhost:8080/api";
   "  curl http://localhost:8080/slow"]%string.

Fixpoint print_all (ls : list string) : M W unit :=
  match ls with [] => ret tt | l :: ls => Println l ;;; print_all ls end.

Definition http_main (ListenAndServe : ServerConfig -> M W stop) : M W exit :=
  print_all announcement ;;;
  let! why := ListenAndServe http_server in
  match why with
  | ServerClosed => ret Done
  | ServerFailed err => ret (Fatal ("Server failed: " +:+ Text err))
  end.

(** [gracefulShutdown], which the program does not call. *)
Definition gracefulShutdown (Shutdown : ctx -> M W (option error)) : M W unit :=
  Sleep Minute ;;;
  Println "Shutting down server..." ;;;
  let! now := time_Now in
  let! err := Shutdown (Runtime.WithTimeout Background (30 * Second) now) in
  match err with
  | Some err => Println ("Server shutdown error: " +:+ Text err)
  | None => ret tt
  end ;;;
  Println "Server stopped".

(** ** [examples/observability-demo] *)

Definition obs_server : ServerConfig := {|
  Addr := ":8080"; ReadTimeout := 0; ReadHeaderTimeout := 5 * Second; WriteTimeout := 0; IdleTimeout := 0 |}.

(** The two routes; [metrics] is the handler of the Prometheus library. *)
Definition obs_mux {HH : Has W (list recorder)} (metrics : Handler W) (path : string) : option (Handler W) :=
  if bool_decide (path = "/metrics"%string) then Some metrics
  else if bool_decide (path = "/healthz"%string) then Some (fun w _ => WriteHeader w StatusOK)
  else None.

Definition obs_main (ListenAndServe : ServerConfig -> M W stop) : M W exit :=
  Println "listening on :8080" ;;;
  let! why := ListenAndServe obs_server in
  match why with
  | ServerClosed => ret Done
  | ServerFailed err => ret (Fatal (Text err))
  end.

(** [driveLoad], for its first [n] ticks; [tick] receives from the ticker. *)
Fixpoint driveLoad (tick : M W unit) (IntN : Z -> M W Z) (record : event f64 -> M W unit) (chain : Chain W string) (n : nat) : M W unit :=
  match n with
  | O => ret tt
  | S n => tick ;;; drive_tick IntN record chain ;;; driveLoad tick IntN record chain n
  end.

(** ** [examples/mcp-server] *)

Definition mcp_bulkhead_config : Bulkhead.Config := {| QueueTimeout := 0; MaxConcurrent := 100; MaxQueue := 200 |}.

(** [HandlerFunc]. *)
Definition HandlerFunc_Handle (f : ctx -> ToolCall -> M W (result ToolResult)) (c : ctx) (call : ToolCall) : M W (result ToolResult) :=
  f c call.

(** A shutdown starts a minute after it was asked for at the earliest, is given
    no more than 30 seconds, and is reported as over whether or not it
    succeeded. *)
Lemma graceful_shutdown_reports (Shutdown : ctx -> M W (option error)) w :
  exists c w1 w2, clock w + Minute <= clock w1 /\ done_at c = Some (clock w1 + 30 * Second, ESentinel DeadlineExceeded) /\
    Shutdown c w1 = (fst (Shutdown c w1), w2) /\
    gracefulShutdown Shutdown w =
      (match fst (Shutdown c w1) with
       | Some err => Println ("Server shutdown error: " +:+ Text err) ;;; Println "Server stopped"
       | None => Println "Server stopped"
       end) w2.
Proof.
  unfold gracefulShutdown. pose proof (Sleep_lasts Minute w) as S. unfold bind at 1.
  destruct (Sleep Minute w) as [[] w0]. cbn [fst snd] in *. unfold bind at 1. set (w1 := (Println _ w0).2).
  assert (C : clock w1 = clock w0) by apply clock_put. unfold bind at 1, time_Now. cbn [fst snd].
  set (c := Runtime.WithTimeout Background (30 * Second) (clock (tick w1))). pose proof (clock_tick w1) as T.
  exists c, (tick w1), (Shutdown c (tick w1)).2. split; [lia|]. split; [done|].
  split; [by destruct (Shutdown c (tick w1))|]. unfold bind at 1. destruct (Shutdown c (tick w1)) as [[err|] w2]; done.
Qed.
End Servers.
