(* ===== verification/BulkheadExample.v ===== *)
(** The bulkhead program ([examples/basic/bulkhead/main.go]): ten goroutines
    on one bulkhead, and a call with a deadline.

    The first part is the step relation of [Bulkhead] with a clock and a
    console.  The goroutines, the worker and the main goroutine take their
    steps in any order and time passes between them as it likes; a [Sleep] ends no sooner than
    it is asked to.  [OnRejected] prints in the step that refuses. *)

From S2P Require Import Prelude Float64 Errors Utf8 ErrorText Runtime Bulkhead Examples.

#[local] Open Scope go_scope.

Definition demo_config : Bulkhead.Config := {| QueueTimeout := Second; MaxConcurrent := 3; MaxQueue := 2 |}.

Definition cfg : Bulkhead.Config := setDefaults demo_config.

#[export] Instance outcome_eq_dec : EqDecision outcome.
Proof. solve_decision. Defined.

(** The lines of the console; request [i] is printed as [i + 1]. *)
Inductive line := Launching | Executing (i : nat) | Rejected | Report (i : nat) (o : outcome).

(** A goroutine of [main]: when the [Sleep] of its function ends, once the
    function has printed; when its wait in the queue times out; whether it
    printed its result, and called [wg.Done]. *)
Record request := { wakes : option Z; expires : Z; reported : bool }.

Definition new_request : request := {| wakes := None; expires := 0; reported := false |}.

(** [resume] is when the last [Sleep] of [main] ends; [joined] is after
    [wg.Wait]. *)
Record demo := {
  bh : bulkhead;
  now : Z;
  reqs : list request;
  out : list line;
  resume : Z;
  joined : bool
}.

Definition demo_init (t0 : Z) (s : demo) : Prop :=
  s = {| bh := New demo_config; now := t0; reqs := []; out := [Launching]; resume := t0; joined := false |}.

Definition with_bh (b : bulkhead) (s : demo) : demo :=
  {| bh := b; now := now s; reqs := reqs s; out := out s; resume := resume s; joined := joined s |}.

(** Request [i] becomes [r] and prints [ls]. *)
Definition with_req (i : nat) (r : request) (ls : list line) (s : demo) : demo :=
  {| bh := bh s; now := now s; reqs := <[i := r]> (reqs s); out := out s ++ ls; resume := resume s; joined := joined s |}.

(** [enqueue] makes the context of the wait when it is entered. *)
Definition deadline (t : Z) (c c' : caller) (r : request) : request :=
  match at_pc c, at_pc c' with
  | TryAcquire, Enqueue => {| wakes := wakes r; expires := t + QueueTimeout cfg; reported := reported r |}
  | _, _ => r
  end.

(** [enqueue] calls [OnRejected] where it gives up before it is in the queue (the
    program does not close the bulkhead, the one case in which it does not). *)
Definition rejection (c c' : caller) : list line :=
  match at_pc c, at_pc c' with
  | Enqueue, Returned _ => [Rejected]
  | _, _ => []
  end.

(** The function of request [r] is past its [Sleep]. *)
Definition slept (s : demo) (r : request) : Prop := exists t, wakes r = Some t /\ t <= now s.

Definition in_queue (c : caller) : Prop := at_pc c = Enqueue \/ at_pc c = Sending \/ at_pc c = Waiting.

Inductive demo_step (s : demo) : demo -> Prop :=
| d_pass t : now s <= t ->
    demo_step s {| bh := bh s; now := t; reqs := reqs s; out := out s; resume := resume s; joined := joined s |}
(* main *)
| d_launch : (length (reqs s) < 10)%nat -> resume s <= now s ->
    demo_step s
      {| bh := {| sem := sem (bh s); queueSem := queueSem (bh s); closed := closed (bh s);
                  callers := callers (bh s) ++ [new_caller]; worker := worker (bh s); jobs := jobs (bh s) |};
         now := now s; reqs := reqs s ++ [new_request]; out := out s; resume := now s + 50 * Millisecond; joined := joined s |}
| d_join : length (reqs s) = 10%nat -> resume s <= now s -> (forall r, r ∈ reqs s -> reported r = true) ->
    demo_step s {| bh := bh s; now := now s; reqs := reqs s; out := out s; resume := resume s; joined := true |}
(* a goroutine of main, in Execute *)
| d_caller i c c' r b' : callers (bh s) !! i = Some c -> reqs s !! i = Some r ->
    caller_step cfg (bh s) i c b' -> callers b' !! i = Some c' -> (at_pc c = Direct -> slept s r) ->
    demo_step s (with_bh b' (with_req i (deadline (now s) c c' r) (rejection c c') s))
| d_expire i c r : callers (bh s) !! i = Some c -> reqs s !! i = Some r -> in_queue c -> expires r <= now s ->
    demo_step s (with_bh (update i (expire c) (bh s)) s)
(* after Execute *)
| d_report i c r o : callers (bh s) !! i = Some c -> reqs s !! i = Some r -> at_pc c = Returned o -> reported r = false ->
    demo_step s (with_req i {| wakes := wakes r; expires := expires r; reported := true |} [Report i o] s)
(* the function it gave to Execute *)
| d_print i c r : callers (bh s) !! i = Some c -> reqs s !! i = Some r -> runs c = 1 -> wakes r = None ->
    demo_step s (with_req i {| wakes := Some (now s + 500 * Millisecond); expires := expires r; reported := reported r |} [Executing i] s)
(* the worker, and the goroutines it starts *)
| d_worker b' : worker_step cfg (bh s) b' -> (length (jobs (bh s)) <= length (jobs b'))%nat ->
    demo_step s (with_bh b' s)
| d_job k i c r : jobs (bh s) !! k = Some i -> callers (bh s) !! i = Some c -> reqs s !! i = Some r -> slept s r ->
    demo_step s (with_bh (set_jobs (delete k (jobs (bh s))) (set_sem (sem (bh s) - 1) (update i (answer Result c) (bh s)))) s).

Definition demo_reachable (t0 : Z) : demo -> Prop := reachable (demo_init t0) demo_step.

(** What the program prints. *)
Definition show (Text : error -> string) (l : line) : string :=
  let id i := dec (Z.of_nat i + 1) in
  match l with
  | Launching => "Launching 10 concurrent requests (max 3 concurrent, 2 queued)..."
  | Executing i => "Request " +:+ id i +:+ ": executing (simulating 500ms work)"
  | Rejected => "Request rejected: bulkhead full"
  | Report i Result => "Request " +:+ id i +:+ ": " +:+ check_mark +:+ " result=" +:+ dec ((Z.of_nat i + 1) * 10)
  | Report i Full => "Request " +:+ id i +:+ ": " +:+ cross_mark +:+ " " +:+ Text (ESentinel ErrBulkheadFull)
  | Report i CtxError => "Request " +:+ id i +:+ ": " +:+ cross_mark +:+ " " +:+ Text (ESentinel DeadlineExceeded)
  end.

(** ** The second part *)

Section Cancellation.
Context {W : Type} `{HC : Has W (list string)} (Text : error -> string).

Definition cancellable : Fn W Z := fun c =>
  Println "Starting long-running operation..." ;;;
  let! stopped := select_timer Second c in
  match stopped with
  | Some e => Println "Operation cancelled" ;;; ret (0, Some e)
  | None => ret (42, None)
  end.

(** [Execute] is the bulkhead's. *)
Definition cancellation (Execute : ctx -> Fn W Z -> M W (Runtime.result Z)) : M W unit :=
  Println (nl +:+ "--- Context Cancellation Example ---") ;;;
  let! now := time_Now in
  let! r := Execute (WithTimeout Background (100 * Millisecond) now) cancellable in
  match r.2 with
  | Some err => Println ("Error: " +:+ Text err)
  | None => Println ("Result: " +:+ dec r.1)
  end.
End Cancellation.

(** ** What is printed, request by request *)

Definition report_of (i : nat) (l : line) : option outcome :=
  match l with Report j o => if decide (j = i) then Some o else None | _ => None end.
Definition execution_of (i : nat) (l : line) : option () :=
  match l with Executing j => if decide (j = i) then Some () else None | _ => None end.
Definition rejection_of (l : line) : option () := match l with Rejected => Some () | _ => None end.

Definition reports (i : nat) (ls : list line) : list outcome := omap (report_of i) ls.
Definition executions (i : nat) (ls : list line) : list () := omap (execution_of i) ls.
Definition rejections (ls : list line) : Z := Z.of_nat (length (omap rejection_of ls)).

Definition returned (c : caller) : list outcome := match at_pc c with Returned o => [o] | _ => [] end.
Definition is_full (c : caller) : Z := match at_pc c with Returned Full => 1 | _ => 0 end.
Definition is_refused (c : caller) : Z := match at_pc c with Returned Full | Returned CtxError => 1 | _ => 0 end.

(** One request. *)
Record request_ok (t : Z) (ls : list line) (i : nat) (c : caller) (r : request) : Prop := {
  ro_ctx : ctx_done c = false;
  ro_early : match at_pc c with CheckDone | TryAcquire | Direct => queue_ctx_done c = false | _ => True end;
  ro_queue : queue_ctx_done c = true \/ at_pc c = Returned CtxError -> expires r <= t;
  ro_result : at_pc c = Returned Result \/ resultCh c = Some Result -> is_Some (wakes r);
  ro_wakes : is_Some (wakes r) -> 0 < runs c;
  ro_channel : resultCh c = None \/ resultCh c = Some Result;
  ro_full : at_pc c = Returned Full -> handed c = false;
  ro_reported : reported r = true -> returned c <> [];
  ro_reports : reports i ls = if reported r then returned c else [];
  ro_executions : executions i ls = match wakes r with Some _ => [()] | None => [] end
}.

Record demo_inv (s : demo) : Prop := {
  di_bulkhead : inv cfg (bh s);
  di_open : closed (bh s) = false;
  di_worker : worker (bh s) = Receiving \/ exists i, worker (bh s) = Holding i;
  di_length : length (callers (bh s)) = length (reqs s);
  di_ok : forall i c r, callers (bh s) !! i = Some c -> reqs s !! i = Some r -> request_ok (now s) (out s) i c r;
  di_later : forall i, (length (reqs s) <= i)%nat -> reports i (out s) = [] /\ executions i (out s) = [];
  di_rejected : total is_full (callers (bh s)) <= rejections (out s) <= total is_refused (callers (bh s));
  di_joined : joined s = true -> length (reqs s) = 10%nat /\ forall r, r ∈ reqs s -> reported r = true
}.

(** Lines of request [i], or of none. *)
Definition lines_of (i : nat) (ls : list line) : Prop :=
  forall j, j <> i -> reports j ls = [] /\ executions j ls = [].

Lemma reports_app i k l : reports i (k ++ l) = reports i k ++ reports i l.
Proof. apply omap_app. Qed.

Lemma executions_app i k l : executions i (k ++ l) = executions i k ++ executions i l.
Proof. apply omap_app. Qed.

Lemma rejections_app k l : rejections (k ++ l) = rejections k + rejections l.
Proof. unfold rejections. rewrite omap_app, length_app. lia. Qed.

Lemma request_ok_mono t u k ls i c r :
  t <= u -> reports i ls = [] -> executions i ls = [] -> request_ok t k i c r -> request_ok u (k ++ ls) i c r.
Proof.
  intros L R X O. destruct O. split; auto; [intros Q; pose proof (ro_queue0 Q); lia|..]; rewrite ?reports_app, ?executions_app.
  - by rewrite R, app_nil_r.
  - by rewrite X, app_nil_r.
Qed.

(** A step of request [i]. *)
Lemma demo_update s s' i c r c' r' ls :
  demo_inv s -> callers (bh s) !! i = Some c -> reqs s !! i = Some r ->
  inv cfg (bh s') -> closed (bh s') = false -> (worker (bh s') = Receiving \/ exists j, worker (bh s') = Holding j) ->
  callers (bh s') = <[i := c']> (callers (bh s)) -> reqs s' = <[i := r']> (reqs s) ->
  out s' = out s ++ ls -> lines_of i ls -> now s' = now s ->
  is_full c' - is_full c <= rejections ls <= is_refused c' - is_refused c ->
  (reported r = true -> reported r' = true) -> joined s' = joined s ->
  request_ok (now s) (out s ++ ls) i c' r' ->
  demo_inv s'.
Proof.
  intros I C R B O Wk EC ER EO L N J RR Ej K. destruct I. split; auto.
  - rewrite EC, ER, !length_insert. done.
  - intros j d q. rewrite EC, ER, N, EO, !list_lookup_insert. pose proof (lookup_lt_Some _ _ _ C). pose proof (lookup_lt_Some _ _ _ R).
    destruct (decide (i = j)) as [<-|Ne].
    + rewrite !decide_True by done. intros [= <-] [= <-]. done.
    + rewrite !decide_False by tauto. intros Hd Hq. destruct (L j ltac:(done)). apply (request_ok_mono (now s)); auto. lia.
  - intros j Lj. rewrite ER, length_insert in Lj. rewrite EO, reports_app, executions_app. destruct (di_later0 j Lj) as [-> ->].
    pose proof (lookup_lt_Some _ _ _ R). apply L. lia.
  - rewrite EC, EO, rejections_app, !(total_insert _ _ _ _ _ C). lia.
  - rewrite Ej, ER, length_insert. intros Hj. destruct (di_joined0 Hj) as [Ln A]. split; [done|]. intros q Hq.
    apply list_elem_of_lookup in Hq as [j Hq]. rewrite list_lookup_insert in Hq. case_decide as D.
    + injection Hq as <-. apply RR, A. by eapply list_elem_of_lookup_2.
    + apply A. by eapply list_elem_of_lookup_2.
Qed.

Lemma no_lines i : lines_of i [].
Proof. done. Qed.

Lemma rejected_line i : lines_of i [Rejected].
Proof. done. Qed.

Lemma report_line i o : lines_of i [Report i o].
Proof. intros j N. cbn. by rewrite decide_False by congruence. Qed.

Lemma executing_line i : lines_of i [Executing i].
Proof. intros j N. cbn. by rewrite decide_False by congruence. Qed.

Lemma request_returns t ls i c o r :
  request_ok t ls i c r -> returned c = [] ->
  (o = CtxError -> expires r <= t) -> (o = Result -> is_Some (wakes r)) -> (o = Full -> handed c = false) ->
  request_ok t ls i (goto (Returned o) c) r.
Proof.
  intros [] E Hc Hr Hf. rewrite E in *. assert (reported r = false) as F by (destruct (reported r); [by destruct ro_reported0|done]).
  split; unfold returned; cbn; rewrite ?F; rewrite ?F in ro_reports0; auto; try done; first [intros [D|D]; auto; injection D as ->; auto|intros [= ->]; auto].
Qed.

(** A step inside [Execute]. *)
Lemma request_moves t ls i c p r :
  request_ok t ls i c r -> returned c = [] -> match p with CheckDone | TryAcquire | Direct => queue_ctx_done c = false | Returned _ => False | _ => True end ->
  request_ok t ls i (goto p c) r.
Proof.
  intros [] E P. rewrite E in *. assert (reported r = false) as F by (destruct (reported r); [by destruct ro_reported0|done]).
  split; unfold returned; cbn; rewrite ?F; rewrite ?F in ro_reports0; auto; try (by destruct p); try (intros [D|D]; auto; by subst p); by intros ->.
Qed.

Lemma request_started t ls i c r : 0 <= runs c -> request_ok t ls i c r -> request_ok t ls i (start c) r.
Proof. intros L []. split; auto. intros _. cbn. lia. Qed.

Lemma request_handed t ls i c r : returned c = [] -> request_ok t ls i c r -> request_ok t ls i (hand c) r.
Proof.
  intros E []. rewrite E in *. assert (reported r = false) as F by (destruct (reported r); [by destruct ro_reported0|done]).
  split; unfold returned; cbn; rewrite ?F; rewrite ?F in ro_reports0; auto; try done; intros [D|D]; auto; discriminate.
Qed.

Lemma request_expects t ls i c d r :
  queue_ctx_done c = false -> returned c = [] -> request_ok t ls i c r ->
  request_ok t ls i c {| wakes := wakes r; expires := d; reported := reported r |}.
Proof.
  intros Q E []. split; auto. cbn. unfold returned in E. intros [D|D]; [congruence|]. by rewrite D in E.
Qed.

Lemma request_unlogged t ls k i c r : reports i k = [] -> executions i k = [] -> request_ok t ls i c r -> request_ok t (ls ++ k) i c r.
Proof. intros R X. apply request_ok_mono; [lia|done..]. Qed.

Lemma caller_request_ok t ls b i c c' r b' :
  closed b = false -> worker b <> Draining -> caller_ok c -> (at_pc c = Direct -> is_Some (wakes r)) ->
  callers b !! i = Some c -> caller_step cfg b i c b' -> callers b' !! i = Some c' ->
  request_ok t ls i c r -> request_ok t (ls ++ rejection c c') i c' (deadline t c c' r).
Proof.
  intros Op Wk Ok Sl C St C' O. pose proof (lookup_lt_Some _ _ _ C) as Lt. unfold caller_ok in Ok.
  destruct St as [Pc|Pc L|Pc D|Pc D|Pc L D Cl|Pc|Pc Q|Pc Q L|Pc Q D|Pc Q D|Pc Q L D Cl|Pc Wr|Pc Wr|Pc D|Pc D|o Pc Rc|Pc D|Pc D];
    try congruence; rewrite ?Op in C'; cbn in C'; rewrite list_lookup_insert_eq in C' by done; injection C' as <-;
    rewrite Pc in Ok; pose proof (ro_early _ _ _ _ _ O) as Ey; rewrite ?Pc in Ey;
    assert (returned c = []) as Ret by (unfold returned; by rewrite Pc);
    apply request_unlogged; try (unfold rejection; rewrite Pc; done); unfold deadline; rewrite Pc; cbn.
  - by apply request_moves.
  - apply request_started; [cbn; lia|]. by apply request_moves.
  - apply request_returns; try done. pose proof (ro_ctx _ _ _ _ _ O). congruence.
  - apply request_expects; [done..|]. by apply request_moves.
  - apply request_returns; try done; auto.
  - apply request_returns; try done; tauto.
  - by apply request_moves.
  - apply request_returns; try done. intros _. apply (ro_queue _ _ _ _ _ O). by left.
  - apply request_returns; try done; tauto.
  - by apply request_handed.
  - apply request_returns; try done. intros _. apply (ro_queue _ _ _ _ _ O). by left.
  - destruct (ro_channel _ _ _ _ _ O) as [E|E]; [congruence|]. rewrite E in Rc. injection Rc as <-.
    apply request_returns; try done. intros _. apply (ro_result _ _ _ _ _ O). by right.
  - apply request_returns; try done. intros _. apply (ro_queue _ _ _ _ _ O). by left.
Qed.

Lemma caller_step_ok s i c c' r b' :
  demo_inv s -> callers (bh s) !! i = Some c -> reqs s !! i = Some r ->
  caller_step cfg (bh s) i c b' -> callers b' !! i = Some c' -> (at_pc c = Direct -> slept s r) ->
  demo_inv (with_bh b' (with_req i (deadline (now s) c c' r) (rejection c c') s)).
Proof.
  intros I C R St C' Sl. pose proof (di_bulkhead s I) as B. pose proof (di_ok s I i c r C R) as O.
  pose proof (di_open s I) as Op. assert (worker (bh s) <> Draining) as Wk by (destruct (di_worker s I) as [E|[j E]]; congruence).
  pose proof (iv_callers _ _ B i c C) as Ok.
  assert (at_pc c = Direct -> is_Some (wakes r)) as Sw by (intros D; destruct (Sl D) as (t & E & _); by eexists).
  pose proof (caller_request_ok _ _ _ _ _ _ _ _ Op Wk Ok Sw C St C' O) as O'.
  pose proof (caller_step_inv _ _ _ _ _ B C St) as B'. pose proof (lookup_lt_Some _ _ _ C) as Lt.
  assert (Wd := di_worker s I).
  destruct St as [Pc|Pc L|Pc D|Pc D|Pc L D Cl|Pc|Pc Q|Pc Q L|Pc Q D|Pc Q D|Pc Q L D Cl|Pc Wr|Pc Wr|Pc D|Pc D|o Pc Rc|Pc D|Pc D];
    try congruence; rewrite ?Op in *; cbn in C'; rewrite list_lookup_insert_eq in C' by done; injection C' as <-.
  all: eapply (demo_update s _ i c r); [done|exact C|exact R|exact B'|exact Op| |reflexivity..| |reflexivity| | |reflexivity|exact O'];
    try done; try (unfold rejection, deadline, is_full, is_refused; rewrite Pc; cbn; done); eauto.
  destruct (ro_channel _ _ _ _ _ O) as [E|E]; [congruence|]. rewrite E in Rc. injection Rc as <-.
  unfold rejection, is_full, is_refused. rewrite Pc. cbn. done.
Qed.

(** A step of the bulkhead that moves no goroutine of [main]. *)
Lemma bulkhead_side_step s b' i c c' :
  demo_inv s -> callers (bh s) !! i = Some c -> inv cfg b' -> closed b' = false ->
  (worker b' = Receiving \/ exists j, worker b' = Holding j) -> callers b' = <[i := c']> (callers (bh s)) ->
  at_pc c' = at_pc c -> (forall r, request_ok (now s) (out s) i c r -> reqs s !! i = Some r -> request_ok (now s) (out s) i c' r) ->
  demo_inv (with_bh b' s).
Proof.
  intros I C B O Wk E P K. destruct (lookup_lt_is_Some_2 (reqs s) i) as [r R].
  { rewrite <- (di_length s I). by eapply lookup_lt_Some. }
  eapply (demo_update s _ i c r c' r []); try done; cbn.
  - by rewrite list_insert_id.
  - by rewrite app_nil_r.
  - unfold is_full, is_refused. rewrite P. change (rejections []) with 0. lia.
  - rewrite app_nil_r. apply K; [|done]. by apply (di_ok s I).
Qed.

Lemma worker_ok s b' :
  demo_inv s -> worker_step cfg (bh s) b' -> (length (jobs (bh s)) <= length (jobs b'))%nat -> demo_inv (with_bh b' s).
Proof.
  intros I St L. pose proof (di_open s I) as Op. pose proof (di_bulkhead s I) as B. pose proof (worker_step_inv _ _ _ B St) as B'.
  assert (forall c i, callers (bh s) !! i = Some c -> ctx_done c = false) as Cx.
  { intros c i C. destruct (lookup_lt_is_Some_2 (reqs s) i) as [r R]; [rewrite <- (di_length s I); by eapply lookup_lt_Some|].
    apply (ro_ctx _ _ _ _ _ (di_ok s I i c r C R)). }
  destruct St as [i c Wk C Lt|i c Wk C D|i c Wk C Cl|Wk Cl|Wk|k i c Hk C]; try congruence.
  - eapply bulkhead_side_step; eauto; [done..|]. intros r O _. apply request_started; [|done]. apply (iv_callers _ _ B i c C).
  - pose proof (Cx c i C). congruence.
  - destruct (di_worker s I) as [E|[j E]]; congruence.
  - cbn in L. rewrite length_delete in L by (by eexists). pose proof (lookup_lt_Some _ _ _ Hk). lia.
Qed.

Lemma job_ok s k i c r :
  demo_inv s -> jobs (bh s) !! k = Some i -> callers (bh s) !! i = Some c -> reqs s !! i = Some r -> slept s r ->
  demo_inv (with_bh (set_jobs (delete k (jobs (bh s))) (set_sem (sem (bh s) - 1) (update i (answer Result c) (bh s)))) s).
Proof.
  intros I K C R (t & Wk & _). pose proof (di_bulkhead s I) as B.
  eapply bulkhead_side_step; eauto.
  - eapply worker_step_inv; [exact B|]. by econstructor.
  - by apply (di_open s I).
  - by apply (di_worker s I).
  - intros q O Rq. replace q with r in * by congruence. destruct O. split; auto; cbn; eauto.
Qed.

Lemma expire_ok s i c r :
  demo_inv s -> callers (bh s) !! i = Some c -> reqs s !! i = Some r -> in_queue c -> expires r <= now s ->
  demo_inv (with_bh (update i (expire c) (bh s)) s).
Proof.
  intros I C R Q L. eapply bulkhead_side_step; eauto.
  - eapply env_step_inv; [apply (di_bulkhead s I)|exact C|]. by constructor.
  - by apply (di_open s I).
  - by apply (di_worker s I).
  - intros q O Rq. replace q with r in * by congruence. destruct O. split; auto; cbn.
    destruct Q as [E|[E|E]]; by rewrite E.
Qed.

Lemma report_ok s i c r o :
  demo_inv s -> callers (bh s) !! i = Some c -> reqs s !! i = Some r -> at_pc c = Returned o -> reported r = false ->
  demo_inv (with_req i {| wakes := wakes r; expires := expires r; reported := true |} [Report i o] s).
Proof.
  intros I C R P F. eapply (demo_update s _ i c r c _ [Report i o]); try done; try apply I; try apply report_line; try apply executing_line; cbn.
  - by rewrite list_insert_id.
  - change (rejections [Report i o]) with 0. lia.
  - destruct (di_ok s I i c r C R). split; auto; unfold returned in *; cbn; rewrite ?P; try done;
      rewrite ?reports_app, ?executions_app, ?ro_reports0, ?F; cbn.
    + by rewrite decide_True.
    + by rewrite app_nil_r.
Qed.

Lemma print_ok s i c r :
  demo_inv s -> callers (bh s) !! i = Some c -> reqs s !! i = Some r -> runs c = 1 -> wakes r = None ->
  demo_inv (with_req i {| wakes := Some (now s + 500 * Millisecond); expires := expires r; reported := reported r |} [Executing i] s).
Proof.
  intros I C R P F. eapply (demo_update s _ i c r c _ [Executing i]); try done; try apply I; try apply report_line; try apply executing_line; cbn.
  - by rewrite list_insert_id.
  - change (rejections [Executing i]) with 0. lia.
  - destruct (di_ok s I i c r C R). split; auto; cbn; try lia; try done; rewrite ?reports_app, ?executions_app, ?ro_executions0, ?F; cbn.
    + by rewrite app_nil_r.
    + by rewrite decide_True.
Qed.

Lemma pass_ok s t :
  now s <= t -> demo_inv s ->
  demo_inv {| bh := bh s; now := t; reqs := reqs s; out := out s; resume := resume s; joined := joined s |}.
Proof.
  intros L []. split; auto. cbn. intros i c r C R. rewrite <- (app_nil_r (out s)). apply (request_ok_mono (now s)); auto.
Qed.

Lemma launch_ok s :
  (length (reqs s) < 10)%nat -> demo_inv s ->
  demo_inv {| bh := {| sem := sem (bh s); queueSem := queueSem (bh s); closed := closed (bh s);
                       callers := callers (bh s) ++ [new_caller]; worker := worker (bh s); jobs := jobs (bh s) |};
              now := now s; reqs := reqs s ++ [new_request]; out := out s; resume := now s + 50 * Millisecond; joined := joined s |}.
Proof.
  intros L I. pose proof (bulkhead_step_inv cfg _ _ (di_bulkhead s I) (step_spawn cfg (bh s))) as B.
  destruct I. split; auto; cbn.
  - rewrite !length_app. cbn. lia.
  - intros i c r C R. apply lookup_app_Some in C as [C|[L1 C]]; apply lookup_app_Some in R as [R|[L2 R]];
      try (apply lookup_lt_Some in C; lia); try (apply lookup_lt_Some in R; lia); [by apply di_ok0|].
    apply list_lookup_singleton_Some in C as [E <-]. apply list_lookup_singleton_Some in R as [_ <-].
    destruct (di_later0 i ltac:(lia)) as [Er Ee]. split; cbn; auto; try done; try (intros [|]; done); by intros [].
  - intros i Li. rewrite length_app in Li. cbn in Li. apply di_later0. lia.
  - rewrite !total_app. cbn. lia.
  - intros J. destruct (di_joined0 J). lia.
Qed.

Lemma demo_step_ok s s' : demo_inv s -> demo_step s s' -> demo_inv s'.
Proof.
  intros I St. destruct St.
  - by apply pass_ok.
  - by apply launch_ok.
  - destruct I. by split.
  - by eapply caller_step_ok.
  - by eapply expire_ok.
  - by eapply report_ok.
  - by eapply print_ok.
  - by apply worker_ok.
  - by eapply job_ok.
Qed.

Lemma demo_reachable_inv t0 s : demo_reachable t0 s -> demo_inv s.
Proof.
  apply invariant_reachable; [|apply demo_step_ok]. intros s0 ->. split; cbn; auto; try done.
Qed.

Lemma reports_known s i o :
  demo_inv s -> o ∈ reports i (out s) ->
  exists c r, callers (bh s) !! i = Some c /\ reqs s !! i = Some r /\ request_ok (now s) (out s) i c r /\
    at_pc c = Returned o /\ reports i (out s) = [o] /\ reported r = true.
Proof.
  intros I E. destruct (decide (i < length (reqs s))%nat) as [L|L].
  - destruct (lookup_lt_is_Some_2 _ _ L) as [r R]. rewrite <- (di_length s I) in L. destruct (lookup_lt_is_Some_2 _ _ L) as [c C].
    pose proof (di_ok s I i c r C R) as O. exists c, r. pose proof (ro_reports _ _ _ _ _ O) as Rp. rewrite Rp in E.
    destruct (reported r); [|by apply elem_of_nil in E]. unfold returned in *. destruct (at_pc c); try by apply elem_of_nil in E.
    apply list_elem_of_singleton in E as ->. auto 6.
  - destruct (di_later s I i ltac:(lia)) as [Er _]. rewrite Er in E. by apply elem_of_nil in E.
Qed.

(** Indices that a sum counts. *)
Lemma filter_seq_total {A} (f : A -> Z) (P : nat -> Prop) `{!forall i, Decision (P i)} l :
  (forall x, 0 <= f x) -> (forall i x, P i -> l !! i = Some x -> 1 <= f x) ->
  Z.of_nat (length (filter P (seq 0 (length l)))) <= total f l.
Proof.
  intros F. induction l as [|x l IH] using rev_ind; intros HP; [done|].
  rewrite length_app, seq_app, filter_app, length_app, total_app. cbn [length seq total].
  pose proof (F x) as Fx. assert (Z.of_nat (length (filter P (seq 0 (length l)))) <= total f l) as K.
  { apply IH. intros i y Pi Y. apply (HP i); [done|]. by apply lookup_app_l_Some. }
  rewrite filter_cons, filter_nil. case_decide as D; cbn [length]; [|lia].
  pose proof (HP _ x D (list_lookup_middle l [] x (0 + length l) eq_refl)). lia.
Qed.

(** What the program prints, whatever the order and the pace of its
    goroutines: at most three functions run at once; a request is reported at
    most once, and when [main] is past [wg.Wait] all ten are; a request with a
    result was executed, once, and one that found the bulkhead full was not;
    [OnRejected] has printed its line for each of those. *)
Theorem bulkhead_demo_reports t0 s :
  demo_reachable t0 s ->
  total running (callers (bh s)) + Z.of_nat (length (jobs (bh s))) <= 3 /\
  (forall i, (length (reports i (out s)) <= 1)%nat /\ (length (executions i (out s)) <= 1)%nat) /\
  (forall i, reports i (out s) = [Result] -> executions i (out s) = [()]) /\
  (forall i, reports i (out s) = [Full] -> executions i (out s) = []) /\
  Z.of_nat (length (filter (fun i => reports i (out s) = [Full]) (seq 0 (length (reqs s))))) <= rejections (out s) /\
  (joined s = true -> forall i, (i < 10)%nat -> exists o, reports i (out s) = [o]).
Proof.
  intros Rs. pose proof (demo_reachable_inv _ _ Rs) as I. pose proof (di_bulkhead s I) as B.
  split; [pose proof (iv_sem _ _ B); pose proof (iv_sem_max _ _ B); change (MaxConcurrent cfg) with 3 in *; lia|].
  split_and!.
  - intros i. destruct (decide (i < length (reqs s))%nat) as [L|L].
    + destruct (lookup_lt_is_Some_2 _ _ L) as [r R]. rewrite <- (di_length s I) in L. destruct (lookup_lt_is_Some_2 _ _ L) as [c C].
      destruct (di_ok s I i c r C R) as []. rewrite ro_reports0, ro_executions0. unfold returned.
      destruct (reported r), (at_pc c), (wakes r); cbn; lia.
    + destruct (di_later s I i ltac:(lia)) as [-> ->]. cbn. lia.
  - intros i E. destruct (reports_known s i Result I) as (c & r & C & R & O & P & _); [by rewrite E; left|].
    destruct (ro_result _ _ _ _ _ O (or_introl P)) as [t W]. by rewrite (ro_executions _ _ _ _ _ O), W.
  - intros i E. destruct (reports_known s i Full I) as (c & r & C & R & O & P & _); [by rewrite E; left|].
    rewrite (ro_executions _ _ _ _ _ O). destruct (wakes r) eqn:W; [|done].
    pose proof (ro_wakes _ _ _ _ _ O ltac:(by rewrite W)). pose proof (iv_callers _ _ B i c C) as [_ K]. rewrite P in K.
    specialize (K (ro_full _ _ _ _ _ O P)). lia.
  - etransitivity; [|apply (di_rejected s I)]. rewrite <- (di_length s I). apply filter_seq_total.
    + intros c. unfold is_full. by destruct (at_pc c) as [| | | | | |[]].
    + intros i c E C. destruct (reports_known s i Full I) as (d & r & D & _ & _ & P & _); [by rewrite E; left|].
      replace c with d by congruence. unfold is_full. by rewrite P.
  - intros J i L. destruct (di_joined s I J) as [Ln A]. rewrite <- Ln in L. destruct (lookup_lt_is_Some_2 _ _ L) as [r R].
    rewrite <- (di_length s I) in L. destruct (lookup_lt_is_Some_2 _ _ L) as [c C].
    destruct (di_ok s I i c r C R) as []. assert (reported r = true) as T by (apply A; by eapply list_elem_of_lookup_2).
    specialize (ro_reported0 T). rewrite ro_reports0, T. unfold returned in *. destruct (at_pc c); try done. by eexists.
Qed.

(** ** A run *)

(** Take a step from the state that [R] reaches, by [tac]. *)
Ltac takes R tac :=
  match type of R with
  | demo_reachable ?t ?s =>
      let Q := fresh in
      eassert (Q : demo_reachable t _) by (eapply reach_step; [exact R|tac]);
      clear R;
      match type of Q with
      | demo_reachable _ ?s' => let v := eval vm_compute in s' in assert (R : demo_reachable t v) by exact Q; clear Q
      end
  end.

Ltac evaluates := first [reflexivity | vm_compute; discriminate | vm_compute; lia].
Ltac awake := intros E; first [discriminate E | by eexists; split; [reflexivity|evaluates]].

Ltac passes R t := takes R ltac:(apply (d_pass _ t); evaluates).
Ltac launches R := takes R ltac:(apply d_launch; evaluates).
Ltac calls R i rule := takes R ltac:(eapply (d_caller _ i); [reflexivity|reflexivity|eapply rule; evaluates|reflexivity|awake]).
Ltac tells R i := takes R ltac:(eapply (d_report _ i); reflexivity).
Ltac prints R i := takes R ltac:(eapply (d_print _ i); reflexivity).
Ltac works R := takes R ltac:(eapply d_worker; [eapply ws_run; evaluates|evaluates]).
Ltac finishes R i := takes R ltac:(eapply (d_job _ 0 i); [reflexivity..|by eexists; split; [reflexivity|evaluates]]).

(** Request [i] is launched at [t] and taken by a free slot. *)
Ltac is_served R i t := passes R t; launches R; calls R i cs_check; calls R i cs_acquire; prints R i.
(** It finds the slots taken, and waits. *)
Ltac waits R i t := passes R t; launches R; calls R i cs_check; calls R i cs_acquire_default; calls R i cs_slot.
(** It finds the queue full as well. *)
Ltac is_refused_at R i t :=
  passes R t; launches R; calls R i cs_check; calls R i cs_acquire_default; calls R i cs_slot_default; tells R i.

(** With goroutines that never wait for the scheduler: three requests are
    executed, two queued, and five rejected; everything is over in 1.05s. *)
Lemma bulkhead_demo_output (Text : error -> string) :
  Text (ESentinel ErrBulkheadFull) = "bulkhead at capacity"%string ->
  exists s, demo_reachable 0 s /\ joined s = true /\ now s = 1050 * Millisecond /\
    show Text <$> out s =
      (let ok i v := ("Request " +:+ i +:+ ": " +:+ check_mark +:+ " result=" +:+ v)%string in
       let no i := ["Request rejected: bulkhead full"; "Request " +:+ i +:+ ": " +:+ cross_mark +:+ " bulkhead at capacity"]%string in
       let run i := ("Request " +:+ i +:+ ": executing (simulating 500ms work)")%string in
       ["Launching 10 concurrent requests (max 3 concurrent, 2 queued)..."; run "1"; run "2"; run "3"]%string ++
       no "6"%string ++ no "7"%string ++ no "8"%string ++ no "9"%string ++ no "10"%string ++
       [ok "1" "10"; run "4"; ok "2" "20"; run "5"; ok "3" "30"; ok "4" "40"; ok "5" "50"]%string).
Proof.
  intros T. assert (R : demo_reachable 0 {| bh := New demo_config; now := 0; reqs := []; out := [Launching]; resume := 0; joined := false |})
    by (by apply reach_init).
  is_served R 0%nat 0. is_served R 1%nat (50 * Millisecond). is_served R 2%nat (100 * Millisecond).
  waits R 3%nat (150 * Millisecond). calls R 3%nat cs_send. waits R 4%nat (200 * Millisecond).
  is_refused_at R 5%nat (250 * Millisecond). is_refused_at R 6%nat (300 * Millisecond). is_refused_at R 7%nat (350 * Millisecond).
  is_refused_at R 8%nat (400 * Millisecond). is_refused_at R 9%nat (450 * Millisecond).
  passes R (500 * Millisecond). calls R 0%nat cs_direct_done. tells R 0%nat. works R. prints R 3%nat. calls R 4%nat cs_send.
  passes R (550 * Millisecond). calls R 1%nat cs_direct_done. tells R 1%nat. works R. prints R 4%nat.
  passes R (600 * Millisecond). calls R 2%nat cs_direct_done. tells R 2%nat.
  passes R (1000 * Millisecond). finishes R 3%nat. calls R 3%nat cs_receive. tells R 3%nat.
  passes R (1050 * Millisecond). finishes R 4%nat. calls R 4%nat cs_receive. tells R 4%nat.
  takes R ltac:(apply d_join; [reflexivity|evaluates|apply Forall_forall; repeat constructor]).
  eexists. split; [exact R|]. split; [reflexivity|]. split; [reflexivity|]. cbn -[dec]. rewrite T. reflexivity.
Qed.

Section Runs.
Context {W : Type} `{HC : Has W (list string)} (Text : error -> string).

Definition direct (c : ctx) (fn : Fn W Z) : M W (Runtime.result Z) := fn c.

Lemma cancellation_runs w :
  let w1 := tick (put (get w ++ [nl +:+ "--- Context Cancellation Example ---"]%string) w) in
  let w2 := put (get w1 ++ ["Starting long-running operation..."]%string) w1 in
  let r := select_timer Second (WithTimeout Background (100 * Millisecond) (clock w1)) w2 in
  (cancellation Text direct w).2 =
    match r.1 with
    | Some e => (Println "Operation cancelled" ;;; Println ("Error: " +:+ Text e)) r.2
    | None => Println "Result: 42" r.2
    end.2.
Proof.
  cbv zeta. unfold cancellation, direct, cancellable, time_Now, Println, bind, ret. cbn [fst snd].
  destruct (select_timer Second _ _) as [[e|] w3]; reflexivity.
Qed.

(** The call with a deadline, when a slot is free and [Execute] runs the
    function: it ends cancelled, 100ms after it began at the earliest, or --
    the scheduler may let both instants pass -- with the result of the second it
    works. *)
Lemma cancellation_prints w :
  let w' := (cancellation Text direct w).2 in
  let console (more : list string) := get w ++ [nl +:+ "--- Context Cancellation Example ---"; "Starting long-running operation..."]%string ++ more in
  (get w' = console ["Operation cancelled"; "Error: " +:+ Text (ESentinel DeadlineExceeded)]%string /\ clock w + 100 * Millisecond <= clock w') \/
  (get w' = console ["Result: 42"]%string /\ clock w + Second <= clock w').
Proof.
  cbv zeta. rewrite !cancellation_runs. set (w0 := put _ w). set (w1 := tick w0). set (w2 := put _ w1).
  set (c := WithTimeout Background (100 * Millisecond) (clock w1)).
  assert (clock w <= clock w1) as L1 by (unfold w1; etransitivity; [|apply clock_tick]; unfold w0; by rewrite clock_put).
  assert (clock w2 = clock w1) as L2 by apply clock_put.
  assert (get w2 = get w ++ [nl +:+ "--- Context Cancellation Example ---"; "Starting long-running operation..."]%string) as G2
    by (unfold w2, w1, w0; autorewrite with world; by rewrite <- app_assoc).
  pose proof (select_timer_not_stuck Second c w2) as St. pose proof (await_timer Second (fst <$> done_at c) w2) as Tm.
  assert (get (select_timer Second c w2).2 = get w2) as G by apply get_await.
  destruct (select_timer Second c w2) as [[e|] w3] eqn:E; cbn [fst snd] in *; unfold bind, Println; cbn [fst snd]; autorewrite with world;
    rewrite G, G2, <- !app_assoc.
  - left. pose proof (select_timer_done _ _ _ _ _ E) as D. unfold c, ctx_Err, WithTimeout in D. cbn in D. zcases_in D; [|done].
    injection D as <-. split; [done|lia].
  - right. split; [done|]. unfold select_timer in E. injection E as E1 E2. subst w3.
    change (fst <$> done_at c) with (Some (clock w1 + 100 * Millisecond)) in *.
    destruct (await Second _ w2).1; [specialize (Tm eq_refl); lia|]. by destruct (St eq_refl).
Qed.
End Runs.
